(** * deep-c: a shallow embedding of the MLP / Adam / DDPG numerical core

    The development follows the C sources file by file:
    [matrix.c], [random.c], [activation.c], [loss.c], [mlp.c], [adam.c]
    and [ddpg.c].

    Modelling conventions.
    - C [int] values are [Z]; every index computed by the modelled code is
      checked against the size of the block it addresses.  The arithmetic
      of [int] is that of [Z]: the model describes the code on the inputs
      for which no [int] expression of the code leaves [INT_MIN .. INT_MAX],
      and the theorems on [ddpg_create] and [deepc_random_int] state that
      range as a hypothesis ([int_agent], [INT_MIN], [INT_MAX]).  A block
      that has [rows * columns] cells exists, so its number of cells is in
      range.
    - A heap block of doubles is a [list D]; a [Matrix] carries its block by
      value.  Reading or writing outside a block is undefined behaviour in C
      and is [None] here, so every operation lives in the [option] monad.
    - The type [D] of a C [double] is abstract: the arithmetic of the code
      is kept as an interface ([Scalar]), whose instance [binary64] is
      IEEE binary64 with the two libm functions as parameters.  A statement
      that depends on the arithmetic is made on [binary64]; the others hold
      for every instance.
    - [rand()] is an oracle: a sequence of integers and a cursor. *)

From Stdlib Require Import ZArith Lia Floats.
From stdpp Require Import base tactics option list list_numbers strings.

Open Scope Z_scope.

(** ** The arithmetic of [double] *)

Class Scalar (D : Type) : Type := {
  d_of_int : Z → D;            (* (double) n, and integer-valued literals *)
  dadd : D → D → D;
  dsub : D → D → D;
  dmul : D → D → D;
  ddiv : D → D → D;
  dneg : D → D;
  dsqrt : D → D;               (* libm sqrt *)
  dexp : D → D;                (* libm exp *)
  dpow : D → D → D;            (* libm pow *)
  dltb : D → D → bool;         (* x < y *)
  dleb : D → D → bool          (* x <= y *)
}.

Declare Scope double_scope.
Delimit Scope double_scope with dbl.
Infix "+" := dadd : double_scope.
Infix "-" := dsub : double_scope.
Infix "*" := dmul : double_scope.
Infix "/" := ddiv : double_scope.
Notation "- x" := (dneg x) : double_scope.
Infix "<?" := dltb : double_scope.
Infix "<=?" := dleb : double_scope.
Notation "x >? y" := (dltb y x) (only parsing) : double_scope.
Notation "x >=? y" := (dleb y x) (only parsing) : double_scope.

(** A decimal literal [m / 10^e] such as [0.001]: the quotient of two exactly
    representable integers is the correctly rounded value of the literal. *)
Definition ddec {D} `{Scalar D} (m e : Z) : D :=
  (d_of_int m / d_of_int (10 ^ e))%dbl.

(** IEEE-754 binary64.  [exp] and [pow] belong to libm, not to the
    repository, and are parameters of the instance. *)
Definition float_of_int (n : Z) : float :=
  SF2Prim (binary_normalize 53 1024 n 0 false).

Definition binary64 (libm_exp : float → float) (libm_pow : float → float → float)
  : Scalar float :=
  {| d_of_int := float_of_int;
     dadd := PrimFloat.add; dsub := PrimFloat.sub;
     dmul := PrimFloat.mul; ddiv := PrimFloat.div;
     dneg := PrimFloat.opp; dsqrt := PrimFloat.sqrt;
     dexp := libm_exp; dpow := libm_pow;
     dltb := PrimFloat.ltb; dleb := PrimFloat.leb |}.

(** ** Heap blocks and counted loops *)

(** [p[i]] as an rvalue. *)
Definition zget {A} (l : list A) (i : Z) : option A :=
  if decide (0 ≤ i) then l !! Z.to_nat i else None.

(** [p[i] = x]. *)
Definition zset {A} (l : list A) (i : Z) (x : A) : option (list A) :=
  if decide (0 ≤ i < Z.of_nat (length l)) then Some (<[Z.to_nat i := x]> l) else None.

(** [n] iterations of [body], the counter starting at [i] and going up. *)
Fixpoint iterate {St} (n : nat) (i : Z) (body : Z → St → option St) (s : St)
  : option St :=
  match n with
  | O => Some s
  | S n' => s' ← body i s; iterate n' (i + 1) body s'
  end.

(** [for (i = lo; i < hi; i++) body] *)
Definition for_loop {St} (lo hi : Z) (body : Z → St → option St) (s : St)
  : option St :=
  iterate (Z.to_nat (hi - lo)) lo body s.

Fixpoint iterate_down {St} (n : nat) (i : Z) (body : Z → St → option St) (s : St)
  : option St :=
  match n with
  | O => Some s
  | S n' => s' ← body i s; iterate_down n' (i - 1) body s'
  end.

(** [for (i = hi; i >= lo; i--) body] *)
Definition for_down {St} (hi lo : Z) (body : Z → St → option St) (s : St)
  : option St :=
  iterate_down (Z.to_nat (hi - lo + 1)) hi body s.

(** ** random.c *)

(** The state of the C library generator: the values [rand()] will return
    and how many have been consumed.  [RAND_MAX] is the implementation's
    constant. *)
Record Rand : Type := mkRand {
  RAND_MAX : Z;
  rand_seq : nat → Z;
  rand_pos : nat
}.

Definition rand (g : Rand) : Z * Rand :=
  (rand_seq g (rand_pos g), mkRand (RAND_MAX g) (rand_seq g) (S (rand_pos g))).

(** [rand() % (max - min + 1) + min]; a zero modulus is undefined. *)
Definition deepc_random_int (g : Rand) (min max : Z) : option (Z * Rand) :=
  let '(r, g') := rand g in
  if decide (max - min + 1 = 0) then None
  else Some (Z.rem r (max - min + 1) + min, g').

Definition deepc_random_double {D} `{!Scalar D} (g : Rand) (min max : D) : D * Rand :=
  let '(r, g') := rand g in
  ((d_of_int r / d_of_int (RAND_MAX g)) * (max - min) + min, g')%dbl.

(** ** matrix.c *)

Record Matrix (D : Type) : Type := mkMatrix {
  rows : Z;
  columns : Z;
  data : list D
}.
Arguments mkMatrix {D} _ _ _.
Arguments rows {D} _.
Arguments columns {D} _.
Arguments data {D} _.

Definition with_data {D} (m : Matrix D) (d : list D) : Matrix D :=
  mkMatrix (rows m) (columns m) d.

(** The macro [MATRIX(matrix, row, col)], read and written. *)
Definition MATRIX {D} (m : Matrix D) (row col : Z) : option D :=
  zget (data m) (row * columns m + col).

Definition MATRIX_set {D} (m : Matrix D) (row col : Z) (x : D) : option (Matrix D) :=
  with_data m <$> zset (data m) (row * columns m + col) x.

Section matrix.
Context {D : Type} `{!Scalar D}.
Implicit Types m dst src result : Matrix D.

(** [malloc] leaves the block indeterminate: its contents are whatever
    [heap] holds at each offset. *)
Definition matrix_create (heap : Z → D) (r c : Z) : Matrix D :=
  mkMatrix r c (heap <$> seqZ 0 (r * c)).

Definition matrix_clone (heap : Z → D) m : option (Matrix D) :=
  let clone := matrix_create heap (rows m) (columns m) in
  with_data clone <$>
    for_loop 0 (rows m * columns m)
      (λ i d, x ← zget (data m) i; zset d i x) (data clone).

Definition matrix_clear m : option (Matrix D) :=
  with_data m <$>
    for_loop 0 (rows m * columns m) (λ i d, zset d i (d_of_int 0)) (data m).

Definition matrix_copy dst src : option (Matrix D) :=
  with_data dst <$>
    for_loop 0 (rows dst * columns dst)
      (λ i d, x ← zget (data src) i; zset d i x) (data dst).

Definition matrix_fill m (value : D) : option (Matrix D) :=
  with_data m <$>
    for_loop 0 (rows m * columns m) (λ i d, zset d i value) (data m).

(** The state is the block being filled and the generator. *)
Definition matrix_randomize m (g : Rand) (min max : D) : option (Matrix D * Rand) :=
  '(d, g') ← for_loop 0 (rows m * columns m)
      (λ i '(d, g), let '(x, g') := deepc_random_double g min max in
                    d' ← zset d i x; Some (d', g'))
      (data m, g);
  Some (with_data m d, g').

Definition matrix_sum (matrix1 matrix2 result : Matrix D) : option (Matrix D) :=
  with_data result <$>
    for_loop 0 (rows result * columns result)
      (λ i d, x ← zget (data matrix1) i; y ← zget (data matrix2) i;
              zset d i (x + y)%dbl) (data result).

Definition matrix_add dst src : option (Matrix D) :=
  with_data dst <$>
    for_loop 0 (rows dst * columns dst)
      (λ i d, x ← zget d i; y ← zget (data src) i; zset d i (x + y)%dbl)
      (data dst).

Definition matrix_difference (matrix1 matrix2 result : Matrix D) : option (Matrix D) :=
  with_data result <$>
    for_loop 0 (rows result * columns result)
      (λ i d, x ← zget (data matrix1) i; y ← zget (data matrix2) i;
              zset d i (x - y)%dbl) (data result).

Definition matrix_subtract dst src : option (Matrix D) :=
  with_data dst <$>
    for_loop 0 (rows dst * columns dst)
      (λ i d, x ← zget d i; y ← zget (data src) i; zset d i (x - y)%dbl)
      (data dst).

Definition matrix_multiply m (value : D) : option (Matrix D) :=
  with_data m <$>
    for_loop 0 (rows m * columns m)
      (λ i d, x ← zget d i; zset d i (x * value)%dbl) (data m).

Definition matrix_divide m (value : D) : option (Matrix D) :=
  with_data m <$>
    for_loop 0 (rows m * columns m)
      (λ i d, x ← zget d i; zset d i (x / value)%dbl) (data m).

Definition matrix_odot dst src : option (Matrix D) :=
  with_data dst <$>
    for_loop 0 (rows dst * columns dst)
      (λ i d, x ← zget d i; y ← zget (data src) i; zset d i (x * y)%dbl)
      (data dst).

(** The innermost loop shared by [matrix_dot] and [matrix_dot_transpose]:
    [p1] walks a row of [matrix1], [p2] a column of [matrix2]; the state is
    [(p1, p2, sum)]. *)
Definition dot_sum (matrix1 matrix2 : Matrix D) (p1 p2 : Z) : option D :=
  '(_, _, sum) ← for_loop 0 (columns matrix1)
      (λ k '(p1, p2, sum),
         x ← zget (data matrix1) p1; y ← zget (data matrix2) p2;
         Some (p1 + 1, p2 + columns matrix2, (sum + x * y)%dbl))
      (p1, p2, d_of_int 0);
  Some sum.

(** The state of the two outer loops is [(p, result.data)]. *)
Definition matrix_dot (matrix1 matrix2 result : Matrix D) : option (Matrix D) :=
  '(_, d) ← for_loop 0 (rows result)
      (λ row, for_loop 0 (columns result)
         (λ col '(p, d),
            sum ← dot_sum matrix1 matrix2 (columns matrix1 * row) col;
            d' ← zset d p sum;
            Some (p + 1, d')))
      (0, data result);
  Some (with_data result d).

Definition matrix_transpose m result : option (Matrix D) :=
  with_data result <$>
    for_loop 0 (rows m)
      (λ row, for_loop 0 (columns m)
         (λ col d, x ← zget (data m) (row * columns m + col);
                   zset d (col * columns result + row) x))
      (data result).

Definition matrix_dot_transpose (matrix1 matrix2 result : Matrix D)
  : option (Matrix D) :=
  with_data result <$>
    for_loop 0 (columns result)
      (λ col, for_loop 0 (rows result)
         (λ row d,
            sum ← dot_sum matrix1 matrix2 (columns matrix1 * col) row;
            zset d (row * columns result + col) sum))
      (data result).

Definition matrix_sum_rows_transpose m result : option (Matrix D) :=
  d1 ← for_loop 0 (columns m)
      (λ col d,
         let idx := col * columns result in
         d ← zset d idx (d_of_int 0);
         for_loop 0 (rows m)
           (λ row d, acc ← zget d idx;
                     x ← zget (data m) (row * columns m + col);
                     zset d idx (acc + x)%dbl) d)
      (data result);
  d2 ← for_loop 1 (columns result)
      (λ col, for_loop 0 (rows result)
         (λ row d, x ← zget d (row * columns result);
                   zset d (row * columns result + col) x))
      d1;
  Some (with_data result d2).

Definition matrix_apply m (activationFunction : D → D) : option (Matrix D) :=
  with_data m <$>
    for_loop 0 (rows m * columns m)
      (λ i d, x ← zget d i; zset d i (activationFunction x)) (data m).

End matrix.

(** ** Shapes

    The C code checks no shape; its callers allocate every matrix with
    [matrix_create], whose block has exactly [rows * columns] cells. *)

Definition has_shape {D} (m : Matrix D) (r c : Z) : Prop :=
  rows m = r ∧ columns m = c ∧ 0 ≤ r ∧ 0 ≤ c ∧ Z.of_nat (length (data m)) = r * c.

(** ** activation.c *)

Section activation.
Context {D : Type} `{!Scalar D}.

Definition activation_linear (x : D) : D := x.

Definition activation_linearDeriv (y : D) : D := d_of_int 1.

Definition activation_sigmoid (x : D) : D :=
  if (x >=? d_of_int 0)%dbl
  then (d_of_int 1 / (d_of_int 1 + dexp (- x)))%dbl
  else (d_of_int 1 - (d_of_int 1 / d_of_int 1 + dexp x))%dbl.

Definition activation_sigmoidDeriv (y : D) : D :=
  (y * (d_of_int 1 - y))%dbl.

Definition activation_tanh (x : D) : D :=
  ((dexp x - dexp (- x)) / (dexp x + dexp (- x)))%dbl.

Definition activation_tanhDeriv (y : D) : D :=
  (d_of_int 1 - y * y)%dbl.

Definition activation_relu (x : D) : D :=
  if (x >=? d_of_int 0)%dbl then x else d_of_int 0.

Definition activation_reluDeriv (y : D) : D :=
  if (y >? d_of_int 0)%dbl then d_of_int 1 else d_of_int 0.

Definition ACTIVATION_LINEAR : Z := 0.
Definition ACTIVATION_SIGMOID : Z := 1.
Definition ACTIVATION_TANH : Z := 2.
Definition ACTIVATION_RELU : Z := 3.

Definition getActivationFunction (code : Z) : D → D :=
  if decide (code = ACTIVATION_SIGMOID) then activation_sigmoid
  else if decide (code = ACTIVATION_TANH) then activation_tanh
  else if decide (code = ACTIVATION_RELU) then activation_relu
  else activation_linear.

Definition getActivationFunctionDeriv (code : Z) : D → D :=
  if decide (code = ACTIVATION_SIGMOID) then activation_sigmoidDeriv
  else if decide (code = ACTIVATION_TANH) then activation_tanhDeriv
  else if decide (code = ACTIVATION_RELU) then activation_reluDeriv
  else activation_linearDeriv.

End activation.

(** ** loss.c *)

Section loss.
Context {D : Type} `{!Scalar D}.

(** A loss function receives [yhat], [y] and the matrix [error] it fills;
    it returns the loss and the filled [error]. *)
Definition LossFunction : Type :=
  Matrix D → Matrix D → Matrix D → option (D * Matrix D).

Definition errorFunction : LossFunction := λ yhat y error,
  error ← matrix_copy error y;
  let n := rows error * columns error in
  sum ← for_loop 0 n (λ i sum, x ← zget (data error) i; Some (sum + x)%dbl)
          (d_of_int 0);
  Some ((sum / d_of_int n)%dbl, error).

Definition mse : LossFunction := λ yhat y error,
  error ← matrix_difference yhat y error;
  let n := rows error * columns error in
  sum ← for_loop 0 n
          (λ i sum, x ← zget (data error) i; Some (sum + dpow x (d_of_int 2))%dbl)
          (d_of_int 0);
  Some ((sum / d_of_int n)%dbl, error).

Definition LOSS_NONE : Z := 0.
Definition LOSS_MSE : Z := 1.

Definition getLossFunction (code : Z) : LossFunction :=
  if decide (code = LOSS_MSE) then mse else errorFunction.

End loss.

(** ** File streams

    The persistence code uses [fopen], [fread], [fwrite] and [fclose] on
    objects of two sizes, [int] and [double].  A stream is the sequence of
    objects written; a read that meets an object of the other kind, or the
    end of the stream, transfers nothing.  A stream opened for writing
    accepts [f_room] further objects. *)

Inductive item (D : Type) : Type :=
  | Int32 (n : Z)
  | Float64 (x : D).
Arguments Int32 {D} n.
Arguments Float64 {D} x.

Record FILE (D : Type) : Type := mkFILE {
  f_items : list (item D);
  f_room : Z
}.
Arguments mkFILE {D} _ _.
Arguments f_items {D} _.
Arguments f_room {D} _.

Record Disk (D : Type) : Type := mkDisk {
  files : string → option (list (item D));
  writable : string → bool;
  room : Z
}.
Arguments mkDisk {D} _ _ _.
Arguments files {D} _.
Arguments writable {D} _.
Arguments room {D} _.

Section stdio.
Context {D : Type}.

(** [fopen(filename, "rb")]: [None] is the null pointer. *)
Definition fopen_rb (disk : Disk D) (filename : string) : option (FILE D) :=
  (λ its, mkFILE its 0) <$> files disk filename.

(** [fopen(filename, "wb")] truncates the file. *)
Definition fopen_wb (disk : Disk D) (filename : string) : option (FILE D) :=
  if writable disk filename then Some (mkFILE [] (room disk)) else None.

(** [fclose] of a stream opened with [fopen_wb]. *)
Definition fclose_wb (disk : Disk D) (filename : string) (file : FILE D) : Disk D :=
  mkDisk (λ name, if decide (name = filename) then Some (f_items file)
                  else files disk name)
         (writable disk) (f_room file).

(** [fread(&n, sizeof(int), 1, file)]: the count returned, the value read
    and the stream. *)
Definition fread_int (file : FILE D) : Z * Z * FILE D :=
  match f_items file with
  | Int32 n :: rest => (1, n, mkFILE rest (f_room file))
  | _ => (0, 0, file)
  end.

(** [fread(data, sizeof(double), n, file)]: the objects read, in order. *)
Fixpoint fread_doubles_aux (n : nat) (its : list (item D)) : list D * list (item D) :=
  match n, its with
  | S n', Float64 x :: rest =>
      let '(xs, rest') := fread_doubles_aux n' rest in (x :: xs, rest')
  | _, _ => ([], its)
  end.

Definition fread_doubles (file : FILE D) (n : Z) : list D * FILE D :=
  let '(xs, rest) := fread_doubles_aux (Z.to_nat n) (f_items file) in
  (xs, mkFILE rest (f_room file)).

(** [fwrite(&n, sizeof(int), 1, file)]: the count returned and the stream. *)
Definition fwrite_int (file : FILE D) (n : Z) : Z * FILE D :=
  if decide (1 ≤ f_room file)
  then (1, mkFILE (f_items file ++ [Int32 n]) (f_room file - 1))
  else (0, file).

(** [fwrite(data, sizeof(double), n, file)]; reading [n] objects from a
    shorter block is undefined. *)
Definition fwrite_doubles (file : FILE D) (d : list D) (n : Z) : option (Z * FILE D) :=
  if decide (0 ≤ n ≤ Z.of_nat (length d)) then
    let k := Z.min n (Z.max 0 (f_room file)) in
    Some (k, mkFILE (f_items file ++ (Float64 <$> take (Z.to_nat k) d))
                    (f_room file - k))
  else None.

(** The result of [matrix_read]: the matrix read, or the empty matrix whose
    [data] is the null pointer. *)
Inductive ReadMatrix : Type :=
  | NullMatrix
  | ReadOk (m : Matrix D).

Definition matrix_read (file : FILE D) : ReadMatrix * FILE D :=
  let '(c, r, file) := fread_int file in
  if decide (c ≠ 1) then (NullMatrix, file) else
  let '(c, cl, file) := fread_int file in
  if decide (c ≠ 1) then (NullMatrix, file) else
  let n := r * cl in
  if decide (n ≤ 0) then (NullMatrix, file) else
  let '(xs, file) := fread_doubles file n in
  if decide (Z.of_nat (length xs) ≠ n) then (NullMatrix, file)
  else (ReadOk (mkMatrix r cl xs), file).

Definition matrix_write (m : Matrix D) (file : FILE D) : option (Z * FILE D) :=
  let '(c, file) := fwrite_int file (rows m) in
  if decide (c ≠ 1) then Some (-1, file) else
  let '(c, file) := fwrite_int file (columns m) in
  if decide (c ≠ 1) then Some (-1, file) else
  let n := rows m * columns m in
  '(c, file) ← fwrite_doubles file (data m) n;
  if decide (c ≠ n) then Some (-1, file) else Some (0, file).

(** [matrix_load]: the empty matrix if the file cannot be opened. *)
Definition matrix_load (disk : Disk D) (filename : string) : ReadMatrix :=
  match fopen_rb disk filename with
  | None => NullMatrix
  | Some file => (matrix_read file).1
  end.

(** [matrix_save]: the value returned and the disk. *)
Definition matrix_save (m : Matrix D) (filename : string) (disk : Disk D)
  : option (Z * Disk D) :=
  match fopen_wb disk filename with
  | None => Some (-1, disk)
  | Some file =>
      '(result, file) ← matrix_write m file;
      Some (result, fclose_wb disk filename file)
  end.

End stdio.
Arguments ReadMatrix D : clear implicits.

(** ** mlp.c *)

Record Layer (D : Type) : Type := mkLayer {
  weights : Matrix D;
  biases : Matrix D;
  output : Matrix D;
  errors : Matrix D;
  deltas : Matrix D;
  gradWeights : Matrix D;
  gradBiases : Matrix D;
  activation : D → D;
  activationDeriv : D → D
}.
Arguments mkLayer {D} _ _ _ _ _ _ _ _ _.
Arguments weights {D} _.
Arguments biases {D} _.
Arguments output {D} _.
Arguments errors {D} _.
Arguments deltas {D} _.
Arguments gradWeights {D} _.
Arguments gradBiases {D} _.
Arguments activation {D} _.
Arguments activationDeriv {D} _.

Record MLP (D : Type) : Type := mkMLP {
  depth : Z;
  batchSize : Z;
  layers : list (Layer D);
  input : Matrix D;
  inputErrors : Matrix D;
  mlp_output : Matrix D      (* the field [output] of the struct MLP *)
}.
Arguments mkMLP {D} _ _ _ _ _ _.
Arguments depth {D} _.
Arguments batchSize {D} _.
Arguments layers {D} _.
Arguments input {D} _.
Arguments inputErrors {D} _.
Arguments mlp_output {D} _.

Section mlp.
Context {D : Type} `{!Scalar D}.
Implicit Types l : Layer D.
Implicit Types mlp dst src : MLP D.

(** Assignments to one field of a struct. *)
Definition set_weights l m :=
  mkLayer m (biases l) (output l) (errors l) (deltas l) (gradWeights l)
    (gradBiases l) (activation l) (activationDeriv l).
Definition set_biases l m :=
  mkLayer (weights l) m (output l) (errors l) (deltas l) (gradWeights l)
    (gradBiases l) (activation l) (activationDeriv l).
Definition set_output l m :=
  mkLayer (weights l) (biases l) m (errors l) (deltas l) (gradWeights l)
    (gradBiases l) (activation l) (activationDeriv l).
Definition set_errors l m :=
  mkLayer (weights l) (biases l) (output l) m (deltas l) (gradWeights l)
    (gradBiases l) (activation l) (activationDeriv l).
Definition set_deltas l m :=
  mkLayer (weights l) (biases l) (output l) (errors l) m (gradWeights l)
    (gradBiases l) (activation l) (activationDeriv l).
Definition set_gradWeights l m :=
  mkLayer (weights l) (biases l) (output l) (errors l) (deltas l) m
    (gradBiases l) (activation l) (activationDeriv l).
Definition set_gradBiases l m :=
  mkLayer (weights l) (biases l) (output l) (errors l) (deltas l)
    (gradWeights l) m (activation l) (activationDeriv l).

Definition set_layers mlp ls :=
  mkMLP (depth mlp) (batchSize mlp) ls (input mlp) (inputErrors mlp) (mlp_output mlp).
Definition set_input mlp m :=
  mkMLP (depth mlp) (batchSize mlp) (layers mlp) m (inputErrors mlp) (mlp_output mlp).
Definition set_inputErrors mlp m :=
  mkMLP (depth mlp) (batchSize mlp) (layers mlp) (input mlp) m (mlp_output mlp).
Definition set_mlp_output mlp m :=
  mkMLP (depth mlp) (batchSize mlp) (layers mlp) (input mlp) (inputErrors mlp) m.

(** [mlp->layers[i]], read and written. *)
Definition layer mlp (i : Z) : option (Layer D) := zget (layers mlp) i.

Definition set_layer mlp (i : Z) l : option (MLP D) :=
  set_layers mlp <$> zset (layers mlp) i l.

(** A helper function to create a layer. *)
Definition mlp_create_layer (heap : Z → D) (inputSize outputSize batchSize activation : Z)
  : Layer D :=
  mkLayer (matrix_create heap outputSize inputSize)
          (matrix_create heap outputSize batchSize)
          (matrix_create heap outputSize batchSize)
          (matrix_create heap batchSize outputSize)
          (matrix_create heap batchSize outputSize)
          (matrix_create heap outputSize inputSize)
          (matrix_create heap outputSize batchSize)
          (getActivationFunction activation)
          (getActivationFunctionDeriv activation).

(** Clears all existing values and sets random weights using the Glorot
    method. *)
Definition mlp_initialize mlp (g : Rand) : option (MLP D * Rand) :=
  '(mlp, g) ← for_loop 0 (depth mlp + 1)
      (λ i '(mlp, g),
         l ← layer mlp i;
         let limit :=
           dsqrt (d_of_int 6 / d_of_int (rows (weights l) + columns (weights l)))%dbl in
         '(d, g) ← for_loop 0 (rows (weights l) * columns (weights l))
             (λ k '(d, g),
                let '(x, g') := deepc_random_double g (- limit)%dbl limit in
                d' ← zset d k x; Some (d', g'))
             (data (weights l), g);
         let l := set_weights l (with_data (weights l) d) in
         m ← matrix_clear (biases l); let l := set_biases l m in
         m ← matrix_clear (output l); let l := set_output l m in
         m ← matrix_clear (errors l); let l := set_errors l m in
         m ← matrix_clear (deltas l); let l := set_deltas l m in
         m ← matrix_clear (gradWeights l); let l := set_gradWeights l m in
         m ← matrix_clear (gradBiases l); let l := set_gradBiases l m in
         mlp ← set_layer mlp i l;
         Some (mlp, g))
      (mlp, g);
  m ← matrix_clear (input mlp); let mlp := set_input mlp m in
  m ← matrix_clear (inputErrors mlp); let mlp := set_inputErrors mlp m in
  m ← matrix_clear (mlp_output mlp); let mlp := set_mlp_output mlp m in
  Some (mlp, g).

(** Creates a new neural network.  The block [layers] has [depth + 1]
    entries, so a negative [depth] makes the store to [layers[depth]]
    undefined.  The state of the loop is [(layerInputSize, layers)]. *)
Definition mlp_create (heap : Z → D) (g : Rand)
    (inputSize outputSize depth : Z) (hiddenLayerSizes : list Z)
    (hiddenLayerActivation outputLayerActivation batchSize : Z)
  : option (MLP D * Rand) :=
  if decide (depth < 0) then None else
  '(layerInputSize, ls) ← for_loop 0 depth
      (λ i '(layerInputSize, ls),
         h ← zget hiddenLayerSizes i;
         Some (h, ls ++ [mlp_create_layer heap layerInputSize h batchSize
                           hiddenLayerActivation]))
      (inputSize, []);
  let ls := ls ++ [mlp_create_layer heap layerInputSize outputSize batchSize
                     outputLayerActivation] in
  mlp_initialize
    (mkMLP depth batchSize ls
       (matrix_create heap inputSize batchSize)
       (matrix_create heap batchSize inputSize)
       (matrix_create heap batchSize outputSize)) g.

(** Creates a new neural network that is a clone of the given one. *)
Definition mlp_clone (heap : Z → D) mlp : option (MLP D) :=
  ls ← for_loop 0 (depth mlp + 1)
      (λ i ls,
         l ← layer mlp i;
         w ← matrix_clone heap (weights l);
         b ← matrix_clone heap (biases l);
         o ← matrix_clone heap (output l);
         e ← matrix_clone heap (errors l);
         dl ← matrix_clone heap (deltas l);
         gw ← matrix_clone heap (gradWeights l);
         gb ← matrix_clone heap (gradBiases l);
         Some (ls ++ [mkLayer w b o e dl gw gb (activation l) (activationDeriv l)]))
      [];
  i ← matrix_clone heap (input mlp);
  ie ← matrix_clone heap (inputErrors mlp);
  o ← matrix_clone heap (mlp_output mlp);
  Some (mkMLP (depth mlp) (batchSize mlp) ls i ie o).

(** Copies all content from [src] to [dst]; the caller must ensure
    identical architectures. *)
Definition mlp_copy dst src : option (MLP D) :=
  dst ← for_loop 0 (depth src + 1)
      (λ i dst,
         ld ← layer dst i;
         ls ← layer src i;
         m ← matrix_copy (weights ld) (weights ls); let ld := set_weights ld m in
         m ← matrix_copy (biases ld) (biases ls); let ld := set_biases ld m in
         m ← matrix_copy (output ld) (output ls); let ld := set_output ld m in
         m ← matrix_copy (errors ld) (errors ls); let ld := set_errors ld m in
         m ← matrix_copy (deltas ld) (deltas ls); let ld := set_deltas ld m in
         m ← matrix_copy (gradWeights ld) (gradWeights ls);
         let ld := set_gradWeights ld m in
         m ← matrix_copy (gradBiases ld) (gradBiases ls);
         let ld := set_gradBiases ld m in
         set_layer dst i ld)
      dst;
  m ← matrix_copy (input dst) (input src); let dst := set_input dst m in
  m ← matrix_copy (inputErrors dst) (inputErrors src);
  let dst := set_inputErrors dst m in
  m ← matrix_copy (mlp_output dst) (mlp_output src);
  Some (set_mlp_output dst m).

(** The local [Matrix *input] of [mlp_feedforward] and
    [mlp_backpropagate]: it points to [mlp->input] or to the output of a
    layer. *)
Inductive InputPtr : Type :=
  | AtInput
  | AtLayerOutput (i : Z).

Definition deref mlp (p : InputPtr) : option (Matrix D) :=
  match p with
  | AtInput => Some (input mlp)
  | AtLayerOutput i => output <$> layer mlp i
  end.

(** Performs a feedforward operation with the input values [x]; returns
    [mlp->output] and the updated network.  The loop state is
    [(mlp, input)]. *)
Definition mlp_feedforward mlp (x : Matrix D) : option (Matrix D * MLP D) :=
  m ← matrix_transpose x (input mlp); let mlp := set_input mlp m in
  '(mlp, inp) ← for_loop 0 (depth mlp + 1)
      (λ i '(mlp, inp),
         l ← layer mlp i;
         pin ← deref mlp inp;
         m ← matrix_dot (weights l) pin (output l);
         m ← matrix_add m (biases l);
         m ← matrix_apply m (activation l);
         mlp ← set_layer mlp i (set_output l m);
         Some (mlp, AtLayerOutput i))
      (mlp, AtInput);
  pin ← deref mlp inp;
  m ← matrix_transpose pin (mlp_output mlp);
  let mlp := set_mlp_output mlp m in
  Some (mlp_output mlp, mlp).

(** Backpropagates the error according to the true values [y] and the loss
    function; returns the loss and the updated network. *)
Definition mlp_backpropagate mlp (y : Matrix D) (lossFunctionCode : Z)
  : option (D * MLP D) :=
  (* Use the loss function to compute the error values. *)
  let lossFunction := getLossFunction lossFunctionCode in
  l ← layer mlp (depth mlp);
  '(loss, m) ← lossFunction (mlp_output mlp) y (errors l);
  let l := set_errors l m in
  (* Compute the deltas of the last layer. *)
  m ← matrix_copy (deltas l) (mlp_output mlp);
  m ← matrix_apply m (activationDeriv l);
  (* Compute the error of the previous layer. *)
  m ← (if decide (depth mlp > 0) then matrix_odot m (errors l) else Some m);
  mlp ← set_layer mlp (depth mlp) (set_deltas l m);
  (* Propagate the deltas towards the first layer. *)
  mlp ← for_down (depth mlp - 1) 0
      (λ i mlp,
         l1 ← layer mlp (i + 1);
         l ← layer mlp i;
         m ← matrix_dot (deltas l1) (weights l1) (errors l);
         let l := set_errors l m in
         m ← matrix_transpose (output l) (deltas l);
         m ← matrix_apply m (activationDeriv l);
         m ← matrix_odot m (errors l);
         set_layer mlp i (set_deltas l m))
      mlp;
  (* Compute the input errors. *)
  l0 ← layer mlp 0;
  m ← matrix_dot (deltas l0) (weights l0) (inputErrors mlp);
  let mlp := set_inputErrors mlp m in
  (* Compute the gradients. *)
  '(mlp, _) ← for_loop 0 (depth mlp + 1)
      (λ i '(mlp, inp),
         l ← layer mlp i;
         pin ← deref mlp inp;
         m ← matrix_dot_transpose pin (deltas l) (gradWeights l);
         m ← matrix_divide m (d_of_int (batchSize mlp));
         let l := set_gradWeights l m in
         m ← matrix_sum_rows_transpose (deltas l) (gradBiases l);
         m ← matrix_divide m (d_of_int (batchSize mlp));
         let l := set_gradBiases l m in
         mlp ← set_layer mlp i l;
         Some (mlp, AtLayerOutput i))
      (mlp, AtInput);
  Some (loss, mlp).

(** Returns the error at the input layer. *)
Definition mlp_get_input_errors mlp : Matrix D := inputErrors mlp.

(** The loop of [mlp_read_weights]; the state is the value to return (once
    it is [-1] the function has returned), the network and the stream. *)
Definition mlp_read_weights mlp (file : FILE D) : option (Z * MLP D * FILE D) :=
  for_loop 0 (depth mlp + 1)
    (λ i '(ret, mlp, file),
       if decide (ret ≠ 0) then Some (ret, mlp, file) else
       l ← layer mlp i;
       let '(r, c) := (rows (weights l), columns (weights l)) in
       let '(rd, file) := matrix_read file in
       match rd with
       | NullMatrix => Some (-1, mlp, file)
       | ReadOk matrix =>
         if decide (rows matrix ≠ r ∨ columns matrix ≠ c)
         then Some (-1, mlp, file) else
         m ← matrix_copy (weights l) matrix;
         let l := set_weights l m in
         mlp ← set_layer mlp i l;
         let '(r, c) := (rows (biases l), columns (biases l)) in
         let '(rd, file) := matrix_read file in
         match rd with
         | NullMatrix => Some (-1, mlp, file)
         | ReadOk matrix =>
           if decide (rows matrix ≠ r ∨ columns matrix ≠ c)
           then Some (-1, mlp, file) else
           m ← matrix_copy (biases l) matrix;
           mlp ← set_layer mlp i (set_biases l m);
           Some (0, mlp, file)
         end
       end)
    (0, mlp, file).

Definition mlp_write_weights mlp (file : FILE D) : option (Z * FILE D) :=
  for_loop 0 (depth mlp + 1)
    (λ i '(ret, file),
       if decide (ret ≠ 0) then Some (ret, file) else
       l ← layer mlp i;
       '(r, file) ← matrix_write (weights l) file;
       if decide (r ≠ 0) then Some (-1, file) else
       '(r, file) ← matrix_write (biases l) file;
       if decide (r ≠ 0) then Some (-1, file) else
       Some (0, file))
    (0, file).

(** Performs stochastic gradient descent; it can be called after the
    gradients have been computed through back-propagation. *)
Definition mlp_sgd mlp (lr : D) : option (MLP D) :=
  for_loop 0 (depth mlp + 1)
    (λ i mlp,
       l ← layer mlp i;
       m ← matrix_multiply (gradWeights l) lr; let l := set_gradWeights l m in
       m ← matrix_subtract (weights l) (gradWeights l);
       let l := set_weights l m in
       m ← matrix_multiply (gradBiases l) lr; let l := set_gradBiases l m in
       m ← matrix_subtract (biases l) (gradBiases l);
       let l := set_biases l m in
       set_layer mlp i l)
    mlp.

Definition mlp_clip_gradients (gradients : Matrix D) (clipnorm : D)
  : option (Matrix D) :=
  norm ← for_loop 0 (rows gradients * columns gradients)
      (λ i norm, x ← zget (data gradients) i;
                 Some (norm + dpow x (d_of_int 2))%dbl)
      (d_of_int 0);
  let norm := dsqrt norm in
  if (norm >? clipnorm)%dbl
  then matrix_multiply gradients (clipnorm / norm)%dbl
  else Some gradients.

Definition mlp_sgd_clip mlp (lr clipnorm : D) : option (MLP D) :=
  for_loop 0 (depth mlp + 1)
    (λ i mlp,
       l ← layer mlp i;
       m ← mlp_clip_gradients (gradWeights l) clipnorm;
       let l := set_gradWeights l m in
       m ← matrix_multiply (gradWeights l) lr; let l := set_gradWeights l m in
       m ← matrix_subtract (weights l) (gradWeights l);
       let l := set_weights l m in
       m ← matrix_multiply (gradBiases l) lr; let l := set_gradBiases l m in
       m ← matrix_subtract (biases l) (gradBiases l);
       let l := set_biases l m in
       set_layer mlp i l)
    mlp.

(** [mlp_load_weights] and [mlp_save_weights]: the value returned, and the
    network or the disk. *)
Definition mlp_load_weights mlp (filename : string) (disk : Disk D)
  : option (Z * MLP D) :=
  match fopen_rb disk filename with
  | None => Some (-1, mlp)
  | Some file =>
      '(result, mlp, _) ← mlp_read_weights mlp file; Some (result, mlp)
  end.

Definition mlp_save_weights mlp (filename : string) (disk : Disk D)
  : option (Z * Disk D) :=
  match fopen_wb disk filename with
  | None => Some (-1, disk)
  | Some file =>
      '(result, file) ← mlp_write_weights mlp file;
      Some (result, fclose_wb disk filename file)
  end.

End mlp.

(** ** adam.c *)

Record Adam (D : Type) : Type := mkAdam {
  t : D;
  alpha : D;
  beta1 : D;
  beta2 : D;
  beta1t : D;
  beta2t : D;
  epsilon : D;
  adam_depth : Z;            (* the field [depth] of the struct Adam *)
  mw : list (Matrix D);
  mb : list (Matrix D);
  vw : list (Matrix D);
  vb : list (Matrix D)
}.
Arguments mkAdam {D} _ _ _ _ _ _ _ _ _ _ _ _.
Arguments t {D} _.
Arguments alpha {D} _.
Arguments beta1 {D} _.
Arguments beta2 {D} _.
Arguments beta1t {D} _.
Arguments beta2t {D} _.
Arguments epsilon {D} _.
Arguments adam_depth {D} _.
Arguments mw {D} _.
Arguments mb {D} _.
Arguments vw {D} _.
Arguments vb {D} _.

Section adam.
Context {D : Type} `{!Scalar D}.
Implicit Types adam : Adam D.
Implicit Types mlp : MLP D.

Definition adam_reset adam : option (Adam D) :=
  '(mw', mb', vw', vb') ← for_loop 0 (adam_depth adam)
      (λ i '(mw, mb, vw, vb),
         m ← zget mw i; m ← matrix_clear m; mw ← zset mw i m;
         m ← zget mb i; m ← matrix_clear m; mb ← zset mb i m;
         m ← zget vw i; m ← matrix_clear m; vw ← zset vw i m;
         m ← zget vb i; m ← matrix_clear m; vb ← zset vb i m;
         Some (mw, mb, vw, vb))
      (mw adam, mb adam, vw adam, vb adam);
  Some (mkAdam (d_of_int 0) (alpha adam) (beta1 adam) (beta2 adam)
          (beta1 adam) (beta2 adam) (epsilon adam) (adam_depth adam)
          mw' mb' vw' vb').

(** The four blocks of [adam->depth] matrices are filled in order. *)
Definition adam_create (heap : Z → D) mlp : option (Adam D) :=
  let dp := depth mlp + 1 in
  '(mw, mb, vw, vb) ← for_loop 0 dp
      (λ i '(mw, mb, vw, vb),
         l ← layer mlp i;
         m1 ← matrix_clone heap (weights l);
         m2 ← matrix_clone heap (biases l);
         m3 ← matrix_clone heap (weights l);
         m4 ← matrix_clone heap (biases l);
         Some (mw ++ [m1], mb ++ [m2], vw ++ [m3], vb ++ [m4]))
      ([], [], [], []);
  adam_reset
    (mkAdam (heap 0) (ddec 1 3) (ddec 9 1) (ddec 999 3) (heap 0) (heap 0)
       (ddec 1 7) dp mw mb vw vb).

Definition adam_set adam (alpha beta1 beta2 epsilon : D) : Adam D :=
  mkAdam (t adam) alpha beta1 beta2 beta1 beta2 epsilon (adam_depth adam)
    (mw adam) (mb adam) (vw adam) (vb adam).

(** One cell of a weights matrix: the state is the three blocks
    [(mw->data, vw->data, w->data)]; [gw] is only read. *)
Definition adam_weight_step adam (gw : Matrix D) (idx : Z)
    (s : list D * list D * list D) : option (list D * list D * list D) :=
  let '(mwd, vwd, wd) := s in
  g ← zget (data gw) idx;
  m ← zget mwd idx;
  mwd ← zset mwd idx (beta1 adam * m + (d_of_int 1 - beta1 adam) * g)%dbl;
  v ← zget vwd idx;
  vwd ← zset vwd idx (beta2 adam * v + (d_of_int 1 - beta2 adam) * g * g)%dbl;
  m ← zget mwd idx;
  let mw1 := (m / (d_of_int 1 - beta1t adam))%dbl in
  v ← zget vwd idx;
  let vw1 := (v / (d_of_int 1 - beta2t adam))%dbl in
  w ← zget wd idx;
  wd ← zset wd idx (w - alpha adam * (mw1 / (dsqrt vw1 + epsilon adam)))%dbl;
  Some (mwd, vwd, wd).

(** One cell of a biases matrix; the state is [(mb->data, vb->data, b->data)]. *)
Definition adam_bias_step adam (gb : Matrix D) (idx : Z)
    (s : list D * list D * list D) : option (list D * list D * list D) :=
  let '(mbd, vbd, bd) := s in
  g ← zget (data gb) idx;
  m ← zget mbd idx;
  mbd ← zset mbd idx (beta1 adam * m + (d_of_int 1 - beta1 adam) * g)%dbl;
  v ← zget vbd idx;
  vbd ← zset vbd idx (beta2 adam * v + (d_of_int 1 - beta2 adam) * g * g)%dbl;
  m ← zget mbd idx;
  let mb1 := (m / (d_of_int 1 - beta1t adam))%dbl in
  v ← zget vbd idx;
  let vb1 := (v / (d_of_int 1 - beta2t adam))%dbl in
  b ← zget bd idx;
  bd ← zset bd idx (b - alpha adam * (mb1 / dsqrt vb1 + epsilon adam))%dbl;
  Some (mbd, vbd, bd).

Definition adam_optimize mlp adam : option (MLP D * Adam D) :=
  let adam := mkAdam (t adam + d_of_int 1)%dbl (alpha adam) (beta1 adam)
                (beta2 adam) (beta1t adam) (beta2t adam) (epsilon adam)
                (adam_depth adam) (mw adam) (mb adam) (vw adam) (vb adam) in
  '(mlp, mws, mbs, vws, vbs) ← for_loop 0 (adam_depth adam)
      (λ i '(mlp, mws, mbs, vws, vbs),
         l ← layer mlp i;
         let w := weights l in
         let b := biases l in
         let gw := gradWeights l in
         let gb := gradBiases l in
         mwi ← zget mws i;
         mbi ← zget mbs i;
         vwi ← zget vws i;
         vbi ← zget vbs i;
         '(mwd, vwd, wd) ← for_loop 0 (rows w)
             (λ row, for_loop 0 (columns w)
                (λ col, adam_weight_step adam gw (row * columns w + col)))
             (data mwi, data vwi, data w);
         '(mbd, vbd, bd) ← for_loop 0 (rows b)
             (λ row, for_loop 0 (columns b)
                (λ col, adam_bias_step adam gb (row * columns b + col)))
             (data mbi, data vbi, data b);
         mlp ← set_layer mlp i
                 (set_biases (set_weights l (with_data w wd)) (with_data b bd));
         mws ← zset mws i (with_data mwi mwd);
         mbs ← zset mbs i (with_data mbi mbd);
         vws ← zset vws i (with_data vwi vwd);
         vbs ← zset vbs i (with_data vbi vbd);
         Some (mlp, mws, mbs, vws, vbs))
      (mlp, mw adam, mb adam, vw adam, vb adam);
  Some (mlp,
        mkAdam (t adam) (alpha adam) (beta1 adam) (beta2 adam)
          (beta1t adam * beta1 adam)%dbl (beta2t adam * beta2 adam)%dbl
          (epsilon adam) (adam_depth adam) mws mbs vws vbs).

End adam.

(** The Adam step of one parameter as the specification states it: from the
    parameter, its two moments and its gradient to the new parameter. *)
Section adam_spec.
Context {D : Type} `{!Scalar D}.

Definition spec_adam_m (adam : Adam D) (m g : D) : D :=
  (beta1 adam * m + (d_of_int 1 - beta1 adam) * g)%dbl.

Definition spec_adam_v (adam : Adam D) (v g : D) : D :=
  (beta2 adam * v + (d_of_int 1 - beta2 adam) * g * g)%dbl.

(** [w -= alpha * (mhat / (sqrt(vhat) + epsilon))] *)
Definition spec_adam_weight (adam : Adam D) (w m v g : D) : D :=
  let mhat := (spec_adam_m adam m g / (d_of_int 1 - beta1t adam))%dbl in
  let vhat := (spec_adam_v adam v g / (d_of_int 1 - beta2t adam))%dbl in
  (w - alpha adam * (mhat / (dsqrt vhat + epsilon adam)))%dbl.

(** [b -= alpha * (mhat / sqrt(vhat) + epsilon)] *)
Definition spec_adam_bias (adam : Adam D) (b m v g : D) : D :=
  let mhat := (spec_adam_m adam m g / (d_of_int 1 - beta1t adam))%dbl in
  let vhat := (spec_adam_v adam v g / (d_of_int 1 - beta2t adam))%dbl in
  (b - alpha adam * (mhat / dsqrt vhat + epsilon adam))%dbl.

(** Every cell [(row, col)] of the parameter matrix [p'] is the update [upd]
    of the cell of [p], the moments [m] and [v] and the gradient [g]. *)
Definition cells_updated (upd : D → D → D → D → D) (p g m v p' : Matrix D) : Prop :=
  ∀ row col, 0 ≤ row < rows p → 0 ≤ col < columns p →
    let idx := row * columns p + col in
    ∃ x gx mx vx,
      zget (data p) idx = Some x ∧ zget (data g) idx = Some gx ∧
      zget (data m) idx = Some mx ∧ zget (data v) idx = Some vx ∧
      zget (data p') idx = Some (upd x mx vx gx).

End adam_spec.

(** ** ddpg.c *)

Record DDPG (D : Type) : Type := mkDDPG {
  stateSize : Z;
  actionSize : Z;
  action : list D;
  noise : option (list D);           (* [None] is the null pointer *)
  actor : MLP D;
  critic : MLP D;
  actorTarget : MLP D;
  criticTarget : MLP D;
  actorAdam : Adam D;
  criticAdam : Adam D;
  actorInput : Matrix D;
  criticInput : Matrix D;
  actorErrors : Matrix D;
  criticErrors : Matrix D;
  ddpg_batchSize : Z;                (* the field [batchSize] of the struct DDPG *)
  batchIndices : list Z;
  memorySize : Z;
  memoryUsed : Z;
  memoryIdx : Z;
  memory : Matrix D;
  lastState : list D;
  lastStateValid : Z
}.
Arguments mkDDPG {D} _ _ _ _ _ _ _ _ _ _ _ _ _ _ _ _ _ _ _ _ _ _.
Arguments stateSize {D} _.
Arguments actionSize {D} _.
Arguments action {D} _.
Arguments noise {D} _.
Arguments actor {D} _.
Arguments critic {D} _.
Arguments actorTarget {D} _.
Arguments criticTarget {D} _.
Arguments actorAdam {D} _.
Arguments criticAdam {D} _.
Arguments actorInput {D} _.
Arguments criticInput {D} _.
Arguments actorErrors {D} _.
Arguments criticErrors {D} _.
Arguments ddpg_batchSize {D} _.
Arguments batchIndices {D} _.
Arguments memorySize {D} _.
Arguments memoryUsed {D} _.
Arguments memoryIdx {D} _.
Arguments memory {D} _.
Arguments lastState {D} _.
Arguments lastStateValid {D} _.

Section ddpg.
Context {D : Type} `{!Scalar D}.
Implicit Types ddpg : DDPG D.

(** Assignments to the fields of the struct that the code updates. *)
Definition set_action ddpg x :=
  mkDDPG (stateSize ddpg) (actionSize ddpg) x (noise ddpg) (actor ddpg)
    (critic ddpg) (actorTarget ddpg) (criticTarget ddpg) (actorAdam ddpg)
    (criticAdam ddpg) (actorInput ddpg) (criticInput ddpg) (actorErrors ddpg)
    (criticErrors ddpg) (ddpg_batchSize ddpg) (batchIndices ddpg)
    (memorySize ddpg) (memoryUsed ddpg) (memoryIdx ddpg) (memory ddpg)
    (lastState ddpg) (lastStateValid ddpg).
Definition set_actor ddpg x :=
  mkDDPG (stateSize ddpg) (actionSize ddpg) (action ddpg) (noise ddpg) x
    (critic ddpg) (actorTarget ddpg) (criticTarget ddpg) (actorAdam ddpg)
    (criticAdam ddpg) (actorInput ddpg) (criticInput ddpg) (actorErrors ddpg)
    (criticErrors ddpg) (ddpg_batchSize ddpg) (batchIndices ddpg)
    (memorySize ddpg) (memoryUsed ddpg) (memoryIdx ddpg) (memory ddpg)
    (lastState ddpg) (lastStateValid ddpg).
Definition set_critic ddpg x :=
  mkDDPG (stateSize ddpg) (actionSize ddpg) (action ddpg) (noise ddpg)
    (actor ddpg) x (actorTarget ddpg) (criticTarget ddpg) (actorAdam ddpg)
    (criticAdam ddpg) (actorInput ddpg) (criticInput ddpg) (actorErrors ddpg)
    (criticErrors ddpg) (ddpg_batchSize ddpg) (batchIndices ddpg)
    (memorySize ddpg) (memoryUsed ddpg) (memoryIdx ddpg) (memory ddpg)
    (lastState ddpg) (lastStateValid ddpg).
Definition set_actorTarget ddpg x :=
  mkDDPG (stateSize ddpg) (actionSize ddpg) (action ddpg) (noise ddpg)
    (actor ddpg) (critic ddpg) x (criticTarget ddpg) (actorAdam ddpg)
    (criticAdam ddpg) (actorInput ddpg) (criticInput ddpg) (actorErrors ddpg)
    (criticErrors ddpg) (ddpg_batchSize ddpg) (batchIndices ddpg)
    (memorySize ddpg) (memoryUsed ddpg) (memoryIdx ddpg) (memory ddpg)
    (lastState ddpg) (lastStateValid ddpg).
Definition set_criticTarget ddpg x :=
  mkDDPG (stateSize ddpg) (actionSize ddpg) (action ddpg) (noise ddpg)
    (actor ddpg) (critic ddpg) (actorTarget ddpg) x (actorAdam ddpg)
    (criticAdam ddpg) (actorInput ddpg) (criticInput ddpg) (actorErrors ddpg)
    (criticErrors ddpg) (ddpg_batchSize ddpg) (batchIndices ddpg)
    (memorySize ddpg) (memoryUsed ddpg) (memoryIdx ddpg) (memory ddpg)
    (lastState ddpg) (lastStateValid ddpg).
Definition set_actorAdam ddpg x :=
  mkDDPG (stateSize ddpg) (actionSize ddpg) (action ddpg) (noise ddpg)
    (actor ddpg) (critic ddpg) (actorTarget ddpg) (criticTarget ddpg) x
    (criticAdam ddpg) (actorInput ddpg) (criticInput ddpg) (actorErrors ddpg)
    (criticErrors ddpg) (ddpg_batchSize ddpg) (batchIndices ddpg)
    (memorySize ddpg) (memoryUsed ddpg) (memoryIdx ddpg) (memory ddpg)
    (lastState ddpg) (lastStateValid ddpg).
Definition set_criticAdam ddpg x :=
  mkDDPG (stateSize ddpg) (actionSize ddpg) (action ddpg) (noise ddpg)
    (actor ddpg) (critic ddpg) (actorTarget ddpg) (criticTarget ddpg)
    (actorAdam ddpg) x (actorInput ddpg) (criticInput ddpg) (actorErrors ddpg)
    (criticErrors ddpg) (ddpg_batchSize ddpg) (batchIndices ddpg)
    (memorySize ddpg) (memoryUsed ddpg) (memoryIdx ddpg) (memory ddpg)
    (lastState ddpg) (lastStateValid ddpg).
Definition set_actorInput ddpg x :=
  mkDDPG (stateSize ddpg) (actionSize ddpg) (action ddpg) (noise ddpg)
    (actor ddpg) (critic ddpg) (actorTarget ddpg) (criticTarget ddpg)
    (actorAdam ddpg) (criticAdam ddpg) x (criticInput ddpg) (actorErrors ddpg)
    (criticErrors ddpg) (ddpg_batchSize ddpg) (batchIndices ddpg)
    (memorySize ddpg) (memoryUsed ddpg) (memoryIdx ddpg) (memory ddpg)
    (lastState ddpg) (lastStateValid ddpg).
Definition set_criticInput ddpg x :=
  mkDDPG (stateSize ddpg) (actionSize ddpg) (action ddpg) (noise ddpg)
    (actor ddpg) (critic ddpg) (actorTarget ddpg) (criticTarget ddpg)
    (actorAdam ddpg) (criticAdam ddpg) (actorInput ddpg) x (actorErrors ddpg)
    (criticErrors ddpg) (ddpg_batchSize ddpg) (batchIndices ddpg)
    (memorySize ddpg) (memoryUsed ddpg) (memoryIdx ddpg) (memory ddpg)
    (lastState ddpg) (lastStateValid ddpg).
Definition set_actorErrors ddpg x :=
  mkDDPG (stateSize ddpg) (actionSize ddpg) (action ddpg) (noise ddpg)
    (actor ddpg) (critic ddpg) (actorTarget ddpg) (criticTarget ddpg)
    (actorAdam ddpg) (criticAdam ddpg) (actorInput ddpg) (criticInput ddpg) x
    (criticErrors ddpg) (ddpg_batchSize ddpg) (batchIndices ddpg)
    (memorySize ddpg) (memoryUsed ddpg) (memoryIdx ddpg) (memory ddpg)
    (lastState ddpg) (lastStateValid ddpg).
Definition set_criticErrors ddpg x :=
  mkDDPG (stateSize ddpg) (actionSize ddpg) (action ddpg) (noise ddpg)
    (actor ddpg) (critic ddpg) (actorTarget ddpg) (criticTarget ddpg)
    (actorAdam ddpg) (criticAdam ddpg) (actorInput ddpg) (criticInput ddpg)
    (actorErrors ddpg) x (ddpg_batchSize ddpg) (batchIndices ddpg)
    (memorySize ddpg) (memoryUsed ddpg) (memoryIdx ddpg) (memory ddpg)
    (lastState ddpg) (lastStateValid ddpg).
Definition set_batchIndices ddpg x :=
  mkDDPG (stateSize ddpg) (actionSize ddpg) (action ddpg) (noise ddpg)
    (actor ddpg) (critic ddpg) (actorTarget ddpg) (criticTarget ddpg)
    (actorAdam ddpg) (criticAdam ddpg) (actorInput ddpg) (criticInput ddpg)
    (actorErrors ddpg) (criticErrors ddpg) (ddpg_batchSize ddpg) x
    (memorySize ddpg) (memoryUsed ddpg) (memoryIdx ddpg) (memory ddpg)
    (lastState ddpg) (lastStateValid ddpg).
Definition set_memoryUsed ddpg x :=
  mkDDPG (stateSize ddpg) (actionSize ddpg) (action ddpg) (noise ddpg)
    (actor ddpg) (critic ddpg) (actorTarget ddpg) (criticTarget ddpg)
    (actorAdam ddpg) (criticAdam ddpg) (actorInput ddpg) (criticInput ddpg)
    (actorErrors ddpg) (criticErrors ddpg) (ddpg_batchSize ddpg)
    (batchIndices ddpg) (memorySize ddpg) x (memoryIdx ddpg) (memory ddpg)
    (lastState ddpg) (lastStateValid ddpg).
Definition set_memoryIdx ddpg x :=
  mkDDPG (stateSize ddpg) (actionSize ddpg) (action ddpg) (noise ddpg)
    (actor ddpg) (critic ddpg) (actorTarget ddpg) (criticTarget ddpg)
    (actorAdam ddpg) (criticAdam ddpg) (actorInput ddpg) (criticInput ddpg)
    (actorErrors ddpg) (criticErrors ddpg) (ddpg_batchSize ddpg)
    (batchIndices ddpg) (memorySize ddpg) (memoryUsed ddpg) x (memory ddpg)
    (lastState ddpg) (lastStateValid ddpg).
Definition set_memory ddpg x :=
  mkDDPG (stateSize ddpg) (actionSize ddpg) (action ddpg) (noise ddpg)
    (actor ddpg) (critic ddpg) (actorTarget ddpg) (criticTarget ddpg)
    (actorAdam ddpg) (criticAdam ddpg) (actorInput ddpg) (criticInput ddpg)
    (actorErrors ddpg) (criticErrors ddpg) (ddpg_batchSize ddpg)
    (batchIndices ddpg) (memorySize ddpg) (memoryUsed ddpg) (memoryIdx ddpg) x
    (lastState ddpg) (lastStateValid ddpg).
Definition set_lastState ddpg x :=
  mkDDPG (stateSize ddpg) (actionSize ddpg) (action ddpg) (noise ddpg)
    (actor ddpg) (critic ddpg) (actorTarget ddpg) (criticTarget ddpg)
    (actorAdam ddpg) (criticAdam ddpg) (actorInput ddpg) (criticInput ddpg)
    (actorErrors ddpg) (criticErrors ddpg) (ddpg_batchSize ddpg)
    (batchIndices ddpg) (memorySize ddpg) (memoryUsed ddpg) (memoryIdx ddpg)
    (memory ddpg) x (lastStateValid ddpg).
Definition set_lastStateValid ddpg x :=
  mkDDPG (stateSize ddpg) (actionSize ddpg) (action ddpg) (noise ddpg)
    (actor ddpg) (critic ddpg) (actorTarget ddpg) (criticTarget ddpg)
    (actorAdam ddpg) (criticAdam ddpg) (actorInput ddpg) (criticInput ddpg)
    (actorErrors ddpg) (criticErrors ddpg) (ddpg_batchSize ddpg)
    (batchIndices ddpg) (memorySize ddpg) (memoryUsed ddpg) (memoryIdx ddpg)
    (memory ddpg) (lastState ddpg) x.

(** [ddpg_data_copy(dst + dst_off, src + src_off, length)]: the result is
    the block [dst] after the copy. *)
Definition ddpg_data_copy (dst : list D) (dst_off : Z) (src : list D) (src_off : Z)
    (length : Z) : option (list D) :=
  for_loop 0 length
    (λ i dst, x ← zget src (src_off + i); zset dst (dst_off + i) x) dst.

(** The offset of [&MATRIX(m, row, col)] in the block of [m]. *)
Definition addr (m : Matrix D) (row col : Z) : Z := row * columns m + col.

(** [heap] and [iheap] are the indeterminate contents of fresh blocks of
    doubles and of ints. *)
Definition ddpg_create (heap : Z → D) (iheap : Z → Z) (g : Rand)
    (stateSize actionSize : Z) (noise : option (list D))
    (actorDepth : Z) (actorLayers : list Z)
    (criticDepth : Z) (criticLayers : list Z)
    (memorySize batchSize : Z) : option (DDPG D * Rand) :=
  (* If noise is NULL, no noise is applied to actions. *)
  nz ← match noise with
       | None => Some None
       | Some src =>
           Some <$> for_loop 0 actionSize
             (λ i d, x ← zget src i; zset d i x) (heap <$> seqZ 0 actionSize)
       end;
  (* The MLPC library is used to construct the actor and the critic. *)
  '(act, g) ← mlp_create heap g stateSize actionSize actorDepth actorLayers
                ACTIVATION_RELU ACTIVATION_TANH batchSize;
  '(cri, g) ← mlp_create heap g (actionSize + stateSize) 1 criticDepth criticLayers
                ACTIVATION_RELU ACTIVATION_LINEAR batchSize;
  actT ← mlp_clone heap act;
  criT ← mlp_clone heap cri;
  (* Initialize the Adam optimizers. *)
  actA ← adam_create heap act;
  criA ← adam_create heap cri;
  Some (mkDDPG stateSize actionSize (heap <$> seqZ 0 actionSize) nz
          act cri actT criT actA criA
          (matrix_create heap batchSize stateSize)
          (matrix_create heap batchSize (actionSize + stateSize))
          (matrix_create heap batchSize actionSize)
          (matrix_create heap batchSize 1)
          batchSize (iheap <$> seqZ 0 batchSize)
          memorySize 0 0
          (matrix_create heap memorySize (actionSize + 2 * stateSize + 2))
          (heap <$> seqZ 0 stateSize) 0, g).

Definition ddpg_observe ddpg (action : list D) (reward : D) (state : list D)
    (terminal : Z) : option (DDPG D) :=
  (* If no state has yet been observed, just store the state. *)
  if decide (lastStateValid ddpg = 0) then
    ls ← ddpg_data_copy (lastState ddpg) 0 state 0 (stateSize ddpg);
    Some (set_lastStateValid (set_lastState ddpg ls) 1)
  else
  (* Copy the given data to the observation memory. *)
  let mem := memory ddpg in
  let col := 0 in
  d ← ddpg_data_copy (data mem) (addr mem (memoryIdx ddpg) 0)
        (lastState ddpg) 0 (stateSize ddpg);
  let col := col + stateSize ddpg in
  d ← ddpg_data_copy d (addr mem (memoryIdx ddpg) col) action 0 (actionSize ddpg);
  let col := col + actionSize ddpg in
  d ← zset d (addr mem (memoryIdx ddpg) col) reward;
  let col := col + 1 in
  d ← ddpg_data_copy d (addr mem (memoryIdx ddpg) col) state 0 (stateSize ddpg);
  d ← zset d (addr mem (memoryIdx ddpg) (col + stateSize ddpg))
        (if decide (terminal > 0) then d_of_int 1 else d_of_int 0);
  let ddpg := set_memory ddpg (with_data mem d) in
  (* Store the given state as the last observed state. *)
  ls ← ddpg_data_copy (lastState ddpg) 0 state 0 (stateSize ddpg);
  let ddpg := set_lastState ddpg ls in
  (* Increase the record index and memory size. *)
  if decide (memorySize ddpg = 0) then None else
  let ddpg := set_memoryIdx ddpg (Z.rem (memoryIdx ddpg + 1) (memorySize ddpg)) in
  if decide (memoryUsed ddpg < memorySize ddpg)
  then Some (set_memoryUsed ddpg (memoryUsed ddpg + 1))
  else Some ddpg.

(** The local [Matrix action] aliases [ddpg->actor->output]; the loop state
    is [(ddpg->action, generator)]. *)
Definition ddpg_action ddpg (g : Rand) (state : list D) : option (DDPG D * Rand) :=
  m ← matrix_clear (actorInput ddpg);
  d ← ddpg_data_copy (data m) 0 state 0 (stateSize ddpg);
  let ddpg := set_actorInput ddpg (with_data m d) in
  '(_, a) ← mlp_feedforward (actor ddpg) (actorInput ddpg);
  let ddpg := set_actor ddpg a in
  '(act, g) ← for_loop 0 (actionSize ddpg)
      (λ i '(act, g),
         x ← MATRIX (mlp_output (actor ddpg)) 0 i;
         act ← zset act i x;
         match noise ddpg with
         | None => Some (act, g)
         | Some nz =>
             n1 ← zget nz i;
             n2 ← zget nz i;
             let '(r, g) := deepc_random_double g (- n1)%dbl n2 in
             x ← zget act i;
             act ← zset act i (x + r)%dbl;
             (* Clip the action to interval [-1, 1]. *)
             x ← zget act i;
             if (x >? d_of_int 1)%dbl then
               act ← zset act i (d_of_int 1); Some (act, g)
             else
               x ← zget act i;
               if (x <? d_of_int (-1))%dbl then
                 act ← zset act i (d_of_int (-1)); Some (act, g)
               else Some (act, g)
         end)
      (action ddpg, g);
  Some (set_action ddpg act, g).

(** The locals [proposedActions], [errors], [criticOutput],
    [actorTargetOutput] and [CriticTargetOutput] are copies of a [Matrix]
    struct: they share the block of the network they come from and are read
    through it. *)
Definition ddpg_train ddpg (g : Rand) (gamma : D) : option (DDPG D * Rand) :=
  (* If not enough samples in memory, do nothing. *)
  if decide (memoryUsed ddpg < ddpg_batchSize ddpg) then Some (ddpg, g) else
  let B := ddpg_batchSize ddpg in
  let S := stateSize ddpg in
  let A := actionSize ddpg in
  let mem := memory ddpg in
  (* Select a random batch. *)
  '(bi, g) ← for_loop 0 B
      (λ i '(bi, g),
         '(r, g) ← deepc_random_int g 0 (memoryUsed ddpg - 1);
         bi ← zset bi i r; Some (bi, g))
      (batchIndices ddpg, g);
  let ddpg := set_batchIndices ddpg bi in
  (* Train the actor. *)
  (* Set the input states for the actor. *)
  d ← for_loop 0 B
      (λ i d, b ← zget bi i;
              ddpg_data_copy d (addr (actorInput ddpg) i 0) (data mem) (addr mem b 0) S)
      (data (actorInput ddpg));
  let ddpg := set_actorInput ddpg (with_data (actorInput ddpg) d) in
  (* Get the proposed actions for the input states. *)
  '(_, a) ← mlp_feedforward (actor ddpg) (actorInput ddpg);
  let ddpg := set_actor ddpg a in
  let proposedActions := mlp_output (actor ddpg) in
  (* Concatenate the proposed actions with batch states. *)
  d ← for_loop 0 B
      (λ i d,
         d ← ddpg_data_copy d (addr (criticInput ddpg) i 0)
               (data proposedActions) (addr proposedActions i 0) A;
         b ← zget bi i;
         ddpg_data_copy d (addr (criticInput ddpg) i A) (data mem) (addr mem b 0) S)
      (data (criticInput ddpg));
  let ddpg := set_criticInput ddpg (with_data (criticInput ddpg) d) in
  (* Process the proposed actions through the critic. *)
  '(_, c) ← mlp_feedforward (critic ddpg) (criticInput ddpg);
  let ddpg := set_critic ddpg c in
  (* Back-propagate the negative gradient through the critic. *)
  m ← matrix_fill (criticErrors ddpg) (d_of_int (-1));
  let ddpg := set_criticErrors ddpg m in
  '(_, c) ← mlp_backpropagate (critic ddpg) (criticErrors ddpg) LOSS_NONE;
  let ddpg := set_critic ddpg c in
  (* Get the critic errors of the first layer and extract only those that
     correspond to actions. *)
  let errors := mlp_get_input_errors (critic ddpg) in
  d ← for_loop 0 B
      (λ i d, ddpg_data_copy d (addr (actorErrors ddpg) i 0)
                (data errors) (addr errors i 0) A)
      (data (actorErrors ddpg));
  let ddpg := set_actorErrors ddpg (with_data (actorErrors ddpg) d) in
  (* Continue the back-propagation through the actor. *)
  '(_, a) ← mlp_backpropagate (actor ddpg) (actorErrors ddpg) LOSS_NONE;
  let ddpg := set_actor ddpg a in
  (* Optimize the actor *)
  '(a, ad) ← adam_optimize (actor ddpg) (actorAdam ddpg);
  let ddpg := set_actorAdam (set_actor ddpg a) ad in
  (* Train the critic. *)
  (* Feed the batch actions and states to the critic. *)
  d ← for_loop 0 B
      (λ i d,
         b ← zget bi i;
         d ← ddpg_data_copy d (addr (criticInput ddpg) i 0) (data mem) (addr mem b S) A;
         b ← zget bi i;
         ddpg_data_copy d (addr (criticInput ddpg) i A) (data mem) (addr mem b 0) S)
      (data (criticInput ddpg));
  let ddpg := set_criticInput ddpg (with_data (criticInput ddpg) d) in
  '(_, c) ← mlp_feedforward (critic ddpg) (criticInput ddpg);
  let ddpg := set_critic ddpg c in
  (* Feed the next state batch to the target actor. *)
  d ← for_loop 0 B
      (λ i d, b ← zget bi i;
              ddpg_data_copy d (addr (actorInput ddpg) i 0)
                (data mem) (addr mem b (S + A + 1)) S)
      (data (actorInput ddpg));
  let ddpg := set_actorInput ddpg (with_data (actorInput ddpg) d) in
  '(_, aT) ← mlp_feedforward (actorTarget ddpg) (actorInput ddpg);
  let ddpg := set_actorTarget ddpg aT in
  let actorTargetOutput := mlp_output (actorTarget ddpg) in
  (* Concatenate target actions with the next state batch and feed it to the
     target critic. *)
  d ← for_loop 0 B
      (λ i d,
         d ← ddpg_data_copy d (addr (criticInput ddpg) i 0)
               (data actorTargetOutput) (addr actorTargetOutput i 0) A;
         b ← zget bi i;
         ddpg_data_copy d (addr (criticInput ddpg) i A)
           (data mem) (addr mem b (S + A + 1)) S)
      (data (criticInput ddpg));
  let ddpg := set_criticInput ddpg (with_data (criticInput ddpg) d) in
  '(_, cT) ← mlp_feedforward (criticTarget ddpg) (criticInput ddpg);
  let ddpg := set_criticTarget ddpg cT in
  let criticOutput := mlp_output (critic ddpg) in
  let CriticTargetOutput := mlp_output (criticTarget ddpg) in
  (* Compute the critic errors using the Bellman equation. *)
  d ← for_loop 0 B
      (λ i d,
         b ← zget bi i;
         reward ← MATRIX mem b (S + A);
         b ← zget bi i;
         terminal ← MATRIX mem b (2 * S + A + 1);
         if (terminal >? d_of_int 0)%dbl then
           q ← MATRIX criticOutput i 0;
           zset d (addr (criticErrors ddpg) i 0) q
         else
           q ← MATRIX criticOutput i 0;
           q' ← MATRIX CriticTargetOutput i 0;
           zset d (addr (criticErrors ddpg) i 0) (q - (reward + gamma * q'))%dbl)
      (data (criticErrors ddpg));
  let ddpg := set_criticErrors ddpg (with_data (criticErrors ddpg) d) in
  (* Backpropagate critic errors. *)
  '(_, c) ← mlp_backpropagate (critic ddpg) (criticErrors ddpg) LOSS_NONE;
  let ddpg := set_critic ddpg c in
  (* Optimize the critic. *)
  '(c, ad) ← adam_optimize (critic ddpg) (criticAdam ddpg);
  Some (set_criticAdam (set_critic ddpg c) ad, g).

Definition ddpg_update_target_networks ddpg : option (DDPG D) :=
  aT ← mlp_copy (actorTarget ddpg) (actor ddpg);
  let ddpg := set_actorTarget ddpg aT in
  cT ← mlp_copy (criticTarget ddpg) (critic ddpg);
  Some (set_criticTarget ddpg cT).

Definition ddpg_new_episode ddpg : DDPG D := set_lastStateValid ddpg 0.

(** Returns the value returned by the C function and the disk. *)
Definition ddpg_save_policy ddpg (filename : string) (disk : Disk D)
  : option (Z * Disk D) :=
  match fopen_wb disk filename with
  | None => Some (-1, disk)
  | Some file =>
      '(r, file) ← mlp_write_weights (actor ddpg) file;
      if decide (r ≠ 0) then Some (-1, fclose_wb disk filename file) else
      '(r, file) ← mlp_write_weights (critic ddpg) file;
      if decide (r ≠ 0) then Some (-1, fclose_wb disk filename file) else
      Some (0, fclose_wb disk filename file)
  end.

(** Returns the value returned by the C function and the agent. *)
Definition ddpg_load_policy ddpg (filename : string) (disk : Disk D)
  : option (Z * DDPG D) :=
  match fopen_rb disk filename with
  | None => Some (-1, ddpg)
  | Some file =>
      '(r, a, file) ← mlp_read_weights (actor ddpg) file;
      let ddpg := set_actor ddpg a in
      if decide (r ≠ 0) then Some (-1, ddpg) else
      '(r, c, file) ← mlp_read_weights (critic ddpg) file;
      let ddpg := set_critic ddpg c in
      if decide (r ≠ 0) then Some (-1, ddpg) else
      Some (0, ddpg)
  end.

End ddpg.

(** ** The binary formats, as the specification states them

    Matrix: [int32 rows, int32 cols, f64 data[rows*cols]]; MLP weights: the
    concatenation of [(weights, biases)] for every layer in order; policy:
    the block of the actor, then of the critic. *)

Section formats.
Context {D : Type}.

Definition matrix_stream (m : Matrix D) : list (item D) :=
  [Int32 (rows m); Int32 (columns m)] ++
  (Float64 <$> take (Z.to_nat (rows m * columns m)) (data m)).

Definition layer_stream (l : Layer D) : list (item D) :=
  matrix_stream (weights l) ++ matrix_stream (biases l).

Definition mlp_stream (mlp : MLP D) : list (item D) :=
  concat (layer_stream <$> layers mlp).

Definition policy_stream (ddpg : DDPG D) : list (item D) :=
  mlp_stream (actor ddpg) ++ mlp_stream (critic ddpg).

(** A matrix as [matrix_create] allocates it, with at least one cell. *)
Definition nonempty_shape (m : Matrix D) : Prop :=
  has_shape m (rows m) (columns m) ∧ 0 < rows m * columns m.

(** The parameters of a network are [depth + 1] layers of non-empty
    matrices. *)
Definition persist_wf (mlp : MLP D) : Prop :=
  0 ≤ depth mlp ∧ Z.of_nat (length (layers mlp)) = depth mlp + 1 ∧
  Forall (λ l, nonempty_shape (weights l) ∧ nonempty_shape (biases l)) (layers mlp).

(** Two layers, and two networks, with parameters of the same shapes. *)
Definition same_layer_shape (l1 l2 : Layer D) : Prop :=
  rows (weights l1) = rows (weights l2) ∧
  columns (weights l1) = columns (weights l2) ∧
  rows (biases l1) = rows (biases l2) ∧
  columns (biases l1) = columns (biases l2).

Definition same_architecture (m1 m2 : MLP D) : Prop :=
  depth m1 = depth m2 ∧ Forall2 same_layer_shape (layers m1) (layers m2).

(** The trainable parameters of a network: the weights and the biases of
    every layer, in order. *)
Definition parameters (mlp : MLP D) : list (Matrix D * Matrix D) :=
  (λ l, (weights l, biases l)) <$> layers mlp.

(** Layer [l2] with the weights and biases of layer [l1]. *)
Definition load_layer (l1 l2 : Layer D) : Layer D :=
  mkLayer (weights l1) (biases l1) (output l2) (errors l2) (deltas l2)
    (gradWeights l2) (gradBiases l2) (activation l2) (activationDeriv l2).

End formats.

(** ** Shapes of a network and of an optimizer

    What [mlp_create] and [adam_create] allocate: [sz 0] is the input size
    and [sz (i + 1)] the width of layer [i]. *)

Section shapes.
Context {D : Type}.

Definition layer_wf (B nin nout : Z) (l : Layer D) : Prop :=
  has_shape (weights l) nout nin ∧ has_shape (biases l) nout B ∧
  has_shape (output l) nout B ∧ has_shape (errors l) B nout ∧
  has_shape (deltas l) B nout ∧ has_shape (gradWeights l) nout nin ∧
  has_shape (gradBiases l) nout B.

Definition mlp_wf (sz : Z → Z) (mlp : MLP D) : Prop :=
  0 ≤ depth mlp ∧ 0 < batchSize mlp ∧
  Z.of_nat (length (layers mlp)) = depth mlp + 1 ∧
  (∀ i l, layer mlp i = Some l →
     layer_wf (batchSize mlp) (sz i) (sz (i + 1)) l) ∧
  has_shape (input mlp) (sz 0) (batchSize mlp) ∧
  has_shape (inputErrors mlp) (batchSize mlp) (sz 0) ∧
  has_shape (mlp_output mlp) (batchSize mlp) (sz (depth mlp + 1)).

(** The layer sizes of the network that [mlp_create] builds. *)
Definition layer_sizes (inputSize : Z) (hidden : list Z) (dp outputSize : Z)
  : Z → Z :=
  λ i, if decide (i ≤ 0) then inputSize
       else if decide (i ≤ dp) then default 0 (zget hidden (i - 1))
       else outputSize.

(** The array of hidden layer sizes has [dp] entries, none negative. *)
Definition sizes_ok (hidden : list Z) (dp : Z) : Prop :=
  0 ≤ dp ∧ ∀ i, 0 ≤ i < dp → ∃ h, zget hidden i = Some h ∧ 0 ≤ h.

(** Where the local [input] of [mlp_feedforward] and [mlp_backpropagate]
    points when iteration [i] starts. *)
Definition input_at (i : Z) : InputPtr :=
  if decide (i = 0) then AtInput else AtLayerOutput (i - 1).

(** The three blocks that an inner loop of [adam_optimize] walks have [n]
    cells each. *)
Definition cells_len (n : Z) (s : list D * list D * list D) : Prop :=
  Z.of_nat (length s.1.1) = n ∧ Z.of_nat (length s.1.2) = n ∧
  Z.of_nat (length s.2) = n.

Definition adam_wf (sz : Z → Z) (B : Z) (dp : Z) (adam : Adam D) : Prop :=
  adam_depth adam = dp + 1 ∧
  Z.of_nat (length (mw adam)) = dp + 1 ∧ Z.of_nat (length (mb adam)) = dp + 1 ∧
  Z.of_nat (length (vw adam)) = dp + 1 ∧ Z.of_nat (length (vb adam)) = dp + 1 ∧
  (∀ i m, zget (mw adam) i = Some m → has_shape m (sz (i + 1)) (sz i)) ∧
  (∀ i m, zget (vw adam) i = Some m → has_shape m (sz (i + 1)) (sz i)) ∧
  (∀ i m, zget (mb adam) i = Some m → has_shape m (sz (i + 1)) B) ∧
  (∀ i m, zget (vb adam) i = Some m → has_shape m (sz (i + 1)) B).

End shapes.

(** ** Sequences of calls to the agent

    The public functions of ddpg.c that take an agent, as a datatype, and the
    effect of a sequence of calls on an agent and the generator. *)

Inductive Call (D : Type) : Type :=
  | CallObserve (action : list D) (reward : D) (state : list D) (terminal : Z)
  | CallNewEpisode
  | CallAction (state : list D)
  | CallTrain (gamma : D)
  | CallUpdateTargetNetworks.
Arguments CallObserve {D} _ _ _ _.
Arguments CallNewEpisode {D}.
Arguments CallAction {D} _.
Arguments CallTrain {D} _.
Arguments CallUpdateTargetNetworks {D}.

Section calls.
Context {D : Type} `{!Scalar D}.

Definition call (s : DDPG D * Rand) (c : Call D) : option (DDPG D * Rand) :=
  let '(ddpg, g) := s in
  match c with
  | CallObserve action reward state terminal =>
      ddpg ← ddpg_observe ddpg action reward state terminal; Some (ddpg, g)
  | CallNewEpisode => Some (ddpg_new_episode ddpg, g)
  | CallAction state => ddpg_action ddpg g state
  | CallTrain gamma => ddpg_train ddpg g gamma
  | CallUpdateTargetNetworks =>
      ddpg ← ddpg_update_target_networks ddpg; Some (ddpg, g)
  end.

Definition run_calls (s : DDPG D * Rand) (cs : list (Call D)) : option (DDPG D * Rand) :=
  foldl (λ acc c, acc ≫= λ s, call s c) (Some s) cs.

(** The replay tuples that a sequence of calls stores, following the
    specification: an observation is stored unless it is the first one of an
    episode, and the tuple is
    [(prevState, action, reward, nextState, terminal flag)].  The state of
    this reading is whether a previous state is known, that state, and the
    tuples stored so far, oldest first. *)
Record Transition : Type := mkTransition {
  tr_prevState : list D;
  tr_action : list D;
  tr_reward : D;
  tr_nextState : list D;
  tr_terminal : D
}.

Definition ReplayLog : Type := bool * list D * list Transition.

Definition log_call (lg : ReplayLog) (c : Call D) : ReplayLog :=
  let '(known, prev, stored) := lg in
  match c with
  | CallObserve action reward state terminal =>
      if known
      then (true, state,
            stored ++ [mkTransition prev action reward state
                         (if decide (terminal > 0) then d_of_int 1 else d_of_int 0)])
      else (true, state, stored)
  | CallNewEpisode => (false, prev, stored)
  | _ => lg
  end.

Definition replay_log (lg : ReplayLog) (cs : list (Call D)) : ReplayLog :=
  foldl log_call lg cs.

(** Row [row] of the replay memory holds the tuple [tr] in the column layout
    [prevState | action | reward | nextState | terminal]. *)
Definition row_holds (S A : Z) (m : Matrix D) (row : Z) (tr : Transition) : Prop :=
  (∀ j, 0 ≤ j < S →
     is_Some (MATRIX m row j) ∧ MATRIX m row j = zget (tr_prevState tr) j) ∧
  (∀ j, 0 ≤ j < A →
     is_Some (MATRIX m row (S + j)) ∧ MATRIX m row (S + j) = zget (tr_action tr) j) ∧
  MATRIX m row (S + A) = Some (tr_reward tr) ∧
  (∀ j, 0 ≤ j < S →
     is_Some (MATRIX m row (S + A + 1 + j)) ∧
     MATRIX m row (S + A + 1 + j) = zget (tr_nextState tr) j) ∧
  MATRIX m row (2 * S + A + 1) = Some (tr_terminal tr).

(** The fields of an agent that make up its replay memory. *)
Definition replay_part (ddpg : DDPG D) :=
  (stateSize ddpg, actionSize ddpg, memorySize ddpg, memoryUsed ddpg,
   memoryIdx ddpg, memory ddpg, lastState ddpg, lastStateValid ddpg).

(** The part of an agent that [ddpg_create] fixes for the replay memory. *)
Definition replay_wf (ddpg : DDPG D) : Prop :=
  0 ≤ stateSize ddpg ∧ 0 ≤ actionSize ddpg ∧ 0 < memorySize ddpg ∧
  has_shape (memory ddpg) (memorySize ddpg)
    (actionSize ddpg + 2 * stateSize ddpg + 2) ∧
  Z.of_nat (length (lastState ddpg)) = stateSize ddpg.

(** What relates an agent reached from the agent [ddpg0] to the log of the
    calls made: the flag and the previous state of the log are those of the
    agent, and the ring holds the logged tuples. *)
Definition ring_inv (ddpg0 : DDPG D) (lg : ReplayLog) (ddpg : DDPG D) : Prop :=
  let '(known, prev, stored) := lg in
  let K := Z.of_nat (length stored) in
  let M := memorySize ddpg0 in
  stateSize ddpg = stateSize ddpg0 ∧ actionSize ddpg = actionSize ddpg0 ∧
  memorySize ddpg = M ∧ replay_wf ddpg ∧
  (known = true ↔ lastStateValid ddpg ≠ 0) ∧
  (known = true →
     ∀ j, 0 ≤ j < stateSize ddpg0 → zget (lastState ddpg) j = zget prev j) ∧
  memoryUsed ddpg = Z.min K M ∧
  memoryIdx ddpg = K `mod` M ∧
  (∀ tr, last stored = Some tr →
     row_holds (stateSize ddpg0) (actionSize ddpg0) (memory ddpg)
       ((memoryIdx ddpg - 1) `mod` M) tr).

End calls.

(** ** Shapes of an agent

    What [ddpg_create] allocates: [sa] and [sc] are the layer sizes of the
    actor and of the critic. *)

(** [rand()] returns a value between [0] and [RAND_MAX]. *)
Definition rand_ok (g : Rand) : Prop := ∀ n, 0 ≤ rand_seq g n.

Record ddpg_wf {D} (sa sc : Z → Z) (ddpg : DDPG D) : Prop := mk_ddpg_wf {
  wf_replay : replay_wf ddpg;
  wf_used : 0 ≤ memoryUsed ddpg ≤ memorySize ddpg;
  wf_idx : 0 ≤ memoryIdx ddpg < memorySize ddpg;
  wf_actor : mlp_wf sa (actor ddpg);
  wf_actorTarget : mlp_wf sa (actorTarget ddpg);
  wf_critic : mlp_wf sc (critic ddpg);
  wf_criticTarget : mlp_wf sc (criticTarget ddpg);
  wf_actor_depth : depth (actorTarget ddpg) = depth (actor ddpg);
  wf_critic_depth : depth (criticTarget ddpg) = depth (critic ddpg);
  wf_actor_batch : batchSize (actor ddpg) = ddpg_batchSize ddpg;
  wf_actorTarget_batch : batchSize (actorTarget ddpg) = ddpg_batchSize ddpg;
  wf_critic_batch : batchSize (critic ddpg) = ddpg_batchSize ddpg;
  wf_criticTarget_batch : batchSize (criticTarget ddpg) = ddpg_batchSize ddpg;
  wf_actor_in : sa 0 = stateSize ddpg;
  wf_actor_out : sa (depth (actor ddpg) + 1) = actionSize ddpg;
  wf_critic_in : sc 0 = actionSize ddpg + stateSize ddpg;
  wf_critic_out : sc (depth (critic ddpg) + 1) = 1;
  wf_actorAdam :
    adam_wf sa (ddpg_batchSize ddpg) (depth (actor ddpg)) (actorAdam ddpg);
  wf_criticAdam :
    adam_wf sc (ddpg_batchSize ddpg) (depth (critic ddpg)) (criticAdam ddpg);
  wf_actorInput :
    has_shape (actorInput ddpg) (ddpg_batchSize ddpg) (stateSize ddpg);
  wf_criticInput :
    has_shape (criticInput ddpg) (ddpg_batchSize ddpg)
      (actionSize ddpg + stateSize ddpg);
  wf_actorErrors :
    has_shape (actorErrors ddpg) (ddpg_batchSize ddpg) (actionSize ddpg);
  wf_criticErrors : has_shape (criticErrors ddpg) (ddpg_batchSize ddpg) 1;
  wf_batchIndices : Z.of_nat (length (batchIndices ddpg)) = ddpg_batchSize ddpg;
  wf_action : Z.of_nat (length (action ddpg)) = actionSize ddpg;
  wf_noise : ∀ nz, noise ddpg = Some nz → Z.of_nat (length nz) = actionSize ddpg
}.

(** The arrays passed to a call are as long as the agent reads them. *)
Definition call_ok {D} (S A : Z) (c : Call D) : Prop :=
  match c with
  | CallObserve action _ state _ =>
      A ≤ Z.of_nat (length action) ∧ S ≤ Z.of_nat (length state)
  | CallAction state => S ≤ Z.of_nat (length state)
  | _ => True
  end.

(** ** An executable instance

    To run the model on binary64 the two libm functions need a value: [exp]
    is computed as [(1 + x/64)^64] by six squarings and [pow x y] as [x * x],
    its value at the only exponent the code uses, [2]. *)

Definition series_exp (x : float) : float :=
  let sq (y : float) := (y * y)%float in
  sq (sq (sq (sq (sq (sq (1 + x / 64)%float))))).

Definition square_pow (x y : float) : float := (x * x)%float.

Definition run64 : Scalar float := binary64 series_exp square_pow.
#[global] Existing Instance run64.

(** ** A small agent to run

    State size 2, action size 1, no noise, one hidden layer of two units in
    the actor and in the critic, replay capacity 4, batch size 2; fresh blocks
    hold zeros and [rand()] returns the values of a table. *)

Definition example_heap : Z → float := λ _, 0%float.

Definition example_rand : Rand :=
  mkRand 2147483647
    (λ n, nth n [1804289383; 846930886; 1681692777; 1714636915; 1957747793;
                 424238335; 719885386; 1649760492; 596516649; 1189641421;
                 1025202362; 1350490027; 783368690; 1102520059; 2044897763;
                 1967513926; 1365180540; 1540383426; 304089172; 1303455736;
                 35005211; 521595368; 294702567; 1726956429; 336465782;
                 861021530; 278722862; 233665123; 2145174067; 468703135;
                 1101513929; 1801979802; 1315634022; 635723058; 1369133069;
                 1125898167; 1059961393; 2089018456; 628175011; 1656478042]
            1131176229) 0.

Definition example_create : option (DDPG float * Rand) :=
  Eval vm_compute in
    ddpg_create (Scalar0 := run64) example_heap (λ _, 0) example_rand
      2 1 None 1 [2] 1 [2] 4 2.

(** A priming observation and six stored ones (scenarios 3 and 4 of the
    specification). *)
Definition example_calls : list (Call float) :=
  [ CallNewEpisode;
    CallObserve [0]%float 0%float [0.5; 0.125]%float 0;
    CallObserve [0.25]%float (-0.25)%float [0.625; 0.25]%float 0;
    CallObserve [0.125]%float 1%float [0.75; 0.375]%float 0;
    CallObserve [0.25]%float 0%float [0.875; 0.5]%float 0;
    CallObserve [-0.125]%float 0.5%float [1; 0.625]%float 0;
    CallObserve [0.375]%float (-1)%float [1.125; 0.75]%float 0;
    CallObserve [0.5]%float 2%float [1.25; 0.875]%float 1 ].

(** The agent of [example_create] after [example_calls]: its memory of four
    rows is full and the row written last is terminal. *)
Definition example_replay : option (DDPG float * Rand) :=
  Eval vm_compute in (s ← example_create; run_calls s example_calls).

(** Two values of [rand()] that select rows 1 and 2 of that memory. *)
Definition example_draws : Rand := mkRand 2147483647 (λ n, nth n [5; 10] 0) 0.

(** Two networks with input size 2, output size 1 and batch size 2, one with
    a hidden layer of two units and one without, after a forward pass. *)

Definition example_x : Matrix float := mkMatrix 2 2 [0.5; -0.25; 1; 0.75]%float.
Definition example_y1 : Matrix float := mkMatrix 2 1 [1; -0.5]%float.
Definition example_y2 : Matrix float := mkMatrix 2 1 [0.25; 2]%float.

Definition example_forward (dp : Z) (hidden : list Z) : option (MLP float) :=
  '(mlp, _) ← mlp_create example_heap example_rand 2 1 dp hidden
                ACTIVATION_RELU ACTIVATION_TANH 2;
  '(_, mlp) ← mlp_feedforward mlp example_x;
  Some mlp.

Definition example_mlp1 : option (MLP float) :=
  Eval vm_compute in example_forward 1 [2].

Definition example_mlp0 : option (MLP float) :=
  Eval vm_compute in example_forward 0 [].

(** The network with a hidden layer after back-propagation, with a fresh
    optimizer. *)
Definition example_optimizer : option (MLP float * Adam float) :=
  Eval vm_compute in
    (mlp ← example_mlp1;
     '(_, mlp) ← mlp_backpropagate mlp example_y1 LOSS_MSE;
     adam ← adam_create example_heap mlp;
     Some (mlp, adam)).

(** Two agents of the architecture of [example_create] with batch size [B],
    allocated from different memory and initialised from successive values
    of the generator, and a disk with room for 64 objects. *)
Definition example_agents (B : Z) : option (DDPG float * DDPG float) :=
  '(a, g) ← ddpg_create (Scalar0 := run64) example_heap (λ _, 0) example_rand
              2 1 None 1 [2] 1 [2] 4 B;
  '(b, _) ← ddpg_create (Scalar0 := run64) (λ _, 1%float) (λ _, 0) g
              2 1 None 1 [2] 1 [2] 4 B;
  Some (a, b).

Definition example_pair : option (DDPG float * DDPG float) :=
  Eval vm_compute in example_agents 2.

Definition example_pair_empty : option (DDPG float * DDPG float) :=
  Eval vm_compute in example_agents 0.

Definition example_disk : Disk float := mkDisk (λ _, None) (λ _, true) 64.

(** ** Closed forms used in the statements *)

(** ** The range of [int]

    The bounds of a 32-bit [int], and the sizes for which no [int]
    expression of the constructors overflows: the number of cells
    [rows * columns] of every matrix that [matrix_create] allocates, the sum
    [rows + columns] that [mlp_initialize] computes for a weight matrix, and
    [depth + 1]. *)

Definition INT_MAX : Z := 2147483647.
Definition INT_MIN : Z := -2147483648.

(** A network with layer sizes [sz], depth [dp] and batch size [B]. *)
Definition int_network (sz : Z → Z) (dp B : Z) : Prop :=
  dp < INT_MAX ∧ sz 0 * B ≤ INT_MAX ∧
  ∀ i, 0 ≤ i ≤ dp →
    sz (i + 1) * sz i ≤ INT_MAX ∧ sz (i + 1) + sz i ≤ INT_MAX ∧
    sz (i + 1) * B ≤ INT_MAX.

(** The arguments of [ddpg_create]: the two networks and the memory of
    [memorySize] rows of [actionSize + 2 * stateSize + 2] cells. *)
Definition int_agent (S A : Z) (aL : list Z) (aD : Z) (cL : list Z) (cD : Z)
    (M B : Z) : Prop :=
  int_network (layer_sizes S aL aD A) aD B ∧
  int_network (layer_sizes (A + S) cL cD 1) cD B ∧
  M * (A + 2 * S + 2) ≤ INT_MAX.


Section reading.
Context {D : Type} `{!Scalar D}.

(** The value of [MATRIX(m, row, col)] for a cell inside the block. *)
Definition cell (m : Matrix D) (row col : Z) : D :=
  default (d_of_int 0) (MATRIX m row col).

(** [sum = 0; for k: sum += a[row][k] * b[k][col]], the additions in the
    order of the loop. *)
Definition dot_cell (a b : Matrix D) (row col : Z) : D :=
  foldl (λ sum k, (sum + cell a row k * cell b k col)%dbl) (d_of_int 0)
    (seqZ 0 (columns a)).

(** [sum = 0; for row: sum += m[row][col]]. *)
Definition column_sum (m : Matrix D) (col : Z) : D :=
  foldl (λ sum row, (sum + cell m row col)%dbl) (d_of_int 0) (seqZ 0 (rows m)).

End reading.

Section closed_forms.
Context {D : Type} `{!Scalar D}.

(** The layer that the four statements of the body of [mlp_sgd] leave, when
    every access is inside its block. *)
Definition sgd_layer (lr : D) (l : Layer D) : Layer D :=
  let l1 := set_gradWeights l
              (with_data (gradWeights l)
                 ((λ g, g * lr)%dbl <$> data (gradWeights l))) in
  let l2 := set_weights l1
              (with_data (weights l1)
                 (zip_with dsub (data (weights l1)) (data (gradWeights l1)))) in
  let l3 := set_gradBiases l2
              (with_data (gradBiases l2)
                 ((λ g, g * lr)%dbl <$> data (gradBiases l2))) in
  set_biases l3
    (with_data (biases l3)
       (zip_with dsub (data (biases l3)) (data (gradBiases l3)))).

End closed_forms.

(** The fields of a layer that the forward pass reads or writes, and those
    that the backward sweep writes before it computes the gradients. *)
Definition forward_part {D} (l : Layer D) :=
  (weights l, biases l, output l, activation l, activationDeriv l).

Definition backward_part {D} (l : Layer D) := (errors l, deltas l).

(** The fields of a layer that are not parameters. *)
Definition non_parameters {D} (l : Layer D) :=
  (output l, errors l, deltas l, gradWeights l, gradBiases l,
   activation l, activationDeriv l).

(** A binary64 value that is a zero or a NaN. *)
Definition zero_or_nan (x : float) : Prop :=
  match Prim2SF x with
  | S754_zero _ | S754_nan => True
  | _ => False
  end.

(** Every cell of the block of [m] is zero. *)
Definition zero_matrix {D} `{!Scalar D} (m : Matrix D) : Prop :=
  Forall (λ x, x = d_of_int 0) (data m).

(** The value that [mlp_initialize] gives a weight of a layer with [r] rows
    and [c] columns: the result of [deepc_random_double] between minus and
    plus [sqrt (6.0 / (r + c))], at some later position of the generator. *)
Definition glorot_draw {D} `{!Scalar D} (g : Rand) (r c : Z) (w : D) : Prop :=
  let limit := dsqrt (d_of_int 6 / d_of_int (r + c)%Z)%dbl in
  ∃ n, (rand_pos g ≤ n)%nat ∧
    w = (deepc_random_double (mkRand (RAND_MAX g) (rand_seq g) n)
           (- limit)%dbl limit).1.

(** * Properties *)

(** ** Blocks *)

Section blocks.
Context {A : Type}.
Implicit Types l : list A.

Lemma zget_Some l i x : zget l i = Some x → 0 ≤ i < Z.of_nat (length l).
Proof.
  unfold zget. case_decide; [|done]. intros Hx.
  apply lookup_lt_Some in Hx. lia.
Qed.

Lemma zget_is_Some l i : 0 ≤ i < Z.of_nat (length l) → is_Some (zget l i).
Proof.
  intros Hi. unfold zget. rewrite decide_True by lia.
  apply lookup_lt_is_Some. lia.
Qed.

Lemma zget_None l i : ¬ (0 ≤ i < Z.of_nat (length l)) → zget l i = None.
Proof.
  intros Hi. destruct (zget l i) eqn:E; [|done].
  apply zget_Some in E. lia.
Qed.

Lemma zget_nat l (n : nat) : zget l (Z.of_nat n) = l !! n.
Proof. unfold zget. rewrite decide_True by lia. by rewrite Nat2Z.id. Qed.

Lemma zset_Some l i x l' :
  zset l i x = Some l' → 0 ≤ i < Z.of_nat (length l) ∧ l' = <[Z.to_nat i := x]> l.
Proof. unfold zset. case_decide; naive_solver. Qed.

Lemma zset_lt l i x :
  0 ≤ i < Z.of_nat (length l) → zset l i x = Some (<[Z.to_nat i := x]> l).
Proof. intros. unfold zset. by rewrite decide_True. Qed.

Lemma zset_length l i x l' : zset l i x = Some l' → length l' = length l.
Proof. intros [? ->]%zset_Some. apply length_insert. Qed.

Lemma zget_zset l i x l' j :
  zset l i x = Some l' → zget l' j = if decide (j = i) then Some x else zget l j.
Proof.
  intros [Hi ->]%zset_Some. unfold zget. destruct (decide (j = i)) as [->|Hj].
  - rewrite decide_True by lia. apply list_lookup_insert_eq. lia.
  - case_decide; [|done]. apply list_lookup_insert_ne. lia.
Qed.

Lemma zget_zset_eq l i x l' : zset l i x = Some l' → zget l' i = Some x.
Proof. intros H. rewrite (zget_zset _ _ _ _ _ H). by rewrite decide_True. Qed.

Lemma zget_zset_ne l i x l' j : zset l i x = Some l' → j ≠ i → zget l' j = zget l j.
Proof. intros H ?. rewrite (zget_zset _ _ _ _ _ H). by rewrite decide_False. Qed.

(** Two blocks with the same cells are equal. *)
Lemma zget_ext l1 l2 : (∀ i, zget l1 i = zget l2 i) → l1 = l2.
Proof.
  intros H. apply list_eq. intros n. rewrite <- !zget_nat. apply H.
Qed.

End blocks.

(** ** Counted loops *)

Section loops.
Context {St : Type}.
Implicit Types body : Z → St → option St.

Lemma iterate_ext body1 body2 n i s :
  (∀ j s, i ≤ j < i + Z.of_nat n → body1 j s = body2 j s) →
  iterate n i body1 s = iterate n i body2 s.
Proof.
  revert i s. induction n as [|n IH]; intros i s Hb; [done|].
  simpl. rewrite Hb by lia. destruct (body2 i s); [|done]. simpl.
  apply IH. intros. apply Hb. lia.
Qed.

Lemma iterate_app body n1 n2 i s :
  iterate (n1 + n2) i body s =
  iterate n1 i body s ≫= iterate n2 (i + Z.of_nat n1) body.
Proof.
  revert i s. induction n1 as [|n1 IH]; intros i s.
  - simpl. by rewrite Z.add_0_r.
  - simpl. destruct (body i s); [|done]. simpl. rewrite IH.
    by replace (i + 1 + Z.of_nat n1) with (i + Z.of_nat (S n1)) by lia.
Qed.

Lemma iterate_shift body n i k s :
  iterate n (i + k) body s = iterate n i (λ j, body (j + k)) s.
Proof.
  revert i s. induction n as [|n IH]; intros i s; [done|].
  simpl. destruct (body (i + k) s); [|done]. simpl.
  rewrite <- IH. by replace (i + k + 1) with (i + 1 + k) by lia.
Qed.

Lemma for_loop_ext body1 body2 lo hi s :
  (∀ j s, lo ≤ j < hi → body1 j s = body2 j s) →
  for_loop lo hi body1 s = for_loop lo hi body2 s.
Proof. intros Hb. apply iterate_ext. intros. apply Hb. lia. Qed.

Lemma for_loop_empty body lo hi s : hi ≤ lo → for_loop lo hi body s = Some s.
Proof. intros. unfold for_loop. by replace (Z.to_nat (hi - lo)) with O by lia. Qed.

Lemma for_loop_split body lo mid hi s :
  lo ≤ mid ≤ hi →
  for_loop lo hi body s = for_loop lo mid body s ≫= for_loop mid hi body.
Proof.
  intros. unfold for_loop.
  replace (Z.to_nat (hi - lo)) with (Z.to_nat (mid - lo) + Z.to_nat (hi - mid))%nat by lia.
  rewrite iterate_app. by replace (lo + Z.of_nat (Z.to_nat (mid - lo))) with mid by lia.
Qed.

Lemma for_loop_one body i s : for_loop i (i + 1) body s = body i s.
Proof.
  unfold for_loop. replace (Z.to_nat (i + 1 - i)) with 1%nat by lia.
  simpl. by destruct (body i s).
Qed.

Lemma for_loop_snoc body lo hi s :
  lo ≤ hi → for_loop lo (hi + 1) body s = for_loop lo hi body s ≫= body hi.
Proof.
  intros. rewrite (for_loop_split body lo hi (hi + 1)) by lia.
  destruct (for_loop lo hi body s); [|done]. simpl. apply for_loop_one.
Qed.

Lemma for_loop_cons body lo hi s :
  lo < hi → for_loop lo hi body s = body lo s ≫= for_loop (lo + 1) hi body.
Proof.
  intros. rewrite (for_loop_split body lo (lo + 1) hi) by lia.
  by rewrite for_loop_one.
Qed.

Lemma for_loop_shift body lo hi k s :
  for_loop (lo + k) (hi + k) body s = for_loop lo hi (λ j, body (j + k)) s.
Proof.
  unfold for_loop. replace (hi + k - (lo + k)) with (hi - lo) by lia.
  apply iterate_shift.
Qed.

(** The invariant rule, in the form that also gives termination without
    fault: every iteration started in a state satisfying [P] succeeds. *)
Lemma for_loop_inv (P : Z → St → Prop) body lo hi s :
  lo ≤ hi → P lo s →
  (∀ j s, lo ≤ j < hi → P j s → ∃ s', body j s = Some s' ∧ P (j + 1) s') →
  ∃ s', for_loop lo hi body s = Some s' ∧ P hi s'.
Proof.
  intros Hle H0 Hstep.
  assert (∀ n : nat, lo + Z.of_nat n ≤ hi →
    ∃ s', for_loop lo (lo + Z.of_nat n) body s = Some s' ∧ P (lo + Z.of_nat n) s')
    as Hn.
  { induction n as [|n IH]; intros Hn.
    - rewrite Z.add_0_r, for_loop_empty by lia. eauto.
    - destruct IH as (s1 & E1 & P1); [lia|].
      replace (lo + Z.of_nat (S n)) with (lo + Z.of_nat n + 1) by lia.
      rewrite for_loop_snoc, E1 by lia. simpl. apply Hstep; [lia|done]. }
  specialize (Hn (Z.to_nat (hi - lo))).
  replace (lo + Z.of_nat (Z.to_nat (hi - lo))) with hi in Hn by lia.
  apply Hn. lia.
Qed.

(** The invariant rule for a loop known to have returned. *)
Lemma for_loop_inv_Some (P : Z → St → Prop) body lo hi s s' :
  lo ≤ hi → P lo s →
  (∀ j s s', lo ≤ j < hi → P j s → body j s = Some s' → P (j + 1) s') →
  for_loop lo hi body s = Some s' → P hi s'.
Proof.
  intros Hle H0 Hstep.
  assert (∀ n : nat, lo + Z.of_nat n ≤ hi → ∀ s',
    for_loop lo (lo + Z.of_nat n) body s = Some s' → P (lo + Z.of_nat n) s') as Hn.
  { induction n as [|n IH]; intros Hn s1.
    - rewrite Z.add_0_r, for_loop_empty by lia. naive_solver.
    - replace (lo + Z.of_nat (S n)) with (lo + Z.of_nat n + 1) by lia.
      rewrite for_loop_snoc by lia.
      destruct (for_loop lo (lo + Z.of_nat n) body s) as [s2|] eqn:E; [|done].
      simpl. intros Hb. eapply Hstep; [| |exact Hb]; [lia|]. apply IH; [lia|done]. }
  specialize (Hn (Z.to_nat (hi - lo))).
  replace (lo + Z.of_nat (Z.to_nat (hi - lo))) with hi in Hn by lia.
  apply Hn. lia.
Qed.

(** A nest of two loops over [row] and [col] is one loop over the cells in
    row-major order. *)
Lemma for_loop_nested (f : Z → Z → St → option St) r c s :
  0 ≤ r →
  for_loop 0 r (λ row, for_loop 0 c (λ col, f row col)) s =
  for_loop 0 (r * c) (λ k, f (k `div` c) (k `mod` c)) s.
Proof.
  intros Hr. destruct (decide (c ≤ 0)) as [Hc|Hc].
  { rewrite (for_loop_empty _ 0 (r * c)) by nia.
    edestruct (for_loop_inv (λ _ s', s' = s)) as (s' & -> & ->); [exact Hr|done| |done].
    intros j s1 _ ->. rewrite for_loop_empty by lia. eauto. }
  assert (∀ n : nat,
    for_loop 0 (Z.of_nat n) (λ row, for_loop 0 c (λ col, f row col)) s =
    for_loop 0 (Z.of_nat n * c) (λ k, f (k `div` c) (k `mod` c)) s) as Hn.
  { induction n as [|n IH].
    - by rewrite !for_loop_empty by lia.
    - replace (Z.of_nat (S n)) with (Z.of_nat n + 1) by lia.
      rewrite for_loop_snoc by lia. rewrite IH.
      rewrite (for_loop_split _ 0 (Z.of_nat n * c) ((Z.of_nat n + 1) * c)) by nia.
      destruct (for_loop 0 (Z.of_nat n * c) _ s) as [s1|]; [|done]. simpl.
      replace (Z.of_nat n * c) with (0 + Z.of_nat n * c) at 1 by lia.
      replace ((Z.of_nat n + 1) * c) with (c + Z.of_nat n * c) by lia.
      rewrite for_loop_shift. apply for_loop_ext. intros j s2 Hj.
      replace (j + Z.of_nat n * c) with (j + Z.of_nat n * c) by lia.
      rewrite Z.div_add, Z.mod_add by lia.
      by rewrite Z.div_small, Z.mod_small by lia. }
  specialize (Hn (Z.to_nat r)). by rewrite Z2Nat.id in Hn by lia.
Qed.

End loops.

(** ** Loops that fill a block *)

Section fill.
Context {A : Type}.
Implicit Types d : list A.

(** Iteration [i] stores [F i] at offset [π i], where [π] is injective on
    the range of the loop; the iteration may read the offsets not stored yet. *)
Lemma for_loop_scatter (π : Z → Z) (F : Z → option A)
    (body : Z → list A → option (list A)) n d0 :
  0 ≤ n →
  (∀ i j, 0 ≤ i < n → 0 ≤ j < n → π i = π j → i = j) →
  (∀ i d, 0 ≤ i < n → length d = length d0 →
     (∀ j, (∀ k, 0 ≤ k < i → π k ≠ j) → zget d j = zget d0 j) →
     ∃ y, F i = Some y ∧ 0 ≤ π i < Z.of_nat (length d0) ∧ body i d = zset d (π i) y) →
  ∃ d', for_loop 0 n body d0 = Some d' ∧ length d' = length d0 ∧
        (∀ k, 0 ≤ k < n → zget d' (π k) = F k) ∧
        (∀ j, (∀ k, 0 ≤ k < n → π k ≠ j) → zget d' j = zget d0 j).
Proof.
  intros Hn Hinj Hbody.
  apply (for_loop_inv (λ i d,
    length d = length d0 ∧
    (∀ k, 0 ≤ k < i → zget d (π k) = F k) ∧
    (∀ j, (∀ k, 0 ≤ k < i → π k ≠ j) → zget d j = zget d0 j))); [done| |].
  { split; [done|]. split; [intros; lia|done]. }
  intros i d Hi (Hlen & Hdone & Hrest).
  destruct (Hbody i d Hi Hlen Hrest) as (y & HF & Hπ & ->).
  rewrite zset_lt by lia. eexists; split; [done|].
  assert (zset d (π i) y = Some (<[Z.to_nat (π i):=y]> d)) as Hset
    by (apply zset_lt; lia).
  split; [by rewrite length_insert|]. split.
  - intros k Hk. destruct (decide (k = i)) as [->|Hne].
    + by rewrite (zget_zset_eq _ _ _ _ Hset).
    + rewrite (zget_zset_ne _ _ _ _ _ Hset).
      * apply Hdone. lia.
      * intros Heq. apply Hinj in Heq; lia.
  - intros j Hj. rewrite (zget_zset_ne _ _ _ _ _ Hset).
    + apply Hrest. intros k Hk. apply Hj. lia.
    + intros ->. by apply (Hj i); [lia|].
Qed.

(** Iteration [i] stores [F i] at offset [i]. *)
Lemma for_loop_pointwise (F : Z → option A)
    (body : Z → list A → option (list A)) n d0 :
  n ≤ Z.of_nat (length d0) →
  (∀ i d, 0 ≤ i < n → length d = length d0 →
     (∀ j, i ≤ j → zget d j = zget d0 j) →
     ∃ y, F i = Some y ∧ body i d = zset d i y) →
  ∃ d', for_loop 0 n body d0 = Some d' ∧ length d' = length d0 ∧
        ∀ k, zget d' k = if decide (0 ≤ k < n) then F k else zget d0 k.
Proof.
  intros Hn Hbody. destruct (decide (n ≤ 0)) as [Hneg|Hpos].
  { rewrite for_loop_empty by lia. eexists; split_and!; [done..|].
    intros k. by rewrite decide_False by lia. }
  destruct (for_loop_scatter (λ i, i) F body n d0) as (d' & E & Hlen & Hin & Hout).
  - lia.
  - auto.
  - intros i d Hi Hlen Hrest. destruct (Hbody i d Hi Hlen) as (y & HF & Hb).
    + intros j Hj. apply Hrest. intros k Hk. lia.
    + exists y. split_and!; [done|lia|lia|done].
  - exists d'. split_and!; [done..|]. intros k. case_decide.
    + by apply Hin.
    + apply Hout. intros; lia.
Qed.

End fill.

(** Two loops whose states stay related produce related results. *)
Lemma for_loop_sim {S1 S2} (Rel : Z → S1 → S2 → Prop)
    (body1 : Z → S1 → option S1) (body2 : Z → S2 → option S2) lo hi s1 s2 :
  lo ≤ hi → Rel lo s1 s2 →
  (∀ j s1 s2, lo ≤ j < hi → Rel j s1 s2 →
     option_Forall2 (Rel (j + 1)) (body1 j s1) (body2 j s2)) →
  option_Forall2 (Rel hi) (for_loop lo hi body1 s1) (for_loop lo hi body2 s2).
Proof.
  intros Hle H0 Hstep.
  assert (∀ n : nat, lo + Z.of_nat n ≤ hi →
    option_Forall2 (Rel (lo + Z.of_nat n))
      (for_loop lo (lo + Z.of_nat n) body1 s1)
      (for_loop lo (lo + Z.of_nat n) body2 s2)) as Hn.
  { induction n as [|n IH]; intros Hn.
    - rewrite Z.add_0_r, !for_loop_empty by lia. by constructor.
    - replace (lo + Z.of_nat (S n)) with (lo + Z.of_nat n + 1) by lia.
      rewrite !for_loop_snoc by lia.
      destruct IH as [a b Hab|]; [lia| |by constructor]. simpl.
      apply Hstep; [lia|done]. }
  specialize (Hn (Z.to_nat (hi - lo))).
  replace (lo + Z.of_nat (Z.to_nat (hi - lo))) with hi in Hn by lia.
  apply Hn. lia.
Qed.

(** ** matrix.c: products and transposition *)

Lemma rowmajor_inj (b q1 r1 q2 r2 : Z) :
  0 ≤ q1 < b → 0 ≤ q2 < b → r1 * b + q1 = r2 * b + q2 → r1 = r2 ∧ q1 = q2.
Proof. intros ?? Heq. assert (r1 = r2) by nia. subst. lia. Qed.

Lemma rowmajor_div_mod (c row col : Z) :
  0 ≤ col < c → (row * c + col) `div` c = row ∧ (row * c + col) `mod` c = col.
Proof.
  intros. rewrite Z.add_comm, Z.div_add, Z.mod_add by lia.
  rewrite Z.div_small, Z.mod_small by lia. lia.
Qed.

Section matrix_products.
Context {D : Type} `{!Scalar D}.
Implicit Types A B R m : Matrix D.

(** The innermost loop reads row [p1 / columns A] of [A] and column [p2] of
    [B] inside their blocks. *)
Lemma dot_sum_is_Some A B p1 p2 :
  0 ≤ p1 → p1 + columns A ≤ Z.of_nat (length (data A)) →
  0 ≤ p2 → 0 ≤ columns B →
  (0 < columns A → p2 + (columns A - 1) * columns B < Z.of_nat (length (data B))) →
  is_Some (dot_sum A B p1 p2).
Proof.
  intros Hp1 HA Hp2 HcB HB. unfold dot_sum.
  destruct (decide (columns A ≤ 0)) as [Hneg|Hpos].
  { rewrite for_loop_empty by lia. by eexists. }
  edestruct (for_loop_inv (λ k '((q1, q2, _) : Z * Z * D),
      q1 = p1 + k ∧ q2 = p2 + k * columns B)) as ([[q1 q2] sum] & -> & _);
    [| |..].
  - lia.
  - simpl. lia.
  - intros k [[q1 q2] sum] Hk [-> ->].
    destruct (zget_is_Some (data A) (p1 + k)) as [x ->]; [lia|].
    destruct (zget_is_Some (data B) (p2 + k * columns B)) as [y ->]; [nia|].
    simpl. eexists; split; [done|]. simpl. lia.
  - by eexists.
Qed.

Lemma matrix_dot_spec A B R ra ca cb :
  has_shape A ra ca → has_shape B ca cb → has_shape R ra cb →
  ∃ R', matrix_dot A B R = Some R' ∧ has_shape R' ra cb ∧
    ∀ row col, 0 ≤ row < ra → 0 ≤ col < cb →
      is_Some (MATRIX R' row col) ∧
      MATRIX R' row col = dot_sum A B (ca * row) col.
Proof.
  intros (HrA & HcA & ? & ? & HlA) (HrB & HcB & ? & ? & HlB) (HrR & HcR & ? & ? & HlR).
  unfold matrix_dot. rewrite for_loop_nested by lia.
  set (F := λ k, dot_sum A B (columns A * (k `div` columns R)) (k `mod` columns R)).
  edestruct (for_loop_inv (λ k '((p, d) : Z * list D),
      p = k ∧ length d = length (data R) ∧
      ∀ j, zget d j = if decide (0 ≤ j < k) then F j else zget (data R) j))
    as ([p d] & -> & _ & Hlen & Hd); [| |..].
  - rewrite HrR, HcR. nia.
  - simpl. split_and!; [done..|]. intros j. by rewrite decide_False by lia.
  - intros k [p d] Hk (-> & Hlen & Hd). rewrite HrR, HcR in Hk.
    assert (0 ≤ k `div` cb < ra ∧ 0 ≤ k `mod` cb < cb) as [Hq Hr].
    { split; [|apply Z.mod_pos_bound; nia].
      split; [apply Z.div_pos; nia|apply Z.div_lt_upper_bound; nia]. }
    destruct (dot_sum_is_Some A B (columns A * (k `div` columns R))
                (k `mod` columns R)) as [sum Hsum].
    + rewrite HcA, HcR. nia.
    + rewrite HcA, HcR, HlA. nia.
    + rewrite HcR. lia.
    + lia.
    + rewrite HcA, HcB, HcR, HlB. nia.
    + rewrite Hsum. simpl.
      assert (zset d k sum = Some (<[Z.to_nat k:=sum]> d)) as Hset
        by (apply zset_lt; rewrite Hlen; lia).
      rewrite Hset. simpl. eexists; split; [done|]. split_and!; [done| |].
      * by rewrite length_insert.
      * intros j. rewrite (zget_zset _ _ _ _ _ Hset).
        destruct (decide (j = k)) as [->|].
        -- by rewrite decide_True by lia.
        -- rewrite Hd. repeat case_decide; try done; lia.
  - simpl. eexists; split; [done|]. split.
    + unfold has_shape, with_data; simpl. rewrite Hlen. done.
    + intros row col Hrow Hcol. unfold MATRIX, with_data; simpl.
      rewrite Hd, HcR, HrR. rewrite decide_True by nia.
      unfold F. rewrite HcR, HcA.
      destruct (rowmajor_div_mod cb row col) as [-> ->]; [lia|].
      split; [|done].
      apply dot_sum_is_Some; rewrite ?HcA, ?HcB, ?HlA, ?HlB; nia.
Qed.

Lemma matrix_transpose_spec m R r c :
  has_shape m r c → has_shape R c r →
  ∃ R', matrix_transpose m R = Some R' ∧ has_shape R' c r ∧
    ∀ row col, 0 ≤ row < r → 0 ≤ col < c →
      is_Some (MATRIX m row col) ∧ MATRIX R' col row = MATRIX m row col.
Proof.
  intros (Hrm & Hcm & ? & ? & Hlm) (HrR & HcR & ? & ? & HlR).
  unfold matrix_transpose. rewrite for_loop_nested by lia.
  match goal with |- context [for_loop 0 ?n ?body ?d0] =>
    destruct (for_loop_scatter
      (λ k, (k `mod` columns m) * columns R + k `div` columns m)
      (λ k, zget (data m) k) body n d0)
    as (d' & -> & Hlen & Hin & _) end; [| |..].
  - nia.
  - intros i j Hi Hj Heq. rewrite Hrm, Hcm in Hi, Hj. rewrite Hcm, HcR in Heq.
    assert (0 < c) by nia.
    apply rowmajor_inj in Heq as [Hm Hd].
    + rewrite (Z.div_mod i c), (Z.div_mod j c) by lia. congruence.
    + split; [apply Z.div_pos; lia|apply Z.div_lt_upper_bound; nia].
    + split; [apply Z.div_pos; lia|apply Z.div_lt_upper_bound; nia].
  - intros i d Hi Hlen _. rewrite Hrm, Hcm in Hi. assert (0 < c) by nia.
    destruct (zget_is_Some (data m) i) as [x Hx]; [lia|].
    exists x. split; [done|]. rewrite Hcm, HcR, HlR.
    pose proof (Z.mod_pos_bound i c). pose proof (Z.div_pos i c).
    assert (i `div` c < r) by (apply Z.div_lt_upper_bound; nia).
    split; [nia|]. cbv beta. rewrite ?Hcm, ?HcR.
    replace (i `div` c * c + i `mod` c) with i
      by (pose proof (Z.div_mod i c); lia).
    by rewrite Hx.
  - simpl. eexists; split; [done|]. split.
    + unfold has_shape, with_data; simpl. by rewrite Hlen.
    + intros row col Hrow Hcol. unfold MATRIX, with_data; simpl.
      specialize (Hin (row * c + col)). rewrite Hrm, Hcm, HcR in Hin.
      destruct (rowmajor_div_mod c row col) as [Hq Hr]; [lia|].
      rewrite Hq, Hr in Hin. rewrite HcR, Hcm. rewrite Hin by nia.
      split; [|done]. apply zget_is_Some. nia.
Qed.

Lemma matrix_dot_transpose_spec A B R ra ca cb :
  has_shape A ra ca → has_shape B ca cb → has_shape R cb ra →
  ∃ R', matrix_dot_transpose A B R = Some R' ∧ has_shape R' cb ra ∧
    ∀ row col, 0 ≤ row < cb → 0 ≤ col < ra →
      is_Some (MATRIX R' row col) ∧
      MATRIX R' row col = dot_sum A B (ca * col) row.
Proof.
  intros (HrA & HcA & ? & ? & HlA) (HrB & HcB & ? & ? & HlB) (HrR & HcR & ? & ? & HlR).
  unfold matrix_dot_transpose. rewrite for_loop_nested by lia.
  match goal with |- context [for_loop 0 ?n ?body ?d0] =>
    destruct (for_loop_scatter
      (λ k, (k `mod` rows R) * columns R + k `div` rows R)
      (λ k, dot_sum A B (columns A * (k `div` rows R)) (k `mod` rows R))
      body n d0)
    as (d' & -> & Hlen & Hin & _) end; [| |..].
  - nia.
  - intros i j Hi Hj Heq. rewrite HrR, HcR in Hi, Hj. rewrite HrR, HcR in Heq.
    assert (0 < cb) by nia.
    apply rowmajor_inj in Heq as [Hm Hd].
    + rewrite (Z.div_mod i cb), (Z.div_mod j cb) by lia. congruence.
    + split; [apply Z.div_pos; lia|apply Z.div_lt_upper_bound; nia].
    + split; [apply Z.div_pos; lia|apply Z.div_lt_upper_bound; nia].
  - intros i d Hi Hlen _. rewrite HrR, HcR in Hi. assert (0 < cb) by nia.
    pose proof (Z.mod_pos_bound i cb). pose proof (Z.div_pos i cb).
    assert (i `div` cb < ra) by (apply Z.div_lt_upper_bound; nia).
    destruct (dot_sum_is_Some A B (columns A * (i `div` rows R)) (i `mod` rows R))
      as [sum Hsum].
    + rewrite HcA, HrR. nia.
    + rewrite HcA, HrR, HlA. nia.
    + rewrite HrR. lia.
    + lia.
    + rewrite HcA, HcB, HrR, HlB. nia.
    + exists sum. split; [done|]. split; [rewrite HrR, HcR, HlR; nia|].
      cbv beta. by rewrite Hsum.
  - simpl. eexists; split; [done|]. split.
    + unfold has_shape, with_data; simpl. by rewrite Hlen.
    + intros row col Hrow Hcol. unfold MATRIX, with_data; simpl.
      specialize (Hin (col * cb + row)). rewrite HrR, HcR, HcA in Hin.
      destruct (rowmajor_div_mod cb col row) as [Hq Hr]; [lia|].
      rewrite Hq, Hr in Hin. rewrite HcR. rewrite Hin by nia.
      split; [|done].
      apply dot_sum_is_Some; rewrite ?HcA, ?HcB, ?HlA, ?HlB; nia.
Qed.

End matrix_products.

Section dot_transpose.
Context {D : Type} `{!Scalar D}.

(** C7.  For matrices [A] ([ra] x [ca]) and [B] ([ca] x [cb]),
    [matrix_dot_transpose(A, B, R)] stores in [R] exactly what [matrix_dot]
    followed by [matrix_transpose] stores: all three calls run inside their
    blocks, cell [(i, j)] of the result of [matrix_dot_transpose] is cell
    [(j, i)] of the result of [matrix_dot] (the two cells are produced by the
    same run of the summation loop, so the equality is exact for any
    arithmetic), and the two blocks are equal. *)
Theorem matrix_dot_transpose_is_transposed_dot (A B R P T : Matrix D) ra ca cb :
  has_shape A ra ca → has_shape B ca cb →
  has_shape R cb ra → has_shape P ra cb → has_shape T cb ra →
  ∃ R' P' T',
    matrix_dot_transpose A B R = Some R' ∧
    matrix_dot A B P = Some P' ∧
    matrix_transpose P' T = Some T' ∧
    (∀ i j, 0 ≤ i < cb → 0 ≤ j < ra →
       is_Some (MATRIX R' i j) ∧ MATRIX R' i j = MATRIX P' j i) ∧
    data R' = data T'.
Proof.
  intros HA HB HR HP HT.
  destruct (matrix_dot_transpose_spec A B R ra ca cb) as (R' & ER & HR' & HRc);
    [done..|].
  destruct (matrix_dot_spec A B P ra ca cb) as (P' & EP & HP' & HPc); [done..|].
  destruct (matrix_transpose_spec P' T ra cb) as (T' & ET & HT' & HTc); [done..|].
  exists R', P', T'. split_and!; [done..| |].
  - intros i j Hi Hj. destruct (HRc i j Hi Hj) as [? ->].
    destruct (HPc j i Hj Hi) as [? ->]. split; [|done].
    destruct HA as (HrA & HcA & ? & ? & HlA), HB as (HrB & HcB & ? & ? & HlB).
    apply dot_sum_is_Some; rewrite ?HcA, ?HcB, ?HlA, ?HlB; nia.
  - apply zget_ext. intros k.
    destruct HR' as (_ & HcR & ? & ? & HlR), HT' as (_ & HcT & _ & _ & HlT).
    destruct (decide (0 ≤ k < cb * ra)) as [Hk|Hk].
    + assert (0 < ra) by nia.
      assert (0 ≤ k `div` ra < cb)
        by (split; [apply Z.div_pos; lia|apply Z.div_lt_upper_bound; nia]).
      pose proof (Z.mod_pos_bound k ra).
      destruct (HRc (k `div` ra) (k `mod` ra)) as [_ E1]; [lia..|].
      destruct (HTc (k `mod` ra) (k `div` ra)) as [_ E2]; [lia..|].
      destruct (HPc (k `mod` ra) (k `div` ra)) as [_ E3]; [lia..|].
      rewrite E3, <- E1 in E2. unfold MATRIX in E2. rewrite HcR, HcT in E2.
      replace (k `div` ra * ra + k `mod` ra) with k in E2
        by (pose proof (Z.div_mod k ra); lia).
      done.
    + rewrite !zget_None; [done|lia..].
Qed.

End dot_transpose.

Lemma matrix_dot_transpose_is_transposed_dot_witness :
  let A := mkMatrix 2 3 [1; 2; 3; 4; 5; 6]%float in
  let B := mkMatrix 3 2 [7; 8; 9; 10; 11; 12]%float in
  let R := mkMatrix 2 2 [0; 0; 0; 0]%float in
  ∃ R' P' T',
    matrix_dot_transpose (Scalar0 := run64) A B R = Some R' ∧
    matrix_dot (Scalar0 := run64) A B R = Some P' ∧
    matrix_transpose P' R = Some T' ∧
    (∀ i j, 0 ≤ i < 2 → 0 ≤ j < 2 →
       is_Some (MATRIX R' i j) ∧ MATRIX R' i j = MATRIX P' j i) ∧
    data R' = data T'.
Proof.
  intros A B R.
  apply (matrix_dot_transpose_is_transposed_dot (Scalar0 := run64) A B R R R 2 3 2);
    (split_and!; [reflexivity|reflexivity|lia|lia|reflexivity]).
Defined.

(** ** binary64 *)


Lemma SFcompare_refl (x : spec_float) :
  x ≠ S754_nan → SFcompare x x = Some Eq.
Proof.
  destruct x as [s|s| |s m e]; try done; intros _; simpl.
  - by destruct s.
  - rewrite Z.compare_refl.
    change (Pos.compare_cont Eq m m) with (Pos.compare m m).
    rewrite Pos.compare_refl. by destruct s.
Qed.

Lemma is_nan_Prim2SF_iff (x : float) : is_nan x = true ↔ Prim2SF x = S754_nan.
Proof.
  unfold is_nan. rewrite FloatAxioms.eqb_spec. unfold SFeqb. split.
  - destruct (Prim2SF x) as [s|s| |s m e] eqn:E; [| |done|];
      by rewrite SFcompare_refl.
  - by intros ->.
Qed.








Lemma SFcompare_antisym (x y : spec_float) :
  SFcompare y x = CompOpp <$> SFcompare x y.
Proof.
  destruct x as [sx|sx| |sx mx ex], y as [sy|sy| |sy my ey];
    try done; try (by destruct sx); try (by destruct sy);
    try (by destruct sx, sy).
  cbn [SFcompare fmap option_fmap option_map].
  rewrite (Z.compare_antisym ex ey).
  assert (Pos.compare_cont Eq my mx = CompOpp (Pos.compare_cont Eq mx my))
    as -> by (by rewrite Pos.compare_cont_antisym).
  destruct sx, sy; try done;
    by destruct (ex ?= ey), (Pos.compare_cont Eq mx my).
Qed.

(** For numbers, [x <= y] is the negation of [y < x]. *)
Lemma not_ltb_leb (x y : float) :
  is_nan x = false → is_nan y = false →
  (y <? x)%float = false → (x <=? y)%float = true.
Proof.
  intros Hx Hy. rewrite ltb_spec, leb_spec. unfold SFltb, SFleb.
  rewrite (SFcompare_antisym (Prim2SF x) (Prim2SF y)).
  assert (Prim2SF x ≠ S754_nan) as Nx.
  { intros E. apply is_nan_Prim2SF_iff in E. congruence. }
  assert (Prim2SF y ≠ S754_nan) as Ny.
  { intros E. apply is_nan_Prim2SF_iff in E. congruence. }
  destruct (SFcompare (Prim2SF x) (Prim2SF y)) as [[]|] eqn:E; try done.
  by destruct (Prim2SF x), (Prim2SF y).
Qed.

(** ** activation.c: the sigmoid *)




(** ** random.c: the end points of [deepc_random_double] *)




(** ** ddpg.c: the replay memory *)

Section data_copy.
Context {D : Type}.
Implicit Types dst src : list D.

Lemma ddpg_data_copy_Some dst doff src soff len d' :
  ddpg_data_copy dst doff src soff len = Some d' →
  length d' = length dst ∧
  (∀ i, 0 ≤ i < len →
     is_Some (zget src (soff + i)) ∧ 0 ≤ doff + i < Z.of_nat (length dst)) ∧
  (∀ k, zget d' k = if decide (doff ≤ k < doff + len)
                    then zget src (soff + (k - doff)) else zget dst k).
Proof.
  unfold ddpg_data_copy. destruct (decide (len ≤ 0)) as [Hneg|Hpos].
  { rewrite for_loop_empty by lia. intros [= <-]. split_and!; [done|intros; lia|].
    intros k. by rewrite decide_False by lia. }
  intros Hloop.
  eapply (for_loop_inv_Some (λ i d,
    length d = length dst ∧
    (∀ j, 0 ≤ j < i →
       is_Some (zget src (soff + j)) ∧ 0 ≤ doff + j < Z.of_nat (length dst)) ∧
    (∀ k, zget d k = if decide (doff ≤ k < doff + i)
                     then zget src (soff + (k - doff)) else zget dst k)))
    in Hloop; [exact Hloop| | |].
  - lia.
  - split_and!; [done|intros; lia|]. intros k. by rewrite decide_False by lia.
  - intros i d d2 Hi (Hlen & Hbnd & Hd) Hb.
    destruct (zget src (soff + i)) as [x|] eqn:Ex; [|done]. simpl in Hb.
    pose proof (zset_Some _ _ _ _ Hb) as [Hrange _].
    split_and!.
    + by rewrite (zset_length _ _ _ _ Hb).
    + intros j Hj. destruct (decide (j = i)) as [->|].
      * rewrite Ex, <- Hlen. split; [by eexists|done].
      * apply Hbnd. lia.
    + intros k. rewrite (zget_zset _ _ _ _ _ Hb), Hd.
      destruct (decide (k = doff + i)) as [->|].
      * rewrite decide_True by lia. rewrite <- Ex. f_equal. lia.
      * repeat case_decide; try done; lia.
Qed.

Lemma ddpg_data_copy_is_Some dst doff src soff len :
  (∀ i, 0 ≤ i < len →
     is_Some (zget src (soff + i)) ∧ 0 ≤ doff + i < Z.of_nat (length dst)) →
  is_Some (ddpg_data_copy dst doff src soff len).
Proof.
  intros Hbnd. unfold ddpg_data_copy. destruct (decide (len ≤ 0)) as [Hneg|Hpos].
  { rewrite for_loop_empty by lia. by eexists. }
  edestruct (for_loop_inv (λ (_ : Z) (d : list D), length d = length dst))
    as (d' & -> & _); [| |..].
  - lia.
  - done.
  - intros i d Hi Hlen. destruct (Hbnd i Hi) as [[x ->] Hr]. simpl.
    rewrite zset_lt by lia. eexists; split; [done|]. by rewrite length_insert.
  - by eexists.
Qed.

End data_copy.

Section replay.
Context {D : Type} `{!Scalar D}.
Implicit Types ddpg : DDPG D.

(** C5.  On an agent whose [lastStateValid] is false, [ddpg_observe] copies
    [state] into [lastState], sets [lastStateValid] and changes nothing else:
    the replay memory, [memoryUsed] and [memoryIdx] keep their values, so
    [memoryUsed] is still [0] after the first observation of a fresh agent. *)
Theorem ddpg_observe_primes ddpg (action : list D) reward (state : list D) terminal :
  lastStateValid ddpg = 0 →
  Z.of_nat (length (lastState ddpg)) = stateSize ddpg →
  stateSize ddpg ≤ Z.of_nat (length state) →
  ∃ ddpg',
    ddpg_observe ddpg action reward state terminal = Some ddpg' ∧
    lastState ddpg' = take (Z.to_nat (stateSize ddpg)) state ∧
    lastStateValid ddpg' = 1 ∧
    memory ddpg' = memory ddpg ∧
    memoryUsed ddpg' = memoryUsed ddpg ∧
    memoryIdx ddpg' = memoryIdx ddpg ∧
    (memoryUsed ddpg = 0 → memoryUsed ddpg' = 0) ∧
    ddpg' = set_lastStateValid (set_lastState ddpg (lastState ddpg')) 1.
Proof.
  intros Hv Hlen Hst. unfold ddpg_observe. rewrite decide_True by done.
  destruct (ddpg_data_copy_is_Some (lastState ddpg) 0 state 0 (stateSize ddpg))
    as [ls Hls].
  { intros i Hi. split; [apply zget_is_Some|]; lia. }
  rewrite Hls. simpl. eexists. split; [done|]. simpl.
  apply ddpg_data_copy_Some in Hls as (Hl & _ & Hd).
  split_and!; try done.
  apply zget_ext. intros k. rewrite Hd. unfold zget at 3.
  destruct (decide (0 ≤ k < 0 + stateSize ddpg)) as [Hk|Hk].
  - rewrite decide_True by lia. rewrite lookup_take_lt by lia.
    unfold zget. rewrite decide_True by lia. f_equal. lia.
  - case_decide; [|apply zget_None; lia].
    rewrite lookup_take_ge by lia. apply zget_None. lia.
Qed.

(** A stored observation fills row [memoryIdx] and advances the ring. *)
Lemma ddpg_observe_stores ddpg (action : list D) reward (state : list D) terminal ddpg' :
  replay_wf ddpg → lastStateValid ddpg ≠ 0 →
  0 ≤ memoryIdx ddpg < memorySize ddpg →
  ddpg_observe ddpg action reward state terminal = Some ddpg' →
  stateSize ddpg' = stateSize ddpg ∧ actionSize ddpg' = actionSize ddpg ∧
  memorySize ddpg' = memorySize ddpg ∧
  lastStateValid ddpg' = lastStateValid ddpg ∧
  replay_wf ddpg' ∧
  (∀ j, 0 ≤ j < stateSize ddpg →
     is_Some (zget (lastState ddpg') j) ∧ zget (lastState ddpg') j = zget state j) ∧
  memoryIdx ddpg' = (memoryIdx ddpg + 1) `mod` memorySize ddpg ∧
  memoryUsed ddpg' =
    (if decide (memoryUsed ddpg < memorySize ddpg)
     then memoryUsed ddpg + 1 else memoryUsed ddpg) ∧
  row_holds (stateSize ddpg) (actionSize ddpg) (memory ddpg') (memoryIdx ddpg)
    (mkTransition (lastState ddpg) action reward state
       (if decide (terminal > 0) then d_of_int 1 else d_of_int 0)).
Proof.
  intros (HS & HA & HM & (Hr & Hc & _ & _ & Hl) & Hls) Hv Hidx.
  unfold ddpg_observe. rewrite decide_False by done.
  set (flag := if decide (terminal > 0) then d_of_int 1 else d_of_int 0).
  set (S := stateSize ddpg) in *. set (A := actionSize ddpg) in *.
  set (idx := memoryIdx ddpg) in *. set (M := memorySize ddpg) in *.
  unfold addr. rewrite Hc.
  set (base := idx * (A + 2 * S + 2)).
  destruct (ddpg_data_copy _ _ (lastState ddpg) _ _) as [d1|] eqn:E1; [|done]; simpl.
  destruct (ddpg_data_copy d1 _ action _ _) as [d2|] eqn:E2; [|done]; simpl.
  destruct (zset d2 _ reward) as [d3|] eqn:E3; [|done]; simpl.
  destruct (ddpg_data_copy d3 _ state _ _) as [d4|] eqn:E4; [|done]; simpl.
  destruct (zset d4 _ flag) as [d5|] eqn:E5; [|done]; simpl.
  destruct (ddpg_data_copy (lastState ddpg) _ state _ _) as [ls|] eqn:E6; [|done]; simpl.
  rewrite decide_False by (fold M; lia).
  apply ddpg_data_copy_Some in E1 as (L1 & B1 & G1).
  apply ddpg_data_copy_Some in E2 as (L2 & B2 & G2).
  apply ddpg_data_copy_Some in E4 as (L4 & B4 & G4).
  apply ddpg_data_copy_Some in E6 as (L6 & B6 & G6).
  pose proof (zset_length _ _ _ _ E3) as L3.
  pose proof (zset_length _ _ _ _ E5) as L5.
  pose proof (λ j, zget_zset _ _ _ _ j E3) as G3.
  pose proof (λ j, zget_zset _ _ _ _ j E5) as G5.
  assert (length d5 = length (data (memory ddpg))) as L by congruence.
  assert (∀ k, zget d5 k =
    if decide (k = base + (S + A + 1 + S)) then Some flag
    else if decide (base + (S + A + 1) ≤ k < base + (S + A + 1) + S)
         then zget state (k - (base + (S + A + 1)))
    else if decide (k = base + (S + A)) then Some reward
    else if decide (base + S ≤ k < base + S + A) then zget action (k - (base + S))
    else if decide (base ≤ k < base + S) then zget (lastState ddpg) (k - base)
    else zget (data (memory ddpg)) k) as G.
  { intros k. rewrite G5, G4, G3, G2, G1.
    repeat case_decide; try done; try lia; f_equal; lia. }
  assert (∀ X : DDPG D,
    X = set_memoryIdx (set_lastState (set_memory ddpg (with_data (memory ddpg) d5)) ls)
          (Z.rem (idx + 1) M) ∨
    X = set_memoryUsed
          (set_memoryIdx (set_lastState (set_memory ddpg (with_data (memory ddpg) d5)) ls)
             (Z.rem (idx + 1) M)) (memoryUsed ddpg + 1) →
    stateSize X = S ∧ actionSize X = A ∧ memorySize X = M ∧
    lastStateValid X = lastStateValid ddpg ∧ replay_wf X ∧
    (∀ j, 0 ≤ j < S →
       is_Some (zget (lastState X) j) ∧ zget (lastState X) j = zget state j) ∧
    memoryIdx X = (idx + 1) `mod` M ∧
    row_holds S A (memory X) idx (mkTransition (lastState ddpg) action reward state flag))
    as HX.
  { intros X HXeq. unfold replay_wf, has_shape, row_holds.
    assert (stateSize X = S ∧ actionSize X = A ∧ memorySize X = M ∧
            lastStateValid X = lastStateValid ddpg ∧
            memory X = with_data (memory ddpg) d5 ∧ lastState X = ls ∧
            memoryIdx X = Z.rem (idx + 1) M) as (-> & -> & -> & -> & -> & -> & ->)
      by (destruct HXeq as [-> | ->]; done).
    split_and!; try done; try lia; simpl; rewrite ?L6, ?L; try done.
    - intros j Hj. rewrite G6. rewrite decide_True by lia.
      replace (0 + (j - 0)) with j by lia.
      destruct (B6 j Hj) as [Hs _]. by rewrite Z.add_0_l in Hs.
    - apply Z.rem_mod_nonneg; lia.
    - intros j Hj. unfold MATRIX; simpl. rewrite Hc. fold base.
      rewrite G. repeat case_decide; try lia.
      replace (base + j - base) with j by lia. split; [|done].
      apply zget_is_Some. lia.
    - intros j Hj. unfold MATRIX; simpl. rewrite Hc. fold base.
      rewrite G. repeat case_decide; try lia.
      replace (base + (S + j) - (base + S)) with j by lia. split; [|done].
      destruct (B2 j Hj) as [Hs _]. by rewrite Z.add_0_l in Hs.
    - unfold MATRIX; simpl. rewrite Hc. fold base.
      rewrite G. repeat case_decide; try lia. done.
    - intros j Hj. unfold MATRIX; simpl. rewrite Hc. fold base.
      rewrite G. repeat case_decide; try lia.
      replace (base + (S + A + 1 + j) - (base + (S + A + 1))) with j by lia.
      split; [|done]. destruct (B4 j Hj) as [Hs _]. by rewrite Z.add_0_l in Hs.
    - unfold MATRIX; simpl. rewrite Hc. fold base.
      rewrite G. repeat case_decide; try lia. done. }
  intros Hob. case_decide; injection Hob as <-.
  - destruct (HX _ (or_intror eq_refl)) as (? & ? & ? & ? & ? & ? & ? & ?).
    split_and!; try done. simpl. by rewrite decide_True.
  - destruct (HX _ (or_introl eq_refl)) as (? & ? & ? & ? & ? & ? & ? & ?).
    split_and!; try done. simpl. by rewrite decide_False.
Qed.

End replay.

(** Destructs the first step of a computation in the [option] monad that is
    known to have returned. *)
Ltac bind_step H :=
  match type of H with
  | (?m ≫= _) = Some _ =>
      let E := fresh "E" in
      destruct m as [?|] eqn:E; simpl in H; [|discriminate H]
  | (let '(_, _) := ?p in _) = Some _ => destruct p; simpl in H
  | (match ?p with (_, _) => _ end) = Some _ => destruct p; simpl in H
  | (if decide ?P then _ else _) = Some _ => destruct (decide P); simpl in H
  | Some _ = Some _ => injection H as H
  end.

Section frames.
Context {D : Type} `{!Scalar D}.
Implicit Types ddpg : DDPG D.

Lemma ddpg_train_replay ddpg g gamma ddpg' g' :
  ddpg_train ddpg g gamma = Some (ddpg', g') → replay_part ddpg' = replay_part ddpg.
Proof.
  unfold ddpg_train. intros H. repeat bind_step H; by subst.
Qed.

Lemma ddpg_action_replay ddpg g state ddpg' g' :
  ddpg_action ddpg g state = Some (ddpg', g') → replay_part ddpg' = replay_part ddpg.
Proof.
  unfold ddpg_action. intros H. repeat bind_step H; by subst.
Qed.

Lemma ddpg_update_target_networks_replay ddpg ddpg' :
  ddpg_update_target_networks ddpg = Some ddpg' → replay_part ddpg' = replay_part ddpg.
Proof.
  unfold ddpg_update_target_networks. intros H. repeat bind_step H; by subst.
Qed.

End frames.

Section ring.
Context {D : Type} `{!Scalar D}.
Implicit Types ddpg : DDPG D.

Lemma ring_prev_index (K M : Z) :
  0 < M → ((K + 1) `mod` M - 1) `mod` M = K `mod` M.
Proof. intros. rewrite Zminus_mod_idemp_l. f_equal. lia. Qed.

Lemma run_calls_snoc (s : DDPG D * Rand) cs c :
  run_calls s (cs ++ [c]) = run_calls s cs ≫= λ s', call s' c.
Proof. unfold run_calls. by rewrite foldl_snoc. Qed.

Lemma replay_log_snoc (lg : ReplayLog) cs c :
  replay_log lg (cs ++ [c]) = log_call (replay_log lg cs) c.
Proof. unfold replay_log. by rewrite foldl_snoc. Qed.

(** A call that leaves the replay part alone keeps the invariant. *)
Lemma ring_inv_frame ddpg0 lg ddpg ddpg' :
  replay_part ddpg' = replay_part ddpg → ring_inv ddpg0 lg ddpg → ring_inv ddpg0 lg ddpg'.
Proof.
  unfold replay_part. intros [= HS HA HM HU HI Hmem HL HV].
  destruct lg as [[known prev] stored]. unfold ring_inv, replay_wf.
  by rewrite HS, HA, HM, HU, HI, Hmem, HL, HV.
Qed.

Lemma ring_inv_call ddpg0 lg ddpg g c ddpg' g' :
  ring_inv ddpg0 lg ddpg → call (ddpg, g) c = Some (ddpg', g') →
  ring_inv ddpg0 (log_call lg c) ddpg'.
Proof.
  intros Hinv Hcall. destruct c as [action reward state terminal| |state|gamma|];
    simpl in Hcall.
  - (* ddpg_observe *)
    destruct (ddpg_observe ddpg action reward state terminal) as [d1|] eqn:Hob;
      [|done]. injection Hcall as -> _.
    destruct lg as [[known prev] stored]. simpl.
    destruct Hinv as (HS & HA & HM & Hwf & Hknown & Hprev & Hused & Hidx & Hrow).
    destruct known.
    + (* a stored observation *)
      assert (lastStateValid ddpg ≠ 0) as Hv by (by apply Hknown).
      assert (0 < memorySize ddpg0) as HMpos
        by (rewrite <- HM; apply Hwf).
      assert (0 ≤ memoryIdx ddpg < memorySize ddpg) as Hrange.
      { rewrite Hidx, HM. by apply Z.mod_pos_bound. }
      destruct (ddpg_observe_stores _ _ _ _ _ _ Hwf Hv Hrange Hob)
        as (HS' & HA' & HM' & HV' & Hwf' & HL' & HI' & HU' & Hrow').
      unfold ring_inv. rewrite length_app, Nat2Z.inj_add. simpl.
      change (Z.of_nat 1) with 1.
      split_and!; try congruence.
      * intros _ j Hj. apply HL'. by rewrite HS.
      * rewrite HU', Hused, HM. destruct (decide (_ `min` _ < _)); lia.
      * rewrite HI', Hidx, HM. by rewrite Z.add_mod_idemp_l by lia.
      * intros tr. rewrite last_snoc. intros [= <-].
        rewrite HI', Hidx, HM. rewrite Z.add_mod_idemp_l by lia.
        rewrite ring_prev_index by lia.
        rewrite <- Hidx, <- HS, <- HA.
        destruct Hrow' as (R1 & R2 & R3 & R4 & R5). unfold row_holds; simpl.
        split_and!; try done.
        intros j Hj. destruct (R1 j Hj) as [Hs Heq]. simpl. split; [done|].
        rewrite Heq. apply Hprev; [done|]. by rewrite <- HS.
    + (* the first observation of an episode *)
      assert (lastStateValid ddpg = 0) as Hv.
      { destruct (decide (lastStateValid ddpg = 0)) as [|Hn]; [done|].
        by apply Hknown in Hn. }
      unfold ddpg_observe in Hob. rewrite decide_True in Hob by done.
      destruct (ddpg_data_copy _ _ _ _ _) as [ls|] eqn:Hls; [|done].
      injection Hob as <-.
      apply ddpg_data_copy_Some in Hls as (Hlen & Hb & Hg).
      unfold ring_inv, replay_wf; simpl. rewrite Hlen.
      split_and!; try done; try apply Hwf.
      intros _ j Hj. rewrite Hg, decide_True by lia. f_equal. lia.
  - (* ddpg_new_episode *)
    injection Hcall as <- _. destruct lg as [[known prev] stored].
    destruct Hinv as (HS & HA & HM & Hwf & Hknown & Hprev & Hused & Hidx & Hrow).
    unfold ring_inv, replay_wf, ddpg_new_episode; simpl.
    split_and!; try done; try apply Hwf.
  - destruct lg as [[known prev] stored].
    eapply ring_inv_frame; [|exact Hinv]. by eapply ddpg_action_replay.
  - destruct lg as [[known prev] stored].
    eapply ring_inv_frame; [|exact Hinv]. by eapply ddpg_train_replay.
  - destruct (ddpg_update_target_networks ddpg) as [d1|] eqn:E; [|done].
    injection Hcall as -> _. destruct lg as [[known prev] stored].
    eapply ring_inv_frame; [|exact Hinv].
    by eapply ddpg_update_target_networks_replay.
Qed.

Lemma ring_inv_run ddpg0 lg0 g0 cs ddpg g :
  ring_inv ddpg0 lg0 ddpg0 → run_calls (ddpg0, g0) cs = Some (ddpg, g) →
  ring_inv ddpg0 (replay_log lg0 cs) ddpg.
Proof.
  intros H0. revert ddpg g. induction cs as [|c cs IH] using rev_ind; intros ddpg g.
  - intros [= <- _]. done.
  - rewrite run_calls_snoc, replay_log_snoc.
    destruct (run_calls (ddpg0, g0) cs) as [[d1 g1]|] eqn:E; [|done]. simpl.
    intros Hc. eapply ring_inv_call; [|done]. by eapply IH.
Qed.

End ring.

Section fresh.
Context {D : Type} `{!Scalar D}.

Lemma matrix_create_shape (heap : Z → D) r c :
  0 ≤ r → 0 ≤ c → has_shape (matrix_create heap r c) r c.
Proof.
  intros. unfold has_shape, matrix_create; simpl.
  rewrite length_fmap, length_seqZ. split_and!; try done. nia.
Qed.

(** The replay part of the agent that [ddpg_create] returns. *)
Lemma ddpg_create_fresh heap iheap g S A nz aD aL cD cL M B (ddpg : DDPG D) g' :
  0 ≤ S → 0 ≤ A → 0 < M →
  ddpg_create heap iheap g S A nz aD aL cD cL M B = Some (ddpg, g') →
  stateSize ddpg = S ∧ actionSize ddpg = A ∧ memorySize ddpg = M ∧
  replay_wf ddpg ∧ lastStateValid ddpg = 0 ∧ memoryUsed ddpg = 0 ∧
  memoryIdx ddpg = 0.
Proof.
  intros HS HA HM H. unfold ddpg_create in H. repeat bind_step H.
  destruct H as [<- ?]. unfold replay_wf; simpl. split_and!; try done.
  - apply matrix_create_shape; lia.
  - rewrite length_fmap, length_seqZ. lia.
Qed.

(** C2.  Take a fresh agent with replay capacity [M] and any sequence of
    calls to it that returns.  Let [stored] be the observations made while
    [lastStateValid] was true (the log keeps its own flag, which is shown to
    agree with [lastStateValid]) and [K] their number.  Then
    [memoryUsed = min(K, M)], [memoryIdx = K mod M], and row
    [(memoryIdx - 1) mod M] holds the last stored tuple in the column order
    [prevState | action | reward | nextState | terminal]. *)
Theorem replay_ring_after_K_observations
    heap iheap g0 S A nz aD aL cD cL M B (ddpg0 : DDPG D) g1 cs ddpg g :
  0 ≤ S → 0 ≤ A → 0 < M →
  ddpg_create heap iheap g0 S A nz aD aL cD cL M B = Some (ddpg0, g1) →
  run_calls (ddpg0, g1) cs = Some (ddpg, g) →
  let '(known, _, stored) := replay_log (false, [], []) cs in
  let K := Z.of_nat (length stored) in
  (known = true ↔ lastStateValid ddpg ≠ 0) ∧
  memoryUsed ddpg = Z.min K M ∧
  memoryIdx ddpg = K `mod` M ∧
  ∀ tr, last stored = Some tr →
    row_holds S A (memory ddpg) ((memoryIdx ddpg - 1) `mod` M) tr.
Proof.
  intros HS HA HM Hcreate Hrun.
  destruct (ddpg_create_fresh _ _ _ _ _ _ _ _ _ _ _ _ _ _ HS HA HM Hcreate)
    as (<- & <- & <- & Hwf & Hv & Hu & Hi).
  assert (ring_inv ddpg0 (false, [], []) ddpg0) as H0.
  { unfold ring_inv; simpl. rewrite Hv, Hu, Hi, Z.mod_0_l by lia.
    split_and!; try done; lia. }
  pose proof (ring_inv_run _ _ _ _ _ _ H0 Hrun) as Hinv.
  destruct (replay_log (false, [], []) cs) as [[known prev] stored].
  destruct Hinv as (_ & _ & _ & _ & Hknown & _ & Hused & Hidx & Hrow).
  done.
Qed.

End fresh.

Lemma replay_ring_after_K_observations_witness :
  match example_create with
  | Some (ddpg0, g1) =>
      match run_calls (ddpg0, g1) example_calls with
      | Some (ddpg, _) =>
          let '(known, _, stored) := replay_log (false, [], []) example_calls in
          let K := Z.of_nat (length stored) in
          (known = true ↔ lastStateValid ddpg ≠ 0) ∧
          memoryUsed ddpg = Z.min K 4 ∧
          memoryIdx ddpg = K `mod` 4 ∧
          ∀ tr, last stored = Some tr →
            row_holds 2 1 (memory ddpg) ((memoryIdx ddpg - 1) `mod` 4) tr
      | None => False
      end
  | None => False
  end.
Proof.
  assert (ddpg_create example_heap (λ _, 0) example_rand 2 1 None 1 [2] 1 [2] 4 2
          = example_create) as Hc by (vm_compute; reflexivity).
  unfold example_create in *.
  match type of Hc with
  | _ = Some (?d, ?g) =>
      destruct (run_calls (d, g) example_calls) as [[ddpg g2]|] eqn:Hr
  end.
  - exact (replay_ring_after_K_observations
             _ _ _ 2 1 _ _ _ _ _ 4 _ _ _ _ _ _
             ltac:(lia) ltac:(lia) ltac:(lia) Hc Hr).
  - by vm_compute in Hr.
Defined.

Lemma ddpg_observe_primes_witness :
  match example_create with
  | Some (ddpg, _) =>
      ∃ ddpg',
        ddpg_observe ddpg [0]%float 0%float [0.5; 0.125]%float 0 = Some ddpg' ∧
        lastState ddpg' = take (Z.to_nat (stateSize ddpg)) [0.5; 0.125]%float ∧
        lastStateValid ddpg' = 1 ∧
        memory ddpg' = memory ddpg ∧
        memoryUsed ddpg' = memoryUsed ddpg ∧
        memoryIdx ddpg' = memoryIdx ddpg ∧
        (memoryUsed ddpg = 0 → memoryUsed ddpg' = 0) ∧
        ddpg' = set_lastStateValid (set_lastState ddpg (lastState ddpg')) 1
  | None => False
  end.
Proof.
  unfold example_create.
  apply (ddpg_observe_primes _ [0]%float 0%float [0.5; 0.125]%float 0);
    [reflexivity|reflexivity|simpl; lia].
Defined.

(** ** Elementwise operations of matrix.c *)

Lemma for_loop_pointwise_Some {A} (F : Z → option A)
    (body : Z → list A → option (list A)) n (d0 d' : list A) :
  (∀ i d, 0 ≤ i < n → (∀ j, i ≤ j → zget d j = zget d0 j) →
     body i d = F i ≫= zset d i) →
  for_loop 0 n body d0 = Some d' →
  length d' = length d0 ∧
  (∀ k, 0 ≤ k < n → is_Some (F k) ∧ k < Z.of_nat (length d0)) ∧
  (∀ k, zget d' k = if decide (0 ≤ k < n) then F k else zget d0 k).
Proof.
  intros Hbody. destruct (decide (n ≤ 0)) as [Hneg|Hpos].
  { rewrite for_loop_empty by lia. intros [= <-]. split_and!; [done|intros; lia|].
    intros k. by rewrite decide_False by lia. }
  intros Hloop.
  eapply (for_loop_inv_Some (λ i d,
    length d = length d0 ∧
    (∀ k, 0 ≤ k < i → is_Some (F k) ∧ k < Z.of_nat (length d0)) ∧
    (∀ k, zget d k = if decide (0 ≤ k < i) then F k else zget d0 k)))
    in Hloop; [exact Hloop| | |].
  - lia.
  - split_and!; [done|intros; lia|]. intros k. by rewrite decide_False by lia.
  - intros i d d2 Hi (Hlen & Hbnd & Hd) Hb. rewrite Hbody in Hb; [|done|].
    2:{ intros j Hj. rewrite Hd. by rewrite decide_False by lia. }
    destruct (F i) as [y|] eqn:EF; [|done]. simpl in Hb.
    pose proof (zset_Some _ _ _ _ Hb) as [Hrange _].
    split_and!.
    + by rewrite (zset_length _ _ _ _ Hb).
    + intros k Hk. destruct (decide (k = i)) as [->|].
      * rewrite EF. split; [by eexists|lia].
      * apply Hbnd. lia.
    + intros k. rewrite (zget_zset _ _ _ _ _ Hb), Hd.
      destruct (decide (k = i)) as [->|].
      * by rewrite decide_True by lia.
      * destruct (decide (0 ≤ k < i)), (decide (0 ≤ k < i + 1)); try done; lia.
Qed.

Section elementwise.
Context {D : Type} `{!Scalar D}.
Implicit Types m dst src : Matrix D.

Lemma with_data_Some m (o : option (list D)) m' :
  with_data m <$> o = Some m' →
  ∃ d, o = Some d ∧ m' = with_data m d ∧ rows m' = rows m ∧ columns m' = columns m.
Proof. destruct o as [d|]; [|done]. intros [= <-]. by exists d. Qed.

Lemma matrix_copy_Some dst src m :
  matrix_copy dst src = Some m →
  rows m = rows dst ∧ columns m = columns dst ∧
  length (data m) = length (data dst) ∧
  (∀ k, 0 ≤ k < rows dst * columns dst → is_Some (zget (data m) k)) ∧
  ∀ k, zget (data m) k = if decide (0 ≤ k < rows dst * columns dst)
                         then zget (data src) k else zget (data dst) k.
Proof.
  unfold matrix_copy. intros (d & Hloop & -> & Hr & Hc)%with_data_Some.
  apply (for_loop_pointwise_Some (λ k, zget (data src) k)) in Hloop
    as (Hlen & Hs & Hd); [split_and!; try done|].
  { intros k Hk. simpl. rewrite Hd, decide_True by done. by apply Hs. }
  intros i d1 _ _. by destruct (zget (data src) i).
Qed.

Lemma matrix_apply_Some m (f : D → D) m' :
  matrix_apply m f = Some m' →
  rows m' = rows m ∧ columns m' = columns m ∧
  length (data m') = length (data m) ∧
  (∀ k, 0 ≤ k < rows m * columns m → is_Some (zget (data m') k)) ∧
  ∀ k, zget (data m') k = if decide (0 ≤ k < rows m * columns m)
                          then f <$> zget (data m) k else zget (data m) k.
Proof.
  unfold matrix_apply. intros (d & Hloop & -> & Hr & Hc)%with_data_Some.
  apply (for_loop_pointwise_Some (λ k, f <$> zget (data m) k)) in Hloop
    as (Hlen & Hs & Hd); [split_and!; try done|].
  { intros k Hk. simpl. rewrite Hd, decide_True by done. by apply Hs. }
  intros i d1 _ Hsame. rewrite Hsame by lia. by destruct (zget (data m) i).
Qed.

Lemma matrix_odot_Some dst src m :
  matrix_odot dst src = Some m →
  rows m = rows dst ∧ columns m = columns dst ∧
  length (data m) = length (data dst) ∧
  (∀ k, 0 ≤ k < rows dst * columns dst → is_Some (zget (data m) k)) ∧
  ∀ k, zget (data m) k =
       if decide (0 ≤ k < rows dst * columns dst)
       then x ← zget (data dst) k; y ← zget (data src) k; Some (x * y)%dbl
       else zget (data dst) k.
Proof.
  unfold matrix_odot. intros (d & Hloop & -> & Hr & Hc)%with_data_Some.
  apply (for_loop_pointwise_Some
    (λ k, x ← zget (data dst) k; y ← zget (data src) k; Some (x * y)%dbl))
    in Hloop as (Hlen & Hs & Hd); [split_and!; try done|].
  { intros k Hk. simpl. rewrite Hd, decide_True by done. by apply Hs. }
  intros i d1 _ Hsame. rewrite Hsame by lia.
  destruct (zget (data dst) i); [|done]. simpl. by destruct (zget (data src) i).
Qed.

Lemma matrix_divide_Some m (v : D) m' :
  matrix_divide m v = Some m' →
  rows m' = rows m ∧ columns m' = columns m ∧
  length (data m') = length (data m) ∧
  (∀ k, 0 ≤ k < rows m * columns m → is_Some (zget (data m') k)) ∧
  ∀ k, zget (data m') k = if decide (0 ≤ k < rows m * columns m)
                          then (λ x, (x / v)%dbl) <$> zget (data m) k
                          else zget (data m) k.
Proof.
  unfold matrix_divide. intros (d & Hloop & -> & Hr & Hc)%with_data_Some.
  apply (for_loop_pointwise_Some (λ k, (λ x, (x / v)%dbl) <$> zget (data m) k))
    in Hloop as (Hlen & Hs & Hd); [split_and!; try done|].
  { intros k Hk. simpl. rewrite Hd, decide_True by done. by apply Hs. }
  intros i d1 _ Hsame. rewrite Hsame by lia. by destruct (zget (data m) i).
Qed.

Lemma matrix_difference_Some (m1 m2 : Matrix D) dst m :
  matrix_difference m1 m2 dst = Some m →
  rows m = rows dst ∧ columns m = columns dst ∧
  length (data m) = length (data dst) ∧
  (∀ k, 0 ≤ k < rows dst * columns dst → is_Some (zget (data m) k)) ∧
  ∀ k, zget (data m) k =
       if decide (0 ≤ k < rows dst * columns dst)
       then x ← zget (data m1) k; y ← zget (data m2) k; Some (x - y)%dbl
       else zget (data dst) k.
Proof.
  unfold matrix_difference. intros (d & Hloop & -> & Hr & Hc)%with_data_Some.
  apply (for_loop_pointwise_Some
    (λ k, x ← zget (data m1) k; y ← zget (data m2) k; Some (x - y)%dbl))
    in Hloop as (Hlen & Hs & Hd); [split_and!; try done|].
  { intros k Hk. simpl. rewrite Hd, decide_True by done. by apply Hs. }
  intros i d1 _ _.
  destruct (zget (data m1) i); [|done]. simpl. by destruct (zget (data m2) i).
Qed.

End elementwise.

(** ** mlp.c: back-propagation *)

Lemma iterate_down_preserves {St} (Q : St → Prop) (body : Z → St → option St) n hi s s' :
  Q s →
  (∀ j s s', hi - Z.of_nat n < j ≤ hi → Q s → body j s = Some s' → Q s') →
  iterate_down n hi body s = Some s' → Q s'.
Proof.
  revert hi s. induction n as [|n IH]; intros hi s H0 Hstep; simpl.
  - by intros [= <-].
  - destruct (body hi s) as [s1|] eqn:E; [|done]. simpl.
    apply IH.
    + eapply Hstep; [|done..]. lia.
    + intros j s2 s3 Hj. apply Hstep. lia.
Qed.

Lemma for_down_preserves {St} (Q : St → Prop) (body : Z → St → option St) hi lo s s' :
  Q s →
  (∀ j s s', lo ≤ j ≤ hi → Q s → body j s = Some s' → Q s') →
  for_down hi lo body s = Some s' → Q s'.
Proof.
  intros H0 Hstep. apply iterate_down_preserves; [done|].
  intros j s1 s2 Hj. apply Hstep. lia.
Qed.

Lemma for_loop_preserves {St} (Q : St → Prop) (body : Z → St → option St) lo hi s s' :
  Q s →
  (∀ j s s', lo ≤ j < hi → Q s → body j s = Some s' → Q s') →
  for_loop lo hi body s = Some s' → Q s'.
Proof.
  intros H0 Hstep. destruct (decide (hi ≤ lo)).
  { rewrite for_loop_empty by done. by intros [= <-]. }
  apply (for_loop_inv_Some (λ _, Q)); [lia|done|]. intros j s1 s2. apply Hstep.
Qed.

Section layers.
Context {D : Type} `{!Scalar D}.
Implicit Types mlp : MLP D.
Implicit Types l : Layer D.

Lemma set_layer_Some mlp i l mlp' :
  set_layer mlp i l = Some mlp' →
  depth mlp' = depth mlp ∧ batchSize mlp' = batchSize mlp ∧
  input mlp' = input mlp ∧ inputErrors mlp' = inputErrors mlp ∧
  mlp_output mlp' = mlp_output mlp ∧
  length (layers mlp') = length (layers mlp) ∧
  ∀ j, layer mlp' j = if decide (j = i) then Some l else layer mlp j.
Proof.
  unfold set_layer. destruct (zset (layers mlp) i l) as [ls|] eqn:E; [|done].
  intros [= <-]. simpl. split_and!; try done.
  - by apply zset_length in E.
  - intros j. unfold layer; simpl. by apply zget_zset.
Qed.

End layers.

Section backpropagate.
Context {D : Type} `{!Scalar D}.
Implicit Types mlp : MLP D.
Implicit Types l : Layer D.

(** C4.  After [mlp_backpropagate], cell [k] of the deltas of the output
    layer is the activation derivative of cell [k] of the public output
    matrix [mlp->output], multiplied by cell [k] of the errors of the output
    layer if and only if [depth > 0]; for [depth = 0] the errors produced by
    the loss function are not multiplied in. *)
Theorem mlp_backpropagate_output_deltas mlp y code loss mlp' l :
  mlp_backpropagate mlp y code = Some (loss, mlp') →
  layer mlp (depth mlp) = Some l →
  ∃ l', layer mlp' (depth mlp) = Some l' ∧
    mlp_output mlp' = mlp_output mlp ∧
    getLossFunction code (mlp_output mlp) y (errors l) = Some (loss, errors l') ∧
    ∀ k, 0 ≤ k < rows (deltas l) * columns (deltas l) →
      ∃ o, zget (data (mlp_output mlp)) k = Some o ∧
        if decide (depth mlp > 0)
        then ∃ e, zget (data (errors l')) k = Some e ∧
                  zget (data (deltas l')) k = Some (activationDeriv l o * e)%dbl
        else zget (data (deltas l')) k = Some (activationDeriv l o).
Proof.
  intros H Hl. unfold mlp_backpropagate in H. rewrite Hl in H. simpl in H.
  destruct (getLossFunction code (mlp_output mlp) y (errors l))
    as [[loss0 me]|] eqn:Eloss; [|done]. simpl in H.
  destruct (matrix_copy (deltas l) (mlp_output mlp)) as [m1|] eqn:E1; [|done].
  simpl in H.
  destruct (matrix_apply m1 (activationDeriv l)) as [m2|] eqn:E2; [|done].
  simpl in H.
  destruct (if decide (depth mlp > 0) then matrix_odot m2 me else Some m2)
    as [m3|] eqn:E3; [|done]. simpl in H.
  destruct (set_layer mlp (depth mlp) _) as [mlp1|] eqn:E4; [|done]. simpl in H.
  apply set_layer_Some in E4 as (Hd1 & _ & _ & _ & Ho1 & _ & Hl1).
  rewrite Hd1 in H.
  destruct (for_down (depth mlp - 1) 0 _ mlp1) as [mlp2|] eqn:E5; [|done].
  simpl in H.
  (* the loop towards the first layer leaves the output layer alone *)
  apply (for_down_preserves (λ s,
      depth s = depth mlp ∧ mlp_output s = mlp_output mlp ∧
      layer s (depth mlp) = layer mlp1 (depth mlp))) in E5
    as (Hd2 & Ho2 & Hl2); [|by rewrite Hd1, Ho1|].
  2:{ intros j s s' Hj (Hds & Hos & Hls) Hb. repeat bind_step Hb.
      apply set_layer_Some in Hb as (? & _ & _ & _ & ? & _ & Hlj).
      split_and!; [congruence..|]. rewrite Hlj, decide_False by lia. done. }
  destruct (layer mlp2 0) as [l0|] eqn:E6; [|done]. simpl in H.
  destruct (matrix_dot (deltas l0) (weights l0) (inputErrors mlp2))
    as [mie|] eqn:E7; [|done]. simpl in H.
  destruct (for_loop 0 _ _ _) as [[mlp3 inp]|] eqn:E8; [|done]. simpl in H.
  injection H as <- <-.
  (* the gradient loop only writes the gradients *)
  apply (for_loop_preserves (λ s : MLP D * InputPtr,
      mlp_output s.1 = mlp_output mlp ∧
      ∀ k, errors <$> layer s.1 k = errors <$> layer mlp2 k ∧
           deltas <$> layer s.1 k = deltas <$> layer mlp2 k)) in E8
    as (Ho3 & Hl3); [|done|].
  2:{ intros j [s inp1] [s' inp2] Hj (Hos & Hls) Hb. simpl in *.
      repeat bind_step Hb. destruct Hb as [<- _].
      match goal with Hs : set_layer _ _ _ = Some _ |- _ =>
        apply set_layer_Some in Hs as (? & _ & _ & _ & ? & _ & Hlj) end.
      split; [congruence|]. intros k. rewrite Hlj.
      destruct (decide (k = j)) as [->|]; [|apply Hls].
      destruct (Hls j) as [He Hdl].
      match goal with Hs : layer s j = Some _ |- _ => rewrite Hs in He, Hdl end.
      done. }
  destruct (Hl3 (depth mlp)) as [He Hdl]. simpl in He, Hdl.
  rewrite Hl2, Hl1, decide_True in He, Hdl by done. simpl in He, Hdl.
  destruct (layer mlp3 (depth mlp)) as [l'|] eqn:El'; [|done].
  simpl in He, Hdl. injection He as He. injection Hdl as Hdl.
  exists l'. rewrite He, Hdl. split_and!; [done..|]. intros k Hk.
  apply matrix_copy_Some in E1 as (Hr1 & Hc1 & _ & S1 & G1).
  apply matrix_apply_Some in E2 as (Hr2 & Hc2 & _ & S2 & G2).
  destruct (S1 k Hk) as [o Ho]. pose proof Ho as Ho'.
  rewrite G1, decide_True in Ho' by done. exists o. split; [done|].
  assert (zget (data m2) k = Some (activationDeriv l o)) as Hm2.
  { rewrite G2, Hr1, Hc1, decide_True, Ho by done. done. }
  case_decide.
  - apply matrix_odot_Some in E3 as (_ & _ & _ & S3 & G3).
    rewrite Hr2, Hc2, Hr1, Hc1 in S3, G3.
    destruct (S3 k Hk) as [x Hx]. rewrite G3, decide_True, Hm2 in Hx by done.
    simpl in Hx. destruct (zget (data me) k) as [e|] eqn:Ee; [|done].
    exists e. split; [done|]. by rewrite G3, decide_True, Hm2, Ee.
  - by injection E3 as <-.
Qed.

(** With no hidden layer the function is a straight line: the loss
    function fills the errors, and the deltas, the input errors and the two
    gradients are computed from the network alone. *)
Lemma mlp_backpropagate_depth0 mlp y code loss mlp' :
  depth mlp = 0 →
  mlp_backpropagate mlp y code = Some (loss, mlp') →
  ∃ l me m1 dl ie g1 gw g2 gb,
    layer mlp 0 = Some l ∧
    getLossFunction code (mlp_output mlp) y (errors l) = Some (loss, me) ∧
    matrix_copy (deltas l) (mlp_output mlp) = Some m1 ∧
    matrix_apply m1 (activationDeriv l) = Some dl ∧
    matrix_dot dl (weights l) (inputErrors mlp) = Some ie ∧
    matrix_dot_transpose (input mlp) dl (gradWeights l) = Some g1 ∧
    matrix_divide g1 (d_of_int (batchSize mlp)) = Some gw ∧
    matrix_sum_rows_transpose dl (gradBiases l) = Some g2 ∧
    matrix_divide g2 (d_of_int (batchSize mlp)) = Some gb ∧
    mlp' = mkMLP 0 (batchSize mlp)
             (<[0%nat := mkLayer (weights l) (biases l) (output l) me dl gw gb
                           (activation l) (activationDeriv l)]> (layers mlp))
             (input mlp) ie (mlp_output mlp).
Proof.
  intros Hd H. unfold mlp_backpropagate in H. rewrite Hd in H.
  destruct (layer mlp 0) as [l|] eqn:El; [|done]. simpl in H.
  destruct (getLossFunction code (mlp_output mlp) y (errors l))
    as [[loss0 me]|] eqn:Eloss; [|done]. simpl in H.
  destruct (matrix_copy (deltas l) (mlp_output mlp)) as [m1|] eqn:E1; [|done].
  simpl in H.
  destruct (matrix_apply m1 (activationDeriv l)) as [dl|] eqn:E2; [|done].
  simpl in H.
  destruct (set_layer mlp 0 _) as [mlpA|] eqn:EA; [|done]. simpl in H.
  unfold set_layer in EA. apply fmap_Some in EA as (ls & Els & ->).
  simpl in H. rewrite Hd in H. change (for_down (0 - 1) 0 ?b ?s) with (Some s) in H.
  simpl in H.
  assert (∀ m, layer (set_inputErrors (set_layers mlp ls) m) 0 =
               Some (set_deltas (set_errors l me) dl)) as HL
    by (intros; apply (zget_zset_eq _ _ _ _ Els)).
  assert (layer (set_layers mlp ls) 0 = Some (set_deltas (set_errors l me) dl))
    as HL' by apply (zget_zset_eq _ _ _ _ Els).
  rewrite HL' in H. simpl in H.
  destruct (matrix_dot dl (weights l) (inputErrors mlp)) as [ie|] eqn:E3; [|done].
  simpl in H. rewrite Hd in H. rewrite (for_loop_one _ 0) in H.
  rewrite HL in H. simpl in H.
  destruct (matrix_dot_transpose (input mlp) dl (gradWeights l)) as [g1|] eqn:E4;
    [|done]. simpl in H.
  destruct (matrix_divide g1 _) as [gw|] eqn:E5; [|done]. simpl in H.
  destruct (matrix_sum_rows_transpose dl (gradBiases l)) as [g2|] eqn:E6; [|done].
  simpl in H.
  destruct (matrix_divide g2 _) as [gb|] eqn:E7; [|done]. simpl in H.
  destruct (set_layer _ 0 _) as [mlpB|] eqn:EB; [|done]. simpl in H.
  unfold set_layer in EB. apply fmap_Some in EB as (ls' & Els' & ->).
  simpl in Els'. injection H as <- <-.
  exists l, me, m1, dl, ie, g1, gw, g2, gb. split_and!; try done.
  apply zset_Some in Els as [_ ->]. apply zset_Some in Els' as [_ ->].
  unfold set_inputErrors, set_layers; simpl. rewrite Hd.
  by rewrite list_insert_insert_eq.
Qed.

Lemma for_loop_sum (d : list D) n (s0 s : D) :
  for_loop 0 n (λ i sum, x ← zget d i; Some (sum + x)%dbl) s0 = Some s →
  s = foldl dadd s0 (take (Z.to_nat n) d).
Proof.
  destruct (decide (n ≤ 0)) as [Hneg|Hpos].
  { rewrite for_loop_empty by lia. intros [= <-].
    by replace (Z.to_nat n) with 0%nat by lia. }
  intros Hloop.
  eapply (for_loop_inv_Some (λ i s,
    s = foldl dadd s0 (take (Z.to_nat i) d))) in Hloop; [exact Hloop|lia|done|].
  intros i s1 s2 Hi -> Hb.
  destruct (zget d i) as [x|] eqn:Ex; [|done]. injection Hb as <-.
  replace (Z.to_nat (i + 1)) with (S (Z.to_nat i)) by lia.
  unfold zget in Ex. rewrite decide_True in Ex by lia.
  by rewrite (take_S_r _ _ _ Ex), foldl_snoc.
Qed.

(** The loss [LOSS_NONE]: the errors are the cells of [y] and the value
    returned is their mean, summed from the first cell on. *)
Lemma errorFunction_Some (yhat y e : Matrix D) loss e' :
  errorFunction yhat y e = Some (loss, e') →
  let n := rows e * columns e in
  loss = (foldl dadd (d_of_int 0) (take (Z.to_nat n) (data y)) / d_of_int n)%dbl ∧
  ∀ k, 0 ≤ k < n → zget (data e') k = zget (data y) k.
Proof.
  unfold errorFunction. intros H.
  destruct (matrix_copy e y) as [e1|] eqn:E1; [|done]. simpl in H.
  destruct (for_loop 0 _ _ _) as [sum|] eqn:E2; [|done]. injection H as <- <-.
  apply matrix_copy_Some in E1 as (Hr & Hc & Hlen & Hs & Hg).
  rewrite Hr, Hc in *. cbv zeta. split.
  - f_equal. apply for_loop_sum in E2. subst sum. f_equal.
    apply list_eq. intros i.
    destruct (decide (i < Z.to_nat (rows e * columns e))%nat).
    + rewrite !lookup_take_lt by done. rewrite <- !zget_nat, Hg.
      by rewrite decide_True by lia.
    + by rewrite !lookup_take_ge by lia.
  - intros k Hk. by rewrite Hg, decide_True.
Qed.

(** C6.  For a network with [depth = 0], two runs of
    [mlp_backpropagate(mlp, y, LOSS_NONE)] from the same state on targets
    [y1] and [y2] end with the same [gradWeights], [gradBiases] and
    [inputErrors]: the final networks are equal once their [errors] buffers
    are overwritten with the same matrix.  The target only reaches the value
    returned, the mean of the cells of [y], and the [errors] buffer, a copy
    of those cells. *)
Theorem mlp_backpropagate_depth0_ignores_target mlp y1 y2 loss1 mlp1 loss2 mlp2 :
  depth mlp = 0 →
  mlp_backpropagate mlp y1 LOSS_NONE = Some (loss1, mlp1) →
  mlp_backpropagate mlp y2 LOSS_NONE = Some (loss2, mlp2) →
  gradWeights <$> layers mlp1 = gradWeights <$> layers mlp2 ∧
  gradBiases <$> layers mlp1 = gradBiases <$> layers mlp2 ∧
  inputErrors mlp1 = inputErrors mlp2 ∧
  (∀ e, set_layers mlp1 ((λ l, set_errors l e) <$> layers mlp1) =
        set_layers mlp2 ((λ l, set_errors l e) <$> layers mlp2)) ∧
  ∃ l l1 l2,
    layer mlp 0 = Some l ∧ layer mlp1 0 = Some l1 ∧ layer mlp2 0 = Some l2 ∧
    let n := rows (errors l) * columns (errors l) in
    loss1 = (foldl dadd (d_of_int 0) (take (Z.to_nat n) (data y1)) / d_of_int n)%dbl ∧
    loss2 = (foldl dadd (d_of_int 0) (take (Z.to_nat n) (data y2)) / d_of_int n)%dbl ∧
    ∀ k, 0 ≤ k < n →
      zget (data (errors l1)) k = zget (data y1) k ∧
      zget (data (errors l2)) k = zget (data y2) k.
Proof.
  intros Hd H1 H2.
  apply mlp_backpropagate_depth0 in H1
    as (l & me1 & m1 & dl & ie & g1 & gw & g2 & gb &
        El & Eloss1 & E1 & E2 & E3 & E4 & E5 & E6 & E7 & ->); [|done].
  apply mlp_backpropagate_depth0 in H2
    as (l' & me2 & m1' & dl' & ie' & g1' & gw' & g2' & gb' &
        El' & Eloss2 & E1' & E2' & E3' & E4' & E5' & E6' & E7' & ->); [|done].
  rewrite El in El'. injection El' as <-.
  rewrite E1 in E1'. injection E1' as <-.
  rewrite E2 in E2'. injection E2' as <-.
  rewrite E3 in E3'. injection E3' as <-.
  rewrite E4 in E4'. injection E4' as <-.
  rewrite E5 in E5'. injection E5' as <-.
  rewrite E6 in E6'. injection E6' as <-.
  rewrite E7 in E7'. injection E7' as <-.
  assert (0 < length (layers mlp))%nat as Hlen.
  { unfold layer, zget in El. rewrite decide_True in El by lia.
    apply lookup_lt_Some in El. lia. }
  simpl. split_and!.
  - by rewrite !list_fmap_insert.
  - by rewrite !list_fmap_insert.
  - done.
  - intros e. unfold set_layers; simpl. by rewrite !list_fmap_insert.
  - change (getLossFunction LOSS_NONE) with (errorFunction (D := D)) in Eloss1, Eloss2.
    apply errorFunction_Some in Eloss1 as [-> Hc1].
    apply errorFunction_Some in Eloss2 as [-> Hc2].
    eexists l, _, _. split; [done|]. unfold layer; simpl.
    change 0 with (Z.of_nat 0) at 1 2.
    rewrite !zget_nat, !list_lookup_insert_eq by done.
    split_and!; try done. simpl. intros k Hk. split; [by apply Hc1|by apply Hc2].
Qed.

End backpropagate.

Lemma mlp_backpropagate_output_deltas_witness :
  match example_mlp1 with
  | Some mlp =>
      match mlp_backpropagate mlp example_y1 LOSS_MSE, layer mlp (depth mlp) with
      | Some (loss, mlp'), Some l =>
          ∃ l', layer mlp' (depth mlp) = Some l' ∧
            mlp_output mlp' = mlp_output mlp ∧
            getLossFunction LOSS_MSE (mlp_output mlp) example_y1 (errors l)
              = Some (loss, errors l') ∧
            ∀ k, 0 ≤ k < rows (deltas l) * columns (deltas l) →
              ∃ o, zget (data (mlp_output mlp)) k = Some o ∧
                if decide (depth mlp > 0)
                then ∃ e, zget (data (errors l')) k = Some e ∧
                          zget (data (deltas l')) k = Some (activationDeriv l o * e)%dbl
                else zget (data (deltas l')) k = Some (activationDeriv l o)
      | _, _ => False
      end
  | None => False
  end.
Proof.
  unfold example_mlp1.
  match goal with |- context [mlp_backpropagate ?m ?y ?c] =>
    destruct (mlp_backpropagate m y c) as [[loss mlp']|] eqn:H;
      [|by vm_compute in H]
  end.
  match goal with |- context [layer ?m ?i] =>
    destruct (layer m i) as [l|] eqn:Hl; [|by vm_compute in Hl]
  end.
  exact (mlp_backpropagate_output_deltas _ _ _ _ _ _ H Hl).
Defined.

Lemma mlp_backpropagate_depth0_ignores_target_witness :
  match example_mlp0 with
  | Some mlp =>
      match mlp_backpropagate mlp example_y1 LOSS_NONE,
            mlp_backpropagate mlp example_y2 LOSS_NONE with
      | Some (loss1, mlp1), Some (loss2, mlp2) =>
          gradWeights <$> layers mlp1 = gradWeights <$> layers mlp2 ∧
          gradBiases <$> layers mlp1 = gradBiases <$> layers mlp2 ∧
          inputErrors mlp1 = inputErrors mlp2 ∧
          loss1 ≠ loss2
      | _, _ => False
      end
  | None => False
  end.
Proof.
  unfold example_mlp0.
  match goal with |- context [mlp_backpropagate ?m example_y1 ?c] =>
    destruct (mlp_backpropagate m example_y1 c) as [[loss1 mlp1]|] eqn:H1;
      [|by vm_compute in H1];
    destruct (mlp_backpropagate m example_y2 c) as [[loss2 mlp2]|] eqn:H2;
      [|by vm_compute in H2];
    destruct (mlp_backpropagate_depth0_ignores_target
                m example_y1 example_y2 _ _ _ _ eq_refl H1 H2)
      as (Hw & Hb & Hi & _)
  end.
  split_and!; [done..|]. vm_compute in H1, H2.
  injection H1 as <- _. injection H2 as <- _. by vm_compute.
Defined.

(** ** adam.c *)

Section adam_cells.
Context {D : Type} `{!Scalar D}.

(** A nest of loops whose cell [idx] reads the gradient and updates the three
    blocks of moments and parameters at [idx]. *)
Lemma cells_loop (step : Z → list D * list D * list D → option (list D * list D * list D))
    (gw : list D) (FM FV : D → D → D) (FW : D → D → D → D → D)
    r c md vd wd md' vd' wd' :
  (∀ idx md vd wd, step idx (md, vd, wd) =
     g ← zget gw idx; m ← zget md idx; v ← zget vd idx; w ← zget wd idx;
     md' ← zset md idx (FM m g); vd' ← zset vd idx (FV v g);
     wd' ← zset wd idx (FW w m v g); Some (md', vd', wd')) →
  for_loop 0 r (λ row, for_loop 0 c (λ col, step (row * c + col))) (md, vd, wd)
    = Some (md', vd', wd') →
  ∀ row col, 0 ≤ row < r → 0 ≤ col < c →
    let idx := row * c + col in
    ∃ g m v w,
      zget gw idx = Some g ∧ zget md idx = Some m ∧ zget vd idx = Some v ∧
      zget wd idx = Some w ∧ zget md' idx = Some (FM m g) ∧
      zget vd' idx = Some (FV v g) ∧ zget wd' idx = Some (FW w m v g).
Proof.
  intros Hstep Hloop row col Hrow Hcol idx.
  rewrite for_loop_nested in Hloop by lia.
  assert (0 ≤ idx < r * c) as Hidx by (unfold idx; nia).
  assert (0 < c) as Hc by lia.
  clearbody idx. clear row col Hrow Hcol.
  eapply (for_loop_inv_Some (λ k '((mc, vc, wc) : list D * list D * list D),
    ∀ i,
      (0 ≤ i < k → ∃ g m v w,
         zget gw i = Some g ∧ zget md i = Some m ∧ zget vd i = Some v ∧
         zget wd i = Some w ∧ zget mc i = Some (FM m g) ∧
         zget vc i = Some (FV v g) ∧ zget wc i = Some (FW w m v g)) ∧
      (k ≤ i → zget mc i = zget md i ∧ zget vc i = zget vd i ∧
               zget wc i = zget wd i))) in Hloop.
  - by apply Hloop.
  - lia.
  - intros i. split; [lia|done].
  - intros k [[mc vc] wc] [[mc' vc'] wc'] Hk Hinv Hb.
    replace (k `div` c * c + k `mod` c) with k in Hb
      by (pose proof (Z.div_mod k c); lia).
    rewrite Hstep in Hb.
    destruct (zget gw k) as [g|] eqn:Eg; [|done]. simpl in Hb.
    destruct (zget mc k) as [m|] eqn:Em; [|done]. simpl in Hb.
    destruct (zget vc k) as [v|] eqn:Ev; [|done]. simpl in Hb.
    destruct (zget wc k) as [w|] eqn:Ew; [|done]. simpl in Hb.
    destruct (zset mc k _) as [m2|] eqn:Sm; [|done]. simpl in Hb.
    destruct (zset vc k _) as [v2|] eqn:Sv; [|done]. simpl in Hb.
    destruct (zset wc k _) as [w2|] eqn:Sw; [|done]. simpl in Hb.
    injection Hb as <- <- <-.
    intros i. rewrite (zget_zset _ _ _ _ i Sm), (zget_zset _ _ _ _ i Sv),
      (zget_zset _ _ _ _ i Sw).
    destruct (Hinv k) as [_ (Hm & Hv & Hw)]; [lia|].
    destruct (decide (i = k)) as [->|Hne].
    + split; [|lia]. intros _. exists g, m, v, w.
      rewrite <- Hm, <- Hv, <- Hw. by split_and!.
    + destruct (Hinv i) as [Hlt Hge]. split.
      * intros Hi. apply Hlt. lia.
      * intros Hi. apply Hge. lia.
Qed.

Lemma adam_weight_step_eq (adam : Adam D) gw idx md vd wd :
  adam_weight_step adam gw idx (md, vd, wd) =
  g ← zget (data gw) idx; m ← zget md idx; v ← zget vd idx; w ← zget wd idx;
  md' ← zset md idx (spec_adam_m adam m g);
  vd' ← zset vd idx (spec_adam_v adam v g);
  wd' ← zset wd idx (spec_adam_weight adam w m v g); Some (md', vd', wd').
Proof.
  unfold adam_weight_step.
  destruct (zget (data gw) idx) as [g|]; [|done]. simpl.
  destruct (zget md idx) as [m|] eqn:Em; [|done]. simpl.
  fold (spec_adam_m adam m g).
  destruct (zset md idx _) as [m2|] eqn:Sm.
  2:{ apply zget_Some in Em. by rewrite zset_lt in Sm. }
  simpl. destruct (zget vd idx) as [v|] eqn:Ev; [|done]. simpl.
  fold (spec_adam_v adam v g).
  destruct (zset vd idx _) as [v2|] eqn:Sv.
  2:{ apply zget_Some in Ev. by rewrite zset_lt in Sv. }
  simpl. rewrite (zget_zset_eq _ _ _ _ Sm), (zget_zset_eq _ _ _ _ Sv). simpl.
  by destruct (zget wd idx).
Qed.

Lemma adam_bias_step_eq (adam : Adam D) gb idx md vd bd :
  adam_bias_step adam gb idx (md, vd, bd) =
  g ← zget (data gb) idx; m ← zget md idx; v ← zget vd idx; b ← zget bd idx;
  md' ← zset md idx (spec_adam_m adam m g);
  vd' ← zset vd idx (spec_adam_v adam v g);
  bd' ← zset bd idx (spec_adam_bias adam b m v g); Some (md', vd', bd').
Proof.
  unfold adam_bias_step.
  destruct (zget (data gb) idx) as [g|]; [|done]. simpl.
  destruct (zget md idx) as [m|] eqn:Em; [|done]. simpl.
  fold (spec_adam_m adam m g).
  destruct (zset md idx _) as [m2|] eqn:Sm.
  2:{ apply zget_Some in Em. by rewrite zset_lt in Sm. }
  simpl. destruct (zget vd idx) as [v|] eqn:Ev; [|done]. simpl.
  fold (spec_adam_v adam v g).
  destruct (zset vd idx _) as [v2|] eqn:Sv.
  2:{ apply zget_Some in Ev. by rewrite zset_lt in Sv. }
  simpl. rewrite (zget_zset_eq _ _ _ _ Sm), (zget_zset_eq _ _ _ _ Sv). simpl.
  by destruct (zget bd idx).
Qed.

End adam_cells.

Section adam_optimize.
Context {D : Type} `{!Scalar D}.
Implicit Types mlp : MLP D.
Implicit Types adam : Adam D.

(** C3.  [adam_optimize] updates every cell of the weights of every layer as
    [w -= alpha * (mhat / (sqrt(vhat) + epsilon))], with [epsilon] inside the
    denominator, and every cell of the biases as
    [b -= alpha * (mhat / sqrt(vhat) + epsilon)], with [epsilon] added after
    the division; [mhat] and [vhat] are the bias-corrected moments computed
    from the moments before the call and the gradient. *)
Theorem adam_optimize_updates mlp adam mlp' adam' i l mwi vwi mbi vbi :
  adam_optimize mlp adam = Some (mlp', adam') →
  0 ≤ i < adam_depth adam →
  layer mlp i = Some l →
  zget (mw adam) i = Some mwi → zget (vw adam) i = Some vwi →
  zget (mb adam) i = Some mbi → zget (vb adam) i = Some vbi →
  ∃ l', layer mlp' i = Some l' ∧
    cells_updated (spec_adam_weight adam)
      (weights l) (gradWeights l) mwi vwi (weights l') ∧
    cells_updated (spec_adam_bias adam)
      (biases l) (gradBiases l) mbi vbi (biases l').
Proof.
  intros H Hi Hl Hmw Hvw Hmb Hvb. unfold adam_optimize in H.
  set (adamT := mkAdam (t adam + d_of_int 1)%dbl (alpha adam) (beta1 adam)
                  (beta2 adam) (beta1t adam) (beta2t adam) (epsilon adam)
                  (adam_depth adam) (mw adam) (mb adam) (vw adam) (vb adam)) in H.
  change (adam_depth adamT) with (adam_depth adam) in H.
  change (mw adamT) with (mw adam) in H. change (mb adamT) with (mb adam) in H.
  change (vw adamT) with (vw adam) in H. change (vb adamT) with (vb adam) in H.
  change (spec_adam_weight adam) with (spec_adam_weight adamT).
  change (spec_adam_bias adam) with (spec_adam_bias adamT).
  destruct (for_loop 0 (adam_depth adam) _ _) as [[[[[mlpF mws] mbs] vws] vbs]|]
    eqn:Hloop; [|done].
  injection H as <- _.
  eapply (for_loop_inv_Some (λ j '((mc, a, b, c, d) :
      MLP D * list (Matrix D) * list (Matrix D) * list (Matrix D) * list (Matrix D)),
    ∀ i,
      (0 ≤ i < j → ∀ l mwi vwi mbi vbi,
         layer mlp i = Some l →
         zget (mw adam) i = Some mwi → zget (vw adam) i = Some vwi →
         zget (mb adam) i = Some mbi → zget (vb adam) i = Some vbi →
         ∃ l', layer mc i = Some l' ∧
           cells_updated (spec_adam_weight adamT)
             (weights l) (gradWeights l) mwi vwi (weights l') ∧
           cells_updated (spec_adam_bias adamT)
             (biases l) (gradBiases l) mbi vbi (biases l')) ∧
      (j ≤ i → layer mc i = layer mlp i ∧
         zget a i = zget (mw adam) i ∧ zget b i = zget (mb adam) i ∧
         zget c i = zget (vw adam) i ∧ zget d i = zget (vb adam) i))) in Hloop.
  - destruct (Hloop i) as [Hdone _]. by apply Hdone.
  - lia.
  - intros k. split; [lia|done].
  - clear i l mwi vwi mbi vbi Hi Hl Hmw Hvw Hmb Hvb.
    intros j [[[[mc a] b] c] d] [[[[mc' a'] b'] c'] d'] Hj Hinv Hb.
    destruct (Hinv j) as [_ (Elj & Ea & Eb & Ec & Ed)]; [lia|].
    destruct (layer mc j) as [l|] eqn:Hl; [|done]. simpl in Hb.
    destruct (zget a j) as [mwi|] eqn:Hmw; [|done]. simpl in Hb.
    destruct (zget b j) as [mbi|] eqn:Hmb; [|done]. simpl in Hb.
    destruct (zget c j) as [vwi|] eqn:Hvw; [|done]. simpl in Hb.
    destruct (zget d j) as [vbi|] eqn:Hvb; [|done]. simpl in Hb.
    destruct (for_loop 0 (rows (weights l)) _ _) as [[[mwd vwd] wd]|] eqn:Lw;
      [|done]. simpl in Hb.
    destruct (for_loop 0 (rows (biases l)) _ _) as [[[mbd vbd] bd]|] eqn:Lb;
      [|done]. simpl in Hb.
    destruct (set_layer mc j _) as [mc2|] eqn:Hset; [|done]. simpl in Hb.
    destruct (zset a j _) as [a2|] eqn:Sa; [|done]. simpl in Hb.
    destruct (zset b j _) as [b2|] eqn:Sb; [|done]. simpl in Hb.
    destruct (zset c j _) as [c2|] eqn:Sc; [|done]. simpl in Hb.
    destruct (zset d j _) as [d2|] eqn:Sd; [|done]. simpl in Hb.
    injection Hb as <- <- <- <- <-.
    apply set_layer_Some in Hset as (_ & _ & _ & _ & _ & _ & Hlj).
    pose proof (cells_loop (adam_weight_step adamT (gradWeights l))
                  (data (gradWeights l)) (spec_adam_m adamT) (spec_adam_v adamT)
                  (spec_adam_weight adamT) _ _ _ _ _ _ _ _
                  (adam_weight_step_eq _ (gradWeights l)) Lw) as Cw.
    pose proof (cells_loop (adam_bias_step adamT (gradBiases l))
                  (data (gradBiases l)) (spec_adam_m adamT) (spec_adam_v adamT)
                  (spec_adam_bias adamT) _ _ _ _ _ _ _ _
                  (adam_bias_step_eq _ (gradBiases l)) Lb) as Cb.
    intros i. rewrite Hlj, (zget_zset _ _ _ _ i Sa), (zget_zset _ _ _ _ i Sb),
      (zget_zset _ _ _ _ i Sc), (zget_zset _ _ _ _ i Sd).
    destruct (decide (i = j)) as [->|Hne].
    + split; [|lia]. intros _ l0 mw0 vw0 mb0 vb0 Hl0 Hmw0 Hvw0 Hmb0 Hvb0.
      assert (l0 = l) as -> by congruence.
      assert (mw0 = mwi) as -> by congruence.
      assert (vw0 = vwi) as -> by congruence.
      assert (mb0 = mbi) as -> by congruence.
      assert (vb0 = vbi) as -> by congruence.
      eexists. split; [done|]. simpl. split.
      * intros row col Hrow Hcol. simpl.
        destruct (Cw row col Hrow Hcol) as (g & m & v & w & ? & ? & ? & ? & _ & _ & ?).
        by exists w, g, m, v.
      * intros row col Hrow Hcol. simpl.
        destruct (Cb row col Hrow Hcol) as (g & m & v & w & ? & ? & ? & ? & _ & _ & ?).
        by exists w, g, m, v.
    + destruct (Hinv i) as [Hlt Hge]. split.
      * intros Hi. apply Hlt. lia.
      * intros Hi. apply Hge. lia.
Qed.

End adam_optimize.

Lemma adam_optimize_updates_witness :
  match example_optimizer with
  | Some (mlp, adam) =>
      match adam_optimize mlp adam, layer mlp 1,
            zget (mw adam) 1, zget (vw adam) 1, zget (mb adam) 1, zget (vb adam) 1 with
      | Some (mlp', _), Some l, Some mwi, Some vwi, Some mbi, Some vbi =>
          ∃ l', layer mlp' 1 = Some l' ∧
            cells_updated (spec_adam_weight adam)
              (weights l) (gradWeights l) mwi vwi (weights l') ∧
            cells_updated (spec_adam_bias adam)
              (biases l) (gradBiases l) mbi vbi (biases l')
      | _, _, _, _, _, _ => False
      end
  | None => False
  end.
Proof.
  unfold example_optimizer.
  match goal with |- context [adam_optimize ?m ?a] =>
    destruct (adam_optimize m a) as [[mlp' adam']|] eqn:H; [|by vm_compute in H];
    destruct (layer m 1) as [l|] eqn:Hl; [|by vm_compute in Hl];
    destruct (zget (mw a) 1) as [mwi|] eqn:Hmw; [|by vm_compute in Hmw];
    destruct (zget (vw a) 1) as [vwi|] eqn:Hvw; [|by vm_compute in Hvw];
    destruct (zget (mb a) 1) as [mbi|] eqn:Hmb; [|by vm_compute in Hmb];
    destruct (zget (vb a) 1) as [vbi|] eqn:Hvb; [|by vm_compute in Hvb];
    exact (adam_optimize_updates m a _ _ 1 _ _ _ _ _ H
             ltac:(simpl; lia) Hl Hmw Hvw Hmb Hvb)
  end.
Defined.

(** ** Persistence *)

Section persistence.
Context {D : Type} `{!Scalar D}.
Implicit Types m : Matrix D.
Implicit Types file : FILE D.

Lemma fread_doubles_aux_app (xs : list D) (rest : list (item D)) :
  fread_doubles_aux (length xs) ((Float64 <$> xs) ++ rest) = (xs, rest).
Proof.
  induction xs as [|x xs IH]; csimpl.
  - by destruct rest as [|[]].
  - by rewrite IH.
Qed.

Lemma nonempty_shape_take m :
  nonempty_shape m → take (Z.to_nat (rows m * columns m)) (data m) = data m.
Proof. intros [(_ & _ & _ & _ & Hl) _]. apply take_ge. lia. Qed.

Lemma matrix_write_ok m file :
  nonempty_shape m →
  Z.of_nat (length (matrix_stream m)) ≤ f_room file →
  matrix_write m file =
  Some (0, mkFILE (f_items file ++ matrix_stream m)
                  (f_room file - Z.of_nat (length (matrix_stream m)))).
Proof.
  intros Hm Hroom. pose proof (nonempty_shape_take m Hm) as Htake.
  destruct Hm as [(_ & _ & _ & _ & Hl) Hpos].
  unfold matrix_stream in *. rewrite Htake in *.
  rewrite length_app, length_fmap in Hroom. simpl in Hroom.
  unfold matrix_write, fwrite_int. rewrite decide_True by lia. simpl.
  rewrite decide_True by lia. simpl.
  unfold fwrite_doubles. simpl. rewrite decide_True by lia. simpl.
  rewrite Z.min_l by lia. rewrite decide_False by lia.
  rewrite Htake, length_fmap. do 2 f_equal. f_equal.
  - by rewrite <- !app_assoc.
  - lia.
Qed.

Lemma matrix_read_ok m rest rm :
  nonempty_shape m →
  matrix_read (mkFILE (matrix_stream m ++ rest) rm) = (ReadOk m, mkFILE rest rm).
Proof.
  intros Hm. pose proof (nonempty_shape_take m Hm) as Htake.
  destruct Hm as [(_ & _ & _ & _ & Hl) Hpos].
  unfold matrix_stream. rewrite Htake.
  unfold matrix_read, fread_int. simpl.
  rewrite decide_False by lia. unfold fread_doubles. simpl.
  replace (Z.to_nat (rows m * columns m)) with (length (data m)) by lia.
  rewrite fread_doubles_aux_app. rewrite decide_False by lia.
  by destruct m.
Qed.

Lemma matrix_copy_ok (dst src : Matrix D) r c :
  has_shape dst r c → has_shape src r c → matrix_copy dst src = Some src.
Proof.
  intros (Hrd & Hcd & ? & ? & Hld) (Hrs & Hcs & _ & _ & Hls). unfold matrix_copy.
  destruct (for_loop_pointwise (λ k, zget (data src) k)
              (λ i d, x ← zget (data src) i; zset d i x)
              (rows dst * columns dst) (data dst)) as (d' & -> & Hlen & Hd).
  - lia.
  - intros i d Hi _ _. destruct (zget_is_Some (data src) i) as [x Hx]; [lia|].
    exists x. by rewrite Hx.
  - simpl. f_equal. unfold with_data. destruct src as [rs cs ds]; simpl in *.
    f_equal; [congruence..|]. apply zget_ext. intros k. rewrite Hd.
    case_decide; [done|]. rewrite !zget_None; [done|lia..].
Qed.

Lemma layer_stream_length_le (ls : list (Layer D)) (n : nat) :
  (length (concat (layer_stream <$> take n ls)) ≤
   length (concat (layer_stream <$> ls)))%nat.
Proof.
  rewrite <- (take_drop n ls) at 2. rewrite fmap_app, concat_app, length_app. lia.
Qed.

Lemma mlp_write_weights_ok (mlp : MLP D) file :
  persist_wf mlp →
  Z.of_nat (length (mlp_stream mlp)) ≤ f_room file →
  mlp_write_weights mlp file =
  Some (0, mkFILE (f_items file ++ mlp_stream mlp)
                  (f_room file - Z.of_nat (length (mlp_stream mlp)))).
Proof.
  intros (Hd & Hlen & Hall) Hroom. unfold mlp_write_weights.
  set (pre := λ i : Z, concat (layer_stream <$> take (Z.to_nat i) (layers mlp))).
  edestruct (for_loop_inv (λ i '((ret, f) : Z * FILE D),
      ret = 0 ∧ f = mkFILE (f_items file ++ pre i)
                      (f_room file - Z.of_nat (length (pre i)))))
    as ([ret f] & -> & -> & ->); [| |..].
  - lia.
  - simpl. split; [done|]. unfold pre. simpl. rewrite app_nil_r, Z.sub_0_r.
    by destruct file.
  - intros i [ret f] Hi [-> ->]. rewrite decide_False by lia.
    destruct (zget_is_Some (layers mlp) i) as [l Hl]; [lia|].
    unfold layer. rewrite Hl. simpl.
    assert (layers mlp !! Z.to_nat i = Some l) as Hl'.
    { unfold zget in Hl. by rewrite decide_True in Hl by lia. }
    assert (pre (i + 1) = pre i ++ layer_stream l) as Hpre.
    { unfold pre. replace (Z.to_nat (i + 1)) with (S (Z.to_nat i)) by lia.
      rewrite (take_S_r _ _ _ Hl'), fmap_app, concat_app. simpl.
      by rewrite app_nil_r. }
    assert (Z.of_nat (length (pre (i + 1))) ≤ f_room file) as Hfit.
    { pose proof (layer_stream_length_le (layers mlp) (Z.to_nat (i + 1))).
      unfold mlp_stream in Hroom. unfold pre. lia. }
    rewrite Hpre in Hfit. unfold layer_stream in Hfit.
    rewrite !length_app in Hfit.
    apply (Forall_lookup_1 _ _ _ _ Hall) in Hl' as [Hw Hb].
    rewrite matrix_write_ok; [|done|cbn [f_room]; lia]. cbn [mbind option_bind].
    rewrite decide_False by lia.
    rewrite matrix_write_ok; [|done|cbn [f_room]; lia]. cbn [mbind option_bind].
    rewrite decide_False by lia. cbn [f_room f_items].
    eexists; split; [done|]. split; [done|]. rewrite Hpre. unfold layer_stream.
    rewrite !length_app. f_equal.
    + by rewrite <- !app_assoc.
    + lia.
  - do 2 f_equal. unfold pre, mlp_stream.
    rewrite take_ge by lia. done.
Qed.

Lemma mlp_read_weights_ok (m1 m2 : MLP D) rest rm :
  persist_wf m1 → persist_wf m2 → same_architecture m1 m2 →
  ∃ net,
    mlp_read_weights m2 (mkFILE (mlp_stream m1 ++ rest) rm)
      = Some (0, net, mkFILE rest rm) ∧
    (depth net = depth m2 ∧ batchSize net = batchSize m2 ∧
     input net = input m2 ∧ inputErrors net = inputErrors m2 ∧
     mlp_output net = mlp_output m2 ∧
     length (layers net) = length (layers m2)) ∧
    ∀ k, layer net k =
         l1 ← layer m1 k; l2 ← layer m2 k; Some (load_layer l1 l2).
Proof.
  intros (Hd1 & Hlen1 & Hall1) (Hd2 & Hlen2 & Hall2) (Hd & Hsame).
  unfold mlp_read_weights.
  set (post := λ i : Z, concat (layer_stream <$> drop (Z.to_nat i) (layers m1))).
  edestruct (for_loop_inv (λ i '((ret, mc, f) : Z * MLP D * FILE D),
      ret = 0 ∧ f = mkFILE (post i ++ rest) rm ∧
      (depth mc = depth m2 ∧ batchSize mc = batchSize m2 ∧
       input mc = input m2 ∧ inputErrors mc = inputErrors m2 ∧
       mlp_output mc = mlp_output m2 ∧
       length (layers mc) = length (layers m2)) ∧
      ∀ k, layer mc k =
           if decide (0 ≤ k < i)
           then l1 ← layer m1 k; l2 ← layer m2 k; Some (load_layer l1 l2)
           else layer m2 k))
    as ([[ret mc] f] & -> & -> & -> & Hmc & Hl); [| |..].
  - lia.
  - simpl. split_and!; try done. intros k. by rewrite decide_False by lia.
  - intros i [[ret mc] f] Hi (-> & -> & Hmc & Hl).
    destruct Hmc as (? & ? & ? & ? & ? & Hlen).
    rewrite decide_False by lia.
    destruct (zget_is_Some (layers m2) i) as [l2 Hl2]; [lia|].
    destruct (zget_is_Some (layers m1) i) as [l1 Hl1]; [lia|].
    rewrite Hl, decide_False by lia. unfold layer at 1. rewrite Hl2.
    cbn [mbind option_bind].
    assert (layers m1 !! Z.to_nat i = Some l1) as Hl1'.
    { unfold zget in Hl1. by rewrite decide_True in Hl1 by lia. }
    assert (layers m2 !! Z.to_nat i = Some l2) as Hl2'.
    { unfold zget in Hl2. by rewrite decide_True in Hl2 by lia. }
    assert (post i = layer_stream l1 ++ post (i + 1)) as Hpost.
    { unfold post. replace (Z.to_nat (i + 1)) with (S (Z.to_nat i)) by lia.
      by rewrite (drop_S _ _ _ Hl1'). }
    pose proof (Forall_lookup_1 _ _ _ _ Hall1 Hl1') as [Hw1 Hb1].
    pose proof (Forall_lookup_1 _ _ _ _ Hall2 Hl2') as [Hw2 Hb2].
    pose proof (Forall2_lookup_lr _ _ _ _ _ _ Hsame Hl1' Hl2')
      as (Hrw & Hcw & Hrb & Hcb).
    rewrite Hpost. unfold layer_stream. rewrite <- !app_assoc.
    rewrite (matrix_read_ok (weights l1)) by done.
    rewrite decide_False by lia.
    rewrite (matrix_copy_ok _ _ (rows (weights l1)) (columns (weights l1))).
    2:{ destruct Hw2 as [Hs _]. by rewrite Hrw, Hcw. }
    2:{ by destruct Hw1. }
    cbn [mbind option_bind].
    destruct (set_layer mc i (set_weights l2 (weights l1))) as [mc1|] eqn:E1.
    2:{ unfold set_layer in E1. rewrite zset_lt in E1 by lia. done. }
    cbn [mbind option_bind].
    apply set_layer_Some in E1 as (? & ? & ? & ? & ? & Hlen1' & Hl1c).
    rewrite (matrix_read_ok (biases l1)) by done.
    rewrite decide_False by (unfold set_weights; simpl; lia).
    rewrite (matrix_copy_ok _ _ (rows (biases l1)) (columns (biases l1))).
    2:{ destruct Hb2 as [Hs _]. by rewrite Hrb, Hcb. }
    2:{ by destruct Hb1. }
    cbn [mbind option_bind].
    destruct (set_layer mc1 i _) as [mc2|] eqn:E2.
    2:{ unfold set_layer in E2. rewrite zset_lt in E2 by lia. done. }
    cbn [mbind option_bind]. eexists; split; [done|].
    apply set_layer_Some in E2 as (? & ? & ? & ? & ? & Hlen2' & Hl2c).
    split_and!; try congruence.
    intros k. rewrite Hl2c, Hl1c, Hl.
    destruct (decide (k = i)) as [->|].
    + rewrite decide_True by lia. unfold layer. rewrite Hl1, Hl2. done.
    + repeat case_decide; try done; lia.
  - exists mc. split_and!; try apply Hmc.
    + do 3 f_equal. unfold post. rewrite drop_ge by lia. done.
    + intros k. rewrite Hl. case_decide; [done|].
      unfold layer.
      rewrite (zget_None (layers m1)), (zget_None (layers m2)) by lia. done.
Qed.

Lemma loaded_parameters (m1 m2 net : MLP D) :
  length (layers m1) = length (layers m2) →
  (∀ k, layer net k =
        l1 ← layer m1 k; l2 ← layer m2 k; Some (load_layer l1 l2)) →
  parameters net = parameters m1.
Proof.
  intros Hlen Hl. unfold parameters. apply list_eq. intros i.
  rewrite !list_lookup_fmap.
  specialize (Hl (Z.of_nat i)). unfold layer in Hl. rewrite !zget_nat in Hl.
  rewrite Hl. destruct (layers m1 !! i) as [l1|] eqn:E1; [|done]. simpl.
  destruct (layers m2 !! i) as [l2|] eqn:E2; [done|].
  apply lookup_lt_Some in E1. apply lookup_ge_None in E2. lia.
Qed.

Lemma ddpg_save_policy_ok (ddpg : DDPG D) filename disk :
  persist_wf (actor ddpg) → persist_wf (critic ddpg) →
  writable disk filename = true →
  Z.of_nat (length (policy_stream ddpg)) ≤ room disk →
  ∃ disk',
    ddpg_save_policy ddpg filename disk = Some (0, disk') ∧
    files disk' filename = Some (policy_stream ddpg).
Proof.
  intros Ha Hc Hw Hroom. unfold ddpg_save_policy, fopen_wb. rewrite Hw.
  unfold policy_stream in *. rewrite length_app in Hroom.
  rewrite mlp_write_weights_ok by (cbn [f_room]; done || lia).
  cbn [mbind option_bind]. rewrite decide_False by lia.
  rewrite mlp_write_weights_ok by (cbn [f_room]; done || lia).
  cbn [mbind option_bind]. rewrite decide_False by lia.
  eexists; split; [done|]. unfold fclose_wb; cbn [files f_items].
  by rewrite decide_True by done.
Qed.

Lemma ddpg_load_policy_ok (src dst : DDPG D) filename disk :
  persist_wf (actor src) → persist_wf (critic src) →
  persist_wf (actor dst) → persist_wf (critic dst) →
  same_architecture (actor src) (actor dst) →
  same_architecture (critic src) (critic dst) →
  files disk filename = Some (policy_stream src) →
  ∃ a c,
    ddpg_load_policy dst filename disk
      = Some (0, set_critic (set_actor dst a) c) ∧
    parameters a = parameters (actor src) ∧
    parameters c = parameters (critic src).
Proof.
  intros Ha Hc Ha' Hc' Hsa Hsc Hf. unfold ddpg_load_policy, fopen_rb.
  rewrite Hf. unfold policy_stream. cbn [fmap option_fmap option_map].
  destruct (mlp_read_weights_ok (actor src) (actor dst)
              (mlp_stream (critic src)) 0) as (a & -> & _ & Hla); [done..|].
  cbn [mbind option_bind]. rewrite decide_False by lia.
  change (critic (set_actor dst a)) with (critic dst).
  destruct (mlp_read_weights_ok (critic src) (critic dst) [] 0)
    as (c & Hrc & _ & Hlc); [done..|].
  rewrite app_nil_r in Hrc. rewrite Hrc.
  cbn [mbind option_bind]. rewrite decide_False by lia.
  exists a, c. split; [done|].
  destruct Ha as (_ & ? & _), Hc as (_ & ? & _), Ha' as (_ & ? & _),
    Hc' as (_ & ? & _), Hsa as [? _], Hsc as [? _].
  split.
  - apply (loaded_parameters _ (actor dst)); [lia|done].
  - apply (loaded_parameters _ (critic dst)); [lia|done].
Qed.

End persistence.

(** ** Persistence of the policy *)

(** C8 (ddpg_save_policy, ddpg_load_policy, mlp_write_weights,
    mlp_read_weights, matrix_write, matrix_read).  Let [src] and [dst] be two
    agents whose actors, and whose critics, have the same depth and the same
    shapes of weights and biases, every one of these matrices having at least
    one cell, and let the file be writable with room for the stream.  Then
    [ddpg_save_policy src] returns 0 and leaves in the file exactly the
    weights and biases of the actor followed by those of the critic; on the
    disk so written [ddpg_load_policy dst] returns 0, and afterwards the
    weights and biases of the actor and of the critic of [dst] are those of
    [src], cell for cell, while the target networks, the optimizers and the
    replay memory of [dst] are as before the call. *)
Theorem ddpg_save_load_policy_round_trip
    {D} `{!Scalar D} (src dst : DDPG D) filename disk :
  persist_wf (actor src) → persist_wf (critic src) →
  persist_wf (actor dst) → persist_wf (critic dst) →
  same_architecture (actor src) (actor dst) →
  same_architecture (critic src) (critic dst) →
  writable disk filename = true →
  Z.of_nat (length (policy_stream src)) ≤ room disk →
  ∃ disk' dst',
    ddpg_save_policy src filename disk = Some (0, disk') ∧
    files disk' filename = Some (policy_stream src) ∧
    ddpg_load_policy dst filename disk' = Some (0, dst') ∧
    parameters (actor dst') = parameters (actor src) ∧
    parameters (critic dst') = parameters (critic src) ∧
    actorTarget dst' = actorTarget dst ∧
    criticTarget dst' = criticTarget dst ∧
    actorAdam dst' = actorAdam dst ∧
    criticAdam dst' = criticAdam dst ∧
    memory dst' = memory dst ∧
    memoryUsed dst' = memoryUsed dst ∧
    memoryIdx dst' = memoryIdx dst.
Proof.
  intros Ha Hc Ha' Hc' Hsa Hsc Hw Hroom.
  destruct (ddpg_save_policy_ok src filename disk) as (disk' & Hs & Hf);
    [done..|].
  destruct (ddpg_load_policy_ok src dst filename disk')
    as (a & c & Hl & Hpa & Hpc); [done..|].
  exists disk', (set_critic (set_actor dst a) c). by split_and!.
Qed.

Lemma ddpg_save_load_policy_round_trip_witness :
  match example_pair with
  | Some (src, dst) =>
      ∃ disk' dst',
        ddpg_save_policy src "policy" example_disk = Some (0, disk') ∧
        files disk' "policy" = Some (policy_stream src) ∧
        ddpg_load_policy dst "policy" disk' = Some (0, dst') ∧
        parameters (actor dst') = parameters (actor src) ∧
        parameters (critic dst') = parameters (critic src) ∧
        actorTarget dst' = actorTarget dst ∧
        criticTarget dst' = criticTarget dst ∧
        actorAdam dst' = actorAdam dst ∧
        criticAdam dst' = criticAdam dst ∧
        memory dst' = memory dst ∧
        memoryUsed dst' = memoryUsed dst ∧
        memoryIdx dst' = memoryIdx dst
  | None => False
  end.
Proof.
  unfold example_pair.
  apply ddpg_save_load_policy_round_trip;
    try (vm_compute; repeat split; repeat constructor; done || discriminate).
Defined.

(** On an agent created with batch size 0 the biases have no cell:
    [ddpg_save_policy] writes them and returns 0, and [ddpg_load_policy], into
    an agent of the same architecture, returns -1 at the first of them. *)
Lemma ddpg_load_policy_rejects_empty_biases :
  ∃ src dst disk' dst',
    example_agents 0 = Some (src, dst) ∧
    same_architecture (actor src) (actor dst) ∧
    same_architecture (critic src) (critic dst) ∧
    ddpg_save_policy src "policy" example_disk = Some (0, disk') ∧
    ddpg_load_policy dst "policy" disk' = Some (-1, dst').
Proof.
  destruct example_pair_empty as [[src dst]|] eqn:E; [|by vm_compute in E].
  unfold example_pair_empty in E. injection E as <- <-.
  eexists _, _, _, _. split; [by vm_compute|].
  split; [vm_compute; repeat split; repeat constructor; done|].
  split; [vm_compute; repeat split; repeat constructor; done|].
  split; by vm_compute.
Qed.

(** ** Training *)

Section train.
Context {D : Type} `{!Scalar D}.
Implicit Types ddpg : DDPG D.
Implicit Types mlp : MLP D.

(** Back-propagation and the optimizer leave the output of the last forward
    pass in place. *)
Lemma mlp_backpropagate_output mlp y code loss mlp' :
  mlp_backpropagate mlp y code = Some (loss, mlp') →
  mlp_output mlp' = mlp_output mlp.
Proof.
  unfold mlp_backpropagate. intros H. repeat bind_step H.
  match goal with
  | E : set_layer mlp _ _ = Some _ |- _ =>
      apply set_layer_Some in E as (_ & _ & _ & _ & Ho1 & _)
  end.
  match goal with
  | E : for_down _ _ _ _ = Some ?s |- _ =>
      apply (for_down_preserves (λ s, mlp_output s = mlp_output mlp)) in E
        as Ho2; [|done|]
  end.
  2:{ intros j s s' _ Hs Hb. repeat bind_step Hb.
      apply set_layer_Some in Hb as (_ & _ & _ & _ & ? & _). congruence. }
  match goal with
  | E : for_loop _ _ _ _ = Some _ |- _ =>
      apply (for_loop_preserves
               (λ s : MLP D * InputPtr, mlp_output s.1 = mlp_output mlp)) in E
        as Ho3; [|by simpl|]
  end.
  2:{ intros j [s inp] [s' inp'] _ Hs Hb. simpl in *. repeat bind_step Hb.
      subst s'.
      match goal with
      | E : set_layer _ _ _ = Some _ |- _ =>
          apply set_layer_Some in E as (_ & _ & _ & _ & ? & _)
      end. congruence. }
  subst. done.
Qed.

Lemma adam_optimize_output mlp adam mlp' adam' :
  adam_optimize mlp adam = Some (mlp', adam') →
  mlp_output mlp' = mlp_output mlp.
Proof.
  unfold adam_optimize. intros H. cbv zeta in H. repeat bind_step H.
  subst mlp'.
  match goal with
  | E : for_loop _ _ _ _ = Some _ |- _ =>
      apply (for_loop_preserves
               (λ s : MLP D * list (Matrix D) * list (Matrix D) *
                      list (Matrix D) * list (Matrix D),
                  mlp_output s.1.1.1.1 = mlp_output mlp)) in E; [done|done|]
  end.
  intros j [[[[s ?] ?] ?] ?] [[[[s' ?] ?] ?] ?] _ Hs Hb. simpl in Hs |- *.
  repeat bind_step Hb.
  match goal with
  | E : set_layer _ _ _ = Some _ |- _ =>
      apply set_layer_Some in E as (_ & _ & _ & _ & ? & _)
  end.
  congruence.
Qed.

End train.

(** C1 (ddpg_train).  When the memory holds at least a batch, after
    [ddpg_train] every index [i] of the batch has its critic error given by
    the Bellman equation: with [b = batchIndices[i]] the sampled row of the
    memory, [reward] its column [S + A] and [terminal] its column
    [2S + A + 1], and with [q] the output of the critic and [q'] the output
    of the target critic at row [i], [criticErrors[i]] is [q] if
    [terminal > 0] and [q - (reward + gamma * q')] otherwise.  The memory is
    not written. *)
Theorem ddpg_train_bellman_errors
    {D} `{!Scalar D} (ddpg : DDPG D) g gamma ddpg' g' :
  ddpg_batchSize ddpg ≤ memoryUsed ddpg →
  0 < columns (criticErrors ddpg) →
  ddpg_train ddpg g gamma = Some (ddpg', g') →
  memory ddpg' = memory ddpg ∧
  ∀ i, 0 ≤ i < ddpg_batchSize ddpg →
    ∃ b reward terminal q,
      zget (batchIndices ddpg') i = Some b ∧
      MATRIX (memory ddpg) b (stateSize ddpg + actionSize ddpg) = Some reward ∧
      MATRIX (memory ddpg) b (2 * stateSize ddpg + actionSize ddpg + 1)
        = Some terminal ∧
      MATRIX (mlp_output (critic ddpg')) i 0 = Some q ∧
      if (terminal >? d_of_int 0)%dbl
      then MATRIX (criticErrors ddpg') i 0 = Some q
      else ∃ q',
        MATRIX (mlp_output (criticTarget ddpg')) i 0 = Some q' ∧
        MATRIX (criticErrors ddpg') i 0 = Some (q - (reward + gamma * q'))%dbl.
Proof.
  intros HB Hc H. unfold ddpg_train in H. rewrite decide_False in H by lia.
  repeat bind_step H. subst ddpg' g'. simpl. split; [done|].
  rewrite (adam_optimize_output _ _ _ _ E17).
  rewrite (mlp_backpropagate_output _ _ _ _ _ E16).
  apply fmap_Some in E4 as (d3 & _ & ->).
  unfold addr in E15. simpl in E15.
  set (c := columns (criticErrors ddpg)) in *.
  intros i0 Hi0.
  change (MATRIX (with_data (with_data (criticErrors ddpg) d3) l6) i0 0)
    with (zget l6 (i0 * c + 0)).
  revert i0 Hi0.
  destruct (decide (0 ≤ ddpg_batchSize ddpg)) as [HB0|]; [|intros; lia].
  refine (for_loop_inv_Some (λ j (d : list D),
    ∀ i, 0 ≤ i < j →
      ∃ b reward terminal q,
        zget l i = Some b ∧
        MATRIX (memory ddpg) b (stateSize ddpg + actionSize ddpg)
          = Some reward ∧
        MATRIX (memory ddpg) b (2 * stateSize ddpg + actionSize ddpg + 1)
          = Some terminal ∧
        MATRIX (mlp_output m8) i 0 = Some q ∧
        if (terminal >? d_of_int 0)%dbl
        then zget d (i * c + 0) = Some q
        else ∃ q',
          MATRIX (mlp_output m12) i 0 = Some q' ∧
          zget d (i * c + 0) = Some (q - (reward + gamma * q'))%dbl)
    _ _ _ _ _ HB0 _ _ E15); [intros; lia|].
  clear E15. intros j dj dj' Hj IH Hb i Hi.
  repeat bind_step Hb.
  destruct (decide (i = j)) as [->|Hne].
  - exists z, d2, d4. destruct (d_of_int 0 <? d4)%dbl; repeat bind_step Hb.
    + eexists. split_and!; try done. by apply zget_zset_eq in Hb.
    + eexists. split_and!; try done. eexists. split; [done|].
      by apply zget_zset_eq in Hb.
  - assert (zget dj' (i * c + 0) = zget dj (i * c + 0)) as Hkeep.
    { destruct (d_of_int 0 <? d4)%dbl; repeat bind_step Hb;
        (eapply zget_zset_ne; [exact Hb|nia]). }
    rewrite Hkeep. apply IH. lia.
Qed.

Lemma ddpg_train_bellman_errors_witness :
  match example_replay with
  | Some (ddpg, _) =>
      match ddpg_train ddpg example_draws 0.5%float with
      | Some (ddpg', _) =>
          memory ddpg' = memory ddpg ∧
          ∀ i, 0 ≤ i < ddpg_batchSize ddpg →
            ∃ b reward terminal q,
              zget (batchIndices ddpg') i = Some b ∧
              MATRIX (memory ddpg) b (stateSize ddpg + actionSize ddpg)
                = Some reward ∧
              MATRIX (memory ddpg) b (2 * stateSize ddpg + actionSize ddpg + 1)
                = Some terminal ∧
              MATRIX (mlp_output (critic ddpg')) i 0 = Some q ∧
              if (terminal >? d_of_int 0)%dbl
              then MATRIX (criticErrors ddpg') i 0 = Some q
              else ∃ q',
                MATRIX (mlp_output (criticTarget ddpg')) i 0 = Some q' ∧
                MATRIX (criticErrors ddpg') i 0
                  = Some (q - (reward + 0.5%float * q'))%dbl
      | None => False
      end
  | None => False
  end.
Proof.
  unfold example_replay.
  match goal with |- context [ddpg_train ?d ?g ?x] =>
    destruct (ddpg_train d g x) as [[ddpg' g']|] eqn:H; [|by vm_compute in H];
    exact (ddpg_train_bellman_errors d g x ddpg' g'
             ltac:(by vm_compute) ltac:(by vm_compute) H)
  end.
Defined.

(** * Memory safety

    Under the shapes that [mlp_create], [adam_create] and [ddpg_create]
    allocate, every access of the library stays inside its block: the
    functions return, and they preserve the shapes. *)

Section total_loops.
Context {A : Type}.

Lemma zset_is_Some (l : list A) i x :
  0 ≤ i < Z.of_nat (length l) →
  ∃ l', zset l i x = Some l' ∧ length l' = length l.
Proof.
  intros Hi. unfold zset. rewrite decide_True by done.
  eexists. split; [done|]. apply length_insert.
Qed.

Lemma for_loop_length (body : Z → list A → option (list A)) lo hi (d : list A) :
  (∀ j d', lo ≤ j < hi → length d' = length d →
     ∃ d'', body j d' = Some d'' ∧ length d'' = length d) →
  ∃ d', for_loop lo hi body d = Some d' ∧ length d' = length d.
Proof.
  intros Hbody. destruct (decide (lo ≤ hi)).
  - apply (for_loop_inv (λ _ d', length d' = length d)); [done..|].
    intros j d' Hj Hd. by apply Hbody.
  - rewrite for_loop_empty by lia. by eexists.
Qed.

End total_loops.

Ltac step_get :=
  match goal with
  | |- context [zget ?l ?i ≫= _] =>
      let H := fresh "Hget" in
      destruct (zget_is_Some l i) as [? H]; [first [lia|nia]|rewrite H; simpl]
  end.

Ltac step_set :=
  match goal with
  | |- context [zset ?l ?i ?x] =>
      let H := fresh "Hset" in
      destruct (zset_is_Some l i x) as (? & H & ?); [first [lia|nia]|rewrite H; simpl]
  end.

Ltac shape_cells H :=
  let Hr := fresh "Hr" in let Hc := fresh "Hc" in
  let Hr0 := fresh "Hr0" in let Hc0 := fresh "Hc0" in
  let Hl := fresh "Hl" in
  destruct H as (Hr & Hc & Hr0 & Hc0 & Hl).

Section total_matrix.
Context {D : Type} `{!Scalar D}.
Implicit Types m dst src result : Matrix D.

Lemma has_shape_with_data m r c (d : list D) :
  has_shape m r c → length d = length (data m) → has_shape (with_data m d) r c.
Proof. unfold has_shape. simpl. intros (? & ? & ? & ? & ?) ?. split_and!; try done. lia. Qed.

Lemma elementwise_total m r c (body : Z → list D → option (list D)) :
  has_shape m r c →
  (∀ j d, 0 ≤ j < r * c → length d = length (data m) →
     ∃ d', body j d = Some d' ∧ length d' = length (data m)) →
  ∃ m', with_data m <$> for_loop 0 (rows m * columns m) body (data m) = Some m' ∧
        has_shape m' r c.
Proof.
  intros Hm Hbody. pose proof Hm as (Hr & Hc & _).
  destruct (for_loop_length body 0 (rows m * columns m) (data m)) as (d' & -> & Hd').
  { intros j d Hj Hd. apply Hbody; [by rewrite <- Hr, <- Hc|done]. }
  eexists. split; [done|]. by apply has_shape_with_data.
Qed.

Lemma matrix_clear_total m r c :
  has_shape m r c → ∃ m', matrix_clear m = Some m' ∧ has_shape m' r c.
Proof.
  intros Hm. apply elementwise_total; [done|]. shape_cells Hm.
  intros j d Hj Hd. step_set. eauto with lia.
Qed.

Lemma matrix_fill_total m (v : D) r c :
  has_shape m r c → ∃ m', matrix_fill m v = Some m' ∧ has_shape m' r c.
Proof.
  intros Hm. apply elementwise_total; [done|]. shape_cells Hm.
  intros j d Hj Hd. step_set. eauto with lia.
Qed.

Lemma matrix_apply_total m (f : D → D) r c :
  has_shape m r c → ∃ m', matrix_apply m f = Some m' ∧ has_shape m' r c.
Proof.
  intros Hm. apply elementwise_total; [done|]. shape_cells Hm.
  intros j d Hj Hd. step_get. step_set. eauto with lia.
Qed.

Lemma matrix_divide_total m (v : D) r c :
  has_shape m r c → ∃ m', matrix_divide m v = Some m' ∧ has_shape m' r c.
Proof.
  intros Hm. apply elementwise_total; [done|]. shape_cells Hm.
  intros j d Hj Hd. step_get. step_set. eauto with lia.
Qed.

Lemma matrix_odot_total dst src r c :
  has_shape dst r c → has_shape src r c →
  ∃ m', matrix_odot dst src = Some m' ∧ has_shape m' r c.
Proof.
  intros Hm Hs. apply elementwise_total; [done|]. shape_cells Hm. shape_cells Hs.
  intros j d Hj Hd. do 2 step_get. step_set. eauto with lia.
Qed.

Lemma matrix_add_total dst src r c :
  has_shape dst r c → has_shape src r c →
  ∃ m', matrix_add dst src = Some m' ∧ has_shape m' r c.
Proof.
  intros Hm Hs. apply elementwise_total; [done|]. shape_cells Hm. shape_cells Hs.
  intros j d Hj Hd. do 2 step_get. step_set. eauto with lia.
Qed.

Lemma matrix_difference_total (m1 m2 : Matrix D) result r c :
  has_shape m1 r c → has_shape m2 r c → has_shape result r c →
  ∃ m', matrix_difference m1 m2 result = Some m' ∧ has_shape m' r c.
Proof.
  intros H1 H2 Hm. apply elementwise_total; [done|].
  shape_cells Hm. shape_cells H1. shape_cells H2.
  intros j d Hj Hd. do 2 step_get. step_set. eauto with lia.
Qed.

Lemma matrix_copy_total dst src r c :
  has_shape dst r c → has_shape src r c →
  ∃ m', matrix_copy dst src = Some m' ∧ has_shape m' r c.
Proof.
  intros Hm Hs. apply elementwise_total; [done|]. shape_cells Hm. shape_cells Hs.
  intros j d Hj Hd. step_get. step_set. eauto with lia.
Qed.

Lemma matrix_clone_total (heap : Z → D) m r c :
  has_shape m r c → ∃ m', matrix_clone heap m = Some m' ∧ has_shape m' r c.
Proof.
  intros Hm. unfold matrix_clone.
  pose proof Hm as (Hr & Hc & Hr0 & Hc0 & Hl).
  assert (has_shape (matrix_create heap (rows m) (columns m)) r c) as Hcl.
  { rewrite Hr, Hc. by apply matrix_create_shape. }
  assert (rows (matrix_create heap (rows m) (columns m)) = rows m) as Hr' by done.
  assert (columns (matrix_create heap (rows m) (columns m)) = columns m)
    as Hc' by done.
  remember (matrix_create heap (rows m) (columns m)) as cl eqn:Hcleq.
  destruct (elementwise_total cl r c
              (λ i d, x ← zget (data m) i; zset d i x) Hcl) as (m' & Hm' & ?).
  { shape_cells Hcl. intros j d Hj Hd. step_get. step_set. eauto with lia. }
  rewrite Hr', Hc' in Hm'. eauto.
Qed.

Lemma matrix_sum_rows_transpose_total m result r c :
  has_shape m r c → has_shape result c r → 0 < r →
  ∃ m', matrix_sum_rows_transpose m result = Some m' ∧ has_shape m' c r.
Proof.
  intros Hm Hres Hpos. unfold matrix_sum_rows_transpose.
  pose proof Hres as Hres'. shape_cells Hm. shape_cells Hres'.
  rewrite Hr, Hc, Hr1, Hc1.
  destruct (for_loop_length
    (λ col (d : list D),
       zset d (col * r) (d_of_int 0) ≫= λ d,
         for_loop 0 r
           (λ row (d : list D), acc ← zget d (col * r);
                     x ← zget (data m) (row * c + col);
                     zset d (col * r) (acc + x)%dbl) d)
    0 c (data result)) as (d1 & Hd1 & Hl1).
  { intros j d Hj Hd. step_set.
    match goal with |- context [for_loop 0 r ?b ?d0] =>
      destruct (for_loop_length b 0 r d0) as (d' & -> & ?) end; [|eauto with lia].
    intros i d' Hi Hd'. do 2 step_get. step_set. eauto with lia. }
  rewrite Hd1. simpl.
  destruct (for_loop_length
    (λ col, for_loop 0 c
       (λ row (d : list D), x ← zget d (row * r);
                 zset d (row * r + col) x)) 1 r d1) as (d2 & -> & Hl2).
  { intros j d Hj Hd.
    match goal with |- context [for_loop 0 c ?b ?d0] =>
      destruct (for_loop_length b 0 c d0) as (d' & -> & ?) end; [|eauto with lia].
    intros i d' Hi Hd'. step_get. step_set. eauto with lia. }
  simpl. eexists. split; [done|]. apply has_shape_with_data; [done|lia].
Qed.

Lemma sum_loop_total (d : list D) (f : D → D → D) n (s0 : D) :
  n ≤ Z.of_nat (length d) →
  is_Some (for_loop 0 n (λ i sum, x ← zget d i; Some (f sum x)) s0).
Proof.
  intros Hn. destruct (decide (0 ≤ n)).
  - destruct (for_loop_inv (λ _ (_ : D), True)
                (λ i sum, x ← zget d i; Some (f sum x)) 0 n s0) as (s & -> & _);
      [done..| |done].
    intros j s Hj _. step_get. eauto.
  - rewrite for_loop_empty by lia. done.
Qed.

Lemma getLossFunction_total code (yhat y e : Matrix D) r c :
  has_shape yhat r c → has_shape y r c → has_shape e r c →
  ∃ loss e', getLossFunction code yhat y e = Some (loss, e') ∧ has_shape e' r c.
Proof.
  intros Hyh Hy He. unfold getLossFunction. case_decide.
  - unfold mse.
    destruct (matrix_difference_total yhat y e r c) as (e' & -> & He'); [done..|].
    simpl. pose proof He' as He''. shape_cells He''. rewrite Hr, Hc.
    destruct (sum_loop_total (data e') (λ sum x, (sum + dpow x (d_of_int 2))%dbl)
                (r * c) (d_of_int 0)) as [s Hs]; [lia|].
    rewrite Hs. simpl. eauto.
  - unfold errorFunction.
    destruct (matrix_copy_total e y r c) as (e' & -> & He'); [done..|].
    simpl. pose proof He' as He''. shape_cells He''. rewrite Hr, Hc.
    destruct (sum_loop_total (data e') (λ sum x, (sum + x)%dbl)
                (r * c) (d_of_int 0)) as [s Hs]; [lia|].
    rewrite Hs. simpl. eauto.
Qed.

End total_matrix.

Section total_mlp.
Context {D : Type} `{!Scalar D}.
Implicit Types mlp : MLP D.
Implicit Types l : Layer D.

Lemma layer_is_Some mlp i :
  Z.of_nat (length (layers mlp)) = depth mlp + 1 → 0 ≤ i ≤ depth mlp →
  is_Some (layer mlp i).
Proof. intros. apply zget_is_Some. lia. Qed.

(** Replacing a layer by one of the same shapes. *)
Lemma mlp_wf_set_layer sz mlp i l' :
  mlp_wf sz mlp → 0 ≤ i ≤ depth mlp →
  layer_wf (batchSize mlp) (sz i) (sz (i + 1)) l' →
  ∃ mlp', set_layer mlp i l' = Some mlp' ∧ mlp_wf sz mlp' ∧
    depth mlp' = depth mlp ∧ batchSize mlp' = batchSize mlp ∧
    input mlp' = input mlp ∧ inputErrors mlp' = inputErrors mlp ∧
    mlp_output mlp' = mlp_output mlp ∧
    ∀ j, layer mlp' j = if decide (j = i) then Some l' else layer mlp j.
Proof.
  intros (Hd & HB & Hlen & Hls & Hin & Hie & Hout) Hi Hl'.
  destruct (zset_is_Some (layers mlp) i l') as (ls & Hset & Hlen'); [lia|].
  assert (set_layer mlp i l' = Some (set_layers mlp ls)) as Hs.
  { unfold set_layer. by rewrite Hset. }
  pose proof (set_layer_Some _ _ _ _ Hs) as (Hd' & HB' & ? & ? & ? & ? & Hl).
  eexists. split; [done|]. split_and!; try done.
  unfold mlp_wf. rewrite Hd', HB'. simpl. split_and!; try done; [lia|].
  intros j l. change (layer (set_layers mlp ls) j = Some l → layer_wf (batchSize mlp) (sz j) (sz (j + 1)) l).
  rewrite Hl. case_decide; [|apply Hls]. intros [= <-]. by subst.
Qed.

Lemma deref_shape sz mlp i :
  mlp_wf sz mlp → 0 ≤ i ≤ depth mlp + 1 →
  ∃ pin, deref mlp (input_at i) = Some pin ∧
         has_shape pin (sz i) (batchSize mlp).
Proof.
  intros (Hd & HB & Hlen & Hls & Hin & Hie & Hout) Hi. unfold input_at.
  case_decide as Hi0; simpl.
  - subst. eauto.
  - destruct (layer_is_Some mlp (i - 1)) as [l Hl]; [done|lia|].
    rewrite Hl. simpl. eexists. split; [done|].
    apply Hls in Hl as (_ & _ & Ho & _).
    by replace (i - 1 + 1) with i in Ho by lia.
Qed.

Lemma mlp_wf_set_input sz mlp m :
  mlp_wf sz mlp → has_shape m (sz 0) (batchSize mlp) →
  mlp_wf sz (set_input mlp m).
Proof. intros (? & ? & ? & ? & ? & ? & ?) ?. by split_and!. Qed.

Lemma mlp_wf_set_inputErrors sz mlp m :
  mlp_wf sz mlp → has_shape m (batchSize mlp) (sz 0) →
  mlp_wf sz (set_inputErrors mlp m).
Proof. intros (? & ? & ? & ? & ? & ? & ?) ?. by split_and!. Qed.

Lemma mlp_wf_set_mlp_output sz mlp m :
  mlp_wf sz mlp → has_shape m (batchSize mlp) (sz (depth mlp + 1)) →
  mlp_wf sz (set_mlp_output mlp m).
Proof. intros (? & ? & ? & ? & ? & ? & ?) ?. by split_and!. Qed.

(** [mlp_feedforward] on a batch of the shape of the network. *)
Lemma mlp_feedforward_total sz mlp (x : Matrix D) :
  mlp_wf sz mlp → has_shape x (batchSize mlp) (sz 0) →
  ∃ out mlp', mlp_feedforward mlp x = Some (out, mlp') ∧ mlp_wf sz mlp' ∧
    depth mlp' = depth mlp ∧ batchSize mlp' = batchSize mlp ∧
    out = mlp_output mlp'.
Proof.
  intros Hwf Hx. unfold mlp_feedforward.
  pose proof Hwf as (Hd & HB & Hlen & Hls & Hin & Hie & Hout).
  destruct (matrix_transpose_spec x (input mlp) (batchSize mlp) (sz 0))
    as (m & -> & Hm & _); [done..|]. simpl.
  pose proof (mlp_wf_set_input sz mlp m Hwf Hm) as Hwf0.
  set (mlp0 := set_input mlp m) in *.
  change (depth mlp0) with (depth mlp).
  match goal with |- context [for_loop 0 ?n ?body ?s0] =>
    destruct (for_loop_inv (λ i '((mc, inp) : MLP D * InputPtr),
      mlp_wf sz mc ∧ depth mc = depth mlp ∧ batchSize mc = batchSize mlp ∧
      inp = input_at i) body 0 n s0)
    as ([mc inp] & Hloop & Hwfc & Hdc & HBc & ->); [lia|done| |]
  end.
  - intros i [mc inp] Hi (Hwfc & Hdc & HBc & ->).
    pose proof Hwfc as (_ & _ & Hlenc & Hlsc & _).
    destruct (layer_is_Some mc i) as [l Hl]; [done|lia|].
    rewrite Hl. simpl.
    destruct (deref_shape sz mc i Hwfc) as (pin & -> & Hpin); [lia|]. simpl.
    pose proof (Hlsc _ _ Hl) as (Hw & Hb & Ho & He & Hdl & Hgw & Hgb).
    destruct (matrix_dot_spec (weights l) pin (output l)
                (sz (i + 1)) (sz i) (batchSize mc)) as (m1 & -> & Hm1 & _);
      [done..|]. simpl.
    destruct (matrix_add_total m1 (biases l) _ _ Hm1 Hb) as (m2 & -> & Hm2).
    simpl.
    destruct (matrix_apply_total m2 (activation l) _ _ Hm2) as (m3 & -> & Hm3).
    simpl.
    destruct (mlp_wf_set_layer sz mc i (set_output l m3) Hwfc)
      as (mc' & -> & Hwf' & Hd' & HB' & _ & _ & _ & _); [lia|by split_and!|].
    simpl. eexists. split; [done|]. split_and!; try congruence.
    unfold input_at. rewrite decide_False by lia. f_equal. lia.
  - simpl in Hloop. rewrite Hloop. simpl.
    destruct (deref_shape sz mc (depth mlp + 1) Hwfc) as (pin & -> & Hpin);
      [lia|]. simpl.
    pose proof Hwfc as (_ & _ & _ & _ & _ & _ & Houtc).
    rewrite Hdc in Houtc.
    destruct (matrix_transpose_spec pin (mlp_output mc)
                (sz (depth mlp + 1)) (batchSize mc))
      as (m' & -> & Hm' & _); [done..|]. simpl.
    eexists _, _. split; [done|]. split_and!; try done.
    apply mlp_wf_set_mlp_output; [done|]. by rewrite Hdc.
Qed.

Lemma for_down_inv {St} (P : St → Prop) (body : Z → St → option St) hi lo s :
  P s →
  (∀ j s, lo ≤ j ≤ hi → P s → ∃ s', body j s = Some s' ∧ P s') →
  ∃ s', for_down hi lo body s = Some s' ∧ P s'.
Proof.
  unfold for_down. intros Hs Hbody.
  assert (∀ (n : nat) j s, P s → j ≤ hi → lo ≤ j - Z.of_nat n + 1 →
            ∃ s', iterate_down n j body s = Some s' ∧ P s') as Hit.
  { induction n as [|n IH]; intros j s0 Hs0 Hj Hlo; simpl; [eauto|].
    destruct (Hbody j s0) as (s1 & -> & Hs1); [lia|done|]. simpl.
    apply IH; [done|lia|lia]. }
  destruct (decide (lo ≤ hi)).
  - apply Hit; [done|lia|lia].
  - replace (Z.to_nat (hi - lo + 1)) with 0%nat by lia. simpl. eauto.
Qed.

(** [mlp_backpropagate] on targets of the shape of the output. *)
Lemma mlp_backpropagate_total sz mlp (y : Matrix D) code :
  mlp_wf sz mlp → has_shape y (batchSize mlp) (sz (depth mlp + 1)) →
  ∃ loss mlp', mlp_backpropagate mlp y code = Some (loss, mlp') ∧
    mlp_wf sz mlp' ∧ depth mlp' = depth mlp ∧ batchSize mlp' = batchSize mlp.
Proof.
  intros Hwf Hy. unfold mlp_backpropagate.
  pose proof Hwf as (Hd & HB & Hlen & Hls & Hin & Hie & Hout).
  destruct (layer_is_Some mlp (depth mlp)) as [l Hl]; [done|lia|].
  rewrite Hl. simpl.
  pose proof (Hls _ _ Hl) as (Hw & Hb & Ho & He & Hdl & Hgw & Hgb).
  destruct (getLossFunction_total code (mlp_output mlp) y (errors l) _ _
              Hout Hy He) as (loss & me & -> & Hme). simpl.
  destruct (matrix_copy_total (deltas l) (mlp_output mlp) _ _ Hdl Hout)
    as (m1 & -> & Hm1). simpl.
  destruct (matrix_apply_total m1 (activationDeriv l) _ _ Hm1)
    as (m2 & -> & Hm2). simpl.
  assert (∃ m3, (if decide (depth mlp > 0) then matrix_odot m2 me else Some m2)
                = Some m3 ∧
                has_shape m3 (batchSize mlp) (sz (depth mlp + 1)))
    as (m3 & -> & Hm3).
  { case_decide; [|eauto]. by apply matrix_odot_total. }
  simpl.
  destruct (mlp_wf_set_layer sz mlp (depth mlp)
              (set_deltas (set_errors l me) m3) Hwf)
    as (mlp1 & -> & Hwf1 & Hd1 & HB1 & _); [lia|by split_and!|]. simpl.
  match goal with |- context [for_down ?hi ?lo ?body ?s0] =>
    destruct (for_down_inv (λ mc, mlp_wf sz mc ∧ depth mc = depth mlp ∧
                                  batchSize mc = batchSize mlp) body hi lo s0)
      as (mlp2 & -> & Hwf2 & Hd2 & HB2); [done| |]
  end.
  { intros i mc Hi (Hwfc & Hdc & HBc).
    pose proof Hwfc as (_ & _ & Hlenc & Hlsc & _).
    destruct (layer_is_Some mc (i + 1)) as [l1 Hl1]; [done|lia|].
    destruct (layer_is_Some mc i) as [li Hli]; [done|lia|].
    rewrite Hl1, Hli. simpl.
    pose proof (Hlsc _ _ Hl1) as (Hw1 & _ & _ & _ & Hdl1 & _).
    pose proof (Hlsc _ _ Hli) as (Hwi & Hbi & Hoi & Hei & Hdli & Hgwi & Hgbi).
    destruct (matrix_dot_spec (deltas l1) (weights l1) (errors li)
                (batchSize mc) (sz (i + 1 + 1)) (sz (i + 1)))
      as (e1 & -> & He1 & _); [done..|]. simpl.
    destruct (matrix_transpose_spec (output li) (deltas li)
                (sz (i + 1)) (batchSize mc)) as (d1 & -> & Hd1' & _);
      [done..|]. simpl.
    destruct (matrix_apply_total d1 (activationDeriv li) _ _ Hd1')
      as (d2 & -> & Hd2'). simpl.
    destruct (matrix_odot_total d2 e1 _ _ Hd2' He1) as (d3 & -> & Hd3). simpl.
    destruct (mlp_wf_set_layer sz mc i (set_deltas (set_errors li e1) d3) Hwfc)
      as (mc' & -> & Hwf' & Hd' & HB' & _); [lia|by split_and!|].
    eexists. split; [done|]. split_and!; congruence. }
  simpl.
  pose proof Hwf2 as (_ & _ & Hlen2 & Hls2 & _ & Hie2 & _).
  destruct (layer_is_Some mlp2 0) as [l0 Hl0]; [done|lia|].
  rewrite Hl0. simpl.
  pose proof (Hls2 _ _ Hl0) as (Hw0 & _ & _ & _ & Hdl0 & _).
  destruct (matrix_dot_spec (deltas l0) (weights l0) (inputErrors mlp2)
              (batchSize mlp2) (sz (0 + 1)) (sz 0)) as (ie & -> & Hie' & _);
    [done..|]. simpl.
  pose proof (mlp_wf_set_inputErrors sz mlp2 ie Hwf2 Hie') as Hwf3.
  set (mlp3 := set_inputErrors mlp2 ie) in *.
  change (depth mlp3) with (depth mlp2).
  match goal with |- context [for_loop 0 ?n ?body ?s0] =>
    destruct (for_loop_inv (λ i '((mc, inp) : MLP D * InputPtr),
      mlp_wf sz mc ∧ depth mc = depth mlp ∧ batchSize mc = batchSize mlp ∧
      inp = input_at i) body 0 n s0)
    as ([mc inp] & Hloop & Hwfc & Hdc & HBc & _); [lia|done| |]
  end.
  - intros i [mc inp] Hi (Hwfc & Hdc & HBc & ->).
    pose proof Hwfc as (_ & _ & Hlenc & Hlsc & _).
    destruct (layer_is_Some mc i) as [li Hli]; [done|lia|].
    rewrite Hli. simpl.
    destruct (deref_shape sz mc i Hwfc) as (pin & -> & Hpin); [lia|]. simpl.
    pose proof (Hlsc _ _ Hli) as (Hwi & Hbi & Hoi & Hei & Hdli & Hgwi & Hgbi).
    destruct (matrix_dot_transpose_spec pin (deltas li) (gradWeights li)
                (sz i) (batchSize mc) (sz (i + 1))) as (g1 & -> & Hg1 & _);
      [done..|]. simpl.
    destruct (matrix_divide_total g1 (d_of_int (batchSize mc)) _ _ Hg1)
      as (g2 & -> & Hg2). simpl.
    destruct (matrix_sum_rows_transpose_total (deltas li) (gradBiases li)
                (batchSize mc) (sz (i + 1))) as (b1 & -> & Hb1); [done..|lia|].
    simpl.
    destruct (matrix_divide_total b1 (d_of_int (batchSize mc)) _ _ Hb1)
      as (b2 & -> & Hb2). simpl.
    destruct (mlp_wf_set_layer sz mc i
                (set_gradBiases (set_gradWeights li g2) b2) Hwfc)
      as (mc' & -> & Hwf' & Hd' & HB' & _); [lia|by split_and!|].
    simpl. eexists. split; [done|]. split_and!; try congruence.
    unfold input_at. rewrite decide_False by lia. f_equal. lia.
  - simpl in Hloop. rewrite Hloop. simpl. eauto 10.
Qed.

End total_mlp.

Section total_adam.
Context {D : Type} `{!Scalar D}.
Implicit Types mlp : MLP D.
Implicit Types adam : Adam D.

Lemma cells_total
    (step : Z → list D * list D * list D → option (list D * list D * list D))
    r c s :
  0 ≤ r → 0 ≤ c → cells_len (r * c) s →
  (∀ idx s, 0 ≤ idx < r * c → cells_len (r * c) s →
     ∃ s', step idx s = Some s' ∧ cells_len (r * c) s') →
  ∃ s', for_loop 0 r (λ row, for_loop 0 c (λ col, step (row * c + col))) s
          = Some s' ∧ cells_len (r * c) s'.
Proof.
  intros Hr Hc Hs Hstep.
  apply (for_loop_inv (λ _ s, cells_len (r * c) s)); [done..|].
  intros row s1 Hrow Hs1.
  apply (for_loop_inv (λ _ s, cells_len (r * c) s)); [done..|].
  intros col s2 Hcol Hs2. apply Hstep; [nia|done].
Qed.

Lemma adam_weight_step_total adam (gw : Matrix D) n idx s :
  Z.of_nat (length (data gw)) = n → 0 ≤ idx < n → cells_len n s →
  ∃ s', adam_weight_step adam gw idx s = Some s' ∧ cells_len n s'.
Proof.
  destruct s as [[md vd] wd]. unfold cells_len; simpl.
  intros Hg Hidx (Hm & Hv & Hw).
  do 2 step_get. step_set. step_get. step_set. do 3 step_get. step_set.
  eexists. split; [done|]. simpl. lia.
Qed.

Lemma adam_bias_step_total adam (gb : Matrix D) n idx s :
  Z.of_nat (length (data gb)) = n → 0 ≤ idx < n → cells_len n s →
  ∃ s', adam_bias_step adam gb idx s = Some s' ∧ cells_len n s'.
Proof.
  destruct s as [[md vd] wd]. unfold cells_len; simpl.
  intros Hg Hidx (Hm & Hv & Hw).
  do 2 step_get. step_set. step_get. step_set. do 3 step_get. step_set.
  eexists. split; [done|]. simpl. lia.
Qed.

Lemma has_shape_cells (m : Matrix D) r c (d : list D) :
  has_shape m r c → Z.of_nat (length d) = rows m * columns m →
  has_shape (with_data m d) r c.
Proof.
  intros Hm Hd. apply has_shape_with_data; [done|]. shape_cells Hm. lia.
Qed.

Lemma zset_shapes (ms : list (Matrix D)) (sh : Z → Matrix D → Prop) i m ms' :
  zset ms i m = Some ms' → sh i m →
  (∀ j x, zget ms j = Some x → sh j x) →
  ∀ j x, zget ms' j = Some x → sh j x.
Proof.
  intros Hset Hm Hms j x. rewrite (zget_zset _ _ _ _ j Hset).
  case_decide; [|apply Hms]. intros [= <-]. by subst.
Qed.

(** [adam_optimize] on a network and the optimizer created for it. *)
Lemma adam_optimize_total sz mlp adam :
  mlp_wf sz mlp → adam_wf sz (batchSize mlp) (depth mlp) adam →
  ∃ mlp' adam', adam_optimize mlp adam = Some (mlp', adam') ∧
    mlp_wf sz mlp' ∧ depth mlp' = depth mlp ∧ batchSize mlp' = batchSize mlp ∧
    adam_wf sz (batchSize mlp) (depth mlp) adam'.
Proof.
  intros Hwf (Hdp & Hlmw & Hlmb & Hlvw & Hlvb & Hmw & Hvw & Hmb & Hvb).
  unfold adam_optimize. cbv zeta.
  pose proof Hwf as (Hd & HB & Hlen & Hls & Hin & Hie & Hout).
  set (adamT := mkAdam (t adam + d_of_int 1)%dbl (alpha adam) (beta1 adam)
                  (beta2 adam) (beta1t adam) (beta2t adam) (epsilon adam)
                  (adam_depth adam) (mw adam) (mb adam) (vw adam) (vb adam)).
  change (adam_depth adamT) with (adam_depth adam).
  change (mw adamT) with (mw adam). change (mb adamT) with (mb adam).
  change (vw adamT) with (vw adam). change (vb adamT) with (vb adam).
  match goal with |- context [for_loop 0 ?n ?body ?s0] =>
    destruct (for_loop_inv
      (λ _ '((mc, mws, mbs, vws, vbs) :
               MLP D * list (Matrix D) * list (Matrix D) *
               list (Matrix D) * list (Matrix D)),
         mlp_wf sz mc ∧ depth mc = depth mlp ∧ batchSize mc = batchSize mlp ∧
         adam_wf sz (batchSize mlp) (depth mlp)
           (mkAdam (t adam) (alpha adam) (beta1 adam) (beta2 adam)
              (beta1t adam) (beta2t adam) (epsilon adam) (adam_depth adam)
              mws mbs vws vbs)) body 0 n s0)
      as ([[[[mc mws] mbs] vws] vbs] & Hloop & Hwfc & Hdc & HBc & Hac);
      [lia|by split_and!| |]
  end.
  - intros i [[[[mc mws] mbs] vws] vbs] Hi (Hwfc & Hdc & HBc & Hac).
    destruct Hac as (_ & Hl1 & Hl2 & Hl3 & Hl4 & Hs1 & Hs2 & Hs3 & Hs4).
    simpl in Hl1, Hl2, Hl3, Hl4, Hs1, Hs2, Hs3, Hs4.
    pose proof Hwfc as (_ & _ & Hlenc & Hlsc & _).
    destruct (layer_is_Some mc i) as [l Hl]; [done|lia|].
    rewrite Hl. simpl.
    pose proof (Hlsc _ _ Hl) as (Hw & Hb & Ho & He & Hdl & Hgw & Hgb).
    rewrite HBc in Hb, Ho, He, Hdl, Hgb.
    destruct (zget_is_Some mws i) as [mwi Hmwi]; [lia|].
    destruct (zget_is_Some mbs i) as [mbi Hmbi]; [lia|].
    destruct (zget_is_Some vws i) as [vwi Hvwi]; [lia|].
    destruct (zget_is_Some vbs i) as [vbi Hvbi]; [lia|].
    rewrite Hmwi, Hmbi, Hvwi, Hvbi. simpl.
    pose proof (Hs1 _ _ Hmwi) as Hsmw. pose proof (Hs2 _ _ Hvwi) as Hsvw.
    pose proof (Hs3 _ _ Hmbi) as Hsmb. pose proof (Hs4 _ _ Hvbi) as Hsvb.
    destruct (cells_total (adam_weight_step adamT (gradWeights l))
                (rows (weights l)) (columns (weights l))
                (data mwi, data vwi, data (weights l)))
      as ([[mwd vwd] wd] & -> & Hcw1 & Hcw2 & Hcw3).
    { shape_cells Hw. lia. }
    { shape_cells Hw. lia. }
    { shape_cells Hw. shape_cells Hsmw. shape_cells Hsvw.
      unfold cells_len; simpl. lia. }
    { intros idx s Hidx Hs. apply adam_weight_step_total; [|done..].
      shape_cells Hw. shape_cells Hgw. lia. }
    simpl in Hcw1, Hcw2, Hcw3 |- *.
    destruct (cells_total (adam_bias_step adamT (gradBiases l))
                (rows (biases l)) (columns (biases l))
                (data mbi, data vbi, data (biases l)))
      as ([[mbd vbd] bd] & -> & Hcb1 & Hcb2 & Hcb3).
    { shape_cells Hb. lia. }
    { shape_cells Hb. lia. }
    { shape_cells Hb. shape_cells Hsmb. shape_cells Hsvb.
      unfold cells_len; simpl. lia. }
    { intros idx s Hidx Hs. apply adam_bias_step_total; [|done..].
      shape_cells Hb. shape_cells Hgb. lia. }
    simpl in Hcb1, Hcb2, Hcb3 |- *.
    destruct (mlp_wf_set_layer sz mc i
                (set_biases (set_weights l (with_data (weights l) wd))
                   (with_data (biases l) bd)) Hwfc)
      as (mc' & -> & Hwf' & Hd' & HB' & _); [lia| |].
    { rewrite HBc. split_and!; try done; simpl; by apply has_shape_cells. }
    simpl.
    destruct (zset_is_Some mws i (with_data mwi mwd)) as (mws' & Hz1 & ?); [lia|].
    destruct (zset_is_Some mbs i (with_data mbi mbd)) as (mbs' & Hz2 & ?); [lia|].
    destruct (zset_is_Some vws i (with_data vwi vwd)) as (vws' & Hz3 & ?); [lia|].
    destruct (zset_is_Some vbs i (with_data vbi vbd)) as (vbs' & Hz4 & ?); [lia|].
    rewrite Hz1, Hz2, Hz3, Hz4. simpl.
    eexists. split; [done|]. do 3 (split; [congruence|]).
    unfold adam_wf; simpl. split_and!; try lia.
    + apply (zset_shapes _ (λ j m, has_shape m (sz (j + 1)) (sz j)) _ _ _ Hz1);
        [|exact Hs1]. apply has_shape_cells; [done|].
      shape_cells Hw. shape_cells Hsmw. lia.
    + apply (zset_shapes _ (λ j m, has_shape m (sz (j + 1)) (sz j)) _ _ _ Hz3);
        [|exact Hs2]. apply has_shape_cells; [done|].
      shape_cells Hw. shape_cells Hsvw. lia.
    + apply (zset_shapes _ (λ j m, has_shape m (sz (j + 1)) (batchSize mlp))
               _ _ _ Hz2); [|exact Hs3]. apply has_shape_cells; [done|].
      shape_cells Hb. shape_cells Hsmb. lia.
    + apply (zset_shapes _ (λ j m, has_shape m (sz (j + 1)) (batchSize mlp))
               _ _ _ Hz4); [|exact Hs4]. apply has_shape_cells; [done|].
      shape_cells Hb. shape_cells Hsvb. lia.
  - rewrite Hloop. simpl. eexists _, _. split; [done|]. by split_and!.
Qed.

End total_adam.

Section total_ddpg.
Context {D : Type} `{!Scalar D}.
Implicit Types ddpg : DDPG D.

Lemma ddpg_data_copy_total (dst : list D) doff (src : list D) soff len :
  (0 < len → 0 ≤ soff ∧ soff + len ≤ Z.of_nat (length src) ∧
             0 ≤ doff ∧ doff + len ≤ Z.of_nat (length dst)) →
  ∃ d', ddpg_data_copy dst doff src soff len = Some d' ∧ length d' = length dst.
Proof.
  intros Hb. unfold ddpg_data_copy. apply for_loop_length.
  intros j d Hj Hd. step_get. step_set. eauto with lia.
Qed.

End total_ddpg.

Ltac step_copy :=
  match goal with
  | |- context [ddpg_data_copy ?a ?b ?c ?d ?e] =>
      let H := fresh "Hcopy" in
      destruct (ddpg_data_copy_total a b c d e) as (? & H & ?);
        [first [lia|nia]|rewrite H; simpl]
  end.

Section total_agent.
Context {D : Type} `{!Scalar D}.
Implicit Types ddpg : DDPG D.

Lemma deepc_random_int_total (g : Rand) lo hi :
  rand_ok g → lo ≤ hi →
  ∃ r g', deepc_random_int g lo hi = Some (r, g') ∧ lo ≤ r ≤ hi ∧ rand_ok g'.
Proof.
  intros Hg Hlh. unfold deepc_random_int, rand. simpl.
  rewrite decide_False by lia. eexists _, _. split; [done|]. split; [|done].
  pose proof (Hg (rand_pos g)).
  pose proof (Z.rem_bound_pos (rand_seq g (rand_pos g)) (hi - lo + 1)). lia.
Qed.

Lemma row_bound (i n c : Z) : 0 ≤ i < n → 0 ≤ c → 0 ≤ i * c ∧ i * c + c ≤ n * c.
Proof. nia. Qed.

Ltac step_bi Hbi :=
  match goal with
  | |- context [zget ?bi ?i ≫= _] =>
      match type of Hbi with
      | ∀ k, _ → ∃ b, zget bi k = Some b ∧ 0 ≤ b < memoryUsed ?ddpg =>
          let Hz := fresh "Hz" in
          let Hb := fresh "Hb" in
          destruct (Hbi i) as (? & Hz & Hb); [lia|rewrite Hz; simpl];
          match type of Hb with
          | 0 ≤ ?b < _ =>
              pose proof (row_bound b (memorySize ddpg)
                            (actionSize ddpg + 2 * stateSize ddpg + 2))
          end
      end
  end.

Ltac copy_loop ddpg Hbi :=
  apply for_loop_length;
  let j := fresh "j" in
  intros j ?d ?Hj ?Hd;
  pose proof (row_bound j (ddpg_batchSize ddpg) (stateSize ddpg));
  pose proof (row_bound j (ddpg_batchSize ddpg) (actionSize ddpg));
  pose proof (row_bound j (ddpg_batchSize ddpg)
                (actionSize ddpg + stateSize ddpg));
  repeat first [step_bi Hbi | step_copy | step_get | step_set];
  eauto with lia.

Lemma ddpg_observe_total sa sc ddpg (action : list D) reward (state : list D)
    terminal :
  ddpg_wf sa sc ddpg →
  actionSize ddpg ≤ Z.of_nat (length action) →
  stateSize ddpg ≤ Z.of_nat (length state) →
  ∃ ddpg', ddpg_observe ddpg action reward state terminal = Some ddpg' ∧
           ddpg_wf sa sc ddpg'.
Proof.
  intros Hwf Ha Hs. pose proof Hwf as [].
  destruct wf_replay0 as (HS & HA & HM & Hmem & Hls).
  pose proof Hmem as Hmem'. shape_cells Hmem'.
  unfold ddpg_observe. case_decide as Hv.
  - step_copy. eexists. split; [done|]. constructor; simpl; try done.
    unfold replay_wf; simpl. split_and!; try done. lia.
  - unfold addr. rewrite Hc.
    assert (0 ≤ memoryIdx ddpg * (actionSize ddpg + 2 * stateSize ddpg + 2) ∧
            memoryIdx ddpg * (actionSize ddpg + 2 * stateSize ddpg + 2) +
              (actionSize ddpg + 2 * stateSize ddpg + 2)
            ≤ memorySize ddpg * (actionSize ddpg + 2 * stateSize ddpg + 2))
      as [Hlo Hhi] by nia.
    repeat first [step_copy|step_set].
    rewrite decide_False by lia.
    pose proof (Z.rem_bound_pos (memoryIdx ddpg + 1) (memorySize ddpg)).
    match goal with |- context [with_data (memory ddpg) ?d] =>
      assert (has_shape (with_data (memory ddpg) d) (memorySize ddpg)
                (actionSize ddpg + 2 * stateSize ddpg + 2)) as Hmem5
        by (apply has_shape_with_data; [done|lia])
    end.
    destruct (decide (memoryUsed ddpg < memorySize ddpg));
      (eexists; split; [done|]); constructor; simpl; try done;
      try lia; (unfold replay_wf; simpl; split_and!; try done; lia).
Qed.

Lemma ddpg_new_episode_wf sa sc ddpg :
  ddpg_wf sa sc ddpg → ddpg_wf sa sc (ddpg_new_episode ddpg).
Proof. intros []. by constructor. Qed.

Lemma mlp_copy_total sz (dst src : MLP D) :
  mlp_wf sz dst → mlp_wf sz src →
  depth dst = depth src → batchSize dst = batchSize src →
  ∃ dst', mlp_copy dst src = Some dst' ∧ mlp_wf sz dst' ∧
          depth dst' = depth dst ∧ batchSize dst' = batchSize dst.
Proof.
  intros Hwd Hws Hd HB. unfold mlp_copy.
  pose proof Hws as (Hd0 & HB0 & Hlens & Hlss & Hins & Hies & Houts).
  match goal with |- context [for_loop 0 ?n ?body ?s0] =>
    destruct (for_loop_inv (λ _ mc, mlp_wf sz mc ∧ depth mc = depth dst ∧
                                    batchSize mc = batchSize dst) body 0 n s0)
      as (mc & -> & Hwfc & Hdc & HBc); [lia|done| |]
  end.
  - intros i mc Hi (Hwfc & Hdc & HBc).
    pose proof Hwfc as (_ & _ & Hlenc & Hlsc & _).
    destruct (layer_is_Some mc i) as [ld Hld]; [done|lia|].
    destruct (layer_is_Some src i) as [ls Hls]; [done|lia|].
    rewrite Hld, Hls. simpl.
    pose proof (Hlsc _ _ Hld) as (Hw & Hb & Ho & He & Hdl & Hgw & Hgb).
    pose proof (Hlss _ _ Hls) as (Hw' & Hb' & Ho' & He' & Hdl' & Hgw' & Hgb').
    rewrite HBc, HB in *.
    destruct (matrix_copy_total _ _ _ _ Hw Hw') as (m1 & -> & ?). simpl.
    destruct (matrix_copy_total _ _ _ _ Hb Hb') as (m2 & -> & ?). simpl.
    destruct (matrix_copy_total _ _ _ _ Ho Ho') as (m3 & -> & ?). simpl.
    destruct (matrix_copy_total _ _ _ _ He He') as (m4 & -> & ?). simpl.
    destruct (matrix_copy_total _ _ _ _ Hdl Hdl') as (m5 & -> & ?). simpl.
    destruct (matrix_copy_total _ _ _ _ Hgw Hgw') as (m6 & -> & ?). simpl.
    destruct (matrix_copy_total _ _ _ _ Hgb Hgb') as (m7 & -> & ?). simpl.
    match goal with |- context [set_layer mc i ?l] =>
      destruct (mlp_wf_set_layer sz mc i l Hwfc)
        as (mc' & -> & Hwf' & Hd' & HB' & _); [lia| |]
    end.
    { rewrite HBc. by split_and!. }
    eexists. split; [done|]. split_and!; congruence.
  - simpl.
    pose proof Hwfc as (_ & _ & _ & _ & Hinc & Hiec & Houtc).
    rewrite HBc, HB in Hinc, Hiec, Houtc. rewrite Hdc, Hd in Houtc.
    destruct (matrix_copy_total _ _ _ _ Hinc Hins) as (m1 & -> & Hm1). simpl.
    destruct (matrix_copy_total _ _ _ _ Hiec Hies) as (m2 & -> & Hm2). simpl.
    destruct (matrix_copy_total _ _ _ _ Houtc Houts) as (m3 & -> & Hm3). simpl.
    eexists. split; [done|]. split_and!; try done.
    apply mlp_wf_set_mlp_output; simpl; [|by rewrite HBc, HB, Hdc, Hd].
    apply mlp_wf_set_inputErrors; simpl; [|by rewrite HBc, HB].
    apply mlp_wf_set_input; [done|by rewrite HBc, HB].
Qed.

Lemma ddpg_update_target_networks_total sa sc ddpg :
  ddpg_wf sa sc ddpg →
  ∃ ddpg', ddpg_update_target_networks ddpg = Some ddpg' ∧ ddpg_wf sa sc ddpg'.
Proof.
  intros Hwf. pose proof Hwf as []. unfold ddpg_update_target_networks.
  destruct (mlp_copy_total sa (actorTarget ddpg) (actor ddpg))
    as (aT & -> & HaT & HdaT & HBaT); [done..|congruence|]. simpl.
  destruct (mlp_copy_total sc (criticTarget ddpg) (critic ddpg))
    as (cT & -> & HcT & HdcT & HBcT); [done..|congruence|]. simpl.
  eexists. split; [done|]. constructor; simpl; try done; congruence.
Qed.

Lemma deepc_random_double_rand_ok (g : Rand) (lo hi : D) :
  rand_ok g → rand_ok (deepc_random_double g lo hi).2.
Proof. done. Qed.

Lemma ddpg_action_total sa sc ddpg g (state : list D) :
  ddpg_wf sa sc ddpg → rand_ok g →
  stateSize ddpg ≤ Z.of_nat (length state) →
  ∃ ddpg' g', ddpg_action ddpg g state = Some (ddpg', g') ∧
              ddpg_wf sa sc ddpg' ∧ rand_ok g'.
Proof.
  intros Hwf Hg Hs. pose proof Hwf as []. unfold ddpg_action.
  pose proof wf_replay0 as (HS & HA & _).
  pose proof wf_actor0 as (_ & HB & _). rewrite wf_actor_batch0 in HB.
  destruct (matrix_clear_total _ _ _ wf_actorInput0) as (m & -> & Hm). simpl.
  pose proof Hm as Hm'. shape_cells Hm'.
  step_copy.
  match goal with |- context [mlp_feedforward ?a ?x] =>
    destruct (mlp_feedforward_total sa a x) as (out & a' & Hff & Ha' & Hda & HBa & _)
  end; [done| |].
  { rewrite wf_actor_batch0, wf_actor_in0. simpl.
    apply has_shape_with_data; [done|lia]. }
  simpl in Hff, Hda, HBa |- *. rewrite Hff. simpl.
  pose proof Ha' as (_ & _ & _ & _ & _ & _ & Hout).
  rewrite HBa, Hda, wf_actor_batch0, wf_actor_out0 in Hout.
  destruct Hout as (Hro & Hco & _ & _ & Hlo).
  match goal with |- context [for_loop 0 ?n ?body ?s0] =>
    destruct (for_loop_inv (λ _ '((act, g) : list D * Rand),
        Z.of_nat (length act) = actionSize ddpg ∧ rand_ok g) body 0 n s0)
      as ([act g'] & -> & Hact & Hg'); [done|done| |]
  end.
  - intros i [act gi] Hi (Hact & Hgi). unfold MATRIX. rewrite Hco.
    step_get. step_set.
    destruct (noise ddpg) as [nz|] eqn:Hnz;
      [|eexists; split; [done|]; split; [lia|done]].
    pose proof (wf_noise0 _ eq_refl).
    unfold deepc_random_double, rand.
    repeat first
      [ step_get | step_set
      | match goal with |- context [if ?b then _ else _] => destruct b end ];
      (eexists; split; [done|]; split; [lia|done]).
  - simpl. eexists _, _. split; [done|]. split; [|done].
    constructor; simpl; rewrite ?Hda, ?HBa; try done.
    apply has_shape_with_data; [done|lia].
Qed.

Lemma mlp_output_shape sz (mlp : MLP D) B dp n :
  mlp_wf sz mlp → batchSize mlp = B → depth mlp = dp → sz (dp + 1) = n →
  has_shape (mlp_output mlp) B n.
Proof. intros (_ & _ & _ & _ & _ & _ & Ho) <- <- <-. done. Qed.

Lemma mlp_inputErrors_shape sz (mlp : MLP D) B n :
  mlp_wf sz mlp → batchSize mlp = B → sz 0 = n →
  has_shape (inputErrors mlp) B n.
Proof. intros (_ & _ & _ & _ & _ & Hie & _) <- <-. done. Qed.

(** Sequencing: the first command returns and establishes [P], under which
    the rest returns and establishes [Q]. *)
Lemma bind_total {A B} (m : option A) (f : A → option B)
    (P : A → Prop) (Q : B → Prop) :
  (∃ a, m = Some a ∧ P a) →
  (∀ a, P a → ∃ b, f a = Some b ∧ Q b) →
  ∃ b, m ≫= f = Some b ∧ Q b.
Proof. intros (a & -> & Ha) Hf. simpl. by apply Hf. Qed.

Lemma bind_total2 {A1 A2 B} (m : option (A1 * A2)) (f : A1 * A2 → option B)
    (P : A1 → A2 → Prop) (Q : B → Prop) :
  (∃ a1 a2, m = Some (a1, a2) ∧ P a1 a2) →
  (∀ a1 a2, P a1 a2 → ∃ b, f (a1, a2) = Some b ∧ Q b) →
  ∃ b, m ≫= f = Some b ∧ Q b.
Proof. intros (a1 & a2 & -> & Ha) Hf. simpl. by apply Hf. Qed.

Lemma ddpg_train_total sa sc ddpg g (gamma : D) :
  ddpg_wf sa sc ddpg → rand_ok g →
  ∃ r, ddpg_train ddpg g gamma = Some r ∧ ddpg_wf sa sc r.1 ∧ rand_ok r.2.
Proof.
  intros Hwf Hg. pose proof Hwf as []. unfold ddpg_train.
  case_decide as Hused; [by eexists|]. cbv zeta.
  pose proof wf_replay0 as (HS & HA & HM & Hmem & _).
  destruct Hmem as (_ & Hmc & _ & _ & Hml).
  pose proof wf_actor0 as (_ & HB & _). rewrite wf_actor_batch0 in HB.
  pose proof wf_actorInput0 as (_ & Haic & _ & _ & Hail).
  pose proof wf_criticInput0 as (_ & Hcic & _ & _ & Hcil).
  pose proof wf_actorErrors0 as (_ & Haec & _ & _ & Hael).
  pose proof wf_criticErrors0 as (_ & Hcec & _ & _ & Hcel).
  unfold addr, MATRIX. simpl. rewrite ?Hmc, ?Haic, ?Hcic, ?Haec, ?Hcec.
  (* the batch *)
  eapply bind_total.
  { match goal with |- context [for_loop 0 ?n ?body ?s0] =>
      apply (for_loop_inv (λ i '((bi, g) : list Z * Rand),
        Z.of_nat (length bi) = ddpg_batchSize ddpg ∧ rand_ok g ∧
        ∀ k, 0 ≤ k < i → ∃ b, zget bi k = Some b ∧ 0 ≤ b < memoryUsed ddpg)
        body 0 n s0); [lia|split_and!; [done|done|intros; lia]|]
    end.
    intros i [bi gi] Hi (Hlen & Hgi & Hbi).
    destruct (deepc_random_int_total gi 0 (memoryUsed ddpg - 1) Hgi)
      as (r & g' & -> & Hr & Hg'); [lia|]. simpl.
    step_set. eexists. split; [done|]. split_and!; [lia|done|].
    intros k Hk. rewrite (zget_zset _ _ _ _ k Hset).
    case_decide; [eexists; split; [done|lia]|]. apply Hbi. lia. }
  intros [bi g1] (Hbil & Hg1 & Hbi). simpl.
  assert (memoryUsed ddpg ≤ memorySize ddpg) as HuM by lia.
  (* train the actor *)
  eapply bind_total; [copy_loop ddpg Hbi|]. intros d1 Hd1. simpl in Hd1 |- *.
  assert (has_shape (with_data (actorInput ddpg) d1) (ddpg_batchSize ddpg)
            (stateSize ddpg)) as Hai1 by (by apply has_shape_with_data).
  eapply bind_total2.
  { apply (mlp_feedforward_total sa); [done|].
    by rewrite wf_actor_batch0, wf_actor_in0. }
  intros out1 a1 (Hwa1 & Hda1 & HBa1 & _). simpl.
  rewrite wf_actor_batch0 in HBa1.
  pose proof (mlp_output_shape sa a1 _ _ _ Hwa1 HBa1 Hda1 wf_actor_out0)
    as (_ & Ho1c & _ & _ & Ho1l). rewrite ?Ho1c.
  eapply bind_total; [copy_loop ddpg Hbi|]. intros d2 Hd2. simpl in Hd2 |- *.
  assert (has_shape (with_data (criticInput ddpg) d2) (ddpg_batchSize ddpg)
            (actionSize ddpg + stateSize ddpg)) as Hci2
    by (by apply has_shape_with_data).
  eapply bind_total2.
  { apply (mlp_feedforward_total sc); [done|].
    by rewrite wf_critic_batch0, wf_critic_in0. }
  intros out2 c1 (Hwc1 & Hdc1 & HBc1 & _). simpl.
  rewrite wf_critic_batch0 in HBc1.
  eapply bind_total; [by apply matrix_fill_total|]. intros m Hm. simpl in Hm |- *.
  eapply bind_total2.
  { apply (mlp_backpropagate_total sc); [done|].
    by rewrite HBc1, Hdc1, wf_critic_out0. }
  intros out3 c2 (Hwc2 & Hdc2 & HBc2). simpl.
  rewrite Hdc1 in Hdc2. rewrite HBc1 in HBc2.
  pose proof (mlp_inputErrors_shape sc c2 _ _ Hwc2 HBc2 wf_critic_in0)
    as (_ & Hie2c & _ & _ & Hie2l).
  unfold mlp_get_input_errors. rewrite ?Hie2c.
  eapply bind_total; [copy_loop ddpg Hbi|]. intros d3 Hd3. simpl in Hd3 |- *.
  assert (has_shape (with_data (actorErrors ddpg) d3) (ddpg_batchSize ddpg)
            (actionSize ddpg)) as Hae3 by (by apply has_shape_with_data).
  eapply bind_total2.
  { apply (mlp_backpropagate_total sa); [done|].
    by rewrite HBa1, Hda1, wf_actor_out0. }
  intros out4 a2 (Hwa2 & Hda2 & HBa2). simpl.
  rewrite Hda1 in Hda2. rewrite HBa1 in HBa2.
  eapply bind_total2.
  { apply (adam_optimize_total sa); [done|]. by rewrite HBa2, Hda2. }
  intros a3 ad1 (Hwa3 & Hda3 & HBa3 & Had1). simpl.
  rewrite Hda2 in Hda3, Had1. rewrite HBa2 in HBa3, Had1.
  (* train the critic *)
  eapply bind_total; [copy_loop ddpg Hbi|]. intros d4 Hd4. simpl in Hd4 |- *.
  assert (has_shape (with_data (with_data (criticInput ddpg) d2) d4)
            (ddpg_batchSize ddpg) (actionSize ddpg + stateSize ddpg)) as Hci4
    by (by apply has_shape_with_data).
  eapply bind_total2.
  { apply (mlp_feedforward_total sc); [done|].
    by rewrite HBc2, wf_critic_in0. }
  intros out5 c3 (Hwc3 & Hdc3 & HBc3 & _). simpl.
  rewrite Hdc2 in Hdc3. rewrite HBc2 in HBc3.
  pose proof (mlp_output_shape sc c3 _ _ _ Hwc3 HBc3 Hdc3 wf_critic_out0)
    as (_ & Ho3c & _ & _ & Ho3l). rewrite ?Ho3c.
  eapply bind_total; [copy_loop ddpg Hbi|]. intros d5 Hd5. simpl in Hd5 |- *.
  assert (has_shape (with_data (with_data (actorInput ddpg) d1) d5)
            (ddpg_batchSize ddpg) (stateSize ddpg)) as Hai5
    by (by apply has_shape_with_data).
  eapply bind_total2.
  { apply (mlp_feedforward_total sa); [done|].
    by rewrite wf_actorTarget_batch0, wf_actor_in0. }
  intros out6 aT (HwaT & HdaT & HBaT & _). simpl.
  rewrite wf_actor_depth0 in HdaT. rewrite wf_actorTarget_batch0 in HBaT.
  pose proof (mlp_output_shape sa aT _ _ _ HwaT HBaT HdaT wf_actor_out0)
    as (_ & HoTc & _ & _ & HoTl). rewrite ?HoTc.
  eapply bind_total; [copy_loop ddpg Hbi|]. intros d6 Hd6. simpl in Hd6 |- *.
  assert (has_shape
            (with_data (with_data (with_data (criticInput ddpg) d2) d4) d6)
            (ddpg_batchSize ddpg) (actionSize ddpg + stateSize ddpg)) as Hci6
    by (by apply has_shape_with_data).
  eapply bind_total2.
  { apply (mlp_feedforward_total sc); [done|].
    by rewrite wf_criticTarget_batch0, wf_critic_in0. }
  intros out7 cT (HwcT & HdcT & HBcT & _). simpl.
  rewrite wf_critic_depth0 in HdcT. rewrite wf_criticTarget_batch0 in HBcT.
  pose proof (mlp_output_shape sc cT _ _ _ HwcT HBcT HdcT wf_critic_out0)
    as (_ & HocTc & _ & _ & HocTl). rewrite ?HocTc.
  (* the Bellman equation *)
  pose proof Hm as (_ & Hmcol & _ & _ & Hmlen). rewrite ?Hmcol.
  eapply bind_total.
  { apply for_loop_length. intros j d Hj Hd.
    repeat first
      [ step_bi Hbi | step_get | step_set
      | match goal with |- context [if ?b then _ else _] => destruct b end ];
      eauto with lia. }
  intros d7 Hd7. simpl in Hd7 |- *.
  assert (has_shape (with_data m d7) (ddpg_batchSize ddpg) 1) as Hce7
    by (by apply has_shape_with_data).
  eapply bind_total2.
  { apply (mlp_backpropagate_total sc); [done|].
    by rewrite HBc3, Hdc3, wf_critic_out0. }
  intros out8 c4 (Hwc4 & Hdc4 & HBc4). simpl.
  rewrite Hdc3 in Hdc4. rewrite HBc3 in HBc4.
  eapply bind_total2.
  { apply (adam_optimize_total sc); [done|]. by rewrite HBc4, Hdc4. }
  intros c5 ad2 (Hwc5 & Hdc5 & HBc5 & Had2). simpl.
  rewrite Hdc4 in Hdc5, Had2. rewrite HBc4 in HBc5, Had2.
  eexists. split; [done|]. simpl. split; [|done].
  constructor; simpl; rewrite ?Hda3, ?Hdc5, ?HdaT, ?HdcT; try done.
Qed.

End total_agent.

(** ** Creation *)

Section total_create.
Context {D : Type} `{!Scalar D}.
Implicit Types mlp : MLP D.

Lemma zget_snoc {A} (l : list A) (x : A) k :
  zget (l ++ [x]) k =
  if decide (k = Z.of_nat (length l)) then Some x else zget l k.
Proof.
  unfold zget. destruct (decide (k = Z.of_nat (length l))) as [Hk|Hk].
  - subst. rewrite decide_True by lia.
    rewrite Nat2Z.id. by rewrite lookup_app_r, Nat.sub_diag by lia.
  - case_decide; [|done].
    destruct (decide (Z.to_nat k < length l)%nat).
    + by rewrite lookup_app_l by lia.
    + rewrite !lookup_ge_None_2; [done|lia|]. rewrite length_app. simpl. lia.
Qed.

Lemma mlp_create_layer_wf (heap : Z → D) nin nout B act :
  0 ≤ nin → 0 ≤ nout → 0 ≤ B →
  layer_wf B nin nout (mlp_create_layer heap nin nout B act).
Proof.
  intros. unfold layer_wf, mlp_create_layer; simpl.
  split_and!; by apply matrix_create_shape.
Qed.

Lemma layer_sizes_0 i h dp o : layer_sizes i h dp o 0 = i.
Proof. unfold layer_sizes. by rewrite decide_True by lia. Qed.

Lemma layer_sizes_hidden i hidden dp o k h :
  0 ≤ k < dp → zget hidden k = Some h → layer_sizes i hidden dp o (k + 1) = h.
Proof.
  intros Hk Hh. unfold layer_sizes. rewrite decide_False, decide_True by lia.
  replace (k + 1 - 1) with k by lia. by rewrite Hh.
Qed.

Lemma layer_sizes_last i h dp o : 0 ≤ dp → layer_sizes i h dp o (dp + 1) = o.
Proof. intros. unfold layer_sizes. by rewrite !decide_False by lia. Qed.

Lemma layer_sizes_nonneg i hidden dp o k :
  0 ≤ i → 0 ≤ o → sizes_ok hidden dp → 0 ≤ layer_sizes i hidden dp o k.
Proof.
  intros Hi Ho [Hdp Hh]. unfold layer_sizes. repeat case_decide; try done.
  destruct (Hh (k - 1)) as (h & -> & ?); [lia|done].
Qed.

Lemma mlp_initialize_total sz mlp g :
  mlp_wf sz mlp → rand_ok g →
  ∃ mlp' g', mlp_initialize mlp g = Some (mlp', g') ∧ mlp_wf sz mlp' ∧
    depth mlp' = depth mlp ∧ batchSize mlp' = batchSize mlp ∧ rand_ok g'.
Proof.
  intros Hwf Hg. unfold mlp_initialize.
  pose proof Hwf as (Hd & HB & Hlen & Hls & Hin & Hie & Hout).
  match goal with |- context [for_loop 0 ?n ?body ?s0] =>
    destruct (for_loop_inv (λ _ '((mc, gi) : MLP D * Rand),
        mlp_wf sz mc ∧ depth mc = depth mlp ∧ batchSize mc = batchSize mlp ∧
        rand_ok gi) body 0 n s0)
      as ([mc gc] & -> & Hwfc & Hdc & HBc & Hgc); [lia|done| |]
  end.
  - intros i [mc gi] Hi (Hwfc & Hdc & HBc & Hgi).
    pose proof Hwfc as (_ & _ & Hlenc & Hlsc & _).
    destruct (layer_is_Some mc i) as [l Hl]; [done|lia|].
    rewrite Hl. simpl.
    pose proof (Hlsc _ _ Hl) as (Hw & Hb & Ho & He & Hdl & Hgw & Hgb).
    pose proof Hw as Hw'. shape_cells Hw'.
    match goal with |- context [for_loop 0 ?n ?body ?s0] =>
      destruct (for_loop_inv (λ _ '((d, gk) : list D * Rand),
          length d = length (data (weights l)) ∧ rand_ok gk) body 0 n s0)
        as ([d gk] & -> & Hdlen & Hgk); [lia|done| |]
    end.
    { intros k [d gk] Hk (Hdlen & Hgk). unfold deepc_random_double, rand.
      step_set. eexists. split; [done|]. split; [lia|done]. }
    simpl.
    destruct (matrix_clear_total _ _ _ Hb) as (m1 & -> & ?). simpl.
    destruct (matrix_clear_total _ _ _ Ho) as (m2 & -> & ?). simpl.
    destruct (matrix_clear_total _ _ _ He) as (m3 & -> & ?). simpl.
    destruct (matrix_clear_total _ _ _ Hdl) as (m4 & -> & ?). simpl.
    destruct (matrix_clear_total _ _ _ Hgw) as (m5 & -> & ?). simpl.
    destruct (matrix_clear_total _ _ _ Hgb) as (m6 & -> & ?). simpl.
    match goal with |- context [set_layer mc i ?l'] =>
      destruct (mlp_wf_set_layer sz mc i l' Hwfc)
        as (mc' & -> & Hwf' & Hd' & HB' & _); [lia| |]
    end.
    { split_and!; try done. simpl. by apply has_shape_with_data. }
    simpl. eexists. split; [done|]. split_and!; congruence.
  - simpl.
    pose proof Hwfc as (_ & _ & _ & _ & Hinc & Hiec & Houtc).
    destruct (matrix_clear_total _ _ _ Hinc) as (m1 & -> & Hm1). simpl.
    destruct (matrix_clear_total _ _ _ Hiec) as (m2 & -> & Hm2). simpl.
    destruct (matrix_clear_total _ _ _ Houtc) as (m3 & -> & Hm3). simpl.
    eexists _, _. split; [done|]. split_and!; try done.
    apply mlp_wf_set_mlp_output; [|done].
    apply mlp_wf_set_inputErrors; [|done].
    by apply mlp_wf_set_input.
Qed.

Lemma mlp_create_total (heap : Z → D) g inputSize outputSize dp hidden ha oa B :
  0 ≤ inputSize → 0 ≤ outputSize → 0 < B → sizes_ok hidden dp → rand_ok g →
  ∃ mlp g', mlp_create heap g inputSize outputSize dp hidden ha oa B
              = Some (mlp, g') ∧
    mlp_wf (layer_sizes inputSize hidden dp outputSize) mlp ∧
    depth mlp = dp ∧ batchSize mlp = B ∧ rand_ok g'.
Proof.
  intros Hi Ho HB Hok Hg. pose proof Hok as [Hdp Hh]. unfold mlp_create.
  rewrite decide_False by lia.
  set (sz := layer_sizes inputSize hidden dp outputSize).
  match goal with |- context [for_loop 0 ?n ?body ?s0] =>
    destruct (for_loop_inv (λ i '((lis, ls) : Z * list (Layer D)),
        lis = sz i ∧ Z.of_nat (length ls) = i ∧
        ∀ k l, zget ls k = Some l → layer_wf B (sz k) (sz (k + 1)) l)
        body 0 n s0)
      as ([lis ls] & -> & -> & Hlen & Hls); [lia| | |]
  end.
  - unfold sz. split_and!; [by rewrite layer_sizes_0|done|]. intros k l Hk.
    apply zget_Some in Hk. simpl in Hk. lia.
  - unfold sz. intros i [lis ls] Hi' (-> & Hlen & Hls).
    destruct (Hh i) as (h & Hzh & Hh0); [done|]. rewrite Hzh. simpl.
    eexists. split; [done|].
    pose proof (layer_sizes_hidden inputSize hidden dp outputSize i h Hi' Hzh)
      as Hsz.
    split_and!.
    + by rewrite Hsz.
    + rewrite length_app. simpl. lia.
    + intros k l. rewrite zget_snoc. case_decide; [|apply Hls].
      intros [= <-]. subst k. rewrite Hlen. rewrite Hsz.
      apply mlp_create_layer_wf; [|done|lia].
      by apply layer_sizes_nonneg.
  - unfold sz in *. simpl. apply mlp_initialize_total; [|done].
    unfold mlp_wf. simpl. split_and!; try done.
    + rewrite length_app. simpl. lia.
    + intros k l. unfold layer; simpl. rewrite zget_snoc.
      case_decide; [|apply Hls].
      intros [= <-]. subst k. rewrite Hlen.
      rewrite (layer_sizes_last inputSize hidden dp outputSize Hdp).
      apply mlp_create_layer_wf; [|done|lia]. by apply layer_sizes_nonneg.
    + rewrite layer_sizes_0. apply matrix_create_shape; lia.
    + rewrite layer_sizes_0. apply matrix_create_shape; lia.
    + rewrite layer_sizes_last by done. apply matrix_create_shape; lia.
Qed.

Lemma mlp_clone_total sz (heap : Z → D) mlp :
  mlp_wf sz mlp →
  ∃ clone, mlp_clone heap mlp = Some clone ∧ mlp_wf sz clone ∧
    depth clone = depth mlp ∧ batchSize clone = batchSize mlp.
Proof.
  intros Hwf. unfold mlp_clone.
  pose proof Hwf as (Hd & HB & Hlen & Hls & Hin & Hie & Hout).
  match goal with |- context [for_loop 0 ?n ?body ?s0] =>
    destruct (for_loop_inv (λ i (ls : list (Layer D)),
        Z.of_nat (length ls) = i ∧
        ∀ k l, zget ls k = Some l →
               layer_wf (batchSize mlp) (sz k) (sz (k + 1)) l) body 0 n s0)
      as (ls & -> & Hlen' & Hls'); [lia| | |]
  end.
  - split; [done|]. intros k l Hk. apply zget_Some in Hk. simpl in Hk. lia.
  - intros i ls Hi (Hlen' & Hls').
    destruct (layer_is_Some mlp i) as [l Hl]; [done|lia|].
    rewrite Hl. simpl.
    pose proof (Hls _ _ Hl) as (Hw & Hb & Ho & He & Hdl & Hgw & Hgb).
    destruct (matrix_clone_total heap _ _ _ Hw) as (m1 & -> & ?). simpl.
    destruct (matrix_clone_total heap _ _ _ Hb) as (m2 & -> & ?). simpl.
    destruct (matrix_clone_total heap _ _ _ Ho) as (m3 & -> & ?). simpl.
    destruct (matrix_clone_total heap _ _ _ He) as (m4 & -> & ?). simpl.
    destruct (matrix_clone_total heap _ _ _ Hdl) as (m5 & -> & ?). simpl.
    destruct (matrix_clone_total heap _ _ _ Hgw) as (m6 & -> & ?). simpl.
    destruct (matrix_clone_total heap _ _ _ Hgb) as (m7 & -> & ?). simpl.
    eexists. split; [done|]. split; [rewrite length_app; simpl; lia|].
    intros k l'. rewrite zget_snoc. case_decide; [|apply Hls'].
    intros [= <-]. subst k. rewrite Hlen'. by split_and!.
  - simpl.
    destruct (matrix_clone_total heap _ _ _ Hin) as (m1 & -> & ?). simpl.
    destruct (matrix_clone_total heap _ _ _ Hie) as (m2 & -> & ?). simpl.
    destruct (matrix_clone_total heap _ _ _ Hout) as (m3 & -> & ?). simpl.
    eexists. split; [done|]. by split_and!.
Qed.

Lemma adam_reset_total sz B dp (adam : Adam D) :
  0 ≤ dp → adam_wf sz B dp adam →
  ∃ adam', adam_reset adam = Some adam' ∧ adam_wf sz B dp adam'.
Proof.
  intros Hdp (Had & Hl1 & Hl2 & Hl3 & Hl4 & Hs1 & Hs2 & Hs3 & Hs4).
  unfold adam_reset.
  match goal with |- context [for_loop 0 ?n ?body ?s0] =>
    destruct (for_loop_inv
      (λ _ '((mws, mbs, vws, vbs) :
               list (Matrix D) * list (Matrix D) *
               list (Matrix D) * list (Matrix D)),
         adam_wf sz B dp
           (mkAdam (t adam) (alpha adam) (beta1 adam) (beta2 adam)
              (beta1t adam) (beta2t adam) (epsilon adam) (adam_depth adam)
              mws mbs vws vbs)) body 0 n s0)
      as ([[[mws mbs] vws] vbs] & -> & Hac); [lia|by split_and!| |]
  end.
  - intros i [[[mws mbs] vws] vbs] Hi
      (_ & Hl1' & Hl2' & Hl3' & Hl4' & Hs1' & Hs2' & Hs3' & Hs4').
    simpl in Hl1', Hl2', Hl3', Hl4', Hs1', Hs2', Hs3', Hs4'.
    destruct (zget_is_Some mws i) as [m1 Hm1]; [lia|].
    destruct (zget_is_Some mbs i) as [m2 Hm2]; [lia|].
    destruct (zget_is_Some vws i) as [m3 Hm3]; [lia|].
    destruct (zget_is_Some vbs i) as [m4 Hm4]; [lia|].
    rewrite Hm1. simpl.
    destruct (matrix_clear_total _ _ _ (Hs1' _ _ Hm1)) as (c1 & -> & Hc1).
    simpl.
    destruct (zset_is_Some mws i c1) as (mws' & Hz1 & ?); [lia|].
    rewrite Hz1, Hm2. simpl.
    destruct (matrix_clear_total _ _ _ (Hs3' _ _ Hm2)) as (c2 & -> & Hc2).
    simpl.
    destruct (zset_is_Some mbs i c2) as (mbs' & Hz2 & ?); [lia|].
    rewrite Hz2, Hm3. simpl.
    destruct (matrix_clear_total _ _ _ (Hs2' _ _ Hm3)) as (c3 & -> & Hc3).
    simpl.
    destruct (zset_is_Some vws i c3) as (vws' & Hz3 & ?); [lia|].
    rewrite Hz3, Hm4. simpl.
    destruct (matrix_clear_total _ _ _ (Hs4' _ _ Hm4)) as (c4 & -> & Hc4).
    simpl.
    destruct (zset_is_Some vbs i c4) as (vbs' & Hz4 & ?); [lia|].
    rewrite Hz4. simpl. eexists. split; [done|].
    unfold adam_wf; simpl. split_and!; try lia.
    + by apply (zset_shapes _ (λ j m, has_shape m (sz (j + 1)) (sz j))
                  _ _ _ Hz1).
    + by apply (zset_shapes _ (λ j m, has_shape m (sz (j + 1)) (sz j))
                  _ _ _ Hz3).
    + by apply (zset_shapes _ (λ j m, has_shape m (sz (j + 1)) B) _ _ _ Hz2).
    + by apply (zset_shapes _ (λ j m, has_shape m (sz (j + 1)) B) _ _ _ Hz4).
  - simpl. eexists. split; [done|]. done.
Qed.

Lemma adam_create_total sz (heap : Z → D) mlp :
  mlp_wf sz mlp →
  ∃ adam, adam_create heap mlp = Some adam ∧
          adam_wf sz (batchSize mlp) (depth mlp) adam.
Proof.
  intros Hwf. unfold adam_create. cbv zeta.
  pose proof Hwf as (Hd & HB & Hlen & Hls & Hin & Hie & Hout).
  match goal with |- context [for_loop 0 ?n ?body ?s0] =>
    destruct (for_loop_inv
      (λ i '((mws, mbs, vws, vbs) :
               list (Matrix D) * list (Matrix D) *
               list (Matrix D) * list (Matrix D)),
         Z.of_nat (length mws) = i ∧ Z.of_nat (length mbs) = i ∧
         Z.of_nat (length vws) = i ∧ Z.of_nat (length vbs) = i ∧
         (∀ k m, zget mws k = Some m → has_shape m (sz (k + 1)) (sz k)) ∧
         (∀ k m, zget vws k = Some m → has_shape m (sz (k + 1)) (sz k)) ∧
         (∀ k m, zget mbs k = Some m →
                 has_shape m (sz (k + 1)) (batchSize mlp)) ∧
         (∀ k m, zget vbs k = Some m →
                 has_shape m (sz (k + 1)) (batchSize mlp))) body 0 n s0)
      as ([[[mws mbs] vws] vbs] & -> & Hl1 & Hl2 & Hl3 & Hl4 & Hs1 & Hs2 & Hs3 & Hs4);
      [lia| | |]
  end.
  - split_and!; try done; intros k m Hk; apply zget_Some in Hk;
      simpl in Hk; lia.
  - intros i [[[mws mbs] vws] vbs] Hi
      (Hl1 & Hl2 & Hl3 & Hl4 & Hs1 & Hs2 & Hs3 & Hs4).
    destruct (layer_is_Some mlp i) as [l Hl]; [done|lia|].
    rewrite Hl. simpl.
    pose proof (Hls _ _ Hl) as (Hw & Hb & _).
    destruct (matrix_clone_total heap _ _ _ Hw) as (m1 & Hm1 & ?).
    destruct (matrix_clone_total heap _ _ _ Hb) as (m2 & Hm2 & ?).
    rewrite Hm1. simpl. rewrite Hm2. simpl.
    eexists. split; [done|].
    split_and!; try (rewrite length_app; simpl; lia);
      intros k m; rewrite zget_snoc; (case_decide; [|by eauto]);
      intros [= <-]; subst k; by rewrite ?Hl1, ?Hl2, ?Hl3, ?Hl4.
  - simpl. apply adam_reset_total; [done|]. unfold adam_wf; simpl.
    by split_and!.
Qed.

Lemma length_heap_block {A} (heap : Z → A) n :
  0 ≤ n → Z.of_nat (length (heap <$> seqZ 0 n)) = n.
Proof. intros. rewrite length_fmap, length_seqZ. lia. Qed.

(** [ddpg_create] with sizes that are not negative, a positive memory size
    and a positive batch size returns a well-formed agent with an empty
    memory. *)
Lemma ddpg_create_total (heap : Z → D) iheap g S A nz aD aL cD cL M B :
  0 ≤ S → 0 ≤ A → 0 < M → 0 < B →
  sizes_ok aL aD → sizes_ok cL cD →
  (∀ src, nz = Some src → A ≤ Z.of_nat (length src)) →
  rand_ok g →
  ∃ r, ddpg_create heap iheap g S A nz aD aL cD cL M B = Some r ∧
    ddpg_wf (layer_sizes S aL aD A) (layer_sizes (A + S) cL cD 1) r.1 ∧
    rand_ok r.2 ∧
    stateSize r.1 = S ∧ actionSize r.1 = A ∧ memorySize r.1 = M ∧
    ddpg_batchSize r.1 = B ∧ memoryUsed r.1 = 0 ∧ memoryIdx r.1 = 0 ∧
    lastStateValid r.1 = 0.
Proof.
  intros HS HA HM HB Hok1 Hok2 Hnz Hg. unfold ddpg_create.
  pose proof (length_heap_block heap A HA) as HlA.
  eapply (bind_total _ _ (λ o : option (list D),
            ∀ d, o = Some d → Z.of_nat (length d) = A)).
  { destruct nz as [src|]; [|by eexists].
    specialize (Hnz _ eq_refl).
    match goal with |- context [for_loop 0 ?n ?body ?s0] =>
      destruct (for_loop_length body 0 n s0) as (d & -> & Hd)
    end.
    { intros j d Hj Hd. step_get. step_set. eauto with lia. }
    simpl. eexists. split; [done|]. intros ? [= <-]. lia. }
  intros nz' Hnz'. simpl.
  eapply bind_total2; [by apply mlp_create_total|].
  intros act g1 (Hwa & Hda & HBa & Hg1). simpl.
  eapply bind_total2; [apply mlp_create_total; try done; lia|].
  intros cri g2 (Hwc & Hdc & HBc & Hg2). simpl.
  eapply bind_total; [by apply mlp_clone_total|].
  intros actT (HwaT & HdaT & HBaT). simpl.
  eapply bind_total; [by apply mlp_clone_total|].
  intros criT (HwcT & HdcT & HBcT). simpl.
  eapply bind_total; [by apply adam_create_total|].
  intros actA HactA. simpl in HactA |- *.
  eapply bind_total; [by apply adam_create_total|].
  intros criA HcriA. simpl in HcriA |- *.
  eexists. split; [done|]. simpl. split_and!; try done.
  destruct Hok1 as [HaD _], Hok2 as [HcD _].
  constructor; simpl; rewrite ?Hda, ?Hdc, ?HBa, ?HBc in *; try done;
    try lia; try (apply matrix_create_shape; lia);
    try (by rewrite layer_sizes_0); try (by rewrite layer_sizes_last);
    try (by apply length_heap_block; lia).
  unfold replay_wf; simpl. split_and!; try done; try lia.
  - apply matrix_create_shape; lia.
  - by apply length_heap_block.
Qed.

End total_create.

Section total_calls.
Context {D : Type} `{!Scalar D}.
Implicit Types ddpg : DDPG D.

Lemma call_sizes ddpg g (c : Call D) ddpg' g' :
  call (ddpg, g) c = Some (ddpg', g') →
  stateSize ddpg' = stateSize ddpg ∧ actionSize ddpg' = actionSize ddpg.
Proof.
  destruct c as [action reward state terminal| |state|gamma|]; simpl; intros H.
  - destruct (ddpg_observe ddpg action reward state terminal) as [d1|] eqn:Hob;
      [|done]. injection H as -> _.
    unfold ddpg_observe in Hob. repeat bind_step Hob; by subst.
  - by injection H as <- _.
  - apply ddpg_action_replay in H. by injection H as -> -> _.
  - apply ddpg_train_replay in H. by injection H as -> -> _.
  - destruct (ddpg_update_target_networks ddpg) as [d1|] eqn:Hup; [|done].
    injection H as -> _.
    apply ddpg_update_target_networks_replay in Hup. by injection Hup as -> -> _.
Qed.

(** Every call of the library on a well-formed agent returns a well-formed
    agent. *)
Lemma call_total sa sc ddpg g (c : Call D) :
  ddpg_wf sa sc ddpg → rand_ok g →
  call_ok (stateSize ddpg) (actionSize ddpg) c →
  ∃ r, call (ddpg, g) c = Some r ∧ ddpg_wf sa sc r.1 ∧ rand_ok r.2.
Proof.
  intros Hwf Hg Hc.
  destruct c as [action reward state terminal| |state|gamma|]; simpl in *.
  - destruct Hc as [Ha Hs].
    destruct (ddpg_observe_total sa sc ddpg action reward state terminal)
      as (d1 & -> & Hwf1); [done..|]. simpl. by eexists.
  - eexists. split; [done|]. split; [|done]. by apply ddpg_new_episode_wf.
  - destruct (ddpg_action_total sa sc ddpg g state) as (d1 & g1 & -> & ? & ?);
      [done..|]. by eexists.
  - by apply ddpg_train_total.
  - destruct (ddpg_update_target_networks_total sa sc ddpg) as (d1 & -> & ?);
      [done|]. simpl. by eexists.
Qed.

Lemma run_calls_cons (s : DDPG D * Rand) c cs :
  run_calls s (c :: cs) = call s c ≫= λ s', run_calls s' cs.
Proof.
  unfold run_calls. simpl. destruct (call s c) as [s'|]; [done|].
  simpl. induction cs as [|c' cs IH]; [done|]. simpl. exact IH.
Qed.

Lemma run_calls_total sa sc ddpg g (cs : list (Call D)) :
  ddpg_wf sa sc ddpg → rand_ok g →
  Forall (call_ok (stateSize ddpg) (actionSize ddpg)) cs →
  ∃ r, run_calls (ddpg, g) cs = Some r ∧ ddpg_wf sa sc r.1 ∧ rand_ok r.2.
Proof.
  revert ddpg g. induction cs as [|c cs IH]; intros ddpg g Hwf Hg Hcs.
  - by eexists.
  - apply Forall_cons in Hcs as [Hc Hcs]. rewrite run_calls_cons.
    destruct (call_total sa sc ddpg g c) as ([d1 g1] & Hcall & Hwf1 & Hg1);
      [done..|].
    rewrite Hcall. simpl.
    apply call_sizes in Hcall as [HS HA].
    apply IH; [done..|]. by rewrite HS, HA.
Qed.

End total_calls.

(** ** The examples are well formed *)

Lemma nth_nonneg (l : list Z) (d : Z) (n : nat) :
  Forall (λ x, 0 ≤ x) l → 0 ≤ d → 0 ≤ nth n l d.
Proof.
  intros Hl Hd. revert n. induction Hl as [|x l Hx Hl IH]; intros [|n]; simpl;
    auto.
Qed.

Lemma example_rand_ok : rand_ok example_rand.
Proof.
  intros n. unfold example_rand. cbn [rand_seq].
  apply nth_nonneg; [|lia]. repeat constructor; lia.
Qed.

Lemma example_draws_ok : rand_ok example_draws.
Proof.
  intros n. unfold example_draws. cbn [rand_seq].
  apply nth_nonneg; [|lia]. repeat constructor; lia.
Qed.

Lemma sizes_ok_nil : sizes_ok [] 0.
Proof. split; [done|]. intros; lia. Qed.

Lemma sizes_ok_one (h : Z) : 0 ≤ h → sizes_ok [h] 1.
Proof.
  intros Hh. split; [done|]. intros i Hi. assert (i = 0) as -> by lia.
  by exists h.
Qed.

Lemma example_forward_wf dp hidden :
  sizes_ok hidden dp →
  ∃ mlp, example_forward dp hidden = Some mlp ∧
    mlp_wf (layer_sizes 2 hidden dp 1) mlp ∧ depth mlp = dp ∧
    batchSize mlp = 2.
Proof.
  intros Hok. unfold example_forward.
  destruct (mlp_create_total example_heap example_rand 2 1 dp hidden
              ACTIVATION_RELU ACTIVATION_TANH 2)
    as (m0 & g' & -> & Hwf0 & Hd0 & HB0 & _);
    [lia|lia|lia|done|apply example_rand_ok|].
  cbn [mbind option_bind].
  destruct (mlp_feedforward_total _ m0 example_x Hwf0)
    as (out & m1 & -> & Hwf1 & Hd1 & HB1 & _).
  { rewrite HB0, layer_sizes_0. by vm_compute. }
  cbn [mbind option_bind]. exists m1.
  split_and!; [done|done|congruence|congruence].
Qed.

Lemma example_mlp1_wf :
  ∃ mlp, example_mlp1 = Some mlp ∧
    mlp_wf (layer_sizes 2 [2] 1 1) mlp ∧ depth mlp = 1 ∧ batchSize mlp = 2.
Proof.
  destruct (example_forward_wf 1 [2]) as (mlp & Heq & ?); [by apply sizes_ok_one|].
  exists mlp. split; [|done]. rewrite <- Heq. by vm_compute.
Qed.

Lemma example_mlp0_wf :
  ∃ mlp, example_mlp0 = Some mlp ∧
    mlp_wf (layer_sizes 2 [] 0 1) mlp ∧ depth mlp = 0 ∧ batchSize mlp = 2.
Proof.
  destruct (example_forward_wf 0 []) as (mlp & Heq & ?); [apply sizes_ok_nil|].
  exists mlp. split; [|done]. rewrite <- Heq. by vm_compute.
Qed.

Lemma example_optimizer_wf :
  ∃ mlp adam, example_optimizer = Some (mlp, adam) ∧
    mlp_wf (layer_sizes 2 [2] 1 1) mlp ∧ depth mlp = 1 ∧ batchSize mlp = 2 ∧
    adam_wf (layer_sizes 2 [2] 1 1) 2 1 adam.
Proof.
  destruct example_mlp1_wf as (m1 & Heq & Hwf1 & Hd1 & HB1).
  destruct (mlp_backpropagate_total _ m1 example_y1 LOSS_MSE Hwf1)
    as (loss & m2 & Hbp & Hwf2 & Hd2 & HB2).
  { rewrite HB1, Hd1. by vm_compute. }
  destruct (adam_create_total _ example_heap m2 Hwf2) as (adam & Hadam & Had).
  exists m2, adam. split_and!; [|done|congruence|congruence|].
  - transitivity
      (mlp ← example_mlp1;
       '(_, mlp) ← mlp_backpropagate mlp example_y1 LOSS_MSE;
       adam ← adam_create example_heap mlp;
       Some (mlp, adam)); [by vm_compute|].
    rewrite Heq. cbn [mbind option_bind]. rewrite Hbp.
    cbn [mbind option_bind]. rewrite Hadam. done.
  - by rewrite HB2, HB1, Hd2, Hd1 in Had.
Qed.

Lemma example_calls_ok : Forall (call_ok (D := float) 2 1) example_calls.
Proof. repeat constructor; simpl; lia. Qed.

Lemma example_replay_wf :
  ∃ ddpg g, example_replay = Some (ddpg, g) ∧
    ddpg_wf (layer_sizes 2 [2] 1 1) (layer_sizes (1 + 2) [2] 1 1) ddpg ∧
    ddpg_batchSize ddpg = 2 ∧ memoryUsed ddpg = 4.
Proof.
  destruct (ddpg_create_total example_heap (λ _, 0) example_rand
              2 1 None 1 [2] 1 [2] 4 2)
    as ([d0 g1] & Hc & Hwf0 & Hg1 & HS & HA & _);
    [lia|lia|lia|lia|by apply sizes_ok_one|by apply sizes_ok_one|done|
     apply example_rand_ok|].
  cbn [fst snd] in Hwf0, Hg1, HS, HA.
  destruct (run_calls_total _ _ d0 g1 example_calls Hwf0 Hg1)
    as ([d g] & Hr & Hwf & _).
  { rewrite HS, HA. apply example_calls_ok. }
  cbn [fst snd] in Hwf.
  assert (example_replay = Some (d, g)) as Heq.
  { transitivity
      (s ← ddpg_create example_heap (λ _, 0) example_rand
             2 1 None 1 [2] 1 [2] 4 2;
       run_calls s example_calls); [vm_compute; reflexivity|].
    rewrite Hc. exact Hr. }
  exists d, g. split; [exact Heq|]. split; [exact Hwf|].
  unfold example_replay in Heq. injection Heq as Hd _.
  clear -Hd. rewrite <- Hd. split; reflexivity.
Qed.

Section matrix_cells.
Context {D : Type} `{!Scalar D}.
Implicit Types m A B R : Matrix D.

Lemma seqZ_snoc (n : Z) : 0 ≤ n → seqZ 0 (n + 1) = seqZ 0 n ++ [n].
Proof. intros. rewrite seqZ_app by lia. done. Qed.

Lemma cell_Some m r c row col :
  has_shape m r c → 0 ≤ row < r → 0 ≤ col < c →
  MATRIX m row col = Some (cell m row col).
Proof.
  intros (Hr & Hc & ? & ? & Hl) ??. unfold cell.
  destruct (zget_is_Some (data m) (row * columns m + col)) as [x Hx];
    [rewrite Hc; nia|].
  unfold MATRIX. by rewrite Hx.
Qed.

Lemma dot_sum_cells A B ra ca cb row col :
  has_shape A ra ca → has_shape B ca cb → 0 ≤ row < ra → 0 ≤ col < cb →
  dot_sum A B (ca * row) col = Some (dot_cell A B row col).
Proof.
  intros HA HB Hrow Hcol. unfold dot_sum, dot_cell.
  pose proof HA as (HrA & HcA & ? & ? & HlA).
  pose proof HB as (HrB & HcB & ? & ? & HlB).
  match goal with |- context [for_loop 0 ?n ?body ?s0] =>
    destruct (for_loop_inv (λ k '((p1, p2, s) : Z * Z * D),
        p1 = ca * row + k ∧ p2 = col + k * cb ∧
        s = foldl (λ sum k, (sum + cell A row k * cell B k col)%dbl)
              (d_of_int 0) (seqZ 0 k)) body 0 n s0)
      as ([[p1 p2] s] & -> & _ & _ & ->) end.
  - lia.
  - split_and!; [lia|lia|done].
  - intros k [[p1 p2] s] Hk (-> & -> & ->). rewrite HcA in Hk.
    pose proof (cell_Some A ra ca row k HA Hrow Hk) as HxA.
    pose proof (cell_Some B ca cb k col HB Hk Hcol) as HxB.
    unfold MATRIX in HxA, HxB. rewrite HcA in HxA. rewrite HcB in HxB.
    replace (ca * row + k) with (row * ca + k) by lia.
    replace (col + k * cb) with (k * cb + col) by lia.
    rewrite HxA, HxB. simpl. eexists. split; [done|].
    split_and!; [lia|lia|]. rewrite seqZ_snoc by lia.
    by rewrite foldl_app.
  - done.
Qed.

Lemma matrix_dot_cell_spec A B R ra ca cb :
  has_shape A ra ca → has_shape B ca cb → has_shape R ra cb →
  ∃ R', matrix_dot A B R = Some R' ∧ has_shape R' ra cb ∧
    ∀ row col, 0 ≤ row < ra → 0 ≤ col < cb →
      MATRIX R' row col = Some (dot_cell A B row col).
Proof.
  intros HA HB HR.
  destruct (matrix_dot_spec A B R ra ca cb) as (R' & E & HR' & Hc); [done..|].
  exists R'. split_and!; [done..|]. intros row col Hrow Hcol.
  destruct (Hc row col Hrow Hcol) as [_ ->]. by eapply dot_sum_cells.
Qed.

Lemma matrix_dot_transpose_cell_spec A B R ra ca cb :
  has_shape A ra ca → has_shape B ca cb → has_shape R cb ra →
  ∃ R', matrix_dot_transpose A B R = Some R' ∧ has_shape R' cb ra ∧
    ∀ row col, 0 ≤ row < cb → 0 ≤ col < ra →
      MATRIX R' row col = Some (dot_cell A B col row).
Proof.
  intros HA HB HR.
  destruct (matrix_dot_transpose_spec A B R ra ca cb) as (R' & E & HR' & Hc);
    [done..|].
  exists R'. split_and!; [done..|]. intros row col Hrow Hcol.
  destruct (Hc row col Hrow Hcol) as [_ ->]. by eapply dot_sum_cells.
Qed.

Lemma matrix_transpose_cell_spec m R r c :
  has_shape m r c → has_shape R c r →
  ∃ R', matrix_transpose m R = Some R' ∧ has_shape R' c r ∧
    ∀ row col, 0 ≤ row < r → 0 ≤ col < c →
      MATRIX R' col row = Some (cell m row col).
Proof.
  intros Hm HR.
  destruct (matrix_transpose_spec m R r c) as (R' & E1 & HR' & H1); [done..|].
  exists R'. split_and!; [done..|]. intros row col Hrow Hcol.
  destruct (H1 row col Hrow Hcol) as [_ ->]. by eapply cell_Some.
Qed.

(** X1 ([matrix_dot]): on operands of matching shapes the product stays
    inside the three blocks, keeps the shape of the result and leaves in cell
    [(row, col)] the sum over [k] of [A[row][k] * B[k][col]], accumulated from
    [0] in increasing [k]. *)
Theorem matrix_dot_cells A B R ra ca cb :
  has_shape A ra ca → has_shape B ca cb → has_shape R ra cb →
  ∃ R', matrix_dot A B R = Some R' ∧ has_shape R' ra cb ∧
    ∀ row col, 0 ≤ row < ra → 0 ≤ col < cb →
      MATRIX R' row col = Some (dot_cell A B row col).
Proof. apply matrix_dot_cell_spec. Qed.

Lemma cells_ext (m1 m2 : Matrix D) r c :
  has_shape m1 r c → has_shape m2 r c →
  (∀ row col, 0 ≤ row < r → 0 ≤ col < c → MATRIX m1 row col = MATRIX m2 row col) →
  data m1 = data m2.
Proof.
  intros (Hr1 & Hc1 & ? & ? & Hl1) (Hr2 & Hc2 & ? & ? & Hl2) Heq.
  apply zget_ext. intros k.
  destruct (decide (0 ≤ k < r * c)) as [Hk|Hk].
  - assert (0 < c) by nia.
    assert (0 ≤ k `div` c < r)
      by (split; [apply Z.div_pos; lia|apply Z.div_lt_upper_bound; nia]).
    pose proof (Z.mod_pos_bound k c).
    specialize (Heq (k `div` c) (k `mod` c)). unfold MATRIX in Heq.
    rewrite Hc1, Hc2 in Heq.
    replace (k `div` c * c + k `mod` c) with k in Heq
      by (pose proof (Z.div_mod k c); lia).
    apply Heq; lia.
  - rewrite !zget_None; [done|lia..].
Qed.

(** X2 ([matrix_transpose]): the transpose stays inside both blocks, cell
    [(col, row)] of the result is cell [(row, col)] of the argument, and
    transposing the result back into a block of the original shape restores
    the original contents. *)
Theorem matrix_transpose_involution m R T r c :
  has_shape m r c → has_shape R c r → has_shape T r c →
  ∃ R' T',
    matrix_transpose m R = Some R' ∧ has_shape R' c r ∧
    (∀ row col, 0 ≤ row < r → 0 ≤ col < c →
       MATRIX R' col row = Some (cell m row col)) ∧
    matrix_transpose R' T = Some T' ∧ data T' = data m.
Proof.
  intros Hm HR HT.
  destruct (matrix_transpose_spec m R r c) as (R' & E1 & HR' & H1); [done..|].
  destruct (matrix_transpose_spec R' T c r) as (T' & E2 & HT' & H2); [done..|].
  exists R', T'. split_and!; [done..| |done|].
  - intros row col Hrow Hcol. destruct (H1 row col Hrow Hcol) as [_ ->].
    by eapply cell_Some.
  - apply (cells_ext T' m r c); [done..|]. intros row col Hrow Hcol.
    destruct (H2 col row Hcol Hrow) as [_ ->]. by destruct (H1 row col Hrow Hcol).
Qed.

Lemma matrix_sum_rows_transpose_spec m R r c n :
  has_shape m r c → has_shape R c n → 0 < n →
  ∃ R', matrix_sum_rows_transpose m R = Some R' ∧ has_shape R' c n ∧
    ∀ row col, 0 ≤ row < c → 0 ≤ col < n →
      MATRIX R' row col = Some (column_sum m row).
Proof.
  intros Hm HR Hn. unfold matrix_sum_rows_transpose, column_sum.
  pose proof Hm as (Hrm & Hcm & ? & ? & Hlm).
  pose proof HR as (HrR & HcR & ? & ? & HlR).
  rewrite Hrm, Hcm, HrR, HcR.
  set (F := λ col, foldl (λ sum row, (sum + cell m row col)%dbl) (d_of_int 0)).
  (* the sums, in the first column of the result *)
  match goal with |- context [for_loop 0 c ?body (data R) ≫= _] =>
    destruct (for_loop_inv (λ j (d : list D),
        length d = length (data R) ∧
        ∀ col, 0 ≤ col < j → zget d (col * n) = Some (F col (seqZ 0 r)))
      body 0 c (data R)) as (d1 & -> & Hl1 & Hd1) end.
  - lia.
  - split; [done|]. intros; lia.
  - intros j d Hj (Hld & Hd).
    destruct (zset_is_Some d (j * n) (d_of_int 0)) as (d0 & Hset & Hl0); [nia|].
    rewrite Hset. simpl.
    match goal with |- context [for_loop 0 r ?body d0] =>
      destruct (for_loop_inv (λ i (d' : list D),
          length d' = length d ∧
          zget d' (j * n) = Some (F j (seqZ 0 i)) ∧
          ∀ k, k ≠ j * n → zget d' k = zget d0 k)
        body 0 r d0) as (d' & -> & Hl' & Hj' & Ho') end.
    + lia.
    + split_and!; [done| |done]. by rewrite (zget_zset_eq _ _ _ _ Hset).
    + intros i d' Hi (Hl' & Hj' & Ho'). rewrite Hj'. simpl.
      pose proof (cell_Some m r c i j Hm Hi Hj) as Hx. unfold MATRIX in Hx.
      rewrite Hcm in Hx. rewrite Hx. simpl.
      destruct (zset_is_Some d' (j * n) (F j (seqZ 0 i) + cell m i j)%dbl)
        as (d'' & Hset' & Hl''); [nia|].
      rewrite Hset'. eexists. split; [done|]. split_and!; [lia| |].
      * rewrite (zget_zset_eq _ _ _ _ Hset'). unfold F.
        rewrite seqZ_snoc by lia. by rewrite foldl_app.
      * intros k Hk. rewrite (zget_zset_ne _ _ _ _ _ Hset') by done. by apply Ho'.
    + eexists. split; [done|]. split; [lia|]. intros col Hcol.
      destruct (decide (col = j)) as [->|]; [done|].
      rewrite Ho' by nia. rewrite (zget_zset_ne _ _ _ _ _ Hset) by nia.
      apply Hd. lia.
  - simpl.
    (* the first column, copied to the other ones *)
    match goal with |- context [for_loop 1 n ?body d1 ≫= _] =>
      destruct (for_loop_inv (λ j (d : list D),
          length d = length (data R) ∧
          ∀ row col, 0 ≤ row < c → 0 ≤ col < j →
            zget d (row * n + col) = Some (F row (seqZ 0 r)))
        body 1 n d1) as (d2 & -> & Hl2 & Hd2) end.
    + lia.
    + split; [done|]. intros row col Hrow Hcol.
      replace (row * n + col) with (row * n) by lia. by apply Hd1.
    + intros j d Hj (Hld & Hd).
      match goal with |- context [for_loop 0 c ?body d] =>
        destruct (for_loop_inv (λ i (d' : list D),
            length d' = length d ∧
            (∀ row col, 0 ≤ row < c → 0 ≤ col < j →
               zget d' (row * n + col) = Some (F row (seqZ 0 r))) ∧
            ∀ row, 0 ≤ row < i → zget d' (row * n + j) = Some (F row (seqZ 0 r)))
          body 0 c d) as (d' & -> & Hl' & Hlt' & Heq') end.
      * lia.
      * split_and!; [done..|]. intros; lia.
      * intros i d' Hi (Hl' & Hlt' & Heq').
        pose proof (Hlt' i 0) as Hfst. rewrite Z.add_0_r in Hfst.
        rewrite Hfst by lia. simpl.
        destruct (zset_is_Some d' (i * n + j) (F i (seqZ 0 r)))
          as (d'' & Hset' & Hl''); [nia|].
        rewrite Hset'. eexists. split; [done|]. split_and!; [lia| |].
        -- intros row col Hrow Hcol.
           rewrite (zget_zset_ne _ _ _ _ _ Hset').
           ++ by apply Hlt'.
           ++ intros Heq. apply rowmajor_inj in Heq; lia.
        -- intros row Hrow. destruct (decide (row = i)) as [->|].
           ++ by rewrite (zget_zset_eq _ _ _ _ Hset').
           ++ rewrite (zget_zset_ne _ _ _ _ _ Hset').
              ** apply Heq'. lia.
              ** intros Heq. apply rowmajor_inj in Heq; lia.
      * eexists. split; [done|]. split; [lia|]. intros row col Hrow Hcol.
        destruct (decide (col = j)) as [->|]; [by apply Heq'|].
        apply Hlt'; lia.
    + simpl. eexists. split; [done|]. split.
      * apply has_shape_with_data; [done|lia].
      * intros row col Hrow Hcol. unfold MATRIX, with_data. simpl.
        rewrite HcR. by apply Hd2.
Qed.

(** X3 ([matrix_sum_rows_transpose]): for a result with at least one column
    the function stays inside both blocks and every cell of row [j] of the
    result holds the sum of column [j] of the argument. *)
Theorem matrix_sum_rows_transpose_cells m R r c n :
  has_shape m r c → has_shape R c n → 0 < n →
  ∃ R', matrix_sum_rows_transpose m R = Some R' ∧ has_shape R' c n ∧
    ∀ row col, 0 ≤ row < c → 0 ≤ col < n →
      MATRIX R' row col = Some (column_sum m row).
Proof. apply matrix_sum_rows_transpose_spec. Qed.

(** X4 ([matrix_sum_rows_transpose]): a result without columns has an empty
    block, and the first store [result.data[0] = 0] falls outside it as soon
    as the argument has a column. *)
Theorem matrix_sum_rows_transpose_no_columns m R c :
  has_shape R c 0 → 0 < columns m → matrix_sum_rows_transpose m R = None.
Proof.
  intros (HrR & HcR & ? & ? & HlR) Hc. unfold matrix_sum_rows_transpose.
  rewrite for_loop_cons by lia. cbn beta zeta.
  assert (zset (data R) (0 * columns R) (d_of_int 0) = None) as ->
    by (unfold zset; rewrite decide_False by lia; done).
  done.
Qed.

End matrix_cells.

Lemma matrix_dot_cells_witness :
  let A := mkMatrix 2 3 [1; 2; 3; 4; 5; 6]%float in
  let B := mkMatrix 3 2 [7; 8; 9; 10; 11; 12]%float in
  let R := mkMatrix 2 2 [0; 0; 0; 0]%float in
  ∃ R', matrix_dot (Scalar0 := run64) A B R = Some R' ∧ has_shape R' 2 2 ∧
    ∀ row col, 0 ≤ row < 2 → 0 ≤ col < 2 →
      MATRIX R' row col = Some (dot_cell A B row col).
Proof.
  intros A B R.
  apply (matrix_dot_cells A B R 2 3 2); unfold has_shape; simpl; lia.
Defined.

Lemma matrix_transpose_involution_witness :
  let m := mkMatrix 2 3 [1; 2; 3; 4; 5; 6]%float in
  let R := mkMatrix 3 2 [0; 0; 0; 0; 0; 0]%float in
  ∃ R' T',
    matrix_transpose m R = Some R' ∧ has_shape R' 3 2 ∧
    (∀ row col, 0 ≤ row < 2 → 0 ≤ col < 3 →
       MATRIX R' col row = Some (cell (Scalar0 := run64) m row col)) ∧
    matrix_transpose R' m = Some T' ∧ data T' = data m.
Proof.
  intros m R.
  apply (matrix_transpose_involution m R m 2 3); unfold has_shape; simpl; lia.
Defined.

Lemma matrix_sum_rows_transpose_cells_witness :
  let m := mkMatrix 2 3 [1; 2; 3; 4; 5; 6]%float in
  let R := mkMatrix 3 2 [0; 0; 0; 0; 0; 0]%float in
  ∃ R', matrix_sum_rows_transpose (Scalar0 := run64) m R = Some R' ∧
    has_shape R' 3 2 ∧
    ∀ row col, 0 ≤ row < 3 → 0 ≤ col < 2 →
      MATRIX R' row col = Some (column_sum m row).
Proof.
  intros m R.
  apply (matrix_sum_rows_transpose_cells m R 2 3 2); unfold has_shape; simpl; lia.
Defined.

Lemma matrix_sum_rows_transpose_no_columns_witness :
  matrix_sum_rows_transpose (Scalar0 := run64)
    (mkMatrix 0 1 []) (mkMatrix 1 0 []) = None.
Proof.
  apply (matrix_sum_rows_transpose_no_columns _ _ 1); unfold has_shape; simpl; lia.
Defined.

Section files.
Context {D : Type} `{!Scalar D}.

(** X5 ([matrix_save], [matrix_load], [matrix_write], [matrix_read]): a
    matrix with at least one cell, saved to a writable file with room for
    [2 + rows * columns] objects, is saved with result 0, leaves the other
    files alone and is loaded back identical. *)
Theorem matrix_save_load_round_trip (m : Matrix D) filename disk :
  nonempty_shape m → writable disk filename = true →
  Z.of_nat (length (matrix_stream m)) ≤ room disk →
  ∃ disk', matrix_save m filename disk = Some (0, disk') ∧
    files disk' filename = Some (matrix_stream m) ∧
    (∀ name, name ≠ filename → files disk' name = files disk name) ∧
    matrix_load disk' filename = ReadOk m.
Proof.
  intros Hm Hw Hroom. unfold matrix_save, fopen_wb. rewrite Hw.
  rewrite matrix_write_ok by (cbn [f_room]; done || lia).
  cbn [mbind option_bind f_items app]. eexists. split; [done|].
  unfold matrix_load, fopen_rb, fclose_wb. cbn [files f_items].
  rewrite decide_True by done. split_and!; [done| |].
  - intros name Hne. by rewrite decide_False by done.
  - cbn [fmap option_fmap option_map].
    rewrite <- (app_nil_r (matrix_stream m)).
    by rewrite matrix_read_ok.
Qed.

(** X6 ([matrix_save], [matrix_load]): a matrix without cells is saved with
    result 0, as its two dimensions, and [matrix_load] of that file returns
    the null matrix, as it does for a file that cannot be read. *)
Theorem matrix_load_rejects_saved_empty_matrix (m : Matrix D) r c filename disk :
  has_shape m r c → r * c = 0 → writable disk filename = true → 2 ≤ room disk →
  ∃ disk', matrix_save m filename disk = Some (0, disk') ∧
    files disk' filename = Some [Int32 r; Int32 c] ∧
    matrix_load disk' filename = NullMatrix.
Proof.
  intros (Hr & Hc & ? & ? & Hl) Hz Hw Hroom.
  unfold matrix_save, fopen_wb. rewrite Hw.
  unfold matrix_write, fwrite_int. cbn [f_room f_items].
  rewrite decide_True by lia. rewrite decide_False by lia.
  cbn [f_room f_items]. rewrite decide_True by lia. rewrite decide_False by lia.
  unfold fwrite_doubles. rewrite Hr, Hc, Hz. rewrite decide_True by lia.
  cbn [f_room f_items mbind option_bind].
  rewrite Z.min_l by lia. rewrite decide_False by lia.
  eexists. split; [done|].
  unfold matrix_load, fopen_rb, fclose_wb. cbn [files f_items].
  rewrite decide_True by done. split; [done|].
  cbn [fmap option_fmap option_map].
  unfold matrix_read, fread_int. cbn [f_items app take fmap list_fmap].
  rewrite decide_False by lia. cbn [f_items f_room].
  rewrite decide_False by lia. rewrite Hz. by rewrite decide_True by lia.
Qed.

(** X7 ([mlp_save_weights], [mlp_load_weights], [mlp_write_weights],
    [mlp_read_weights]): take two networks of the same depth and parameter
    shapes, all of whose weight and bias matrices have at least one cell,
    and a file that can be written and has room for the stream.  The weights
    and biases saved from the first network are loaded into the second, with
    result 0 for both calls; the layers of the second network keep their
    other matrices and their activation functions. *)
Theorem mlp_save_load_weights_round_trip (m1 m2 : MLP D) filename disk :
  persist_wf m1 → persist_wf m2 → same_architecture m1 m2 →
  writable disk filename = true →
  Z.of_nat (length (mlp_stream m1)) ≤ room disk →
  ∃ disk' net,
    mlp_save_weights m1 filename disk = Some (0, disk') ∧
    files disk' filename = Some (mlp_stream m1) ∧
    mlp_load_weights m2 filename disk' = Some (0, net) ∧
    parameters net = parameters m1 ∧
    input net = input m2 ∧ inputErrors net = inputErrors m2 ∧
    mlp_output net = mlp_output m2 ∧
    ∀ k, layer net k =
         l1 ← layer m1 k; l2 ← layer m2 k; Some (load_layer l1 l2).
Proof.
  intros H1 H2 Hsame Hw Hroom. unfold mlp_save_weights, fopen_wb. rewrite Hw.
  rewrite mlp_write_weights_ok by (cbn [f_room]; done || lia).
  cbn [mbind option_bind f_items app].
  destruct (mlp_read_weights_ok m1 m2 [] 0) as (net & Hrd & Hf & Hl); [done..|].
  rewrite app_nil_r in Hrd.
  eexists _, net. split; [done|].
  unfold mlp_load_weights, fopen_rb, fclose_wb. cbn [files f_items].
  rewrite decide_True by done. split; [done|].
  cbn [fmap option_fmap option_map]. rewrite Hrd. cbn [mbind option_bind].
  split; [done|]. destruct Hf as (? & ? & ? & ? & ? & ?).
  split_and!; [|done..].
  destruct H1 as (_ & ? & _), H2 as (_ & ? & _), Hsame as [? _].
  apply (loaded_parameters _ m2); [lia|done].
Qed.

Lemma mlp_read_weights_prefix (m1 m2 : MLP D) (j : Z) rest rm :
  persist_wf m1 → persist_wf m2 → same_architecture m1 m2 →
  0 ≤ j ≤ depth m2 + 1 →
  ∃ net,
    for_loop 0 j
      (λ i '(ret, mlp, file),
         if decide (ret ≠ 0) then Some (ret, mlp, file) else
         l ← layer mlp i;
         let '(r, c) := (rows (weights l), columns (weights l)) in
         let '(rd, file) := matrix_read file in
         match rd with
         | NullMatrix => Some (-1, mlp, file)
         | ReadOk matrix =>
           if decide (rows matrix ≠ r ∨ columns matrix ≠ c)
           then Some (-1, mlp, file) else
           m ← matrix_copy (weights l) matrix;
           let l := set_weights l m in
           mlp ← set_layer mlp i l;
           let '(r, c) := (rows (biases l), columns (biases l)) in
           let '(rd, file) := matrix_read file in
           match rd with
           | NullMatrix => Some (-1, mlp, file)
           | ReadOk matrix =>
             if decide (rows matrix ≠ r ∨ columns matrix ≠ c)
             then Some (-1, mlp, file) else
             m ← matrix_copy (biases l) matrix;
             mlp ← set_layer mlp i (set_biases l m);
             Some (0, mlp, file)
           end
         end)
      (0, m2,
       mkFILE (concat (layer_stream <$> take (Z.to_nat j) (layers m1)) ++ rest) rm)
      = Some (0, net, mkFILE rest rm) ∧
    (depth net = depth m2 ∧ batchSize net = batchSize m2 ∧
     input net = input m2 ∧ inputErrors net = inputErrors m2 ∧
     mlp_output net = mlp_output m2 ∧
     length (layers net) = length (layers m2)) ∧
    ∀ k, layer net k =
         if decide (0 ≤ k < j)
         then l1 ← layer m1 k; l2 ← layer m2 k; Some (load_layer l1 l2)
         else layer m2 k.
Proof.
  intros (Hd1 & Hlen1 & Hall1) (Hd2 & Hlen2 & Hall2) (Hd & Hsame) Hj.
  set (post := λ i : Z,
         concat (layer_stream <$> drop (Z.to_nat i) (take (Z.to_nat j) (layers m1)))).
  edestruct (for_loop_inv (λ i '((ret, mc, f) : Z * MLP D * FILE D),
      ret = 0 ∧ f = mkFILE (post i ++ rest) rm ∧
      (depth mc = depth m2 ∧ batchSize mc = batchSize m2 ∧
       input mc = input m2 ∧ inputErrors mc = inputErrors m2 ∧
       mlp_output mc = mlp_output m2 ∧
       length (layers mc) = length (layers m2)) ∧
      ∀ k, layer mc k =
           if decide (0 ≤ k < i)
           then l1 ← layer m1 k; l2 ← layer m2 k; Some (load_layer l1 l2)
           else layer m2 k))
    as ([[ret mc] f] & -> & -> & -> & Hmc & Hl); [| |..].
  - lia.
  - simpl. split_and!; try done. intros k. by rewrite decide_False by lia.
  - intros i [[ret mc] f] Hi (-> & -> & Hmc & Hl).
    destruct Hmc as (? & ? & ? & ? & ? & Hlen).
    rewrite decide_False by lia.
    destruct (zget_is_Some (layers m2) i) as [l2 Hl2]; [lia|].
    destruct (zget_is_Some (layers m1) i) as [l1 Hl1]; [lia|].
    rewrite Hl, decide_False by lia. unfold layer at 1. rewrite Hl2.
    cbn [mbind option_bind].
    assert (layers m1 !! Z.to_nat i = Some l1) as Hl1'.
    { unfold zget in Hl1. by rewrite decide_True in Hl1 by lia. }
    assert (layers m2 !! Z.to_nat i = Some l2) as Hl2'.
    { unfold zget in Hl2. by rewrite decide_True in Hl2 by lia. }
    assert (post i = layer_stream l1 ++ post (i + 1)) as Hpost.
    { unfold post. replace (Z.to_nat (i + 1)) with (S (Z.to_nat i)) by lia.
      rewrite (drop_S _ l1); [done|]. rewrite lookup_take_lt by lia. done. }
    pose proof (Forall_lookup_1 _ _ _ _ Hall1 Hl1') as [Hw1 Hb1].
    pose proof (Forall_lookup_1 _ _ _ _ Hall2 Hl2') as [Hw2 Hb2].
    pose proof (Forall2_lookup_lr _ _ _ _ _ _ Hsame Hl1' Hl2')
      as (Hrw & Hcw & Hrb & Hcb).
    rewrite Hpost. unfold layer_stream. rewrite <- !app_assoc.
    rewrite (matrix_read_ok (weights l1)) by done.
    rewrite decide_False by lia.
    rewrite (matrix_copy_ok _ _ (rows (weights l1)) (columns (weights l1))).
    2:{ destruct Hw2 as [Hs _]. by rewrite Hrw, Hcw. }
    2:{ by destruct Hw1. }
    cbn [mbind option_bind].
    destruct (set_layer mc i (set_weights l2 (weights l1))) as [mc1|] eqn:E1.
    2:{ unfold set_layer in E1. rewrite zset_lt in E1 by lia. done. }
    cbn [mbind option_bind].
    apply set_layer_Some in E1 as (? & ? & ? & ? & ? & Hlen1' & Hl1c).
    rewrite (matrix_read_ok (biases l1)) by done.
    rewrite decide_False by (unfold set_weights; simpl; lia).
    rewrite (matrix_copy_ok _ _ (rows (biases l1)) (columns (biases l1))).
    2:{ destruct Hb2 as [Hs _]. by rewrite Hrb, Hcb. }
    2:{ by destruct Hb1. }
    cbn [mbind option_bind].
    destruct (set_layer mc1 i _) as [mc2|] eqn:E2.
    2:{ unfold set_layer in E2. rewrite zset_lt in E2 by lia. done. }
    cbn [mbind option_bind]. eexists; split; [done|].
    apply set_layer_Some in E2 as (? & ? & ? & ? & ? & Hlen2' & Hl2c).
    split_and!; try congruence.
    intros k. rewrite Hl2c, Hl1c, Hl.
    destruct (decide (k = i)) as [->|].
    + rewrite decide_True by lia. unfold layer. rewrite Hl1, Hl2. done.
    + repeat case_decide; try done; lia.
  - exists mc. split_and!; try apply Hmc; [|done].
    unfold post. rewrite drop_ge by (rewrite length_take; lia). done.
Qed.

(** X8 ([mlp_load_weights], [mlp_read_weights]): loading is not atomic.  From
    a file that ends after the weights and biases of the first [j] layers the
    function returns -1, and by then the weights and biases of these [j]
    layers have been replaced by those of the file; the other layers are as
    before. *)
Theorem mlp_load_weights_truncated_file (m1 m2 : MLP D) (j : Z) filename disk :
  persist_wf m1 → persist_wf m2 → same_architecture m1 m2 →
  0 ≤ j ≤ depth m2 →
  files disk filename
    = Some (concat (layer_stream <$> take (Z.to_nat j) (layers m1))) →
  ∃ net, mlp_load_weights m2 filename disk = Some (-1, net) ∧
    ∀ k, layer net k =
         if decide (0 ≤ k < j)
         then l1 ← layer m1 k; l2 ← layer m2 k; Some (load_layer l1 l2)
         else layer m2 k.
Proof.
  intros H1 H2 Hsame Hj Hf. unfold mlp_load_weights, fopen_rb. rewrite Hf.
  cbn [fmap option_fmap option_map]. unfold mlp_read_weights.
  rewrite (for_loop_split _ 0 j) by lia.
  destruct (mlp_read_weights_prefix m1 m2 j [] 0) as (net & Hrd & Hfr & Hl);
    [done.. | lia |].
  rewrite app_nil_r in Hrd.
  match goal with |- context [for_loop 0 j ?b ?s] =>
    assert (for_loop 0 j b s = Some (0, net, mkFILE [] 0)) as -> by exact Hrd
  end.
  cbn [mbind option_bind].
  destruct Hfr as (? & _ & _ & _ & _ & Hlen). destruct H2 as (? & Hlen2 & _).
  rewrite (for_loop_cons _ j) by lia.
  rewrite decide_False by lia.
  destruct (zget_is_Some (layers net) j) as [l Hlj]; [lia|].
  change (zget (layers net) j) with (layer net j) in Hlj.
  rewrite Hlj. cbn [mbind option_bind].
  assert (matrix_read (mkFILE ([] : list (item D)) 0)
          = (NullMatrix, mkFILE [] 0)) as -> by reflexivity.
  cbn [mbind option_bind].
  match goal with |- context [for_loop ?lo ?hi ?body ?s] =>
    destruct (for_loop_inv (λ _ s', s' = s) body lo hi s) as (s' & -> & ->) end.
  - lia.
  - done.
  - intros i s' Hi ->. rewrite decide_True by lia. eauto.
  - cbn [mbind option_bind]. eauto.
Qed.

End files.

Lemma matrix_save_load_round_trip_witness :
  ∃ disk', matrix_save example_x "x" example_disk = Some (0, disk') ∧
    files disk' "x" = Some (matrix_stream example_x) ∧
    (∀ name, name ≠ "x" → files disk' name = files example_disk name) ∧
    matrix_load disk' "x" = ReadOk example_x.
Proof.
  apply matrix_save_load_round_trip;
    try (vm_compute; repeat split; done || discriminate).
Defined.

Lemma matrix_load_rejects_saved_empty_matrix_witness :
  ∃ disk', matrix_save (mkMatrix 3 0 ([] : list float)) "x" example_disk
             = Some (0, disk') ∧
    files disk' "x" = Some [Int32 3; Int32 0] ∧
    matrix_load disk' "x" = NullMatrix.
Proof.
  apply matrix_load_rejects_saved_empty_matrix;
    try (vm_compute; repeat split; done || discriminate).
Defined.

Lemma mlp_save_load_weights_round_trip_witness :
  match example_pair with
  | Some (src, dst) =>
      ∃ disk' net,
        mlp_save_weights (actor src) "weights" example_disk = Some (0, disk') ∧
        files disk' "weights" = Some (mlp_stream (actor src)) ∧
        mlp_load_weights (actor dst) "weights" disk' = Some (0, net) ∧
        parameters net = parameters (actor src) ∧
        input net = input (actor dst) ∧ inputErrors net = inputErrors (actor dst) ∧
        mlp_output net = mlp_output (actor dst) ∧
        ∀ k, layer net k =
             l1 ← layer (actor src) k; l2 ← layer (actor dst) k;
             Some (load_layer l1 l2)
  | None => False
  end.
Proof.
  unfold example_pair.
  apply mlp_save_load_weights_round_trip;
    try (vm_compute; repeat split; repeat constructor; done || discriminate).
Defined.

Lemma mlp_load_weights_truncated_file_witness :
  match example_pair with
  | Some (src, dst) =>
      let disk :=
        mkDisk (λ _, Some (concat (layer_stream <$> take 1 (layers (actor src)))))
          (λ _, true) 0 in
      ∃ net, mlp_load_weights (actor dst) "weights" disk = Some (-1, net) ∧
        ∀ k, layer net k =
             if decide (0 ≤ k < 1)
             then l1 ← layer (actor src) k; l2 ← layer (actor dst) k;
                  Some (load_layer l1 l2)
             else layer (actor dst) k
  | None => False
  end.
Proof.
  unfold example_pair.
  apply (mlp_load_weights_truncated_file _ _ 1);
    try (vm_compute; repeat split; repeat constructor; done || discriminate).
Defined.

(** ** Blocks in closed form *)

Lemma zget_fmap {A B} (f : A → B) (l : list A) i : zget (f <$> l) i = f <$> zget l i.
Proof. unfold zget. case_decide; [apply list_lookup_fmap|done]. Qed.

Lemma zget_zip_with {A B C} (f : A → B → C) (l1 : list A) (l2 : list B) i :
  zget (zip_with f l1 l2) i = x ← zget l1 i; y ← zget l2 i; Some (f x y).
Proof. unfold zget. case_decide; [apply lookup_zip_with|done]. Qed.

Lemma for_loop_pointwise_data {A} (body : Z → list A → option (list A)) n
    (d0 l : list A) :
  Z.of_nat (length d0) = n → length l = length d0 →
  (∀ i d, 0 ≤ i < n → length d = length d0 →
     (∀ j, i ≤ j → zget d j = zget d0 j) →
     ∃ y, zget l i = Some y ∧ body i d = zset d i y) →
  for_loop 0 n body d0 = Some l.
Proof.
  intros Hn Hl Hbody.
  destruct (for_loop_pointwise (zget l) body n d0) as (d' & -> & Hlen & Hd);
    [lia|done|].
  f_equal. apply zget_ext. intros k. rewrite Hd. case_decide; [done|].
  rewrite !zget_None; [done|lia..].
Qed.

Section data.
Context {D : Type} `{!Scalar D}.
Implicit Types m dst src : Matrix D.

Lemma matrix_map_data m r c (f : D → D) (body : Z → list D → option (list D)) :
  has_shape m r c →
  (∀ i d, body i d = x ← zget d i; zset d i (f x)) →
  with_data m <$> for_loop 0 (rows m * columns m) body (data m)
    = Some (with_data m (f <$> data m)).
Proof.
  intros (Hr & Hc & ? & ? & Hl) Hbody.
  rewrite (for_loop_pointwise_data _ _ _ (f <$> data m));
    [done|lia|by rewrite length_fmap|].
  intros i d Hi Hd Hj. rewrite Hbody, Hj by lia.
  destruct (zget_is_Some (data m) i) as [x Hx]; [lia|].
  exists (f x). rewrite zget_fmap, Hx. done.
Qed.

Lemma matrix_zip_data dst src r c (f : D → D → D)
    (body : Z → list D → option (list D)) :
  has_shape dst r c → has_shape src r c →
  (∀ i d, body i d = x ← zget d i; y ← zget (data src) i; zset d i (f x y)) →
  with_data dst <$> for_loop 0 (rows dst * columns dst) body (data dst)
    = Some (with_data dst (zip_with f (data dst) (data src))).
Proof.
  intros (Hr & Hc & ? & ? & Hl) (Hrs & Hcs & _ & _ & Hls) Hbody.
  rewrite (for_loop_pointwise_data _ _ _ (zip_with f (data dst) (data src)));
    [done|lia|rewrite length_zip_with; lia|].
  intros i d Hi Hd Hj. rewrite Hbody, Hj by lia.
  destruct (zget_is_Some (data dst) i) as [x Hx]; [lia|].
  destruct (zget_is_Some (data src) i) as [y Hy]; [lia|].
  exists (f x y). rewrite zget_zip_with, Hx, Hy. done.
Qed.

Lemma matrix_multiply_data m r c (v : D) :
  has_shape m r c →
  matrix_multiply m v = Some (with_data m ((λ x, x * v)%dbl <$> data m)).
Proof. intros. by eapply matrix_map_data. Qed.

Lemma matrix_divide_data m r c (v : D) :
  has_shape m r c →
  matrix_divide m v = Some (with_data m ((λ x, x / v)%dbl <$> data m)).
Proof. intros. by eapply matrix_map_data. Qed.

Lemma matrix_apply_data m r c (f : D → D) :
  has_shape m r c → matrix_apply m f = Some (with_data m (f <$> data m)).
Proof. intros. by eapply matrix_map_data. Qed.

Lemma matrix_subtract_data dst src r c :
  has_shape dst r c → has_shape src r c →
  matrix_subtract dst src = Some (with_data dst (zip_with dsub (data dst) (data src))).
Proof. intros. by eapply matrix_zip_data. Qed.

Lemma matrix_add_data dst src r c :
  has_shape dst r c → has_shape src r c →
  matrix_add dst src = Some (with_data dst (zip_with dadd (data dst) (data src))).
Proof. intros. by eapply matrix_zip_data. Qed.

Lemma matrix_odot_data dst src r c :
  has_shape dst r c → has_shape src r c →
  matrix_odot dst src = Some (with_data dst (zip_with dmul (data dst) (data src))).
Proof. intros. by eapply matrix_zip_data. Qed.

Lemma matrix_clear_data m r c :
  has_shape m r c →
  matrix_clear m = Some (with_data m ((λ _, d_of_int 0) <$> data m)).
Proof.
  intros (Hr & Hc & ? & ? & Hl). unfold matrix_clear.
  rewrite (for_loop_pointwise_data _ _ _ ((λ _, d_of_int 0) <$> data m));
    [done|lia|by rewrite length_fmap|].
  intros i d Hi Hd Hj. destruct (zget_is_Some (data m) i) as [x Hx]; [lia|].
  exists (d_of_int 0). rewrite zget_fmap, Hx. done.
Qed.

Lemma matrix_clone_id (heap : Z → D) m r c :
  has_shape m r c → matrix_clone heap m = Some m.
Proof.
  intros (Hr & Hc & ? & ? & Hl). unfold matrix_clone.
  rewrite (for_loop_pointwise_data _ _ _ (data m)).
  - by destruct m.
  - pose proof (length_heap_block heap (rows m * columns m)).
    unfold matrix_create. simpl. nia.
  - pose proof (length_heap_block heap (rows m * columns m)).
    unfold matrix_create. simpl. nia.
  - intros i d Hi Hd Hj. destruct (zget_is_Some (data m) i) as [x Hx]; [lia|].
    exists x. by rewrite Hx.
Qed.

Lemma has_shape_data m r c (d : list D) :
  has_shape m r c → length d = length (data m) → has_shape (with_data m d) r c.
Proof. apply has_shape_with_data. Qed.

End data.

(** ** Loops over the layers of a network *)

Section layer_loops.
Context {D : Type} `{!Scalar D}.
Implicit Types mlp : MLP D.
Implicit Types l : Layer D.

Lemma layers_loop (body : Z → MLP D → option (MLP D)) (f : Z → Layer D → Layer D)
    mlp n :
  0 ≤ n ≤ Z.of_nat (length (layers mlp)) →
  (∀ i mc l, 0 ≤ i < n → layer mlp i = Some l → layer mc i = Some l →
     depth mc = depth mlp → batchSize mc = batchSize mlp →
     body i mc = set_layer mc i (f i l)) →
  ∃ mlp', for_loop 0 n body mlp = Some mlp' ∧
    depth mlp' = depth mlp ∧ batchSize mlp' = batchSize mlp ∧
    input mlp' = input mlp ∧ inputErrors mlp' = inputErrors mlp ∧
    mlp_output mlp' = mlp_output mlp ∧
    length (layers mlp') = length (layers mlp) ∧
    ∀ k, layer mlp' k =
         if decide (0 ≤ k < n) then f k <$> layer mlp k else layer mlp k.
Proof.
  intros Hn Hbody.
  destruct (for_loop_inv (λ i mc,
      depth mc = depth mlp ∧ batchSize mc = batchSize mlp ∧
      input mc = input mlp ∧ inputErrors mc = inputErrors mlp ∧
      mlp_output mc = mlp_output mlp ∧
      length (layers mc) = length (layers mlp) ∧
      ∀ k, layer mc k =
           if decide (0 ≤ k < i) then f k <$> layer mlp k else layer mlp k)
    body 0 n mlp) as (mlp' & Hloop & Hinv); [lia| | |by eauto].
  - split_and!; try done. intros k. by rewrite decide_False by lia.
  - intros i mc Hi (Hd & HB & Hin & Hie & Ho & Hlen & Hl).
    destruct (zget_is_Some (layers mlp) i) as [l Hli]; [lia|].
    change (zget (layers mlp) i) with (layer mlp i) in Hli.
    assert (layer mc i = Some l) as Hci by (rewrite Hl, decide_False by lia; done).
    rewrite (Hbody i mc l) by done.
    destruct (set_layer mc i (f i l)) as [mc'|] eqn:E.
    2:{ unfold set_layer in E. rewrite zset_lt in E by lia. done. }
    apply set_layer_Some in E as (? & ? & ? & ? & ? & ? & Hl').
    eexists. split; [done|]. split_and!; try congruence.
    intros k. rewrite Hl', Hl. destruct (decide (k = i)) as [->|].
    + rewrite decide_True by lia. by rewrite Hli.
    + repeat case_decide; try done; lia.
Qed.

Lemma mlp_wf_map_layers sz mlp mlp' (f : Z → Layer D → Layer D) n :
  mlp_wf sz mlp →
  depth mlp' = depth mlp → batchSize mlp' = batchSize mlp →
  input mlp' = input mlp → inputErrors mlp' = inputErrors mlp →
  mlp_output mlp' = mlp_output mlp →
  length (layers mlp') = length (layers mlp) →
  (∀ k, layer mlp' k =
        if decide (0 ≤ k < n) then f k <$> layer mlp k else layer mlp k) →
  (∀ k l, layer_wf (batchSize mlp) (sz k) (sz (k + 1)) l →
          layer_wf (batchSize mlp) (sz k) (sz (k + 1)) (f k l)) →
  mlp_wf sz mlp'.
Proof.
  intros (Hd & HB & Hlen & Hls & Hin & Hie & Hout) Hd' HB' Hin' Hie' Hout' Hlen' Hl Hf.
  unfold mlp_wf. rewrite Hd', HB', Hin', Hie', Hout', Hlen'.
  split_and!; try done. intros k l'. rewrite Hl.
  case_decide; [|apply Hls].
  destruct (layer mlp k) as [l|] eqn:E; [|done]. intros [= <-].
  apply Hf. by apply Hls.
Qed.

Lemma sgd_layer_wf (lr : D) B nin nout l :
  layer_wf B nin nout l → layer_wf B nin nout (sgd_layer lr l).
Proof.
  intros (Hw & Hb & Ho & He & Hdl & Hgw & Hgb).
  pose proof Hw as (_ & _ & _ & _ & Hlw). pose proof Hb as (_ & _ & _ & _ & Hlb).
  pose proof Hgw as (_ & _ & _ & _ & Hlgw).
  pose proof Hgb as (_ & _ & _ & _ & Hlgb).
  unfold layer_wf, sgd_layer. simpl. split_and!; try done.
  - apply has_shape_with_data; [done|].
    rewrite length_zip_with, length_fmap. lia.
  - apply has_shape_with_data; [done|].
    rewrite length_zip_with, length_fmap. lia.
  - apply has_shape_with_data; [done|]. by rewrite length_fmap.
  - apply has_shape_with_data; [done|]. by rewrite length_fmap.
Qed.

Lemma mlp_sgd_closed sz mlp (lr : D) :
  mlp_wf sz mlp →
  ∃ mlp', mlp_sgd mlp lr = Some mlp' ∧ mlp_wf sz mlp' ∧
    depth mlp' = depth mlp ∧ batchSize mlp' = batchSize mlp ∧
    input mlp' = input mlp ∧ inputErrors mlp' = inputErrors mlp ∧
    mlp_output mlp' = mlp_output mlp ∧
    ∀ k, layer mlp' k = sgd_layer lr <$> layer mlp k.
Proof.
  intros Hwf. pose proof Hwf as (Hd & HB & Hlen & Hls & Hin & Hie & Hout).
  unfold mlp_sgd.
  match goal with |- context [for_loop 0 ?n ?body mlp] =>
    destruct (layers_loop body (λ _, sgd_layer lr) mlp n)
      as (mlp' & -> & Hd' & HB' & Hin' & Hie' & Hout' & Hlen' & Hl) end.
  - lia.
  - intros i mc l Hi Hli Hci _ _. rewrite Hci. cbn [mbind option_bind].
    pose proof (Hls _ _ Hli) as (Hw & Hb & _ & _ & _ & Hgw & Hgb).
    rewrite (matrix_multiply_data _ _ _ _ Hgw). cbn [mbind option_bind].
    erewrite matrix_subtract_data; [|exact Hw|].
    2:{ apply has_shape_with_data; [done|by rewrite length_fmap]. }
    cbn [mbind option_bind].
    erewrite (matrix_multiply_data (gradBiases _)); [|exact Hgb].
    cbn [mbind option_bind].
    erewrite matrix_subtract_data; [|exact Hb|].
    2:{ apply has_shape_with_data; [done|by rewrite length_fmap]. }
    done.
  - exists mlp'. split; [done|]. split.
    + apply (mlp_wf_map_layers sz mlp mlp' (λ _, sgd_layer lr) (depth mlp + 1));
        try done.
      intros k l. apply sgd_layer_wf.
    + split_and!; try done. intros k. rewrite Hl. case_decide; [done|].
      unfold layer. rewrite zget_None by lia. done.
Qed.

(** X9 ([mlp_sgd]): on a network of consistent shapes the step stays inside
    every block; it multiplies the stored gradients by the learning rate in
    place and subtracts the scaled gradients from the weights and the biases,
    cell by cell.  Layer outputs, errors and deltas are left as they are. *)
Theorem mlp_sgd_updates sz mlp (lr : D) :
  mlp_wf sz mlp →
  ∃ mlp', mlp_sgd mlp lr = Some mlp' ∧ mlp_wf sz mlp' ∧
    input mlp' = input mlp ∧ inputErrors mlp' = inputErrors mlp ∧
    mlp_output mlp' = mlp_output mlp ∧
    ∀ i l, layer mlp i = Some l →
      ∃ l', layer mlp' i = Some l' ∧
        data (gradWeights l') = (λ g, g * lr)%dbl <$> data (gradWeights l) ∧
        data (weights l') =
          zip_with (λ w g, w - g * lr)%dbl (data (weights l)) (data (gradWeights l)) ∧
        data (gradBiases l') = (λ g, g * lr)%dbl <$> data (gradBiases l) ∧
        data (biases l') =
          zip_with (λ b g, b - g * lr)%dbl (data (biases l)) (data (gradBiases l)) ∧
        output l' = output l ∧ errors l' = errors l ∧ deltas l' = deltas l.
Proof.
  intros Hwf.
  destruct (mlp_sgd_closed sz mlp lr Hwf)
    as (mlp' & E & Hwf' & _ & _ & Hin & Hie & Hout & Hl).
  exists mlp'. split_and!; try done. intros i l Hli. eexists. split.
  - rewrite Hl, Hli. done.
  - unfold sgd_layer. simpl. by rewrite !zip_with_fmap_r.
Qed.

End layer_loops.

Lemma mlp_sgd_updates_witness :
  match example_optimizer with
  | Some (mlp, _) =>
      ∃ mlp', mlp_sgd mlp 0.5%float = Some mlp' ∧
        mlp_wf (layer_sizes 2 [2] 1 1) mlp' ∧
        input mlp' = input mlp ∧ inputErrors mlp' = inputErrors mlp ∧
        mlp_output mlp' = mlp_output mlp ∧
        ∀ i l, layer mlp i = Some l →
          ∃ l', layer mlp' i = Some l' ∧
            data (gradWeights l') = (λ g, g * 0.5)%float <$> data (gradWeights l) ∧
            data (weights l') =
              zip_with (λ w g, w - g * 0.5)%float
                (data (weights l)) (data (gradWeights l)) ∧
            data (gradBiases l') = (λ g, g * 0.5)%float <$> data (gradBiases l) ∧
            data (biases l') =
              zip_with (λ b g, b - g * 0.5)%float
                (data (biases l)) (data (gradBiases l)) ∧
            output l' = output l ∧ errors l' = errors l ∧ deltas l' = deltas l
  | None => False
  end.
Proof.
  destruct example_optimizer_wf as (mlp & adam & -> & Hwf & _).
  exact (mlp_sgd_updates _ mlp 0.5%float Hwf).
Defined.

Lemma for_loop_fold {A St} (d : list A) (f : St → A → St) n (s0 : St) :
  0 ≤ n ≤ Z.of_nat (length d) →
  for_loop 0 n (λ i s, x ← zget d i; Some (f s x)) s0
    = Some (foldl f s0 (take (Z.to_nat n) d)).
Proof.
  intros Hn.
  destruct (for_loop_inv (λ i s, s = foldl f s0 (take (Z.to_nat i) d))
              (λ i s, x ← zget d i; Some (f s x)) 0 n s0) as (s & -> & ->);
    [lia|done| |done].
  intros i s Hi ->. destruct (zget_is_Some d i) as [x Hx]; [lia|].
  rewrite Hx. simpl. eexists. split; [done|].
  replace (Z.to_nat (i + 1)) with (S (Z.to_nat i)) by lia.
  unfold zget in Hx. rewrite decide_True in Hx by lia.
  rewrite (take_S_r _ _ _ Hx), foldl_app. done.
Qed.

Section clip.
Context {D : Type} `{!Scalar D}.
Implicit Types mlp : MLP D.
Implicit Types l : Layer D.

Lemma mlp_clip_gradients_closed (g : Matrix D) r c (clipnorm : D) :
  has_shape g r c →
  mlp_clip_gradients g clipnorm =
  Some (let norm := dsqrt (foldl (λ s x, s + dpow x (d_of_int 2))%dbl
                             (d_of_int 0) (data g)) in
        if (norm >? clipnorm)%dbl
        then with_data g ((λ x, x * (clipnorm / norm))%dbl <$> data g)
        else g).
Proof.
  intros Hg. pose proof Hg as (Hr & Hc & ? & ? & Hl). unfold mlp_clip_gradients.
  rewrite (for_loop_fold (data g)) by lia. cbn [mbind option_bind].
  rewrite take_ge by lia. cbn zeta.
  destruct (dltb _ _); [|done]. by eapply matrix_multiply_data.
Qed.

Lemma mlp_clip_gradients_total (g : Matrix D) r c (clipnorm : D) :
  has_shape g r c →
  ∃ g', mlp_clip_gradients g clipnorm = Some g' ∧ has_shape g' r c.
Proof.
  intros Hg. rewrite (mlp_clip_gradients_closed g r c) by done.
  eexists. split; [done|]. cbn zeta. destruct (dltb _ _); [|done].
  apply has_shape_with_data; [done|by rewrite length_fmap].
Qed.

Lemma mlp_sgd_clip_closed sz mlp (lr clipnorm : D) :
  mlp_wf sz mlp →
  ∃ mlp', mlp_sgd_clip mlp lr clipnorm = Some mlp' ∧ mlp_wf sz mlp' ∧
    depth mlp' = depth mlp ∧ batchSize mlp' = batchSize mlp ∧
    input mlp' = input mlp ∧ inputErrors mlp' = inputErrors mlp ∧
    mlp_output mlp' = mlp_output mlp ∧
    ∀ k, layer mlp' k =
         (λ l, sgd_layer lr
                 (set_gradWeights l
                    (default (gradWeights l)
                       (mlp_clip_gradients (gradWeights l) clipnorm))))
         <$> layer mlp k.
Proof.
  intros Hwf. pose proof Hwf as (Hd & HB & Hlen & Hls & Hin & Hie & Hout).
  unfold mlp_sgd_clip.
  set (f := λ (_ : Z) l,
         sgd_layer lr
           (set_gradWeights l
              (default (gradWeights l)
                 (mlp_clip_gradients (gradWeights l) clipnorm)))).
  assert (∀ k l, layer_wf (batchSize mlp) (sz k) (sz (k + 1)) l →
                 layer_wf (batchSize mlp) (sz k) (sz (k + 1)) (f k l)) as Hf.
  { intros k l Hlw. apply sgd_layer_wf.
    destruct Hlw as (Hw & Hb & Ho & He & Hdl & Hgw & Hgb).
    destruct (mlp_clip_gradients_total (gradWeights l) _ _ clipnorm Hgw)
      as (gw & -> & Hgw').
    by split_and!. }
  match goal with |- context [for_loop 0 ?n ?body mlp] =>
    destruct (layers_loop body f mlp n)
      as (mlp' & -> & Hd' & HB' & Hin' & Hie' & Hout' & Hlen' & Hl) end.
  - lia.
  - intros i mc l Hi Hli Hci _ _. rewrite Hci. cbn [mbind option_bind].
    pose proof (Hls _ _ Hli) as (Hw & Hb & Ho & He & Hdl & Hgw & Hgb).
    unfold f.
    destruct (mlp_clip_gradients_total (gradWeights l) _ _ clipnorm Hgw)
      as (gw & -> & Hgw').
    cbn [mbind option_bind default].
    change (gradWeights (set_gradWeights l gw)) with gw.
    rewrite (matrix_multiply_data _ _ _ _ Hgw'). cbn [mbind option_bind].
    erewrite matrix_subtract_data; [|exact Hw|].
    2:{ apply has_shape_with_data; [done|by rewrite length_fmap]. }
    cbn [mbind option_bind].
    erewrite (matrix_multiply_data (gradBiases _)); [|exact Hgb].
    cbn [mbind option_bind].
    erewrite matrix_subtract_data; [|exact Hb|].
    2:{ apply has_shape_with_data; [done|by rewrite length_fmap]. }
    done.
  - exists mlp'. split; [done|]. split.
    + by apply (mlp_wf_map_layers sz mlp mlp' f (depth mlp + 1)).
    + split_and!; try done. intros k. rewrite Hl. case_decide; [done|].
      unfold layer. rewrite zget_None by lia. done.
Qed.

(** X10 ([mlp_sgd_clip], [mlp_clip_gradients]): clipping concerns the weight
    gradients only.  On a network of consistent shapes [mlp_sgd_clip] stays
    inside every block; its step on the weights uses the gradient that
    [mlp_clip_gradients] returns, its biases and bias gradients are those
    that [mlp_sgd] computes, and a layer whose weight gradient the clipping
    returns unchanged ends as after [mlp_sgd]. *)
Theorem mlp_sgd_clip_weights_only sz mlp (lr clipnorm : D) :
  mlp_wf sz mlp →
  ∃ m1 m2, mlp_sgd mlp lr = Some m1 ∧ mlp_sgd_clip mlp lr clipnorm = Some m2 ∧
    mlp_wf sz m2 ∧
    ∀ i l, layer mlp i = Some l →
      ∃ l1 l2 gw, layer m1 i = Some l1 ∧ layer m2 i = Some l2 ∧
        mlp_clip_gradients (gradWeights l) clipnorm = Some gw ∧
        data (gradWeights l2) = (λ g, g * lr)%dbl <$> data gw ∧
        data (weights l2) =
          zip_with (λ w g, w - g * lr)%dbl (data (weights l)) (data gw) ∧
        biases l2 = biases l1 ∧ gradBiases l2 = gradBiases l1 ∧
        (gw = gradWeights l → l2 = l1).
Proof.
  intros Hwf. pose proof Hwf as (Hd & HB & Hlen & Hls & Hin & Hie & Hout).
  destruct (mlp_sgd_closed sz mlp lr Hwf) as (m1 & E1 & _ & _ & _ & _ & _ & _ & Hl1).
  destruct (mlp_sgd_clip_closed sz mlp lr clipnorm Hwf)
    as (m2 & E2 & Hwf2 & _ & _ & _ & _ & _ & Hl2).
  exists m1, m2. split_and!; try done. intros i l Hli.
  pose proof (Hls _ _ Hli) as (Hw & Hb & Ho & He & Hdl & Hgw & Hgb).
  destruct (mlp_clip_gradients_total (gradWeights l) _ _ clipnorm Hgw)
    as (gw & Hclip & Hgw').
  eexists _, _, gw. rewrite Hl1, Hl2, Hli. simpl. rewrite Hclip. simpl.
  split_and!; try done.
  - unfold sgd_layer. simpl. by rewrite zip_with_fmap_r.
  - intros ->. by destruct l.
Qed.

(** X11 ([mlp_clip_gradients]): on a gradient matrix whose block has
    [rows * columns] cells the function stays inside the block.  It
    computes [norm], the square root of the sum of [pow(g, 2)] over the
    cells, accumulated from zero in row-major order.  When the test
    [norm > clipnorm] holds, every cell is multiplied by the one quotient
    [clipnorm / norm]; otherwise the matrix is returned as it is. *)
Theorem mlp_clip_gradients_closed_form (g : Matrix D) r c (clipnorm : D) :
  has_shape g r c →
  mlp_clip_gradients g clipnorm =
  Some (let norm := dsqrt (foldl (λ s x, s + dpow x (d_of_int 2))%dbl
                             (d_of_int 0) (data g)) in
        if (norm >? clipnorm)%dbl
        then with_data g ((λ x, x * (clipnorm / norm))%dbl <$> data g)
        else g).
Proof. apply mlp_clip_gradients_closed. Qed.

End clip.

Lemma mlp_clip_gradients_closed_form_witness :
  let g := mkMatrix 1 2 [3; 4]%float in
  mlp_clip_gradients (Scalar0 := run64) g 1%float =
    Some (let norm := dsqrt (foldl (λ s x, s + dpow x (d_of_int 2))%dbl
                               (d_of_int 0) (data g)) in
          if (norm >? 1%float)%dbl
          then with_data g ((λ x, x * (1%float / norm))%dbl <$> data g)
          else g).
Proof.
  intros g. apply (mlp_clip_gradients_closed_form g 1 2 1%float).
  unfold has_shape; simpl; lia.
Defined.

Lemma mlp_sgd_clip_weights_only_witness :
  match example_optimizer with
  | Some (mlp, _) =>
      ∃ m1 m2, mlp_sgd mlp 0.5%float = Some m1 ∧
        mlp_sgd_clip mlp 0.5%float 0.125%float = Some m2 ∧
        mlp_wf (layer_sizes 2 [2] 1 1) m2 ∧
        ∀ i l, layer mlp i = Some l →
          ∃ l1 l2 gw, layer m1 i = Some l1 ∧ layer m2 i = Some l2 ∧
            mlp_clip_gradients (gradWeights l) 0.125%float = Some gw ∧
            data (gradWeights l2) = (λ g, g * 0.5)%float <$> data gw ∧
            data (weights l2) =
              zip_with (λ w g, w - g * 0.5)%float (data (weights l)) (data gw) ∧
            biases l2 = biases l1 ∧ gradBiases l2 = gradBiases l1 ∧
            (gw = gradWeights l → l2 = l1)
  | None => False
  end.
Proof.
  destruct example_optimizer_wf as (mlp & adam & -> & Hwf & _).
  exact (mlp_sgd_clip_weights_only _ mlp 0.5%float 0.125%float Hwf).
Defined.

Section copies.
Context {D : Type} `{!Scalar D}.
Implicit Types mlp dst src : MLP D.
Implicit Types l : Layer D.

Lemma mlp_clone_id sz (heap : Z → D) mlp :
  mlp_wf sz mlp → mlp_clone heap mlp = Some mlp.
Proof.
  intros (Hd & HB & Hlen & Hls & Hin & Hie & Hout). unfold mlp_clone.
  match goal with |- context [for_loop 0 ?n ?body ?s0] =>
    destruct (for_loop_inv
      (λ i (ls : list (Layer D)), ls = take (Z.to_nat i) (layers mlp))
      body 0 n s0) as (ls & -> & ->); [lia|done| |]
  end.
  - intros i ls Hi ->.
    destruct (layer_is_Some mlp i) as [l Hl]; [done|lia|]. rewrite Hl.
    cbn [mbind option_bind].
    pose proof (Hls _ _ Hl) as (Hw & Hb & Ho & He & Hdl & Hgw & Hgb).
    rewrite (matrix_clone_id heap _ _ _ Hw), (matrix_clone_id heap _ _ _ Hb),
      (matrix_clone_id heap _ _ _ Ho), (matrix_clone_id heap _ _ _ He),
      (matrix_clone_id heap _ _ _ Hdl), (matrix_clone_id heap _ _ _ Hgw),
      (matrix_clone_id heap _ _ _ Hgb).
    cbn [mbind option_bind]. eexists. split; [done|].
    replace (Z.to_nat (i + 1)) with (S (Z.to_nat i)) by lia.
    unfold layer, zget in Hl. rewrite decide_True in Hl by lia.
    rewrite (take_S_r _ _ _ Hl). by destruct l.
  - cbn [mbind option_bind].
    rewrite (matrix_clone_id heap _ _ _ Hin), (matrix_clone_id heap _ _ _ Hie),
      (matrix_clone_id heap _ _ _ Hout).
    cbn [mbind option_bind]. rewrite take_ge by lia. by destruct mlp.
Qed.

(** X12 ([mlp_clone], [matrix_clone]): the clone of a network of consistent
    shapes has the contents of the original in every matrix, and the same
    activation functions, whatever the fresh blocks held. *)
Theorem mlp_clone_exact_copy sz (heap : Z → D) mlp :
  mlp_wf sz mlp → mlp_clone heap mlp = Some mlp.
Proof. apply mlp_clone_id. Qed.

Lemma mlp_copy_closed sz dst src :
  mlp_wf sz dst → mlp_wf sz src →
  depth dst = depth src → batchSize dst = batchSize src →
  ∃ dst', mlp_copy dst src = Some dst' ∧
    depth dst' = depth dst ∧ batchSize dst' = batchSize dst ∧
    input dst' = input src ∧ inputErrors dst' = inputErrors src ∧
    mlp_output dst' = mlp_output src ∧
    length (layers dst') = length (layers dst) ∧
    ∀ k, layer dst' k =
         ld ← layer dst k; ls ← layer src k;
         Some (mkLayer (weights ls) (biases ls) (output ls) (errors ls)
                 (deltas ls) (gradWeights ls) (gradBiases ls)
                 (activation ld) (activationDeriv ld)).
Proof.
  intros Hwd Hws Hdp HBs. unfold mlp_copy.
  pose proof Hwd as (Hd & HB & Hlen & Hls & Hin & Hie & Hout).
  pose proof Hws as (Hd0 & HB0 & Hlens & Hlss & Hins & Hies & Houts).
  set (f := λ k ld,
         match layer src k with
         | Some ls => mkLayer (weights ls) (biases ls) (output ls) (errors ls)
                        (deltas ls) (gradWeights ls) (gradBiases ls)
                        (activation ld) (activationDeriv ld)
         | None => ld
         end).
  match goal with |- context [for_loop 0 ?n ?body dst] =>
    destruct (layers_loop body f dst n)
      as (mc & -> & Hd' & HB' & Hin' & Hie' & Hout' & Hlen' & Hl) end.
  - lia.
  - intros i mc ld Hi Hli Hci _ _. rewrite Hci. cbn [mbind option_bind].
    destruct (layer_is_Some src i) as [ls Hsi]; [done|lia|].
    unfold f. rewrite Hsi. cbn [mbind option_bind].
    pose proof (Hls _ _ Hli) as (Hw & Hb & Ho & He & Hdl & Hgw & Hgb).
    pose proof (Hlss _ _ Hsi) as (Hw' & Hb' & Ho' & He' & Hdl' & Hgw' & Hgb').
    rewrite <- HBs in *.
    rewrite (matrix_copy_ok _ _ _ _ Hw Hw'). cbn [mbind option_bind].
    erewrite (matrix_copy_ok (biases _)); [|exact Hb|exact Hb'].
    cbn [mbind option_bind].
    erewrite (matrix_copy_ok (output _)); [|exact Ho|exact Ho'].
    cbn [mbind option_bind].
    erewrite (matrix_copy_ok (errors _)); [|exact He|exact He'].
    cbn [mbind option_bind].
    erewrite (matrix_copy_ok (deltas _)); [|exact Hdl|exact Hdl'].
    cbn [mbind option_bind].
    erewrite (matrix_copy_ok (gradWeights _)); [|exact Hgw|exact Hgw'].
    cbn [mbind option_bind].
    erewrite (matrix_copy_ok (gradBiases _)); [|exact Hgb|exact Hgb'].
    cbn [mbind option_bind]. done.
  - cbn [mbind option_bind]. rewrite Hin'.
    rewrite <- HBs in *. rewrite <- Hdp in *.
    rewrite (matrix_copy_ok _ _ _ _ Hin Hins). cbn [mbind option_bind].
    change (inputErrors (set_input mc (input src))) with (inputErrors mc).
    rewrite Hie'.
    rewrite (matrix_copy_ok _ _ _ _ Hie Hies). cbn [mbind option_bind].
    change (mlp_output (set_inputErrors (set_input mc (input src))
                          (inputErrors src))) with (mlp_output mc).
    rewrite Hout'.
    rewrite (matrix_copy_ok _ _ _ _ Hout Houts). cbn [mbind option_bind].
    eexists. split; [done|]. split_and!; try done.
    intros k.
    change (layer (set_mlp_output (set_inputErrors (set_input mc (input src))
                     (inputErrors src)) (mlp_output src)) k) with (layer mc k).
    rewrite Hl. unfold f. case_decide as Hk.
    + destruct (layer dst k) as [ld|]; [|done]. simpl.
      destruct (layer_is_Some src k) as [ls ->]; [lia|lia|]. done.
    + unfold layer. rewrite (zget_None (layers dst)) by lia. done.
Qed.

Lemma copied_parameters dst src dst' :
  length (layers dst) = length (layers src) →
  (∀ k, layer dst' k =
        ld ← layer dst k; ls ← layer src k;
        Some (mkLayer (weights ls) (biases ls) (output ls) (errors ls)
                (deltas ls) (gradWeights ls) (gradBiases ls)
                (activation ld) (activationDeriv ld))) →
  parameters dst' = parameters src.
Proof.
  intros Hlen Hl. unfold parameters. apply list_eq. intros i.
  rewrite !list_lookup_fmap.
  specialize (Hl (Z.of_nat i)). unfold layer in Hl. rewrite !zget_nat in Hl.
  rewrite Hl. destruct (layers src !! i) as [ls|] eqn:E1.
  - destruct (layers dst !! i) as [ld|] eqn:E2; [done|].
    apply lookup_lt_Some in E1. apply lookup_ge_None in E2. lia.
  - by destruct (layers dst !! i).
Qed.

(** X13 ([mlp_copy], [matrix_copy]): between two networks of the same
    shapes the copy stays inside every block and gives the destination the
    contents of every matrix of the source, weights and biases included; the
    activation functions of the destination are not assigned. *)
Theorem mlp_copy_contents sz dst src :
  mlp_wf sz dst → mlp_wf sz src →
  depth dst = depth src → batchSize dst = batchSize src →
  ∃ dst', mlp_copy dst src = Some dst' ∧
    parameters dst' = parameters src ∧
    input dst' = input src ∧ inputErrors dst' = inputErrors src ∧
    mlp_output dst' = mlp_output src ∧
    ∀ k, layer dst' k =
         ld ← layer dst k; ls ← layer src k;
         Some (mkLayer (weights ls) (biases ls) (output ls) (errors ls)
                 (deltas ls) (gradWeights ls) (gradBiases ls)
                 (activation ld) (activationDeriv ld)).
Proof.
  intros Hwd Hws Hdp HBs.
  destruct (mlp_copy_closed sz dst src) as (dst' & E & _ & _ & ? & ? & ? & _ & Hl);
    [done..|].
  exists dst'. split_and!; try done.
  apply (copied_parameters dst); [|done].
  destruct Hwd as (_ & _ & ? & _), Hws as (_ & _ & ? & _). lia.
Qed.

End copies.

Section targets.
Context {D : Type} `{!Scalar D}.
Implicit Types ddpg : DDPG D.

(** X14 ([ddpg_update_target_networks]): the update is a hard one.  On an
    agent of consistent shapes it stays inside every block, gives the target
    actor and the target critic the weights and biases of the actor and of
    the critic, and leaves the actor, the critic, the optimizers and the
    replay memory as they are. *)
Theorem ddpg_update_target_networks_hard_copy sa sc ddpg :
  ddpg_wf sa sc ddpg →
  ∃ ddpg', ddpg_update_target_networks ddpg = Some ddpg' ∧ ddpg_wf sa sc ddpg' ∧
    parameters (actorTarget ddpg') = parameters (actor ddpg) ∧
    parameters (criticTarget ddpg') = parameters (critic ddpg) ∧
    actor ddpg' = actor ddpg ∧ critic ddpg' = critic ddpg ∧
    actorAdam ddpg' = actorAdam ddpg ∧ criticAdam ddpg' = criticAdam ddpg ∧
    replay_part ddpg' = replay_part ddpg.
Proof.
  intros Hwf.
  destruct (ddpg_update_target_networks_total sa sc ddpg Hwf) as (ddpg' & E & Hwf').
  exists ddpg'. split; [done|]. split; [done|].
  pose proof Hwf as [? ? ? Hwa HwaT Hwc HwcT ? ? ? ? ? ? ? ? ? ? ? ? ? ? ? ? ? ? ?].
  unfold ddpg_update_target_networks in E.
  destruct (mlp_copy_closed sa (actorTarget ddpg) (actor ddpg))
    as (aT & Ea & _ & _ & _ & _ & _ & _ & Hla); [done|done|done|congruence|].
  destruct (mlp_copy_closed sc (criticTarget ddpg) (critic ddpg))
    as (cT & Ec & _ & _ & _ & _ & _ & _ & Hlc); [done|done|done|congruence|].
  rewrite Ea in E. cbn [mbind option_bind] in E.
  change (criticTarget (set_actorTarget ddpg aT)) with (criticTarget ddpg) in E.
  change (critic (set_actorTarget ddpg aT)) with (critic ddpg) in E.
  rewrite Ec in E. cbn [mbind option_bind] in E. injection E as <-.
  split_and!; try done.
  - apply (copied_parameters (actorTarget ddpg)); [|done].
    destruct Hwa as (_ & _ & ? & _), HwaT as (_ & _ & ? & _). lia.
  - apply (copied_parameters (criticTarget ddpg)); [|done].
    destruct Hwc as (_ & _ & ? & _), HwcT as (_ & _ & ? & _). lia.
Qed.

Lemma ddpg_create_targets (heap : Z → D) iheap g S A nz aD aL cD cL M B ddpg g' sa sc :
  ddpg_create heap iheap g S A nz aD aL cD cL M B = Some (ddpg, g') →
  mlp_wf sa (actor ddpg) → mlp_wf sc (critic ddpg) →
  actorTarget ddpg = actor ddpg ∧ criticTarget ddpg = critic ddpg.
Proof.
  intros E Ha Hc. unfold ddpg_create in E. repeat bind_step E.
  subst ddpg. simpl in Ha, Hc |- *.
  match goal with
  | E1 : mlp_clone heap ?a = Some _, E2 : mlp_clone heap ?c = Some _ |- _ =>
      rewrite (mlp_clone_id sa heap a Ha) in E1;
      rewrite (mlp_clone_id sc heap c Hc) in E2;
      injection E1 as <-; injection E2 as <-
  end.
  done.
Qed.

(** X15 ([ddpg_create], [mlp_create], [mlp_initialize], [mlp_clone],
    [adam_create]): for non-negative state and action sizes, a positive
    memory size and batch size, arrays of hidden sizes as long as the depths,
    and sizes for which no [int] expression of the constructors overflows
    (the number of cells of every matrix, the sum of the rows and columns of
    every weight matrix and [depth + 1] are at most [INT_MAX]), the
    constructor stays inside every block it allocates and returns an agent of
    consistent shapes whose replay memory is empty, whose previous state is
    invalid and whose target networks are copies of the actor and of the
    critic. *)
Theorem ddpg_create_well_formed (heap : Z → D) iheap g S A nz aD aL cD cL M B :
  0 ≤ S → 0 ≤ A → 0 < M → 0 < B →
  sizes_ok aL aD → sizes_ok cL cD →
  int_agent S A aL aD cL cD M B →
  (∀ src, nz = Some src → A ≤ Z.of_nat (length src)) →
  rand_ok g →
  ∃ ddpg g', ddpg_create heap iheap g S A nz aD aL cD cL M B = Some (ddpg, g') ∧
    ddpg_wf (layer_sizes S aL aD A) (layer_sizes (A + S) cL cD 1) ddpg ∧
    rand_ok g' ∧
    stateSize ddpg = S ∧ actionSize ddpg = A ∧ memorySize ddpg = M ∧
    ddpg_batchSize ddpg = B ∧
    memoryUsed ddpg = 0 ∧ memoryIdx ddpg = 0 ∧ lastStateValid ddpg = 0 ∧
    actorTarget ddpg = actor ddpg ∧ criticTarget ddpg = critic ddpg.
Proof.
  intros HS HA HM HB HaL HcL _ Hnz Hg.
  destruct (ddpg_create_total heap iheap g S A nz aD aL cD cL M B)
    as ([ddpg g'] & E & Hwf & Hg' & ? & ? & ? & ? & ? & ? & ?); [done..|].
  simpl in *. exists ddpg, g'.
  pose proof (wf_actor _ _ _ Hwf) as Ha. pose proof (wf_critic _ _ _ Hwf) as Hc.
  destruct (ddpg_create_targets _ _ _ _ _ _ _ _ _ _ _ _ _ _ _ _ E Ha Hc)
    as [HaT HcT].
  by split_and!.
Qed.

(** X16 ([ddpg_observe], [ddpg_new_episode], [ddpg_action], [ddpg_train],
    [ddpg_update_target_networks]): memory safety of the calls.  Every
    sequence of calls on an agent of consistent shapes, with action and
    state arrays at least as long as the sizes of the agent, returns: no
    access falls outside a block, no modulus is zero, and the agent keeps
    consistent shapes. *)
Theorem ddpg_calls_memory_safe sa sc ddpg g (cs : list (Call D)) :
  ddpg_wf sa sc ddpg → rand_ok g →
  Forall (call_ok (stateSize ddpg) (actionSize ddpg)) cs →
  ∃ ddpg' g', run_calls (ddpg, g) cs = Some (ddpg', g') ∧
    ddpg_wf sa sc ddpg' ∧ rand_ok g'.
Proof.
  intros Hwf Hg Hcs.
  destruct (run_calls_total sa sc ddpg g cs Hwf Hg Hcs)
    as ([ddpg' g'] & Er & Hwf' & Hg').
  by exists ddpg', g'.
Qed.

End targets.

Lemma int_network_small (sz : Z → Z) dp B :
  dp < 1000 → 0 ≤ B ≤ 1000 → (∀ i, 0 ≤ sz i ≤ 1000) → int_network sz dp B.
Proof.
  intros Hdp HB Hsz. unfold int_network, INT_MAX. split; [lia|].
  split; [pose proof (Hsz 0); nia|].
  intros i _. pose proof (Hsz i). pose proof (Hsz (i + 1)).
  split_and!; nia.
Qed.

Lemma example_layer_sizes (n out i : Z) :
  0 ≤ n ≤ 3 → 0 ≤ out ≤ 1 → 0 ≤ layer_sizes n [2] 1 out i ≤ 1000.
Proof.
  intros Hn Hout. unfold layer_sizes. repeat case_decide; try lia.
  assert (i = 1) as -> by lia. simpl. lia.
Qed.

Lemma example_sizes_int : int_agent 2 1 [2] 1 [2] 1 4 2.
Proof.
  unfold int_agent. split_and!.
  - apply int_network_small; [lia|lia|]. intros i. apply example_layer_sizes; lia.
  - apply int_network_small; [lia|lia|]. intros i. apply example_layer_sizes; lia.
  - unfold INT_MAX. lia.
Qed.

Lemma mlp_clone_exact_copy_witness :
  match example_mlp1 with
  | Some mlp => mlp_clone (λ _, 1%float) mlp = Some mlp
  | None => False
  end.
Proof.
  destruct example_mlp1_wf as (mlp & -> & Hwf & _).
  exact (mlp_clone_exact_copy _ (λ _, 1%float) mlp Hwf).
Defined.

Lemma mlp_copy_contents_witness :
  match example_replay with
  | Some (ddpg, _) =>
      let dst := actorTarget ddpg in
      let src := actor ddpg in
      ∃ dst', mlp_copy dst src = Some dst' ∧
        parameters dst' = parameters src ∧
        input dst' = input src ∧ inputErrors dst' = inputErrors src ∧
        mlp_output dst' = mlp_output src ∧
        ∀ k, layer dst' k =
             ld ← layer dst k; ls ← layer src k;
             Some (mkLayer (weights ls) (biases ls) (output ls) (errors ls)
                     (deltas ls) (gradWeights ls) (gradBiases ls)
                     (activation ld) (activationDeriv ld))
  | None => False
  end.
Proof.
  destruct example_replay_wf as (ddpg & g & -> & Hwf & _).
  destruct Hwf.
  apply (mlp_copy_contents (layer_sizes 2 [2] 1 1)); [done|done|done|congruence].
Defined.

Lemma ddpg_update_target_networks_hard_copy_witness :
  match example_replay with
  | Some (ddpg, _) =>
      ∃ ddpg', ddpg_update_target_networks ddpg = Some ddpg' ∧
        ddpg_wf (layer_sizes 2 [2] 1 1) (layer_sizes (1 + 2) [2] 1 1) ddpg' ∧
        parameters (actorTarget ddpg') = parameters (actor ddpg) ∧
        parameters (criticTarget ddpg') = parameters (critic ddpg) ∧
        actor ddpg' = actor ddpg ∧ critic ddpg' = critic ddpg ∧
        actorAdam ddpg' = actorAdam ddpg ∧ criticAdam ddpg' = criticAdam ddpg ∧
        replay_part ddpg' = replay_part ddpg
  | None => False
  end.
Proof.
  destruct example_replay_wf as (ddpg & g & -> & Hwf & _).
  exact (ddpg_update_target_networks_hard_copy _ _ ddpg Hwf).
Defined.

Lemma ddpg_create_well_formed_witness :
  ∃ ddpg g',
    ddpg_create (Scalar0 := run64) example_heap (λ _, 0) example_rand
      2 1 None 1 [2] 1 [2] 4 2 = Some (ddpg, g') ∧
    ddpg_wf (layer_sizes 2 [2] 1 1) (layer_sizes (1 + 2) [2] 1 1) ddpg ∧
    rand_ok g' ∧
    stateSize ddpg = 2 ∧ actionSize ddpg = 1 ∧ memorySize ddpg = 4 ∧
    ddpg_batchSize ddpg = 2 ∧
    memoryUsed ddpg = 0 ∧ memoryIdx ddpg = 0 ∧ lastStateValid ddpg = 0 ∧
    actorTarget ddpg = actor ddpg ∧ criticTarget ddpg = critic ddpg.
Proof.
  apply ddpg_create_well_formed; try lia.
  - apply sizes_ok_one. lia.
  - apply sizes_ok_one. lia.
  - apply example_sizes_int.
  - intros src Hsrc. discriminate Hsrc.
  - apply example_rand_ok.
Defined.

Lemma ddpg_calls_memory_safe_witness :
  let cs := example_calls ++ [CallTrain 0.5%float; CallUpdateTargetNetworks;
                              CallAction [0.5; 0.25]%float] in
  match ddpg_create (Scalar0 := run64) example_heap (λ _, 0) example_rand
          2 1 None 1 [2] 1 [2] 4 2 with
  | Some (ddpg, g) =>
      ∃ ddpg' g', run_calls (ddpg, g) cs = Some (ddpg', g') ∧
        ddpg_wf (layer_sizes 2 [2] 1 1) (layer_sizes (1 + 2) [2] 1 1) ddpg' ∧
        rand_ok g'
  | None => False
  end.
Proof.
  intros cs.
  destruct (ddpg_create_total example_heap (λ _, 0) example_rand
              2 1 None 1 [2] 1 [2] 4 2)
    as ([ddpg g] & Hc & Hwf & Hg & HS & HA & _);
    [lia|lia|lia|lia|by apply sizes_ok_one|by apply sizes_ok_one|done|
     apply example_rand_ok|].
  rewrite Hc. cbn [fst snd] in Hwf, Hg, HS, HA.
  apply (ddpg_calls_memory_safe _ _ ddpg g cs Hwf Hg).
  rewrite HS, HA. apply Forall_app. split; [apply example_calls_ok|].
  repeat constructor; simpl; lia.
Defined.

Section forward.
Context {D : Type} `{!Scalar D}.
Implicit Types mlp : MLP D.
Implicit Types l : Layer D.

Lemma MATRIX_with_data (m : Matrix D) (d : list D) row col :
  MATRIX (with_data m d) row col = zget d (row * columns m + col).
Proof. done. Qed.

Lemma deref_set_layer mlp i l' mlp' p :
  set_layer mlp i l' = Some mlp' → p ≠ AtLayerOutput i →
  deref mlp' p = deref mlp p.
Proof.
  intros Hs Hp. apply set_layer_Some in Hs as (_ & _ & Hin & _ & _ & _ & Hl).
  destruct p as [|j]; simpl; [by rewrite Hin|].
  rewrite Hl, decide_False by congruence. done.
Qed.

Lemma input_at_below i k : k ≤ i → input_at k ≠ AtLayerOutput i.
Proof. unfold input_at. case_decide; [done|]. intros ? [=]. lia. Qed.

Lemma input_at_succ i : 0 ≤ i → input_at (i + 1) = AtLayerOutput i.
Proof.
  intros. unfold input_at. rewrite decide_False by lia. f_equal. lia.
Qed.

(** The three statements of the body of the loop of [mlp_feedforward]. *)
Lemma layer_output_cells l (pin : Matrix D) nin nout B :
  has_shape (weights l) nout nin → has_shape pin nin B →
  has_shape (output l) nout B → has_shape (biases l) nout B →
  ∃ m, (m ← matrix_dot (weights l) pin (output l);
        m ← matrix_add m (biases l); matrix_apply m (activation l)) = Some m ∧
    has_shape m nout B ∧
    ∀ row col, 0 ≤ row < nout → 0 ≤ col < B →
      MATRIX m row col =
        Some (activation l (dot_cell (weights l) pin row col
                            + cell (biases l) row col)%dbl).
Proof.
  intros Hw Hpin Ho Hb.
  destruct (matrix_dot_cell_spec (weights l) pin (output l) nout nin B)
    as (m1 & -> & Hm1 & Hc1); [done..|]. cbn [mbind option_bind].
  rewrite (matrix_add_data m1 (biases l) nout B) by done.
  cbn [mbind option_bind].
  pose proof Hm1 as (Hr1 & Hcl1 & _ & _ & Hl1).
  pose proof Hb as (_ & _ & _ & _ & Hlb).
  assert (has_shape (with_data m1 (zip_with dadd (data m1) (data (biases l))))
            nout B) as Hm2.
  { apply has_shape_with_data; [done|]. rewrite length_zip_with. lia. }
  rewrite (matrix_apply_data _ nout B) by done.
  eexists. split; [done|]. split.
  - apply has_shape_with_data; [done|]. by rewrite length_fmap.
  - intros row col Hrow Hcol. rewrite !MATRIX_with_data.
    cbn [columns data with_data]. rewrite zget_fmap, zget_zip_with.
    pose proof (Hc1 row col Hrow Hcol) as Hx. unfold MATRIX in Hx.
    rewrite Hx. cbn [mbind option_bind].
    pose proof (cell_Some (biases l) nout B row col Hb Hrow Hcol) as Hy.
    unfold MATRIX in Hy. destruct Hb as (_ & Hcb & _). rewrite Hcb in Hy.
    rewrite Hcl1, Hy. done.
Qed.

Lemma mlp_feedforward_spec sz mlp (x : Matrix D) :
  mlp_wf sz mlp → has_shape x (batchSize mlp) (sz 0) →
  ∃ out mlp', mlp_feedforward mlp x = Some (out, mlp') ∧ out = mlp_output mlp' ∧
    mlp_wf sz mlp' ∧ depth mlp' = depth mlp ∧ batchSize mlp' = batchSize mlp ∧
    inputErrors mlp' = inputErrors mlp ∧
    (∀ k l0, layer mlp k = Some l0 →
       ∃ l, layer mlp' k = Some l ∧ l = set_output l0 (output l)) ∧
    (∀ b k, 0 ≤ b < batchSize mlp → 0 ≤ k < sz 0 →
       MATRIX (input mlp') k b = Some (cell x b k)) ∧
    (∀ i l pin, layer mlp' i = Some l → deref mlp' (input_at i) = Some pin →
       ∀ row col, 0 ≤ row < sz (i + 1) → 0 ≤ col < batchSize mlp →
         MATRIX (output l) row col =
           Some (activation l (dot_cell (weights l) pin row col
                               + cell (biases l) row col)%dbl)) ∧
    (∀ l, layer mlp' (depth mlp) = Some l →
       ∀ b j, 0 ≤ b < batchSize mlp → 0 ≤ j < sz (depth mlp + 1) →
         MATRIX out b j = Some (cell (output l) j b)).
Proof.
  intros Hwf Hx. unfold mlp_feedforward.
  pose proof Hwf as (Hd & HB & Hlen & Hls & Hin & Hie & Hout).
  destruct (matrix_transpose_cell_spec x (input mlp) (batchSize mlp) (sz 0))
    as (m & Em & Hm & Hmc); [done..|].
  rewrite Em. cbn [mbind option_bind].
  pose proof (mlp_wf_set_input sz mlp m Hwf Hm) as Hwf0.
  set (mlp0 := set_input mlp m) in *.
  change (depth mlp0) with (depth mlp).
  match goal with |- context [for_loop 0 ?n ?body ?s0] =>
    destruct (for_loop_inv (λ i '((mc, inp) : MLP D * InputPtr),
      mlp_wf sz mc ∧ depth mc = depth mlp ∧ batchSize mc = batchSize mlp ∧
      inp = input_at i ∧ input mc = m ∧ inputErrors mc = inputErrors mlp ∧
      mlp_output mc = mlp_output mlp ∧
      (∀ k l0, layer mlp k = Some l0 →
         ∃ l, layer mc k = Some l ∧ l = set_output l0 (output l)) ∧
      (∀ k l pin, 0 ≤ k < i → layer mc k = Some l →
         deref mc (input_at k) = Some pin →
         ∀ row col, 0 ≤ row < sz (k + 1) → 0 ≤ col < batchSize mlp →
           MATRIX (output l) row col =
             Some (activation l (dot_cell (weights l) pin row col
                                 + cell (biases l) row col)%dbl)))
      body 0 n s0)
    as ([mc inp] & Hloop & Hwfc & Hdc & HBc & -> & Hinc & Hiec & Houtc & Hfr & Hcells);
      [lia| | |]
  end.
  - split_and!; try done.
    + intros k l0 Hl0. exists l0. split; [done|]. by destruct l0.
    + intros; lia.
  - intros i [mc inp] Hi (Hwfc & Hdc & HBc & -> & Hinc & Hiec & Houtc & Hfr & Hcells).
    pose proof Hwfc as (_ & _ & Hlenc & Hlsc & _).
    destruct (layer_is_Some mc i) as [l Hl]; [done|lia|].
    rewrite Hl. cbn [mbind option_bind].
    destruct (deref_shape sz mc i Hwfc) as (pin & Hpin & Hpins); [lia|].
    rewrite Hpin. cbn [mbind option_bind].
    pose proof (Hlsc _ _ Hl) as (Hw & Hb & Ho & He & Hdl & Hgw & Hgb).
    destruct (layer_output_cells l pin (sz i) (sz (i + 1)) (batchSize mc))
      as (m3 & Em3 & Hm3 & Hc3); [done..|].
    cbn [mbind option_bind] in Em3.
    destruct (matrix_dot (weights l) pin (output l)) as [m1|];
      cbn [mbind option_bind] in Em3 |- *; [|discriminate Em3].
    destruct (matrix_add m1 (biases l)) as [m2|];
      cbn [mbind option_bind] in Em3 |- *; [|discriminate Em3].
    rewrite Em3. cbn [mbind option_bind].
    destruct (mlp_wf_set_layer sz mc i (set_output l m3) Hwfc)
      as (mc' & Hset & Hwf' & Hd' & HB' & Hin' & Hie' & Hout' & Hl');
      [lia|by split_and!|].
    rewrite Hset. cbn [mbind option_bind]. eexists. split; [done|].
    split_and!; try congruence.
    + by rewrite input_at_succ by lia.
    + intros k l0 Hl0. destruct (Hfr k l0 Hl0) as (lk & Hlk & Heq).
      rewrite Hl'. destruct (decide (k = i)) as [->|]; [|by eauto].
      eexists. split; [done|]. rewrite Hl in Hlk. injection Hlk as <-.
      rewrite Heq. by destruct l0.
    + intros k lk pk Hk Hlk Hpk row col Hrow Hcol.
      rewrite (deref_set_layer mc i _ mc' _ Hset) in Hpk
        by (apply input_at_below; lia).
      rewrite Hl' in Hlk. destruct (decide (k = i)) as [->|].
      * injection Hlk as <-. rewrite Hpin in Hpk. injection Hpk as <-.
        cbn [output weights biases activation set_output].
        apply Hc3; [done|lia].
      * apply (Hcells k lk pk); [lia|done..].
  - cbn [mbind option_bind] in Hloop |- *. rewrite Hloop.
    cbn [mbind option_bind].
    destruct (deref_shape sz mc (depth mlp + 1) Hwfc) as (pin & Hpin & Hpins);
      [lia|].
    rewrite Hpin. cbn [mbind option_bind].
    pose proof Hwfc as (_ & _ & Hlenc & _ & _ & _ & Houtcs).
    rewrite Hdc in Houtcs.
    destruct (matrix_transpose_cell_spec pin (mlp_output mc)
                (sz (depth mlp + 1)) (batchSize mc))
      as (m' & Em' & Hm' & Hmc'); [done..|].
    rewrite Em'. cbn [mbind option_bind].
    eexists _, _. split; [done|]. split; [done|].
    cbn [mlp_output set_mlp_output].
    change (depth (set_mlp_output mc m')) with (depth mc).
    change (batchSize (set_mlp_output mc m')) with (batchSize mc).
    change (inputErrors (set_mlp_output mc m')) with (inputErrors mc).
    change (input (set_mlp_output mc m')) with (input mc).
    split_and!; try done.
    + apply mlp_wf_set_mlp_output; [done|]. by rewrite Hdc.
    + intros b k Hb Hk. rewrite Hinc. by apply Hmc.
    + intros i l pk Hl Hpk row col Hrow Hcol.
      change (layer (set_mlp_output mc m') i) with (layer mc i) in Hl.
      assert (deref mc (input_at i) = Some pk) as Hpk'
        by (by destruct (input_at i)).
      apply (Hcells i l pk); try done.
      apply zget_Some in Hl. lia.
    + intros l Hl b j Hb Hj.
      change (layer (set_mlp_output mc m') (depth mlp)) with (layer mc (depth mlp))
        in Hl.
      rewrite input_at_succ in Hpin by lia. simpl in Hpin. rewrite Hl in Hpin.
      injection Hpin as <-. apply Hmc'; [done|lia].
Qed.

(** X17 ([mlp_feedforward]): the forward pass of a network of consistent
    shapes on a batch of its input size stays inside every block.  It stores
    the batch transposed in [input]; the output of every layer is, cell by
    cell, the activation of the product of the weights with the input of the
    layer (the stored input for layer 0, the output of the layer before
    otherwise) plus the biases; the matrix returned is the transposed output
    of the last layer, stored in [output].  No other field of a layer than
    its output is changed. *)
Theorem mlp_feedforward_layers sz mlp (x : Matrix D) :
  mlp_wf sz mlp → has_shape x (batchSize mlp) (sz 0) →
  ∃ out mlp', mlp_feedforward mlp x = Some (out, mlp') ∧ out = mlp_output mlp' ∧
    mlp_wf sz mlp' ∧ depth mlp' = depth mlp ∧ batchSize mlp' = batchSize mlp ∧
    inputErrors mlp' = inputErrors mlp ∧
    (∀ k l0, layer mlp k = Some l0 →
       ∃ l, layer mlp' k = Some l ∧ l = set_output l0 (output l)) ∧
    (∀ b k, 0 ≤ b < batchSize mlp → 0 ≤ k < sz 0 →
       MATRIX (input mlp') k b = Some (cell x b k)) ∧
    (∀ i l pin, layer mlp' i = Some l → deref mlp' (input_at i) = Some pin →
       ∀ row col, 0 ≤ row < sz (i + 1) → 0 ≤ col < batchSize mlp →
         MATRIX (output l) row col =
           Some (activation l (dot_cell (weights l) pin row col
                               + cell (biases l) row col)%dbl)) ∧
    (∀ l, layer mlp' (depth mlp) = Some l →
       ∀ b j, 0 ≤ b < batchSize mlp → 0 ≤ j < sz (depth mlp + 1) →
         MATRIX out b j = Some (cell (output l) j b)).
Proof. apply mlp_feedforward_spec. Qed.

End forward.

Lemma for_down_inv_idx {St} (P : Z → St → Prop) (body : Z → St → option St) hi lo s :
  lo - 1 ≤ hi → P hi s →
  (∀ j s, lo ≤ j ≤ hi → P j s → ∃ s', body j s = Some s' ∧ P (j - 1) s') →
  ∃ s', for_down hi lo body s = Some s' ∧ P (lo - 1) s'.
Proof.
  unfold for_down. intros Hlh Hs Hbody.
  assert (∀ (n : nat) j s, P j s → j ≤ hi → lo ≤ j - Z.of_nat n + 1 →
            ∃ s', iterate_down n j body s = Some s' ∧ P (j - Z.of_nat n) s') as Hit.
  { induction n as [|n IH]; intros j s0 Hs0 Hj Hlo; simpl.
    - exists s0. split; [done|]. by replace (j - Z.of_nat 0) with j by lia.
    - destruct (Hbody j s0) as (s1 & -> & Hs1); [lia|done|]. simpl.
      destruct (IH (j - 1) s1) as (s' & -> & Hs'); [done|lia|lia|].
      exists s'. split; [done|].
      by replace (j - Z.of_nat (S n)) with (j - 1 - Z.of_nat n) by lia. }
  destruct (Hit (Z.to_nat (hi - lo + 1)) hi s) as (s' & -> & Hs'); [done|lia|lia|].
  exists s'. split; [done|].
  by replace (lo - 1) with (hi - Z.of_nat (Z.to_nat (hi - lo + 1))) by lia.
Qed.

Section backward.
Context {D : Type} `{!Scalar D}.
Implicit Types mlp : MLP D.
Implicit Types l : Layer D.

Lemma set_layer_part {A} (part : Layer D → A) mlp i l l' mlp' :
  set_layer mlp i l' = Some mlp' → layer mlp i = Some l → part l' = part l →
  ∀ k, part <$> layer mlp' k = part <$> layer mlp k.
Proof.
  intros Hs Hl Hp k. apply set_layer_Some in Hs as (_ & _ & _ & _ & _ & _ & Hl').
  rewrite Hl'. case_decide; [|done]. subst. rewrite Hl. simpl. by f_equal.
Qed.

Lemma part_eq {A} (part : Layer D → A) (m1 m2 : MLP D) k l1 l2 :
  part <$> layer m1 k = part <$> layer m2 k →
  layer m1 k = Some l1 → layer m2 k = Some l2 → part l1 = part l2.
Proof. intros H H1 H2. rewrite H1, H2 in H. by injection H. Qed.

(** The deltas of a hidden layer, from the layer after it. *)
Lemma hidden_delta_cells li l1 B n1 n2 :
  has_shape (deltas l1) B n2 → has_shape (weights l1) n2 n1 →
  has_shape (errors li) B n1 → has_shape (output li) n1 B →
  has_shape (deltas li) B n1 →
  ∃ e d,
    matrix_dot (deltas l1) (weights l1) (errors li) = Some e ∧
    (m ← matrix_transpose (output li) (deltas li);
     m ← matrix_apply m (activationDeriv li); matrix_odot m e) = Some d ∧
    has_shape e B n1 ∧ has_shape d B n1 ∧
    ∀ b j, 0 ≤ b < B → 0 ≤ j < n1 →
      MATRIX e b j = Some (dot_cell (deltas l1) (weights l1) b j) ∧
      MATRIX d b j = Some (activationDeriv li (cell (output li) j b) * cell e b j)%dbl.
Proof.
  intros Hd1 Hw1 He Ho Hdl.
  destruct (matrix_dot_cell_spec (deltas l1) (weights l1) (errors li) B n2 n1)
    as (e & Ee & Hes & Hec); [done..|].
  destruct (matrix_transpose_cell_spec (output li) (deltas li) n1 B)
    as (d1 & Ed1 & Hd1s & Hd1c); [done..|].
  exists e. rewrite Ee, Ed1. cbn [mbind option_bind].
  rewrite (matrix_apply_data d1 B n1) by done. cbn [mbind option_bind].
  pose proof Hd1s as (Hr1 & Hc1 & _ & _ & Hl1).
  pose proof Hes as (_ & Hce & _ & _ & Hle).
  assert (has_shape (with_data d1 (activationDeriv li <$> data d1)) B n1) as Hd2s.
  { apply has_shape_with_data; [done|]. by rewrite length_fmap. }
  rewrite (matrix_odot_data _ e B n1) by done.
  eexists. split; [done|]. split; [done|]. split; [done|]. split.
  - apply has_shape_with_data; [done|]. cbn [data with_data].
    rewrite length_zip_with, length_fmap. lia.
  - intros b j Hb Hj. split; [by apply Hec|].
    rewrite !MATRIX_with_data. cbn [columns data with_data].
    rewrite zget_zip_with, zget_fmap.
    pose proof (Hd1c j b Hj Hb) as Hx. unfold MATRIX in Hx. rewrite Hx.
    cbn [fmap option_fmap option_map mbind option_bind].
    pose proof (Hec b j Hb Hj) as Hy. unfold cell. rewrite Hy.
    unfold MATRIX in Hy. rewrite Hce in Hy. rewrite Hc1, Hy. done.
Qed.

(** The gradients of a layer, from its deltas and its input. *)
Lemma gradient_cells li (pin : Matrix D) B nin nout (v : D) :
  0 < B → has_shape pin nin B → has_shape (deltas li) B nout →
  has_shape (gradWeights li) nout nin → has_shape (gradBiases li) nout B →
  ∃ gw gb,
    (m ← matrix_dot_transpose pin (deltas li) (gradWeights li);
     matrix_divide m v) = Some gw ∧
    (m ← matrix_sum_rows_transpose (deltas li) (gradBiases li);
     matrix_divide m v) = Some gb ∧
    has_shape gw nout nin ∧ has_shape gb nout B ∧
    (∀ row col, 0 ≤ row < nout → 0 ≤ col < nin →
       MATRIX gw row col = Some (dot_cell pin (deltas li) col row / v)%dbl) ∧
    (∀ row col, 0 ≤ row < nout → 0 ≤ col < B →
       MATRIX gb row col = Some (column_sum (deltas li) row / v)%dbl).
Proof.
  intros HB Hpin Hdl Hgw Hgb.
  destruct (matrix_dot_transpose_cell_spec pin (deltas li) (gradWeights li)
              nin B nout) as (g1 & E1 & Hg1 & Hc1); [done..|].
  destruct (matrix_sum_rows_transpose_spec (deltas li) (gradBiases li) B nout B)
    as (b1 & E2 & Hb1 & Hc2); [done..|].
  rewrite E1, E2. cbn [mbind option_bind].
  rewrite (matrix_divide_data g1 nout nin), (matrix_divide_data b1 nout B) by done.
  eexists _, _. split; [done|]. split; [done|].
  pose proof Hg1 as (_ & Hcg & _). pose proof Hb1 as (_ & Hcb & _).
  split_and!.
  - apply has_shape_with_data; [done|]. by rewrite length_fmap.
  - apply has_shape_with_data; [done|]. by rewrite length_fmap.
  - intros row col Hrow Hcol. rewrite MATRIX_with_data, zget_fmap.
    pose proof (Hc1 row col Hrow Hcol) as Hx. unfold MATRIX in Hx.
    by rewrite Hx.
  - intros row col Hrow Hcol. rewrite MATRIX_with_data, zget_fmap.
    pose proof (Hc2 row col Hrow Hcol) as Hx. unfold MATRIX in Hx.
    by rewrite Hx.
Qed.

Lemma mlp_backpropagate_spec sz mlp (y : Matrix D) code :
  mlp_wf sz mlp → has_shape y (batchSize mlp) (sz (depth mlp + 1)) →
  ∃ loss mlp', mlp_backpropagate mlp y code = Some (loss, mlp') ∧
    mlp_wf sz mlp' ∧ depth mlp' = depth mlp ∧ batchSize mlp' = batchSize mlp ∧
    input mlp' = input mlp ∧ mlp_output mlp' = mlp_output mlp ∧
    (∀ k, forward_part <$> layer mlp' k = forward_part <$> layer mlp k) ∧
    (∀ i l l1, 0 ≤ i < depth mlp →
       layer mlp' i = Some l → layer mlp' (i + 1) = Some l1 →
       ∀ b j, 0 ≤ b < batchSize mlp → 0 ≤ j < sz (i + 1) →
         MATRIX (errors l) b j = Some (dot_cell (deltas l1) (weights l1) b j) ∧
         MATRIX (deltas l) b j =
           Some (activationDeriv l (cell (output l) j b) * cell (errors l) b j)%dbl) ∧
    (∀ l, layer mlp' 0 = Some l →
       ∀ b k, 0 ≤ b < batchSize mlp → 0 ≤ k < sz 0 →
         MATRIX (inputErrors mlp') b k =
           Some (dot_cell (deltas l) (weights l) b k)) ∧
    (∀ i l pin, layer mlp' i = Some l → deref mlp' (input_at i) = Some pin →
       (∀ row col, 0 ≤ row < sz (i + 1) → 0 ≤ col < sz i →
          MATRIX (gradWeights l) row col =
            Some (dot_cell pin (deltas l) col row / d_of_int (batchSize mlp))%dbl) ∧
       (∀ row col, 0 ≤ row < sz (i + 1) → 0 ≤ col < batchSize mlp →
          MATRIX (gradBiases l) row col =
            Some (column_sum (deltas l) row / d_of_int (batchSize mlp))%dbl)).
Proof.
  intros Hwf Hy. unfold mlp_backpropagate.
  pose proof Hwf as (Hd & HB & Hlen & Hls & Hin & Hie & Hout).
  destruct (layer_is_Some mlp (depth mlp)) as [l Hl]; [done|lia|].
  rewrite Hl. cbn [mbind option_bind].
  pose proof (Hls _ _ Hl) as (Hw & Hb & Ho & He & Hdl & Hgw & Hgb).
  destruct (getLossFunction_total code (mlp_output mlp) y (errors l) _ _
              Hout Hy He) as (loss & me & -> & Hme).
  cbn [mbind option_bind errors deltas activationDeriv set_errors].
  destruct (matrix_copy_total (deltas l) (mlp_output mlp) _ _ Hdl Hout)
    as (m1 & -> & Hm1). cbn [mbind option_bind].
  destruct (matrix_apply_total m1 (activationDeriv l) _ _ Hm1)
    as (m2 & -> & Hm2). cbn [mbind option_bind].
  assert (∃ m3, (if decide (depth mlp > 0) then matrix_odot m2 me else Some m2)
                = Some m3 ∧
                has_shape m3 (batchSize mlp) (sz (depth mlp + 1)))
    as (m3 & -> & Hm3).
  { case_decide; [|eauto]. by apply matrix_odot_total. }
  cbn [mbind option_bind].
  destruct (mlp_wf_set_layer sz mlp (depth mlp)
              (set_deltas (set_errors l me) m3) Hwf)
    as (mlp1 & Hset1 & Hwf1 & Hd1 & HB1 & Hin1 & Hie1 & Hout1 & Hl1);
    [lia|by split_and!|].
  rewrite Hset1. cbn [mbind option_bind].
  pose proof (set_layer_part forward_part mlp (depth mlp) l _ mlp1 Hset1 Hl
                eq_refl) as F1.
  (* the sweep towards the first layer *)
  match goal with |- context [for_down ?hi ?lo ?body ?s0] =>
    destruct (for_down_inv_idx (λ i mc,
      mlp_wf sz mc ∧ depth mc = depth mlp ∧ batchSize mc = batchSize mlp ∧
      input mc = input mlp ∧ inputErrors mc = inputErrors mlp ∧
      mlp_output mc = mlp_output mlp ∧
      (∀ k, forward_part <$> layer mc k = forward_part <$> layer mlp k) ∧
      (∀ k lk lk1, i < k < depth mlp →
         layer mc k = Some lk → layer mc (k + 1) = Some lk1 →
         ∀ b j, 0 ≤ b < batchSize mlp → 0 ≤ j < sz (k + 1) →
           MATRIX (errors lk) b j = Some (dot_cell (deltas lk1) (weights lk1) b j) ∧
           MATRIX (deltas lk) b j =
             Some (activationDeriv lk (cell (output lk) j b)
                   * cell (errors lk) b j)%dbl))
      body hi lo s0)
      as (mlp2 & -> & Hwf2 & Hd2 & HB2 & Hin2 & Hie2 & Hout2 & F2 & R2)
  end.
  { lia. }
  { split_and!; try congruence. intros k lk lk1 Hk. lia. }
  { intros i mc Hi (Hwfc & Hdc & HBc & Hinc & Hiec & Houtc & Fc & Rc).
    rewrite Hd1 in Hi.
    pose proof Hwfc as (_ & _ & Hlenc & Hlsc & _).
    destruct (layer_is_Some mc (i + 1)) as [l1 Hl1c]; [done|lia|].
    destruct (layer_is_Some mc i) as [li Hli]; [done|lia|].
    rewrite Hl1c, Hli. cbn [mbind option_bind].
    pose proof (Hlsc _ _ Hl1c) as (Hw1 & _ & _ & _ & Hdl1 & _).
    pose proof (Hlsc _ _ Hli) as (Hwi & Hbi & Hoi & Hei & Hdli & Hgwi & Hgbi).
    destruct (hidden_delta_cells li l1 (batchSize mc) (sz (i + 1)) (sz (i + 1 + 1)))
      as (e & d & Ee & Ed & Hes & Hds & Hcells); [done..|].
    rewrite Ee. cbn [mbind option_bind].
    change (output (set_errors li e)) with (output li).
    change (deltas (set_errors li e)) with (deltas li).
    change (activationDeriv (set_errors li e)) with (activationDeriv li).
    change (errors (set_errors li e)) with e.
    cbn [mbind option_bind] in Ed.
    destruct (matrix_transpose (output li) (deltas li)) as [t1|];
      cbn [mbind option_bind] in Ed |- *; [|discriminate Ed].
    destruct (matrix_apply t1 (activationDeriv li)) as [t2|];
      cbn [mbind option_bind] in Ed |- *; [|discriminate Ed].
    rewrite Ed. cbn [mbind option_bind].
    destruct (mlp_wf_set_layer sz mc i (set_deltas (set_errors li e) d) Hwfc)
      as (mc' & Hset & Hwf' & Hd' & HB' & Hin' & Hie' & Hout' & Hl');
      [lia|by split_and!|].
    rewrite Hset. eexists. split; [done|]. split_and!; try congruence.
    - intros k. rewrite (set_layer_part forward_part mc i li _ mc' Hset Hli eq_refl).
      apply Fc.
    - intros k lk lk1 Hk Hlk Hlk1 b j Hbb Hj.
      rewrite Hl' in Hlk, Hlk1. rewrite decide_False in Hlk1 by lia.
      destruct (decide (k = i)) as [->|].
      + injection Hlk as <-. rewrite Hl1c in Hlk1. injection Hlk1 as <-.
        cbn [errors deltas output activationDeriv set_deltas set_errors].
        rewrite <- HBc in Hbb. apply Hcells; done.
      + apply (Rc k lk lk1); [lia|done..]. }
  cbn [mbind option_bind].
  pose proof Hwf2 as (_ & _ & Hlen2 & Hls2 & _ & Hie2s & _).
  destruct (layer_is_Some mlp2 0) as [l0 Hl0]; [done|lia|].
  rewrite Hl0. cbn [mbind option_bind].
  pose proof (Hls2 _ _ Hl0) as (Hw0 & _ & _ & _ & Hdl0 & _).
  destruct (matrix_dot_cell_spec (deltas l0) (weights l0) (inputErrors mlp2)
              (batchSize mlp2) (sz (0 + 1)) (sz 0)) as (ie & -> & Hies & Hiec);
    [done..|]. cbn [mbind option_bind].
  pose proof (mlp_wf_set_inputErrors sz mlp2 ie Hwf2 Hies) as Hwf3.
  set (mlp3 := set_inputErrors mlp2 ie) in *.
  change (depth mlp3) with (depth mlp2).
  (* the gradients *)
  match goal with |- context [for_loop 0 ?n ?body ?s0] =>
    destruct (for_loop_inv (λ i '((mc, inp) : MLP D * InputPtr),
      mlp_wf sz mc ∧ depth mc = depth mlp ∧ batchSize mc = batchSize mlp ∧
      inp = input_at i ∧ input mc = input mlp ∧ inputErrors mc = ie ∧
      mlp_output mc = mlp_output mlp ∧
      (∀ k, forward_part <$> layer mc k = forward_part <$> layer mlp k) ∧
      (∀ k, backward_part <$> layer mc k = backward_part <$> layer mlp2 k) ∧
      (∀ k lk pin, 0 ≤ k < i → layer mc k = Some lk →
         deref mc (input_at k) = Some pin →
         (∀ row col, 0 ≤ row < sz (k + 1) → 0 ≤ col < sz k →
            MATRIX (gradWeights lk) row col =
              Some (dot_cell pin (deltas lk) col row
                    / d_of_int (batchSize mlp))%dbl) ∧
         (∀ row col, 0 ≤ row < sz (k + 1) → 0 ≤ col < batchSize mlp →
            MATRIX (gradBiases lk) row col =
              Some (column_sum (deltas lk) row / d_of_int (batchSize mlp))%dbl)))
      body 0 n s0)
    as ([mc inp] & Hloop & Hwfc & Hdc & HBc & _ & Hinc & Hiec' & Houtc & Fc & Bc & Gc);
      [lia| | |]
  end.
  - split_and!; try done. intros; lia.
  - intros i [mc inp] Hi (Hwfc & Hdc & HBc & -> & Hinc & Hiec' & Houtc & Fc & Bc & Gc).
    rewrite Hd2 in Hi.
    pose proof Hwfc as (_ & _ & Hlenc & Hlsc & _).
    destruct (layer_is_Some mc i) as [li Hli]; [done|lia|].
    rewrite Hli. cbn [mbind option_bind].
    destruct (deref_shape sz mc i Hwfc) as (pin & Hpin & Hpins); [lia|].
    rewrite Hpin. cbn [mbind option_bind].
    pose proof (Hlsc _ _ Hli) as (Hwi & Hbi & Hoi & Hei & Hdli & Hgwi & Hgbi).
    destruct (gradient_cells li pin (batchSize mc) (sz i) (sz (i + 1))
                (d_of_int (batchSize mc)))
      as (gw & gb & Egw & Egb & Hgws & Hgbs & Hcw & Hcb); [lia|done..|].
    cbn [mbind option_bind] in Egw, Egb.
    destruct (matrix_dot_transpose pin (deltas li) (gradWeights li)) as [t1|];
      cbn [mbind option_bind] in Egw |- *; [|discriminate Egw].
    rewrite Egw. cbn [mbind option_bind].
    change (deltas (set_gradWeights li gw)) with (deltas li).
    change (gradBiases (set_gradWeights li gw)) with (gradBiases li).
    destruct (matrix_sum_rows_transpose (deltas li) (gradBiases li)) as [t2|];
      cbn [mbind option_bind] in Egb |- *; [|discriminate Egb].
    rewrite Egb. cbn [mbind option_bind].
    destruct (mlp_wf_set_layer sz mc i
                (set_gradBiases (set_gradWeights li gw) gb) Hwfc)
      as (mc' & Hset & Hwf' & Hd' & HB' & Hin' & Hie' & Hout' & Hl');
      [lia|by split_and!|].
    rewrite Hset. cbn [mbind option_bind]. eexists. split; [done|].
    split_and!; try congruence.
    + by rewrite input_at_succ by lia.
    + intros k. rewrite (set_layer_part forward_part mc i li _ mc' Hset Hli eq_refl).
      apply Fc.
    + intros k. rewrite (set_layer_part backward_part mc i li _ mc' Hset Hli eq_refl).
      apply Bc.
    + intros k lk pk Hk Hlk Hpk.
      rewrite (deref_set_layer mc i _ mc' _ Hset) in Hpk
        by (apply input_at_below; lia).
      rewrite Hl' in Hlk. destruct (decide (k = i)) as [->|].
      * injection Hlk as <-. rewrite Hpin in Hpk. injection Hpk as <-.
        cbn [gradWeights gradBiases deltas set_gradWeights set_gradBiases].
        rewrite <- HBc. split; [apply Hcw|apply Hcb].
      * apply (Gc k lk pk); [lia|done..].
  - cbn [mbind option_bind] in Hloop |- *. rewrite Hloop.
    cbn [mbind option_bind].
    eexists _, _. split; [done|]. split_and!; try done.
    + intros i li li1 Hi Hli Hli1 b j Hb0 Hj.
      pose proof Hwf2 as (_ & _ & Hlen2' & _).
      destruct (layer_is_Some mlp2 i) as [l2 Hl2]; [done|lia|].
      destruct (layer_is_Some mlp2 (i + 1)) as [l21 Hl21]; [done|lia|].
      pose proof (part_eq backward_part _ _ _ _ _ (Bc i) Hli Hl2) as Hb2.
      pose proof (part_eq backward_part _ _ _ _ _ (Bc (i + 1)) Hli1 Hl21) as Hb21.
      assert (forward_part li = forward_part l2) as Hf2.
      { eapply (part_eq forward_part mc mlp2); [|done..].
        by rewrite Fc, F2. }
      assert (forward_part li1 = forward_part l21) as Hf21.
      { eapply (part_eq forward_part mc mlp2); [|done..].
        by rewrite Fc, F2. }
      unfold backward_part, forward_part in Hb2, Hb21, Hf2, Hf21.
      assert (errors li = errors l2) as -> by congruence.
      assert (deltas li = deltas l2) as -> by congruence.
      assert (output li = output l2) as -> by congruence.
      assert (activationDeriv li = activationDeriv l2) as -> by congruence.
      assert (deltas li1 = deltas l21) as -> by congruence.
      assert (weights li1 = weights l21) as -> by congruence.
      apply (R2 i l2 l21); [lia|done..].
    + intros l' Hl' b k Hb0 Hk.
      assert (forward_part l' = forward_part l0) as Hf0.
      { eapply (part_eq forward_part mc mlp2); [|done..].
        by rewrite Fc, F2. }
      pose proof (part_eq backward_part _ _ _ _ _ (Bc 0) Hl' Hl0) as Hb0'.
      unfold backward_part, forward_part in Hf0, Hb0'.
      assert (deltas l' = deltas l0) as -> by congruence.
      assert (weights l' = weights l0) as -> by congruence.
      rewrite Hiec'. apply Hiec; [lia|done].
    + intros i li pin Hli Hpin.
      apply (Gc i li pin); [|done..]. apply zget_Some in Hli.
      pose proof Hwfc as (_ & _ & Hlenc & _). lia.
Qed.

(** X18 ([mlp_backpropagate]): back-propagation through a network of
    consistent shapes, for targets of the shape of its output, stays inside
    every block and changes no weight, bias, layer output or activation
    function, nor the stored input and output.  Afterwards the errors of a
    hidden layer are the deltas of the next layer times its weights, its
    deltas are the activation derivative at its output times its errors, and
    the input errors are the deltas of layer 0 times its weights. *)
Theorem mlp_backpropagate_hidden_deltas sz mlp (y : Matrix D) code :
  mlp_wf sz mlp → has_shape y (batchSize mlp) (sz (depth mlp + 1)) →
  ∃ loss mlp', mlp_backpropagate mlp y code = Some (loss, mlp') ∧
    mlp_wf sz mlp' ∧
    input mlp' = input mlp ∧ mlp_output mlp' = mlp_output mlp ∧
    (∀ k, forward_part <$> layer mlp' k = forward_part <$> layer mlp k) ∧
    (∀ i l l1, 0 ≤ i < depth mlp →
       layer mlp' i = Some l → layer mlp' (i + 1) = Some l1 →
       ∀ b j, 0 ≤ b < batchSize mlp → 0 ≤ j < sz (i + 1) →
         MATRIX (errors l) b j = Some (dot_cell (deltas l1) (weights l1) b j) ∧
         MATRIX (deltas l) b j =
           Some (activationDeriv l (cell (output l) j b) * cell (errors l) b j)%dbl) ∧
    (∀ l, layer mlp' 0 = Some l →
       ∀ b k, 0 ≤ b < batchSize mlp → 0 ≤ k < sz 0 →
         MATRIX (inputErrors mlp') b k =
           Some (dot_cell (deltas l) (weights l) b k)).
Proof.
  intros Hwf Hy.
  destruct (mlp_backpropagate_spec sz mlp y code Hwf Hy)
    as (loss & mlp' & E & Hwf' & _ & _ & Hin & Hout & Hf & Hh & Hie & _).
  by exists loss, mlp'.
Qed.

(** X19 ([mlp_backpropagate]): the gradients that back-propagation stores.
    For every layer, cell [(row, col)] of the weight gradient is the sum over
    the batch of the input of the layer at [col] times the delta at [row],
    divided by the batch size, and every cell of row [row] of the bias
    gradient is the sum over the batch of the deltas at [row], divided by the
    batch size. *)
Theorem mlp_backpropagate_gradients sz mlp (y : Matrix D) code :
  mlp_wf sz mlp → has_shape y (batchSize mlp) (sz (depth mlp + 1)) →
  ∃ loss mlp', mlp_backpropagate mlp y code = Some (loss, mlp') ∧
    ∀ i l pin, layer mlp' i = Some l → deref mlp' (input_at i) = Some pin →
      (∀ row col, 0 ≤ row < sz (i + 1) → 0 ≤ col < sz i →
         MATRIX (gradWeights l) row col =
           Some (dot_cell pin (deltas l) col row / d_of_int (batchSize mlp))%dbl) ∧
      (∀ row col, 0 ≤ row < sz (i + 1) → 0 ≤ col < batchSize mlp →
         MATRIX (gradBiases l) row col =
           Some (column_sum (deltas l) row / d_of_int (batchSize mlp))%dbl).
Proof.
  intros Hwf Hy.
  destruct (mlp_backpropagate_spec sz mlp y code Hwf Hy)
    as (loss & mlp' & E & _ & _ & _ & _ & _ & _ & _ & _ & Hg).
  by exists loss, mlp'.
Qed.

End backward.

Lemma example_shapes (mlp : MLP float) :
  batchSize mlp = 2 → depth mlp = 1 →
  has_shape example_x (batchSize mlp) (layer_sizes 2 [2] 1 1 0) ∧
  has_shape example_y1 (batchSize mlp) (layer_sizes 2 [2] 1 1 (depth mlp + 1)).
Proof.
  intros -> ->. rewrite layer_sizes_0, layer_sizes_last by lia.
  unfold has_shape; simpl; lia.
Qed.

Lemma mlp_feedforward_layers_witness :
  match example_mlp1 with
  | Some mlp =>
      let sz := layer_sizes 2 [2] 1 1 in
      ∃ out mlp', mlp_feedforward mlp example_x = Some (out, mlp') ∧
        out = mlp_output mlp' ∧
        mlp_wf sz mlp' ∧ depth mlp' = depth mlp ∧ batchSize mlp' = batchSize mlp ∧
        inputErrors mlp' = inputErrors mlp ∧
        (∀ k l0, layer mlp k = Some l0 →
           ∃ l, layer mlp' k = Some l ∧ l = set_output l0 (output l)) ∧
        (∀ b k, 0 ≤ b < batchSize mlp → 0 ≤ k < sz 0 →
           MATRIX (input mlp') k b = Some (cell example_x b k)) ∧
        (∀ i l pin, layer mlp' i = Some l → deref mlp' (input_at i) = Some pin →
           ∀ row col, 0 ≤ row < sz (i + 1) → 0 ≤ col < batchSize mlp →
             MATRIX (output l) row col =
               Some (activation l (dot_cell (weights l) pin row col
                                   + cell (biases l) row col)%dbl)) ∧
        (∀ l, layer mlp' (depth mlp) = Some l →
           ∀ b j, 0 ≤ b < batchSize mlp → 0 ≤ j < sz (depth mlp + 1) →
             MATRIX out b j = Some (cell (output l) j b))
  | None => False
  end.
Proof.
  destruct example_mlp1_wf as (mlp & -> & Hwf & Hd & HB).
  destruct (example_shapes mlp HB Hd) as [Hx _].
  exact (mlp_feedforward_layers _ mlp example_x Hwf Hx).
Defined.

Lemma mlp_backpropagate_hidden_deltas_witness :
  match example_mlp1 with
  | Some mlp =>
      let sz := layer_sizes 2 [2] 1 1 in
      ∃ loss mlp', mlp_backpropagate mlp example_y1 LOSS_MSE = Some (loss, mlp') ∧
        mlp_wf sz mlp' ∧
        input mlp' = input mlp ∧ mlp_output mlp' = mlp_output mlp ∧
        (∀ k, forward_part <$> layer mlp' k = forward_part <$> layer mlp k) ∧
        (∀ i l l1, 0 ≤ i < depth mlp →
           layer mlp' i = Some l → layer mlp' (i + 1) = Some l1 →
           ∀ b j, 0 ≤ b < batchSize mlp → 0 ≤ j < sz (i + 1) →
             MATRIX (errors l) b j
               = Some (dot_cell (deltas l1) (weights l1) b j) ∧
             MATRIX (deltas l) b j =
               Some (activationDeriv l (cell (output l) j b)
                     * cell (errors l) b j)%dbl) ∧
        (∀ l, layer mlp' 0 = Some l →
           ∀ b k, 0 ≤ b < batchSize mlp → 0 ≤ k < sz 0 →
             MATRIX (inputErrors mlp') b k =
               Some (dot_cell (deltas l) (weights l) b k))
  | None => False
  end.
Proof.
  destruct example_mlp1_wf as (mlp & -> & Hwf & Hd & HB).
  destruct (example_shapes mlp HB Hd) as [_ Hy].
  exact (mlp_backpropagate_hidden_deltas _ mlp example_y1 LOSS_MSE Hwf Hy).
Defined.

Lemma mlp_backpropagate_gradients_witness :
  match example_mlp1 with
  | Some mlp =>
      let sz := layer_sizes 2 [2] 1 1 in
      ∃ loss mlp', mlp_backpropagate mlp example_y1 LOSS_MSE = Some (loss, mlp') ∧
        ∀ i l pin, layer mlp' i = Some l → deref mlp' (input_at i) = Some pin →
          (∀ row col, 0 ≤ row < sz (i + 1) → 0 ≤ col < sz i →
             MATRIX (gradWeights l) row col =
               Some (dot_cell pin (deltas l) col row
                     / d_of_int (batchSize mlp))%dbl) ∧
          (∀ row col, 0 ≤ row < sz (i + 1) → 0 ≤ col < batchSize mlp →
             MATRIX (gradBiases l) row col =
               Some (column_sum (deltas l) row / d_of_int (batchSize mlp))%dbl)
  | None => False
  end.
Proof.
  destruct example_mlp1_wf as (mlp & -> & Hwf & Hd & HB).
  destruct (example_shapes mlp HB Hd) as [_ Hy].
  exact (mlp_backpropagate_gradients _ mlp example_y1 LOSS_MSE Hwf Hy).
Defined.

Section adam_frame.
Context {D : Type} `{!Scalar D}.
Implicit Types mlp : MLP D.
Implicit Types adam : Adam D.

Lemma adam_optimize_frame mlp adam mlp' adam' :
  adam_optimize mlp adam = Some (mlp', adam') →
  t adam' = (t adam + d_of_int 1)%dbl ∧
  alpha adam' = alpha adam ∧ beta1 adam' = beta1 adam ∧
  beta2 adam' = beta2 adam ∧ epsilon adam' = epsilon adam ∧
  beta1t adam' = (beta1t adam * beta1 adam)%dbl ∧
  beta2t adam' = (beta2t adam * beta2 adam)%dbl ∧
  input mlp' = input mlp ∧ inputErrors mlp' = inputErrors mlp ∧
  mlp_output mlp' = mlp_output mlp ∧
  ∀ k, non_parameters <$> layer mlp' k = non_parameters <$> layer mlp k.
Proof.
  unfold adam_optimize. intros H. cbv zeta in H.
  destruct (for_loop 0 _ _ _) as [[[[[mlpF mws] mbs] vws] vbs]|] eqn:Hloop;
    [|done].
  cbn [mbind option_bind] in H. injection H as <- <-. cbn.
  do 7 (split; [done|]).
  apply (for_loop_preserves
           (λ s : MLP D * list (Matrix D) * list (Matrix D) *
                  list (Matrix D) * list (Matrix D),
              input s.1.1.1.1 = input mlp ∧
              inputErrors s.1.1.1.1 = inputErrors mlp ∧
              mlp_output s.1.1.1.1 = mlp_output mlp ∧
              ∀ k, non_parameters <$> layer s.1.1.1.1 k
                   = non_parameters <$> layer mlp k)) in Hloop;
    [done|done|].
  intros j [[[[s ?] ?] ?] ?] [[[[s' ?] ?] ?] ?] _ (Hi & Hie & Ho & Hl) Hb.
  cbn [fst snd] in *.
  destruct (layer s j) as [lj|] eqn:Hlj; [|done]. cbn [mbind option_bind] in Hb.
  repeat bind_step Hb.
  match goal with
  | E : set_layer _ _ _ = Some _ |- _ =>
      apply set_layer_Some in E as (_ & _ & ? & ? & ? & _ & Hset)
  end.
  subst s'. split_and!; [congruence..|].
  intros k. rewrite Hset, <- Hl. case_decide; [subst k|done].
  by rewrite Hlj.
Qed.

(** X20 ([adam_optimize]): one optimizer step on a network and an optimizer
    of consistent shapes stays inside every block and keeps the shapes.  It
    adds one to the step counter, multiplies the two running powers by
    [beta1] and [beta2], keeps the hyper-parameters, and changes nothing in
    the network but weights and biases: gradients, outputs, errors and
    deltas are as before. *)
Theorem adam_optimize_step sz mlp adam :
  mlp_wf sz mlp → adam_wf sz (batchSize mlp) (depth mlp) adam →
  ∃ mlp' adam', adam_optimize mlp adam = Some (mlp', adam') ∧
    mlp_wf sz mlp' ∧ adam_wf sz (batchSize mlp) (depth mlp) adam' ∧
    t adam' = (t adam + d_of_int 1)%dbl ∧
    alpha adam' = alpha adam ∧ beta1 adam' = beta1 adam ∧
    beta2 adam' = beta2 adam ∧ epsilon adam' = epsilon adam ∧
    beta1t adam' = (beta1t adam * beta1 adam)%dbl ∧
    beta2t adam' = (beta2t adam * beta2 adam)%dbl ∧
    input mlp' = input mlp ∧ inputErrors mlp' = inputErrors mlp ∧
    mlp_output mlp' = mlp_output mlp ∧
    ∀ k, non_parameters <$> layer mlp' k = non_parameters <$> layer mlp k.
Proof.
  intros Hwf Ha.
  destruct (adam_optimize_total sz mlp adam Hwf Ha)
    as (mlp' & adam' & E & Hwf' & _ & _ & Ha').
  exists mlp', adam'. split; [done|]. split; [done|]. split; [done|].
  by apply adam_optimize_frame.
Qed.

End adam_frame.

(** ** A zero gradient in binary64 *)

Lemma is_zero_zero_or_nan x : is_zero x = true → zero_or_nan x.
Proof.
  unfold is_zero, zero_or_nan. rewrite FloatAxioms.eqb_spec.
  change (Prim2SF zero) with (S754_zero false).
  by destruct (Prim2SF x) as [s| | |s m e]; try destruct s.
Qed.

Lemma zero_or_nan_mul_l x y : zero_or_nan x → zero_or_nan (x * y)%float.
Proof.
  unfold zero_or_nan. rewrite mul_spec.
  by destruct (Prim2SF x), (Prim2SF y).
Qed.

Lemma zero_or_nan_mul_r x y : zero_or_nan x → zero_or_nan (y * x)%float.
Proof.
  unfold zero_or_nan. rewrite mul_spec.
  by destruct (Prim2SF x), (Prim2SF y).
Qed.

Lemma zero_or_nan_add x y :
  zero_or_nan x → zero_or_nan y → zero_or_nan (x + y)%float.
Proof.
  unfold zero_or_nan. rewrite add_spec.
  destruct (Prim2SF x) as [[]| | |], (Prim2SF y) as [[]| | |]; done.
Qed.

Lemma zero_or_nan_div x y : zero_or_nan x → zero_or_nan (x / y)%float.
Proof.
  unfold zero_or_nan. rewrite div_spec.
  by destruct (Prim2SF x), (Prim2SF y).
Qed.

Lemma zero_or_nan_sqrt x : zero_or_nan x → zero_or_nan (sqrt x).
Proof.
  unfold zero_or_nan. rewrite sqrt_spec. by destruct (Prim2SF x).
Qed.

Lemma nan_div x y :
  zero_or_nan x → zero_or_nan y → Prim2SF (x / y)%float = S754_nan.
Proof.
  unfold zero_or_nan. rewrite div_spec.
  by destruct (Prim2SF x), (Prim2SF y).
Qed.

Lemma nan_add_l x y : Prim2SF x = S754_nan → Prim2SF (x + y)%float = S754_nan.
Proof. intros Hx. rewrite add_spec, Hx. by destruct (Prim2SF y). Qed.

Lemma nan_mul_r x y : Prim2SF x = S754_nan → Prim2SF (y * x)%float = S754_nan.
Proof. intros Hx. rewrite mul_spec, Hx. by destruct (Prim2SF y). Qed.

Lemma nan_sub_r x y : Prim2SF x = S754_nan → Prim2SF (y - x)%float = S754_nan.
Proof. intros Hx. rewrite sub_spec, Hx. by destruct (Prim2SF y). Qed.

Lemma is_nan_Prim2SF x : Prim2SF x = S754_nan → is_nan x = true.
Proof. intros Hx. unfold is_nan. by rewrite FloatAxioms.eqb_spec, Hx. Qed.

Lemma spec_adam_bias_nan libm_exp libm_pow (adam : Adam float) (b m v g : float) :
  is_zero g = true → is_zero m = true → is_zero v = true →
  is_nan (spec_adam_bias (Scalar0 := binary64 libm_exp libm_pow) adam b m v g) = true.
Proof.
  intros Hg Hm Hv. apply is_zero_zero_or_nan in Hg, Hm, Hv.
  apply is_nan_Prim2SF. unfold spec_adam_bias, spec_adam_m, spec_adam_v.
  cbn [d_of_int dadd dsub dmul ddiv dsqrt binary64].
  apply nan_sub_r, nan_mul_r, nan_add_l, nan_div.
  - apply zero_or_nan_div, zero_or_nan_add.
    + by apply zero_or_nan_mul_r.
    + by apply zero_or_nan_mul_r.
  - apply zero_or_nan_sqrt, zero_or_nan_div, zero_or_nan_add.
    + by apply zero_or_nan_mul_r.
    + by apply zero_or_nan_mul_r.
Qed.

(** X22 ([adam_optimize]): in binary64 a bias whose gradient and whose two
    moments are zero is turned into a NaN, for every value of the bias and of
    the hyper-parameters: the update divides the zero first moment by the
    square root of the zero second moment before it adds [epsilon]. *)
Theorem adam_bias_zero_gradient_is_nan libm_exp libm_pow
    (adam : Adam float) (gb : Matrix float) idx (mbd vbd bd : list float)
    (g m v b : float) :
  zget (data gb) idx = Some g → zget mbd idx = Some m →
  zget vbd idx = Some v → zget bd idx = Some b →
  is_zero g = true → is_zero m = true → is_zero v = true →
  ∃ mbd' vbd' bd' b',
    adam_bias_step (Scalar0 := binary64 libm_exp libm_pow) adam gb idx
      (mbd, vbd, bd) = Some (mbd', vbd', bd') ∧
    zget bd' idx = Some b' ∧ is_nan b' = true.
Proof.
  intros Hg Hm Hv Hb Hzg Hzm Hzv.
  rewrite adam_bias_step_eq, Hg, Hm, Hv, Hb. cbn [mbind option_bind].
  apply zget_Some in Hm, Hv. pose proof (zget_Some _ _ _ Hb) as Hbl.
  rewrite !zset_lt by done. cbn [mbind option_bind].
  eexists _, _, _, _. split; [done|]. split.
  - apply zget_zset_eq with (l := bd). by apply zset_lt.
  - by apply spec_adam_bias_nan.
Qed.

Lemma adam_bias_zero_gradient_is_nan_witness :
  let adam := mkAdam 0%float 0.5%float 0.5%float 0.5%float 0.5%float 0.5%float
                0.125%float 1 [] [] [] [] in
  ∃ mbd' vbd' bd' b',
    adam_bias_step (Scalar0 := run64) adam (mkMatrix 1 1 [0%float]) 0
      ([0%float], [0%float], [2%float]) = Some (mbd', vbd', bd') ∧
    zget bd' 0 = Some b' ∧ is_nan b' = true.
Proof.
  intros adam.
  apply (adam_bias_zero_gradient_is_nan series_exp square_pow adam
           (mkMatrix 1 1 [0%float]) 0 [0%float] [0%float] [2%float]
           0%float 0%float 0%float 2%float); reflexivity.
Defined.

Lemma zero_or_nan_sub w u :
  zero_or_nan u → is_nan (w - u)%float = true ∨ (w - u =? w)%float = true.
Proof.
  unfold zero_or_nan. intros Hu.
  destruct (Prim2SF u) as [su| | |] eqn:Eu; try done.
  - destruct (Prim2SF w) as [sw|sw| |sw m e] eqn:Ew.
    + right. rewrite FloatAxioms.eqb_spec, sub_spec, Eu, Ew.
      by destruct sw, su.
    + right. rewrite FloatAxioms.eqb_spec, sub_spec, Eu, Ew. by destruct sw.
    + left. apply is_nan_Prim2SF. by rewrite sub_spec, Ew.
    + right. rewrite FloatAxioms.eqb_spec, sub_spec, Eu, Ew.
      change (SF64sub (S754_finite sw m e) (S754_zero su))
        with (S754_finite sw m e).
      unfold SFeqb. by rewrite SFcompare_refl.
  - left. by apply is_nan_Prim2SF, nan_sub_r.
Qed.

Lemma spec_adam_weight_zero libm_exp libm_pow (adam : Adam float) (w m v g : float) :
  is_zero g = true → is_zero m = true → is_zero v = true →
  let w' := spec_adam_weight (Scalar0 := binary64 libm_exp libm_pow) adam w m v g in
  is_nan w' = true ∨ (w' =? w)%float = true.
Proof.
  intros Hg Hm Hv. apply is_zero_zero_or_nan in Hg, Hm, Hv.
  unfold spec_adam_weight, spec_adam_m, spec_adam_v.
  cbn [d_of_int dadd dsub dmul ddiv dsqrt binary64].
  apply zero_or_nan_sub, zero_or_nan_mul_r, zero_or_nan_div, zero_or_nan_div.
  apply zero_or_nan_add; by apply zero_or_nan_mul_r.
Qed.

(** X21 ([adam_optimize]): in binary64, for every libm and every value of the
    hyper-parameters, the step of a weight whose gradient and whose two
    moments are zero stays inside the blocks and stores a weight that
    compares equal to the old one, or a NaN: the update that is subtracted
    is a zero or a NaN. *)
Theorem adam_weight_zero_gradient libm_exp libm_pow
    (adam : Adam float) (gw : Matrix float) idx (mwd vwd wd : list float)
    (g m v w : float) :
  zget (data gw) idx = Some g → zget mwd idx = Some m →
  zget vwd idx = Some v → zget wd idx = Some w →
  is_zero g = true → is_zero m = true → is_zero v = true →
  ∃ mwd' vwd' wd' w',
    adam_weight_step (Scalar0 := binary64 libm_exp libm_pow) adam gw idx
      (mwd, vwd, wd) = Some (mwd', vwd', wd') ∧
    zget wd' idx = Some w' ∧
    (is_nan w' = true ∨ (w' =? w)%float = true).
Proof.
  intros Hg Hm Hv Hw Hzg Hzm Hzv.
  rewrite adam_weight_step_eq, Hg, Hm, Hv, Hw. cbn [mbind option_bind].
  apply zget_Some in Hm, Hv. pose proof (zget_Some _ _ _ Hw) as Hwl.
  rewrite !zset_lt by done. cbn [mbind option_bind].
  eexists _, _, _, _. split; [done|]. split.
  - apply zget_zset_eq with (l := wd). by apply zset_lt.
  - by apply spec_adam_weight_zero.
Qed.

Lemma adam_weight_zero_gradient_witness :
  let adam := mkAdam 0%float 0.5%float 0.5%float 0.5%float 0.5%float 0.5%float
                0.125%float 1 [] [] [] [] in
  ∃ mwd' vwd' wd' w',
    adam_weight_step (Scalar0 := run64) adam (mkMatrix 1 1 [0%float]) 0
      ([0%float], [0%float], [2%float]) = Some (mwd', vwd', wd') ∧
    zget wd' 0 = Some w' ∧
    (is_nan w' = true ∨ (w' =? 2)%float = true).
Proof.
  intros adam.
  apply (adam_weight_zero_gradient series_exp square_pow adam
           (mkMatrix 1 1 [0%float]) 0 [0%float] [0%float] [2%float]
           0%float 0%float 0%float 2%float); reflexivity.
Defined.

Lemma adam_optimize_step_witness :
  match example_optimizer with
  | Some (mlp, adam) =>
      ∃ mlp' adam', adam_optimize mlp adam = Some (mlp', adam') ∧
        mlp_wf (layer_sizes 2 [2] 1 1) mlp' ∧
        adam_wf (layer_sizes 2 [2] 1 1) (batchSize mlp) (depth mlp) adam' ∧
        t adam' = (t adam + d_of_int 1)%dbl ∧
        alpha adam' = alpha adam ∧ beta1 adam' = beta1 adam ∧
        beta2 adam' = beta2 adam ∧ epsilon adam' = epsilon adam ∧
        beta1t adam' = (beta1t adam * beta1 adam)%dbl ∧
        beta2t adam' = (beta2t adam * beta2 adam)%dbl ∧
        input mlp' = input mlp ∧ inputErrors mlp' = inputErrors mlp ∧
        mlp_output mlp' = mlp_output mlp ∧
        ∀ k, non_parameters <$> layer mlp' k = non_parameters <$> layer mlp k
  | None => False
  end.
Proof.
  destruct example_optimizer_wf as (mlp & adam & -> & Hwf & Hd & HB & Ha).
  apply (adam_optimize_step (layer_sizes 2 [2] 1 1)); [done|].
  by rewrite Hd, HB.
Defined.

Section action.
Context {D : Type} `{!Scalar D}.
Implicit Types ddpg : DDPG D.

Lemma ddpg_create_noise heap iheap g S A nz aD aL cD cL M B ddpg g' :
  ddpg_create heap iheap g S A nz aD aL cD cL M B = Some (ddpg, g') →
  is_Some (noise ddpg) ↔ is_Some nz.
Proof.
  intros H. unfold ddpg_create in H.
  destruct nz as [src|]; cbn [mbind option_bind] in H.
  - destruct (for_loop 0 A _ _) as [d|]; [|done]. simpl in H.
    repeat bind_step H. subst ddpg. simpl. split; by eexists.
  - simpl in H. repeat bind_step H. subst ddpg. simpl.
    split; intros []; done.
Qed.

Lemma ddpg_action_no_noise_spec ddpg g state ddpg' g' :
  noise ddpg = None →
  has_shape (actorInput ddpg) (ddpg_batchSize ddpg) (stateSize ddpg) →
  0 ≤ actionSize ddpg →
  ddpg_action ddpg g state = Some (ddpg', g') →
  g' = g ∧
  (∃ out, mlp_feedforward (actor ddpg) (actorInput ddpg')
          = Some (out, actor ddpg')) ∧
  has_shape (actorInput ddpg') (ddpg_batchSize ddpg) (stateSize ddpg) ∧
  (∀ col, 0 ≤ col < stateSize ddpg →
     MATRIX (actorInput ddpg') 0 col = zget state col) ∧
  (∀ row col, 1 ≤ row < ddpg_batchSize ddpg → 0 ≤ col < stateSize ddpg →
     MATRIX (actorInput ddpg') row col = Some (d_of_int 0)) ∧
  length (action ddpg') = length (action ddpg) ∧
  (∀ i, 0 ≤ i < actionSize ddpg →
     is_Some (zget (action ddpg') i) ∧
     zget (action ddpg') i = MATRIX (mlp_output (actor ddpg')) 0 i).
Proof.
  intros Hnz Hin HA H. unfold ddpg_action in H.
  rewrite (matrix_clear_data _ _ _ Hin) in H. cbn [mbind option_bind] in H.
  destruct (ddpg_data_copy _ 0 state 0 _) as [d|] eqn:Hd; [|done].
  cbn [mbind option_bind] in H.
  apply ddpg_data_copy_Some in Hd as (Hlen & Hsrc & Hd).
  cbn [data with_data] in Hlen, Hd. rewrite length_fmap in Hlen.
  destruct (mlp_feedforward _ _) as [[out a]|] eqn:Hff; [|done].
  cbn [mbind option_bind] in H.
  destruct (for_loop 0 _ _ _) as [[act gF]|] eqn:Hloop; [|done].
  cbn [mbind option_bind] in H. injection H as <- <-.
  simpl in Hff, Hloop |- *. rewrite Hnz in Hloop.
  apply (for_loop_inv_Some
           (λ i '((act, gi) : list D * Rand),
              gi = g ∧ length act = length (action ddpg) ∧
              ∀ k, 0 ≤ k < i →
                is_Some (zget act k) ∧ zget act k = MATRIX (mlp_output a) 0 k))
    in Hloop; [| done | split_and!; [done|done|intros; lia] |].
  - destruct Hloop as (-> & Hla & Hact). pose proof Hin as (Hr & Hc & ? & ? & Hl).
    split_and!; try done.
    + by eexists.
    + apply has_shape_with_data;
        [|cbn [data with_data]; by rewrite length_fmap].
      by apply (has_shape_with_data _ _ _ _ Hin), length_fmap.
    + intros col Hcol. rewrite MATRIX_with_data. cbn [columns with_data].
      rewrite Hd, decide_True by lia. f_equal. lia.
    + intros row col Hrow Hcol. rewrite MATRIX_with_data. cbn [columns with_data].
      rewrite Hd, decide_False, zget_fmap by nia.
      destruct (zget_is_Some (data (actorInput ddpg)) (row * columns (actorInput ddpg) + col))
        as [x ->]; [nia|done].
  - intros j [act0 gj] [act' gj'] Hj (-> & Hla & Hact) Hb.
    destruct (MATRIX (mlp_output a) 0 j) as [x|] eqn:Hx; [|done].
    cbn [mbind option_bind] in Hb.
    destruct (zset act0 j x) as [act1|] eqn:Hset; [|done].
    cbn [mbind option_bind] in Hb. injection Hb as <- <-.
    split; [done|]. split; [by rewrite (zset_length _ _ _ _ Hset)|].
    intros k Hk. rewrite (zget_zset _ _ _ _ _ Hset). case_decide.
    + subst k. by rewrite Hx.
    + apply Hact. lia.
Qed.

(** X23 ([ddpg_action]): without noise the call draws no random number.  It
    clears the actor's input batch, writes the state into row 0, runs the
    actor on that batch, and the action it stores is row 0 of the actor's
    output. *)
Theorem ddpg_action_no_noise sa sc ddpg g (state : list D) :
  ddpg_wf sa sc ddpg → rand_ok g →
  stateSize ddpg ≤ Z.of_nat (length state) →
  noise ddpg = None →
  ∃ ddpg' out,
    ddpg_action ddpg g state = Some (ddpg', g) ∧ ddpg_wf sa sc ddpg' ∧
    mlp_feedforward (actor ddpg) (actorInput ddpg') = Some (out, actor ddpg') ∧
    (∀ col, 0 ≤ col < stateSize ddpg →
       MATRIX (actorInput ddpg') 0 col = zget state col) ∧
    (∀ row col, 1 ≤ row < ddpg_batchSize ddpg → 0 ≤ col < stateSize ddpg →
       MATRIX (actorInput ddpg') row col = Some (d_of_int 0)) ∧
    length (action ddpg') = length (action ddpg) ∧
    (∀ i, 0 ≤ i < actionSize ddpg →
       is_Some (zget (action ddpg') i) ∧
       zget (action ddpg') i = MATRIX (mlp_output (actor ddpg')) 0 i).
Proof.
  intros Hwf Hg Hs Hnz.
  destruct (ddpg_action_total sa sc ddpg g state Hwf Hg Hs)
    as (ddpg' & g' & Heq & Hwf' & _).
  pose proof (wf_replay _ _ _ Hwf) as (_ & HA & _).
  destruct (ddpg_action_no_noise_spec ddpg g state ddpg' g' Hnz
              (wf_actorInput _ _ _ Hwf) HA Heq)
    as (-> & [out Hff] & _ & Hrow0 & Hrows & Hlen & Hact).
  by exists ddpg', out.
Qed.

End action.

(** The value that the two clip tests of [ddpg_action] leave: neither
    [a > 1] nor [a < -1] holds, so [a] is in [[-1, 1]] or is a NaN. *)
Lemma clip_tests (a : float) :
  (1 <? a)%float = false → (a <? -1)%float = false →
  (1 <? a)%float = false ∧ (a <? -1)%float = false ∧
  (is_nan a = false → (-1 <=? a)%float = true ∧ (a <=? 1)%float = true).
Proof.
  intros H1 H2. split; [done|]. split; [done|]. intros Hn.
  split; by apply not_ltb_leb.
Qed.

Lemma ddpg_action_noise_spec libm_exp libm_pow (ddpg : DDPG float) g state ddpg' g' :
  is_Some (noise ddpg) → 0 ≤ actionSize ddpg →
  ddpg_action (Scalar0 := binary64 libm_exp libm_pow) ddpg g state
    = Some (ddpg', g') →
  rand_pos g' = (rand_pos g + Z.to_nat (actionSize ddpg))%nat ∧
  ∀ i, 0 ≤ i < actionSize ddpg →
    ∃ a, zget (action ddpg') i = Some a ∧
      (1 <? a)%float = false ∧ (a <? -1)%float = false ∧
      (is_nan a = false → (-1 <=? a)%float = true ∧ (a <=? 1)%float = true).
Proof.
  intros [nz Hnz] HA H. unfold ddpg_action in H.
  destruct (matrix_clear _) as [m|]; [|done]. cbn [mbind option_bind] in H.
  destruct (ddpg_data_copy _ 0 state 0 _) as [d|]; [|done].
  cbn [mbind option_bind] in H.
  destruct (mlp_feedforward _ _) as [[out a]|]; [|done].
  cbn [mbind option_bind] in H.
  destruct (for_loop 0 _ _ _) as [[act gF]|] eqn:Hloop; [|done].
  cbn [mbind option_bind] in H. injection H as <- <-.
  simpl in Hloop |- *. rewrite Hnz in Hloop.
  apply (for_loop_inv_Some
           (λ i '((act, gi) : list float * Rand),
              rand_pos gi = (rand_pos g + Z.to_nat i)%nat ∧
              ∀ k, 0 ≤ k < i →
                ∃ x, zget act k = Some x ∧
                  (1 <? x)%float = false ∧ (x <? -1)%float = false ∧
                  (is_nan x = false →
                     (-1 <=? x)%float = true ∧ (x <=? 1)%float = true)))
    in Hloop; [done | done | split; [simpl; lia|intros; lia] |].
  intros j [act0 gj] [act' gj'] Hj (Hpos & Hact) Hb.
  destruct (MATRIX (mlp_output a) 0 j) as [x|]; [|done].
  cbn [mbind option_bind] in Hb.
  destruct (zset act0 j x) as [act1|] eqn:Hset1; [|done].
  cbn [mbind option_bind] in Hb.
  destruct (zget nz j) as [n|]; [|done]. cbn [mbind option_bind] in Hb.
  unfold deepc_random_double, rand in Hb.
  destruct (zget act1 j) as [x1|]; [|done]. cbn [mbind option_bind] in Hb.
  destruct (zset act1 j _) as [act2|] eqn:Hset2; [|done].
  cbn [mbind option_bind] in Hb.
  destruct (zget act2 j) as [x2|] eqn:Hx2; [|done].
  cbn [mbind option_bind] in Hb.
  assert (∀ k, k ≠ j → zget act2 k = zget act0 k) as Hother.
  { intros k Hk. rewrite (zget_zset_ne _ _ _ _ _ Hset2 Hk).
    by apply (zget_zset_ne _ _ _ _ _ Hset1). }
  assert (rand_pos gj' = (rand_pos g + Z.to_nat (j + 1))%nat ∧
          (∀ k, k ≠ j → zget act' k = zget act0 k) ∧
          ∃ y, zget act' j = Some y ∧
            (1 <? y)%float = false ∧ (y <? -1)%float = false ∧
            (is_nan y = false →
               (-1 <=? y)%float = true ∧ (y <=? 1)%float = true))
    as (Hp & Ho & Hy).
  { cbn [dltb d_of_int binary64] in Hb.
    change (float_of_int 1) with 1%float in Hb.
    change (float_of_int (-1)) with (-1)%float in Hb.
    destruct (1 <? x2)%float eqn:Hgt.
    - destruct (zset act2 j 1%float) as [act3|] eqn:Hset3; [|done].
      cbn [mbind option_bind] in Hb. injection Hb as <- <-. split_and!.
      + simpl. lia.
      + intros k Hk. rewrite (zget_zset_ne _ _ _ _ _ Hset3 Hk). by apply Hother.
      + exists 1%float. split; [by apply (zget_zset_eq _ _ _ _ Hset3)|].
        by apply clip_tests.
    - destruct (x2 <? -1)%float eqn:Hlt.
      + destruct (zset act2 j (-1)%float) as [act3|] eqn:Hset3; [|done].
        cbn [mbind option_bind] in Hb. injection Hb as <- <-. split_and!.
        * simpl. lia.
        * intros k Hk. rewrite (zget_zset_ne _ _ _ _ _ Hset3 Hk). by apply Hother.
        * exists (-1)%float. split; [by apply (zget_zset_eq _ _ _ _ Hset3)|].
          by apply clip_tests.
      + injection Hb as <- <-. split_and!.
        * simpl. lia.
        * done.
        * exists x2. split; [done|]. by apply clip_tests. }
  split; [done|]. intros k Hk. destruct (decide (k = j)) as [->|Hne]; [done|].
  rewrite Ho by done. apply Hact. lia.
Qed.

(** X24 ([ddpg_action]): with noise, on binary64 and with any libm, the call
    draws exactly one random number for each component of the action, and
    for every component [a] that it stores both clip tests, [a > 1] and
    [a < -1], are false.  A stored component that is a number therefore lies
    in [[-1, 1]]; the tests do not exclude a NaN. *)
Theorem ddpg_action_noise_clipped libm_exp libm_pow sa sc
    (ddpg : DDPG float) g (state : list float) :
  ddpg_wf sa sc ddpg → rand_ok g →
  stateSize ddpg ≤ Z.of_nat (length state) →
  is_Some (noise ddpg) →
  ∃ ddpg' g',
    ddpg_action (Scalar0 := binary64 libm_exp libm_pow) ddpg g state
      = Some (ddpg', g') ∧
    rand_pos g' = (rand_pos g + Z.to_nat (actionSize ddpg))%nat ∧
    ∀ i, 0 ≤ i < actionSize ddpg →
      ∃ a, zget (action ddpg') i = Some a ∧
        (1 <? a)%float = false ∧ (a <? -1)%float = false ∧
        (is_nan a = false → (-1 <=? a)%float = true ∧ (a <=? 1)%float = true).
Proof.
  intros Hwf Hg Hs Hnz.
  destruct (ddpg_action_total (Scalar0 := binary64 libm_exp libm_pow)
              sa sc ddpg g state Hwf Hg Hs)
    as (ddpg' & g' & Heq & _).
  pose proof (wf_replay _ _ _ Hwf) as (_ & HA & _).
  exists ddpg', g'. split; [done|].
  by apply (ddpg_action_noise_spec libm_exp libm_pow ddpg g state).
Qed.

Lemma ddpg_action_noise_clipped_witness :
  match ddpg_create (Scalar0 := run64) example_heap (λ _, 0) example_rand
          2 1 (Some [0.5%float]) 1 [2] 1 [2] 4 2 with
  | Some (ddpg, g) =>
      ∃ ddpg' g',
        ddpg_action (Scalar0 := run64) ddpg g [1; 2]%float
          = Some (ddpg', g') ∧
        rand_pos g' = (rand_pos g + Z.to_nat (actionSize ddpg))%nat ∧
        ∀ i, 0 ≤ i < actionSize ddpg →
          ∃ a, zget (action ddpg') i = Some a ∧
            (1 <? a)%float = false ∧ (a <? -1)%float = false ∧
            (is_nan a = false →
               (-1 <=? a)%float = true ∧ (a <=? 1)%float = true)
  | None => False
  end.
Proof.
  destruct (ddpg_create_total (Scalar0 := run64) example_heap (λ _, 0)
              example_rand 2 1 (Some [0.5%float]) 1 [2] 1 [2] 4 2)
    as ([ddpg g] & Hc & Hwf & Hg & HS & _);
    [lia|lia|lia|lia|by apply sizes_ok_one|by apply sizes_ok_one|
     by intros src [= <-]|apply example_rand_ok|].
  rewrite Hc. cbn [fst snd] in Hwf, Hg, HS.
  apply (ddpg_action_noise_clipped series_exp square_pow _ _ ddpg g
           [1; 2]%float Hwf Hg).
  - rewrite HS. simpl. lia.
  - by apply (ddpg_create_noise _ _ _ _ _ _ _ _ _ _ _ _ _ _ Hc).
Defined.

Lemma ddpg_action_no_noise_witness :
  let state := [0.5; 0.25]%float in
  match ddpg_create (Scalar0 := run64) example_heap (λ _, 0) example_rand
          2 1 None 1 [2] 1 [2] 4 2 with
  | Some (ddpg, g) =>
      ∃ ddpg' out,
        ddpg_action ddpg g state = Some (ddpg', g) ∧
        ddpg_wf (layer_sizes 2 [2] 1 1) (layer_sizes (1 + 2) [2] 1 1) ddpg' ∧
        mlp_feedforward (actor ddpg) (actorInput ddpg')
          = Some (out, actor ddpg') ∧
        (∀ col, 0 ≤ col < stateSize ddpg →
           MATRIX (actorInput ddpg') 0 col = zget state col) ∧
        (∀ row col, 1 ≤ row < ddpg_batchSize ddpg → 0 ≤ col < stateSize ddpg →
           MATRIX (actorInput ddpg') row col = Some (d_of_int 0)) ∧
        length (action ddpg') = length (action ddpg) ∧
        (∀ i, 0 ≤ i < actionSize ddpg →
           is_Some (zget (action ddpg') i) ∧
           zget (action ddpg') i = MATRIX (mlp_output (actor ddpg')) 0 i)
  | None => False
  end.
Proof.
  intros state.
  destruct (ddpg_create_total example_heap (λ _, 0) example_rand
              2 1 None 1 [2] 1 [2] 4 2)
    as ([ddpg g] & Hc & Hwf & Hg & HS & _);
    [lia|lia|lia|lia|by apply sizes_ok_one|by apply sizes_ok_one|done|
     apply example_rand_ok|].
  rewrite Hc. cbn [fst snd] in Hwf, Hg, HS.
  apply (ddpg_action_no_noise _ _ ddpg g state Hwf Hg).
  - rewrite HS. simpl. lia.
  - destruct (noise ddpg) as [nz|] eqn:Hnz; [|done].
    destruct (proj1 (ddpg_create_noise _ _ _ _ _ _ _ _ _ _ _ _ _ _ Hc))
      as [? [=]].
    by rewrite Hnz.
Defined.

Section train_frame.
Context {D : Type} `{!Scalar D}.
Implicit Types ddpg : DDPG D.
Implicit Types mlp : MLP D.

Lemma parameters_set_layer mlp i l l' mlp' :
  layer mlp i = Some l → set_layer mlp i l' = Some mlp' →
  weights l' = weights l → biases l' = biases l →
  parameters mlp' = parameters mlp.
Proof.
  unfold layer, set_layer, parameters. intros Hl Hs Hw Hb.
  apply fmap_Some in Hs as (ls & Hs & ->). apply zset_Some in Hs as (Hi & ->).
  cbn [layers set_layers]. rewrite list_fmap_insert, Hw, Hb.
  apply list_insert_id. rewrite list_lookup_fmap.
  unfold zget in Hl. rewrite decide_True in Hl by lia. by rewrite Hl.
Qed.

Lemma mlp_feedforward_parameters mlp (x : Matrix D) out mlp' :
  mlp_feedforward mlp x = Some (out, mlp') → parameters mlp' = parameters mlp.
Proof.
  unfold mlp_feedforward. intros H.
  destruct (matrix_transpose x _) as [m|]; [|done]. cbn [mbind option_bind] in H.
  destruct (for_loop 0 _ _ _) as [[mc inp]|] eqn:Hloop; [|done].
  cbn [mbind option_bind] in H. repeat bind_step H. subst mlp'.
  apply (for_loop_preserves
           (λ s : MLP D * InputPtr, parameters s.1 = parameters mlp))
    in Hloop; [done|done|].
  intros j [s p] [s' p'] _ Hs Hb. cbn [fst] in *.
  destruct (layer s j) as [l|] eqn:Hl; [|done]. cbn [mbind option_bind] in Hb.
  repeat bind_step Hb. subst s'. rewrite <- Hs.
  match goal with
  | E : set_layer _ _ _ = Some _ |- _ =>
      by apply (parameters_set_layer _ _ _ _ _ Hl E)
  end.
Qed.

Lemma ddpg_train_frame ddpg g gamma ddpg' g' :
  0 ≤ ddpg_batchSize ddpg →
  ddpg_train ddpg g gamma = Some (ddpg', g') →
  parameters (actorTarget ddpg') = parameters (actorTarget ddpg) ∧
  parameters (criticTarget ddpg') = parameters (criticTarget ddpg) ∧
  noise ddpg' = noise ddpg ∧ action ddpg' = action ddpg ∧
  (memoryUsed ddpg < ddpg_batchSize ddpg → ddpg' = ddpg ∧ g' = g) ∧
  (ddpg_batchSize ddpg ≤ memoryUsed ddpg →
     rand_pos g' = (rand_pos g + Z.to_nat (ddpg_batchSize ddpg))%nat ∧
     ∀ i, 0 ≤ i < ddpg_batchSize ddpg →
       zget (batchIndices ddpg') i =
         Some (Z.rem (rand_seq g (rand_pos g + Z.to_nat i)) (memoryUsed ddpg))).
Proof.
  intros HB H. unfold ddpg_train in H.
  destruct (decide (memoryUsed ddpg < ddpg_batchSize ddpg)) as [Hlt|Hge].
  { injection H as <- <-. split_and!; try done. intros; lia. }
  cbv zeta in H.
  destruct (for_loop 0 _ _ _) as [[bi g1]|] eqn:Hbi; [|done].
  cbn [mbind option_bind] in H.
  repeat bind_step H. subst ddpg' g'. simpl.
  split.
  { match goal with
    | E : mlp_feedforward (actorTarget ddpg) _ = Some _ |- _ =>
        exact (mlp_feedforward_parameters _ _ _ _ E)
    end. }
  split.
  { match goal with
    | E : mlp_feedforward (criticTarget ddpg) _ = Some _ |- _ =>
        exact (mlp_feedforward_parameters _ _ _ _ E)
    end. }
  do 2 (split; [done|]). split; [intros; lia|]. intros _.
  apply (for_loop_inv_Some
           (λ i '((bi, gi) : list Z * Rand),
              rand_seq gi = rand_seq g ∧
              rand_pos gi = (rand_pos g + Z.to_nat i)%nat ∧
              ∀ k, 0 ≤ k < i →
                zget bi k =
                  Some (Z.rem (rand_seq g (rand_pos g + Z.to_nat k))
                          (memoryUsed ddpg))))
    in Hbi; [by destruct Hbi as (_ & ? & ?) | done
            | split_and!; [done|simpl; lia|intros; lia] |].
  intros j [b0 gj] [b' gj'] Hj (Hseq & Hpos & Hk) Hb.
  unfold deepc_random_int, rand in Hb.
  destruct (decide _) as [|_] in Hb; [done|]. cbn [mbind option_bind] in Hb.
  destruct (zset b0 j _) as [b1|] eqn:Hset; [|done].
  cbn [mbind option_bind] in Hb. injection Hb as <- <-. split_and!.
  - done.
  - simpl. lia.
  - intros k Hk'. rewrite (zget_zset _ _ _ _ _ Hset). case_decide.
    + subst k. rewrite Hpos, Hseq. f_equal.
      replace (memoryUsed ddpg - 1 - 0 + 1) with (memoryUsed ddpg) by lia. lia.
    + apply Hk. lia.
Qed.

(** X25 ([ddpg_train]): a training call on a well-formed agent stays inside
    every block.  It never changes the replay memory, the noise, the stored
    action or a weight or bias of the two target networks.  With fewer
    stored transitions than a batch it changes nothing at all and draws no
    random number; otherwise it draws one random number per batch row, and
    row [i] of the batch is the transition at the remainder of the [i]-th
    drawn number by the number of stored transitions. *)
Theorem ddpg_train_batch_and_frame sa sc ddpg g (gamma : D) :
  ddpg_wf sa sc ddpg → rand_ok g →
  ∃ ddpg' g',
    ddpg_train ddpg g gamma = Some (ddpg', g') ∧
    ddpg_wf sa sc ddpg' ∧ rand_ok g' ∧
    replay_part ddpg' = replay_part ddpg ∧
    parameters (actorTarget ddpg') = parameters (actorTarget ddpg) ∧
    parameters (criticTarget ddpg') = parameters (criticTarget ddpg) ∧
    noise ddpg' = noise ddpg ∧ action ddpg' = action ddpg ∧
    (memoryUsed ddpg < ddpg_batchSize ddpg → ddpg' = ddpg ∧ g' = g) ∧
    (ddpg_batchSize ddpg ≤ memoryUsed ddpg →
       rand_pos g' = (rand_pos g + Z.to_nat (ddpg_batchSize ddpg))%nat ∧
       ∀ i, 0 ≤ i < ddpg_batchSize ddpg →
         zget (batchIndices ddpg') i =
           Some (Z.rem (rand_seq g (rand_pos g + Z.to_nat i))
                   (memoryUsed ddpg))).
Proof.
  intros Hwf Hg.
  destruct (ddpg_train_total sa sc ddpg g gamma Hwf Hg)
    as ([ddpg' g'] & Heq & Hwf' & Hg').
  exists ddpg', g'. split; [done|]. split; [done|]. split; [done|].
  split; [by apply (ddpg_train_replay _ _ _ _ _ Heq)|].
  apply (ddpg_train_frame _ _ _ _ _) in Heq; [done|].
  pose proof (wf_actor _ _ _ Hwf) as (_ & HB & _).
  rewrite (wf_actor_batch _ _ _ Hwf) in HB. lia.
Qed.

End train_frame.

Lemma ddpg_train_batch_and_frame_witness :
  match example_replay with
  | Some (ddpg, _) =>
      ∃ ddpg' g',
        ddpg_train ddpg example_draws 0.5%float = Some (ddpg', g') ∧
        ddpg_wf (layer_sizes 2 [2] 1 1) (layer_sizes (1 + 2) [2] 1 1) ddpg' ∧
        rand_ok g' ∧
        replay_part ddpg' = replay_part ddpg ∧
        parameters (actorTarget ddpg') = parameters (actorTarget ddpg) ∧
        parameters (criticTarget ddpg') = parameters (criticTarget ddpg) ∧
        noise ddpg' = noise ddpg ∧ action ddpg' = action ddpg ∧
        (memoryUsed ddpg < ddpg_batchSize ddpg →
           ddpg' = ddpg ∧ g' = example_draws) ∧
        (ddpg_batchSize ddpg ≤ memoryUsed ddpg →
           rand_pos g'
             = (rand_pos example_draws + Z.to_nat (ddpg_batchSize ddpg))%nat ∧
           ∀ i, 0 ≤ i < ddpg_batchSize ddpg →
             zget (batchIndices ddpg') i =
               Some (Z.rem (rand_seq example_draws
                              (rand_pos example_draws + Z.to_nat i))
                       (memoryUsed ddpg)))
  | None => False
  end.
Proof.
  destruct example_replay_wf as (ddpg & g & -> & Hwf & _).
  exact (ddpg_train_batch_and_frame _ _ ddpg example_draws 0.5%float Hwf
           example_draws_ok).
Defined.

Section adam_fresh.
Context {D : Type} `{!Scalar D}.
Implicit Types adam : Adam D.
Implicit Types mlp : MLP D.

Lemma matrix_clear_zero (m c : Matrix D) r cc :
  matrix_clear m = Some c → has_shape c r cc → zero_matrix c.
Proof.
  intros Hc Hs. pose proof Hc as Hc'. unfold matrix_clear in Hc'.
  apply fmap_Some in Hc' as (d & Hd & ->).
  apply (for_loop_preserves (λ d, length d = length (data m))) in Hd;
    [|done|by intros j s s' _ <-; apply zset_length].
  assert (has_shape m r cc) as Hm.
  { destruct Hs as (? & ? & ? & ? & Hl). cbn in *. split_and!; try done.
    by rewrite <- Hd. }
  rewrite (matrix_clear_data _ _ _ Hm) in Hc. injection Hc as Hc.
  unfold zero_matrix. rewrite <- Hc. cbn [data with_data].
  apply Forall_fmap, Forall_true. done.
Qed.

Lemma cleared_slot (ms ms' : list (Matrix D)) j m c :
  (∀ k x, 0 ≤ k < j → zget ms k = Some x → ∃ x0, matrix_clear x0 = Some x) →
  matrix_clear m = Some c → zset ms j c = Some ms' →
  ∀ k x, 0 ≤ k < j + 1 → zget ms' k = Some x → ∃ x0, matrix_clear x0 = Some x.
Proof.
  intros Hms Hc Hset k x Hk. rewrite (zget_zset _ _ _ _ _ Hset).
  case_decide; [|apply Hms; lia]. intros [= <-]. by exists m.
Qed.

Lemma adam_reset_spec sz B dp adam adam' :
  adam_reset adam = Some adam' → adam_wf sz B dp adam' →
  t adam' = d_of_int 0 ∧
  alpha adam' = alpha adam ∧ beta1 adam' = beta1 adam ∧
  beta2 adam' = beta2 adam ∧ epsilon adam' = epsilon adam ∧
  beta1t adam' = beta1 adam ∧ beta2t adam' = beta2 adam ∧
  ∀ i m, zget (mw adam') i = Some m ∨ zget (mb adam') i = Some m ∨
         zget (vw adam') i = Some m ∨ zget (vb adam') i = Some m →
         zero_matrix m.
Proof.
  unfold adam_reset. intros H Hwf.
  destruct (for_loop 0 _ _ _) as [[[[mws mbs] vws] vbs]|] eqn:Hloop; [|done].
  cbn [mbind option_bind] in H. injection H as <-.
  destruct Hwf as (Hdp & Hl1 & Hl2 & Hl3 & Hl4 & Hs1 & Hs2 & Hs3 & Hs4).
  cbn in Hdp, Hl1, Hl2, Hl3, Hl4, Hs1, Hs2, Hs3, Hs4 |- *.
  do 7 (split; [done|]).
  destruct (decide (0 ≤ adam_depth adam)) as [Hd|Hd].
  2: { intros i m Hi. assert (0 ≤ i < dp + 1); [|lia].
       destruct Hi as [Hi|[Hi|[Hi|Hi]]]; apply zget_Some in Hi; lia. }
  apply (for_loop_inv_Some
           (λ j '((mws, mbs, vws, vbs) :
                    list (Matrix D) * list (Matrix D) *
                    list (Matrix D) * list (Matrix D)),
              (∀ k x, 0 ≤ k < j → zget mws k = Some x →
                      ∃ x0, matrix_clear x0 = Some x) ∧
              (∀ k x, 0 ≤ k < j → zget mbs k = Some x →
                      ∃ x0, matrix_clear x0 = Some x) ∧
              (∀ k x, 0 ≤ k < j → zget vws k = Some x →
                      ∃ x0, matrix_clear x0 = Some x) ∧
              (∀ k x, 0 ≤ k < j → zget vbs k = Some x →
                      ∃ x0, matrix_clear x0 = Some x)))
    in Hloop; [| done | split_and!; intros; lia |].
  - destruct Hloop as (H1 & H2 & H3 & H4). intros i m Hi.
    destruct Hi as [Hi|[Hi|[Hi|Hi]]]; pose proof (zget_Some _ _ _ Hi).
    + destruct (H1 i m) as [x0 Hx0]; [lia|done|].
      by apply (matrix_clear_zero _ _ _ _ Hx0 (Hs1 _ _ Hi)).
    + destruct (H2 i m) as [x0 Hx0]; [lia|done|].
      by apply (matrix_clear_zero _ _ _ _ Hx0 (Hs3 _ _ Hi)).
    + destruct (H3 i m) as [x0 Hx0]; [lia|done|].
      by apply (matrix_clear_zero _ _ _ _ Hx0 (Hs2 _ _ Hi)).
    + destruct (H4 i m) as [x0 Hx0]; [lia|done|].
      by apply (matrix_clear_zero _ _ _ _ Hx0 (Hs4 _ _ Hi)).
  - intros j [[[m1 m2] m3] m4] [[[m1' m2'] m3'] m4'] Hj (H1 & H2 & H3 & H4) Hb.
    repeat bind_step Hb. destruct_and?. simplify_eq.
    split_and!;
      match goal with
      | Hc : matrix_clear ?m = Some ?c, Hs : zset ?ms j ?c = Some ?ms' |- _ =>
          apply (cleared_slot ms ms' j m c); [assumption|exact Hc|exact Hs]
      end.
Qed.

(** X26 ([adam_reset]): a reset of a well-shaped optimizer sets the step
    counter to zero and the running powers to [beta1] and [beta2], keeps the
    four hyper-parameters, and leaves every cell of every moment matrix at
    zero. *)
Theorem adam_reset_zeroes sz B dp adam :
  0 ≤ dp → adam_wf sz B dp adam →
  ∃ adam', adam_reset adam = Some adam' ∧ adam_wf sz B dp adam' ∧
    t adam' = d_of_int 0 ∧
    alpha adam' = alpha adam ∧ beta1 adam' = beta1 adam ∧
    beta2 adam' = beta2 adam ∧ epsilon adam' = epsilon adam ∧
    beta1t adam' = beta1 adam ∧ beta2t adam' = beta2 adam ∧
    ∀ i m, zget (mw adam') i = Some m ∨ zget (mb adam') i = Some m ∨
           zget (vw adam') i = Some m ∨ zget (vb adam') i = Some m →
           zero_matrix m.
Proof.
  intros Hdp Hwf.
  destruct (adam_reset_total sz B dp adam Hdp Hwf) as (adam' & Heq & Hwf').
  exists adam'. split; [done|]. split; [done|].
  by apply (adam_reset_spec sz B dp).
Qed.

(** X27 ([adam_create]): the optimizer created for a network has one moment
    matrix of the shape of each weight and bias matrix, all of them zero
    whatever the fresh memory held, step counter zero, and the defaults
    [alpha = 0.001], [beta1 = 0.9], [beta2 = 0.999], [epsilon = 1e-7], with
    the running powers equal to [beta1] and [beta2]. *)
Theorem adam_create_defaults sz (heap : Z → D) mlp :
  mlp_wf sz mlp →
  ∃ adam, adam_create heap mlp = Some adam ∧
    adam_wf sz (batchSize mlp) (depth mlp) adam ∧
    t adam = d_of_int 0 ∧
    alpha adam = ddec 1 3 ∧ beta1 adam = ddec 9 1 ∧
    beta2 adam = ddec 999 3 ∧ epsilon adam = ddec 1 7 ∧
    beta1t adam = ddec 9 1 ∧ beta2t adam = ddec 999 3 ∧
    ∀ i m, zget (mw adam) i = Some m ∨ zget (mb adam) i = Some m ∨
           zget (vw adam) i = Some m ∨ zget (vb adam) i = Some m →
           zero_matrix m.
Proof.
  intros Hwf.
  destruct (adam_create_total sz heap mlp Hwf) as (adam & Heq & Hwf').
  exists adam. split; [done|]. split; [done|].
  unfold adam_create in Heq. cbv zeta in Heq.
  destruct (for_loop 0 _ _ _) as [[[[mws mbs] vws] vbs]|]; [|done].
  cbn [mbind option_bind] in Heq.
  by apply (adam_reset_spec _ _ _ _ _ Heq) in Hwf'.
Qed.

End adam_fresh.

Lemma adam_create_defaults_witness :
  match example_mlp1 with
  | Some mlp =>
      ∃ adam, adam_create (λ _, 7%float) mlp = Some adam ∧
        adam_wf (layer_sizes 2 [2] 1 1) (batchSize mlp) (depth mlp) adam ∧
        t adam = d_of_int 0 ∧
        alpha adam = ddec 1 3 ∧ beta1 adam = ddec 9 1 ∧
        beta2 adam = ddec 999 3 ∧ epsilon adam = ddec 1 7 ∧
        beta1t adam = ddec 9 1 ∧ beta2t adam = ddec 999 3 ∧
        ∀ i m, zget (mw adam) i = Some m ∨ zget (mb adam) i = Some m ∨
               zget (vw adam) i = Some m ∨ zget (vb adam) i = Some m →
               zero_matrix m
  | None => False
  end.
Proof.
  destruct example_mlp1_wf as (mlp & -> & Hwf & _).
  exact (adam_create_defaults _ (λ _, 7%float) mlp Hwf).
Defined.

Lemma adam_reset_zeroes_witness :
  match example_optimizer with
  | Some (_, adam) =>
      ∃ adam', adam_reset adam = Some adam' ∧
        adam_wf (layer_sizes 2 [2] 1 1) 2 1 adam' ∧
        t adam' = d_of_int 0 ∧
        alpha adam' = alpha adam ∧ beta1 adam' = beta1 adam ∧
        beta2 adam' = beta2 adam ∧ epsilon adam' = epsilon adam ∧
        beta1t adam' = beta1 adam ∧ beta2t adam' = beta2 adam ∧
        ∀ i m, zget (mw adam') i = Some m ∨ zget (mb adam') i = Some m ∨
               zget (vw adam') i = Some m ∨ zget (vb adam') i = Some m →
               zero_matrix m
  | None => False
  end.
Proof.
  destruct example_optimizer_wf as (mlp & adam & -> & _ & _ & _ & Ha).
  apply (adam_reset_zeroes (layer_sizes 2 [2] 1 1) 2 1 adam); [lia|done].
Defined.

(** X28 ([deepc_random_int]): for [min <= max] within the range of [int],
    fewer than [INT_MAX] apart so that [max - min + 1] does not overflow, and
    a value of [rand()] that is not negative, the result is [min] plus the
    remainder of that value by the number of integers in [[min, max]]; it
    lies in [[min, max]], and exactly one random number is drawn. *)
Theorem deepc_random_int_range (g : Rand) (min max : Z) :
  0 ≤ rand_seq g (rand_pos g) ≤ INT_MAX →
  INT_MIN ≤ min → min ≤ max → max ≤ INT_MAX → max - min < INT_MAX →
  ∃ r g', deepc_random_int g min max = Some (r, g') ∧
    r = min + rand_seq g (rand_pos g) `mod` (max - min + 1) ∧
    min ≤ r ≤ max ∧
    rand_pos g' = S (rand_pos g) ∧ rand_seq g' = rand_seq g ∧
    RAND_MAX g' = RAND_MAX g.
Proof.
  intros [Hr _] _ Hle _ _. unfold deepc_random_int, rand.
  rewrite decide_False by lia. eexists _, _. split; [done|].
  rewrite Z.rem_mod_nonneg by lia.
  pose proof (Z.mod_pos_bound (rand_seq g (rand_pos g)) (max - min + 1)).
  split_and!; try done; lia.
Qed.

Lemma deepc_random_int_range_witness :
  ∃ r g', deepc_random_int example_draws 0 3 = Some (r, g') ∧
    r = 0 + rand_seq example_draws (rand_pos example_draws) `mod` (3 - 0 + 1) ∧
    0 ≤ r ≤ 3 ∧
    rand_pos g' = S (rand_pos example_draws) ∧
    rand_seq g' = rand_seq example_draws ∧
    RAND_MAX g' = RAND_MAX example_draws.
Proof.
  apply (deepc_random_int_range example_draws 0 3);
    unfold INT_MAX, INT_MIN; simpl; lia.
Defined.

Section losses.
Context {D : Type} `{!Scalar D}.
Implicit Types yhat y error : Matrix D.

Lemma matrix_difference_data (m1 m2 result : Matrix D) r c :
  has_shape m1 r c → has_shape m2 r c → has_shape result r c →
  matrix_difference m1 m2 result
    = Some (with_data result (zip_with dsub (data m1) (data m2))).
Proof.
  intros (_ & _ & _ & _ & Hl1) (_ & _ & _ & _ & Hl2) (Hr & Hc & ? & ? & Hl).
  unfold matrix_difference.
  rewrite (for_loop_pointwise_data _ _ _ (zip_with dsub (data m1) (data m2)));
    [done|lia|rewrite length_zip_with; lia|].
  intros i d Hi Hd Hj.
  destruct (zget_is_Some (data m1) i) as [x Hx]; [lia|].
  destruct (zget_is_Some (data m2) i) as [x' Hx']; [lia|].
  exists (x - x')%dbl. rewrite zget_zip_with, Hx, Hx'. done.
Qed.

Lemma mse_closed yhat y error r c :
  has_shape yhat r c → has_shape y r c → has_shape error r c →
  let e := zip_with dsub (data yhat) (data y) in
  mse yhat y error
    = Some ((foldl (λ sum x, sum + dpow x (d_of_int 2)) (d_of_int 0) e
             / d_of_int (r * c))%dbl,
            with_data error e).
Proof.
  intros Hyh Hy He e. unfold mse.
  rewrite (matrix_difference_data _ _ _ r c) by done.
  cbn [mbind option_bind rows columns data with_data].
  destruct Hyh as (_ & _ & _ & _ & Hl1). destruct Hy as (_ & _ & _ & _ & Hl2).
  destruct He as (<- & <- & ? & ? & Hl). fold e.
  assert (Z.of_nat (length e) = rows error * columns error) as Hle.
  { unfold e. rewrite length_zip_with. lia. }
  rewrite (for_loop_fold e (λ sum x, sum + dpow x (d_of_int 2))%dbl) by lia.
  cbn [mbind option_bind]. rewrite <- Hle, Nat2Z.id, firstn_all. done.
Qed.

Lemma errorFunction_closed yhat y error r c :
  has_shape y r c → has_shape error r c →
  errorFunction yhat y error
    = Some ((foldl dadd (d_of_int 0) (data y) / d_of_int (r * c))%dbl, y).
Proof.
  intros Hy He. unfold errorFunction.
  rewrite (matrix_copy_ok _ _ r c) by done. cbn [mbind option_bind].
  destruct Hy as (<- & <- & ? & ? & Hl).
  rewrite (for_loop_fold (data y) dadd) by lia.
  cbn [mbind option_bind]. rewrite <- Hl, Nat2Z.id, firstn_all. done.
Qed.

(** X29 ([mse], [errorFunction], [getLossFunction]): on matrices of one
    shape, the loss selected by [LOSS_MSE] stores [yhat - y] as the error and
    returns the sum of [pow(e, 2)] over its cells, accumulated from zero in
    row-major order and divided by the number of cells.  Every other code
    selects the function that ignores [yhat], stores [y] itself as the error
    and returns the mean of the cells of [y]. *)
Theorem getLossFunction_closed_form code yhat y error r c :
  has_shape yhat r c → has_shape y r c → has_shape error r c →
  getLossFunction code yhat y error =
    if decide (code = LOSS_MSE) then
      let e := zip_with dsub (data yhat) (data y) in
      Some ((foldl (λ sum x, sum + dpow x (d_of_int 2)) (d_of_int 0) e
             / d_of_int (r * c))%dbl,
            with_data error e)
    else
      Some ((foldl dadd (d_of_int 0) (data y) / d_of_int (r * c))%dbl, y).
Proof.
  intros Hyh Hy He. unfold getLossFunction. case_decide.
  - by apply mse_closed.
  - by apply errorFunction_closed.
Qed.

End losses.

Lemma getLossFunction_closed_form_witness :
  let yhat := mkMatrix 2 1 [0.5; 0.25]%float in
  let error := mkMatrix 2 1 [0; 0]%float in
  getLossFunction LOSS_MSE yhat example_y1 error =
    if decide (LOSS_MSE = LOSS_MSE) then
      let e := zip_with dsub (data yhat) (data example_y1) in
      Some ((foldl (λ sum x, sum + dpow x (d_of_int 2)) (d_of_int 0) e
             / d_of_int (2 * 1))%dbl,
            with_data error e)
    else
      Some ((foldl dadd (d_of_int 0) (data example_y1) / d_of_int (2 * 1))%dbl,
            example_y1).
Proof.
  intros yhat error.
  apply (getLossFunction_closed_form LOSS_MSE yhat example_y1 error 2 1);
    by vm_compute.
Defined.

Section glorot.
Context {D : Type} `{!Scalar D}.

Lemma randomize_loop (P : D → Prop) n (d0 : list D) g0 d g' (lo hi : D) :
  (∀ gi, rand_seq gi = rand_seq g0 → RAND_MAX gi = RAND_MAX g0 →
         (rand_pos g0 ≤ rand_pos gi)%nat →
         P (deepc_random_double gi lo hi).1) →
  for_loop 0 n
    (λ k '(d, g), let '(x, g') := deepc_random_double g lo hi in
                  d' ← zset d k x; Some (d', g'))
    (d0, g0) = Some (d, g') →
  rand_seq g' = rand_seq g0 ∧ RAND_MAX g' = RAND_MAX g0 ∧
  (rand_pos g0 ≤ rand_pos g')%nat ∧
  ∀ k w, 0 ≤ k < n → zget d k = Some w → P w.
Proof.
  intros HP Hloop. destruct (decide (0 ≤ n)) as [Hn|Hn].
  2: { rewrite for_loop_empty in Hloop by lia. injection Hloop as <- <-.
       split_and!; try done. intros; lia. }
  apply (for_loop_inv_Some
           (λ j '((d, g) : list D * Rand),
              rand_seq g = rand_seq g0 ∧ RAND_MAX g = RAND_MAX g0 ∧
              (rand_pos g0 ≤ rand_pos g)%nat ∧
              ∀ k w, 0 ≤ k < j → zget d k = Some w → P w))
    in Hloop; [done | done | split_and!; try done; intros; lia |].
  intros j [dj gj] [dj' gj'] Hj (Hseq & Hmax & Hpos & Hd) Hb.
  pose proof (HP gj Hseq Hmax Hpos) as Hx.
  unfold deepc_random_double, rand in Hb, Hx. cbn [fst] in Hx.
  destruct (zset dj j _) as [d1|] eqn:Hset; [|done].
  cbn [mbind option_bind] in Hb. injection Hb as <- <-.
  split_and!; try done.
  - simpl. lia.
  - intros k w Hk. rewrite (zget_zset _ _ _ _ _ Hset). case_decide.
    + by intros [= <-].
    + apply Hd. lia.
Qed.

Lemma mlp_initialize_spec sz (mlp : MLP D) g mlp' g' :
  mlp_initialize mlp g = Some (mlp', g') → mlp_wf sz mlp' →
  zero_matrix (input mlp') ∧ zero_matrix (inputErrors mlp') ∧
  zero_matrix (mlp_output mlp') ∧
  ∀ i l, layer mlp' i = Some l →
    (∀ k w, zget (data (weights l)) k = Some w →
            glorot_draw g (sz (i + 1)) (sz i) w) ∧
    zero_matrix (biases l) ∧ zero_matrix (output l) ∧
    zero_matrix (errors l) ∧ zero_matrix (deltas l) ∧
    zero_matrix (gradWeights l) ∧ zero_matrix (gradBiases l).
Proof.
  intros H Hwf. unfold mlp_initialize in H.
  destruct (for_loop 0 _ _ _) as [[mc gc]|] eqn:Hloop; [|done].
  cbn [mbind option_bind] in H.
  destruct (matrix_clear (input mc)) as [m1|] eqn:E1; [|done].
  cbn [mbind option_bind] in H.
  destruct (matrix_clear (inputErrors _)) as [m2|] eqn:E2; [|done].
  cbn [mbind option_bind] in H.
  destruct (matrix_clear (mlp_output _)) as [m3|] eqn:E3; [|done].
  cbn [mbind option_bind] in H. injection H as <- <-.
  pose proof Hwf as (Hd & HB & Hlen & Hls & Hin & Hie & Hout).
  cbn in Hd, HB, Hlen, Hls, Hin, Hie, Hout |- *.
  split; [by apply (matrix_clear_zero _ _ _ _ E1 Hin)|].
  split; [by apply (matrix_clear_zero _ _ _ _ E2 Hie)|].
  split; [by apply (matrix_clear_zero _ _ _ _ E3 Hout)|].
  change (∀ i l, layer mc i = Some l →
    (∀ k w, zget (data (weights l)) k = Some w →
            glorot_draw g (sz (i + 1)) (sz i) w) ∧
    zero_matrix (biases l) ∧ zero_matrix (output l) ∧
    zero_matrix (errors l) ∧ zero_matrix (deltas l) ∧
    zero_matrix (gradWeights l) ∧ zero_matrix (gradBiases l)).
  change (∀ i l, layer mc i = Some l →
            layer_wf (batchSize mc) (sz i) (sz (i + 1)) l) in Hls.
  change (Z.of_nat (length (layers mc)) = depth mc + 1) in Hlen.
  pose (cleared := λ m : Matrix D, ∃ m0, matrix_clear m0 = Some m).
  pose (fresh := λ l : Layer D,
    (∀ k w, 0 ≤ k < rows (weights l) * columns (weights l) →
            zget (data (weights l)) k = Some w →
            glorot_draw g (rows (weights l)) (columns (weights l)) w) ∧
    cleared (biases l) ∧ cleared (output l) ∧ cleared (errors l) ∧
    cleared (deltas l) ∧ cleared (gradWeights l) ∧ cleared (gradBiases l)).
  assert (depth mc = depth mlp ∧
          ∀ i l, 0 ≤ i < depth mlp + 1 → layer mc i = Some l → fresh l)
    as [Hdp Hfresh].
  { destruct (decide (0 ≤ depth mlp + 1)) as [Hn|Hn].
    2: { rewrite for_loop_empty in Hloop by lia. injection Hloop as <- <-.
         split; [done|]. intros; lia. }
    apply (for_loop_inv_Some
             (λ j '((mc, gc) : MLP D * Rand),
                rand_seq gc = rand_seq g ∧ RAND_MAX gc = RAND_MAX g ∧
                (rand_pos g ≤ rand_pos gc)%nat ∧
                depth mc = depth mlp ∧
                ∀ i l, 0 ≤ i < j → layer mc i = Some l → fresh l))
      in Hloop; [by destruct Hloop as (_ & _ & _ & ? & ?) | done
                | split_and!; try done; intros; lia |].
    clear dependent mc. clear dependent m1. clear m2 m3 gc.
    intros j [mc gj] [mc' gj'] Hj (Hseq & Hmax & Hpos & Hdp & Hfr) Hb.
    destruct (layer mc j) as [l|] eqn:Hl; [|done].
    cbn [mbind option_bind] in Hb.
    destruct (for_loop 0 _ _ _) as [[d g1]|] eqn:Hw; [|done].
    cbn [mbind option_bind] in Hb.
    apply (randomize_loop
             (glorot_draw g (rows (weights l)) (columns (weights l))))
      in Hw as (Hseq1 & Hmax1 & Hpos1 & Hd).
    2: { intros gi Hsi Hmi Hpi. exists (rand_pos gi). split; [lia|].
         rewrite <- Hmax, <- Hmi, <- Hseq, <- Hsi. by destruct gi. }
    repeat bind_step Hb.
    match goal with
    | E : set_layer _ _ _ = Some _ |- _ =>
        apply set_layer_Some in E as (Hdp' & _ & _ & _ & _ & _ & Hset)
    end.
    subst mc' gj'. split_and!; try congruence; [lia|].
    intros i l' Hi. rewrite Hset. case_decide; [|apply Hfr; lia].
    intros [= <-]. unfold fresh, cleared. cbn.
    split_and!; try (by eexists). done. }
  intros i l Hl. pose proof (zget_Some _ _ _ Hl) as Hi.
  destruct (Hfresh i l) as (Hw & Hc1 & Hc2 & Hc3 & Hc4 & Hc5 & Hc6);
    [lia|done|].
  pose proof (Hls _ _ Hl) as (Sw & Sb & So & Se & Sd & Sgw & Sgb).
  split.
  { intros k w Hk. pose proof Sw as (Hr & Hc & _ & _ & Hlw).
    rewrite <- Hr, <- Hc. apply (Hw k w); [|done].
    apply zget_Some in Hk. lia. }
  split_and!.
  - destruct Hc1 as [m0 Hm0]. by apply (matrix_clear_zero _ _ _ _ Hm0 Sb).
  - destruct Hc2 as [m0 Hm0]. by apply (matrix_clear_zero _ _ _ _ Hm0 So).
  - destruct Hc3 as [m0 Hm0]. by apply (matrix_clear_zero _ _ _ _ Hm0 Se).
  - destruct Hc4 as [m0 Hm0]. by apply (matrix_clear_zero _ _ _ _ Hm0 Sd).
  - destruct Hc5 as [m0 Hm0]. by apply (matrix_clear_zero _ _ _ _ Hm0 Sgw).
  - destruct Hc6 as [m0 Hm0]. by apply (matrix_clear_zero _ _ _ _ Hm0 Sgb).
Qed.

(** X30 ([mlp_initialize]): in any arithmetic, initialisation of a
    well-formed network returns, and leaves every weight of layer [i] equal
    to the result of [deepc_random_double] between [- limit] and [limit] at
    some position of the generator not before the current one, where
    [limit] is the computed [sqrt (6.0 / (rows + columns))] of the layer's
    weight matrix; every other matrix of the network (biases, outputs,
    errors, deltas, gradients, input, input errors, output) is left at
    zero. *)
Theorem mlp_initialize_glorot sz (mlp : MLP D) g :
  mlp_wf sz mlp → rand_ok g →
  ∃ mlp' g', mlp_initialize mlp g = Some (mlp', g') ∧ mlp_wf sz mlp' ∧
    zero_matrix (input mlp') ∧ zero_matrix (inputErrors mlp') ∧
    zero_matrix (mlp_output mlp') ∧
    ∀ i l, layer mlp' i = Some l →
      (∀ k w, zget (data (weights l)) k = Some w →
         let limit := dsqrt (d_of_int 6 / d_of_int (sz (i + 1) + sz i)%Z)%dbl in
         ∃ n, (rand_pos g ≤ n)%nat ∧
           w = (deepc_random_double (mkRand (RAND_MAX g) (rand_seq g) n)
                  (- limit)%dbl limit).1) ∧
      zero_matrix (biases l) ∧ zero_matrix (output l) ∧
      zero_matrix (errors l) ∧ zero_matrix (deltas l) ∧
      zero_matrix (gradWeights l) ∧ zero_matrix (gradBiases l).
Proof.
  intros Hwf Hg.
  destruct (mlp_initialize_total sz mlp g Hwf Hg)
    as (mlp' & g' & Heq & Hwf' & _).
  exists mlp', g'. split; [done|]. split; [done|].
  by apply (mlp_initialize_spec sz mlp g mlp' g').
Qed.

End glorot.

Lemma mlp_initialize_glorot_witness :
  let m := mkMatrix 1 1 [5%float] in
  let mlp := mkMLP 0 1
               [mkLayer m m m m m m m activation_linear activation_linearDeriv]
               m m m in
  let g := mkRand 10 (λ _, 5) 0 in
  let sz := λ _ : Z, 1 in
  ∃ mlp' g', mlp_initialize (Scalar0 := run64) mlp g = Some (mlp', g') ∧
    mlp_wf sz mlp' ∧
    zero_matrix (input mlp') ∧ zero_matrix (inputErrors mlp') ∧
    zero_matrix (mlp_output mlp') ∧
    ∀ i l, layer mlp' i = Some l →
      (∀ k w, zget (data (weights l)) k = Some w →
         let limit := dsqrt (d_of_int 6 / d_of_int (sz (i + 1) + sz i)%Z)%dbl in
         ∃ n, (rand_pos g ≤ n)%nat ∧
           w = (deepc_random_double (Scalar0 := run64)
                  (mkRand (RAND_MAX g) (rand_seq g) n)
                  (- limit)%dbl limit).1) ∧
      zero_matrix (biases l) ∧ zero_matrix (output l) ∧
      zero_matrix (errors l) ∧ zero_matrix (deltas l) ∧
      zero_matrix (gradWeights l) ∧ zero_matrix (gradBiases l).
Proof.
  intros m mlp g sz.
  apply (mlp_initialize_glorot (Scalar0 := run64) sz mlp g).
  - unfold mlp_wf, has_shape, sz. simpl. split_and!; try lia.
    intros i l. unfold layer, zget. simpl. case_decide; [|done].
    destruct (Z.to_nat i) as [|n]; [|by destruct n].
    intros [= <-]. unfold layer_wf, has_shape. simpl. lia.
  - intros n. simpl. lia.
Defined.
